(* ===== verification/_CoqProject ===== *)
-Q . S2P
Prelude.v
GoStd.v
Encoding.v
Json.v
Types.v
Apimachinery.v
Util.v
Dedupe.v
Registry.v
Indexer.v
Hubble.v
FlowBuilder.v
Channel.v
Correlator.v
Remediation.v
EventBuilder.v
Dispatcher.v
Requirements.v
Report.v
WorkloadAnnotator.v
AnnotatorPool.v
McpHandlers.v
Api.v
Admission.v
ServiceMap.v
Certificates.v
Servers.v
NativeAdapters.v
GenericAdapter.v
Discovery.v
PolicyAdapters.v
CiliumAdapter.v
AdapterContract.v
ReportApi.v
CliCommands.v
CliOutput.v
Pipeline.v
Controller.v
Runs.v
ApiObjects.v
DeepCopy.v
