(* ===== verification/Prelude.v ===== *)
(** * Nightjar: a verification development

    Nightjar is a Kubernetes controller (Go) that discovers the policies of a
    cluster, keeps them as constraints in an index, and tells developers which
    constraint affects which workload: as Kubernetes Events, as one
    ConstraintReport per namespace and through query interfaces.  This library
    models its core and proves what makes each part correct.

    ** The program

    - The discovery engine (internal/discovery) classifies API resources, runs
      an informer per constraint-like one, and hands each object to an adapter
      of the registry (internal/adapters), or to the generic adapter.  Profiles
      (internal/controller) add, configure and suppress resources.
    - An adapter turns an object into constraints (internal/types); the engine
      upserts them into the index (internal/indexer), which sends change events.
    - The correlator (internal/correlator) pairs Warning events of the cluster
      and dropped flows of Hubble (internal/hubble) with constraints of the
      namespace and sends notifications on bounded channels.
    - The dispatcher (internal/notifier) rate-limits and deduplicates these and
      creates Events, built by the event and remediation builders with privacy
      scoping.
    - The report reconciler (internal/notifier) rebuilds the report of a
      namespace when the index changes, with the missing companion resources
      that the requirements evaluator (internal/requirements) finds; the
      workload annotator (internal/notifier) patches a summary onto workloads.
    - The MCP server (internal/mcp) and the HTTP API (internal/api) answer
      queries on the index; the admission webhook (cmd/webhook) asks the API and
      answers reviews with warnings, over certificates that internal/webhook
      creates and rotates.  internal/servicemap maps addresses to services.
    - The command line client (cmd/nightjarctl, and its copy nightjar-sentinel)
      reads the reports from the API server and prints lists, explanations,
      checks, remediations and totals.
    - cmd/controller/main.go wires the controller's parts and runs each in a
      goroutine of the manager.

    ** The files

    - [Prelude]: notation, tactics, the hint database [nightjar]; map iteration
      and unstable sorting in an arbitrary order ([Shuffle]); shared lemmas.
    - [GoStd]: what the source uses of Go's standard library: strings (bytes,
      ASCII case mapping), formatting, 64-bit integers and durations with their
      wrap-around and saturation, IEEE binary64.
    - [Encoding]: UTF-8 as Go decodes it, encoding/json on flat objects of
      strings, RFC 3339 times, query strings of net/url; with what reads them
      back.
    - [Json]: indented JSON documents as an encoder writes them, and a reader.
    - [Types]: internal/types, with unstructured objects as trees [GoVal].
    - [Apimachinery]: k8s.io/apimachinery as a class of operations with laws,
      and a reference instance that satisfies them.
    - [Util]: internal/util.
    - [Dedupe]: the time-windowed duplicate suppression that correlator and
      dispatcher share: interface, history specification, refinement theorem.
    - [Registry], [Indexer]: the two stores.  [Indexer] is the instance of the
      interface [ConstraintQuery] its readers are proved against.
    - [Hubble], [Channel], [Correlator]: flows, bounded channels, ticker loops
      and rate limiters, correlation.  [FlowBuilder] (module [Builder]): the flow
      drop builder on a heap, with the references it shares.
    - [Remediation], [EventBuilder], [Dispatcher]: the notification path.
    - [Requirements], [Report]: the report path.  [WorkloadAnnotator]: the
      annotator with its queue, its cache and the rounds of a worker;
      [AnnotatorPool]: its workers side by side.
    - [McpHandlers] (module [Mcp]): tools, resources and the event stream.
    - [Api] (module [Api]), [Admission] (module [Admission]): the API's handlers,
      and the webhook that calls them through its client.
    - [ServiceMap] (module [Smap]); [Certificates] (module [Certs]): the manager
      on symbolic keys and certificates, and the choice of TLS configuration.
    - [Servers] (module [Http]): the routes of the MCP server and the webhook, how
      they end, and the start of the webhook's process.
    - [NativeAdapters] (modules [NetworkPolicy], [LimitRange], [WebhookConfig],
      [ResourceQuota]), [GenericAdapter] (module [Generic]), [PolicyAdapters]
      (modules [Kyverno], [Gatekeeper]) and [CiliumAdapter] (module [Cilium]).
    - [Discovery]: engine and profile controller.
    - [AdapterContract]: what the engine may rely on of an adapter, as the class
      [AdapterLaws] with an instance per adapter, and the typed index it gives.
    - [ReportApi]: the report as the API server keeps it: the object that the
      JSON tags of api/v1alpha1 give, the enumerations of the CRD schema, and the
      server as the class [ReportServer] with laws and a reference instance.
    - [CliCommands] (module [Cli]): the commands, from the client's answers to
      their results.  [CliOutput] (module [Printer]): JSON, tables, exit codes
      (module [Sentinel]: the released copy).
    - [Pipeline]: the registry and the engine of cmd/controller/main.go and the
      path of an object from an informer to the readers of the index.
    - [Controller]: the process: what [main] builds, the moves of its goroutines,
      and the invariant that ties the reports to the index.  [Runs]: theorems
      about its interleavings.
    - [ApiObjects] (module [V1]): the structs of api/v1alpha1 with their
      references.  [DeepCopy] (module [Copy]): the generated copies on a heap.

    Each definition carries the name of the Go function it models; record
    fields carry a prefix where Go's struct scopes a name.

    ** Conventions

    - A mutex-guarded operation is one step on an explicit state; goroutines
      that interleave are arbitrary sequences of steps ([engine_run],
      [index_run], [registry_run], [dedupe_run], [eval_run], [annot_run],
      [pool_run], [sm_run]) or a step relation ([stream_step], [loop_step],
      [later]).  A worker of the annotator takes three steps for a workload, and
      broadcasts of the event stream, which hold their lock as readers, visit
      their clients one by one.  The whole controller is [Controller.run], where the callback of a change, the
      read of the index and the write of the report are moves of their own, while
      the handling of one event or one flow is one move.
      [Discovery.scan] holds the lock several times; it is modelled as one step,
      and its parts are moves of the controller.
    - Instants read from the clock, the answers of the API server, the relay and
      the discovery client, the choice of [select] and the iteration order of
      maps are arguments; what is written to the API server, the events sent
      and the waits are results.
    - An error is a value ([option error] or a sum).  A panic is a value too:
      closing a channel twice ([None] in [Discovery]), sending on a closed
      channel ([SendResult] in [Channel]).
    - Recursion is structural on the data that the loop ranges over, so only
      the readers of JSON take fuel, for which the length of the text is enough
      ([json_parse_Encode], [json_objects_roundtrip]); an endless loop is run
      against the list of what its environment does ([connectionLoop], [streamFlows], [ticker_loop]), and the
      annotator's worker for as many rounds as [worker_drains] shows enough.
    - Third-party code is a class with documented laws: apimachinery, the API
      server on reports, the token bucket of golang.org/x/time/rate,
      resource.Quantity, Cilium's protobuf, metav1's metadata; or
      an argument: YAML and review decoding, labels.SelectorFromSet, the HTTP
      transport.  Each has a concrete instance, used by the witnesses.
    - crypto/x509 is symbolic: a certificate is its fields and the key that
      signed it, and nothing is said about bytes.

    ** What is shown

    - The controller: for every interleaving of its goroutines, every Event is
      due to an event and a constraint of the cluster, and nothing panics before
      the shutdown.  As long as the scopes of stored constraints do not change
      and no cluster-scoped constraint lists namespaces, stored reports are what
      the index holds once nothing is under way, one tick brings a triggered
      report there, and the MCP server and the client then agree.
    - The engine: no interleaving panics; classification, scanning and profile
      removal do what they promise; an object added and deleted leaves no trace.
    - The stores: the index's events replay to its contents, its queries are
      exact; the registry's group fallback covers every mapped GVR.
    - Notifications: suppression refines a history of admissions; correlation
      is sound always and complete while there is room; events and report
      entries of another namespace's constraint do not depend on its identity.
    - Reports: complete, sorted, counted; ticks debounce; missing resources are
      reported only after a full window of absence.
    - Hubble: backoff bounds, order and bound of the flow channel, when [Close]
      returns.
    - Adapters: which constraints each kind of object gives, distinct UIDs; every
      constraint in the index has a declared type and severity and its object.
    - Annotations: within the debounce duration of a patch of a workload there
      are fewer further ones than workers, queues drain, and what is written is
      read back.
    - Queries: the MCP tools and the API answer with exactly the constraints that
      match; the event stream survives every interleaving and gives each client
      each change at most once; the webhook never rejects and warns exactly for
      what applies, end to end.
    - The client: what it prints of a reconciled report is exactly what the index
      holds for the namespace, from the index to the parsed JSON of a script; it
      explains as the MCP tool does; its JSON determines the result, as far as
      that is valid UTF-8.  Every report that is written keeps to the CRD schema.
    - Certificates: one replica that reaches the webhook configuration presents,
      after every tick, a trusted certificate that outlives the last successful
      check by thirty days, whatever else fails.  Service map: its indexes are
      those of the services.
    - API objects: a deep copy has the value of its original and shares no cell
      with it, for each type of the package.
    - Where the code does otherwise than it means to, a theorem shows it on
      every input of a kind or on a concrete run; it is named after the effect
      ([networking_object_misread], [second_replica_untrusted],
      [annotator_shutdown_panic], ...).

    ** What is not modelled

    The parsing of flags, sockets, leader election and health probes of
    controller-runtime, logging, metrics and test helpers.  Of
    NotificationPolicy, which no code reads, only the type and its copies.  Of
    metav1's metadata, what the code does not read: its copies are the class
    [MetaOps] with laws.  Of the clients, the alignment of tables, the YAML library and the
    loading of the kubeconfig; of Hubble's client, the dial options. *)

From stdpp Require Export base gmap strings list sorting pretty.
From Stdlib Require Export ZArith.

(** ** Notation and automation *)

Declare Scope go_scope.
Delimit Scope go_scope with go.
Open Scope go_scope.

(** Go's [==] and [!=] on comparable values. *)
Notation "x == y" := (bool_decide (x = y)) (at level 70, no associativity) : go_scope.
Notation "x != y" := (negb (bool_decide (x = y))) (at level 70, no associativity) : go_scope.

(** The lemmas that close the routine goals of the components. *)
Create HintDb nightjar.

(** Case analysis on every boolean test and [match] left in the goal. *)
Ltac go_cases :=
  repeat (case_bool_decide || case_decide || case_match); simplify_eq/=.

(** Boolean hypotheses as propositions. *)
Ltac go_bool :=
  repeat match goal with
  | H : (_ && _)%bool = true |- _ => apply andb_true_iff in H as [? ?]
  | H : (_ || _)%bool = false |- _ => apply orb_false_iff in H as [? ?]
  | H : negb _ = true |- _ => apply negb_true_iff in H
  | H : negb _ = false |- _ => apply negb_false_iff in H
  | H : bool_decide _ = true |- _ => apply bool_decide_eq_true_1 in H
  | H : bool_decide _ = false |- _ => apply bool_decide_eq_false_1 in H
  | H : (_ <? _)%Z = true |- _ => apply Z.ltb_lt in H
  | H : (_ <? _)%Z = false |- _ => apply Z.ltb_ge in H
  end.

(** ** Go's [switch] on a string with constant cases *)

Fixpoint switch {A} (s : string) (cases : list (string * A)) (dflt : A) : A :=
  match cases with
  | [] => dflt
  | (k, v) :: cases' => if s == k then v else switch s cases' dflt
  end.

(** ** Iteration order

    Go leaves the order of [range] over a map, and the order [sort.Slice]
    gives to equal elements, unspecified.  Each operation that depends on
    such an order takes a [Shuffle]: an arbitrary reordering of lists.  A
    theorem that holds for every [Shuffle] holds for every order the
    runtime may choose. *)

Record Shuffle := {
  shuffle :> forall A : Type, list A -> list A;
  shuffle_perm : forall A (l : list A), shuffle A l ≡ₚ l;
}.
Arguments shuffle _ {_} _.

(** Two concrete orders, for evaluation. *)
Program Definition in_order : Shuffle := {| shuffle A l := l |}.
Next Obligation. done. Qed.

Program Definition reversed : Shuffle := {| shuffle A l := reverse l |}.
Next Obligation. intros A l. by rewrite reverse_Permutation. Qed.

(** Reordering a list of length [n] by the index map [f]. *)
Definition permute (n : nat) (f : nat -> nat) {A} (l : list A) : list A :=
  if decide (length l = n) then omap (fun i => l !! f i) (seq 0 n) else l.

Lemma omap_lookup_seq {A} (l : list A) (f : nat -> nat) m a :
  (∀ i, i < a + m → f i < length l) →
  length (omap (λ i, l !! f i) (seq a m)) = m ∧
  ∀ j, j < m → omap (λ i, l !! f i) (seq a m) !! j = l !! f (a + j).
Proof.
  revert a. induction m as [|m IH]; intros a Hf; [split; [done|lia]|]. simpl.
  destruct (lookup_lt_is_Some_2 l (f a)) as [x Hx]; [apply Hf; lia|].
  destruct (IH (S a)) as [IHl IHf]; [intros; apply Hf; lia|].
  rewrite Hx. split; [simpl; by f_equal|].
  intros [|j] Hj; simpl; [by rewrite Nat.add_0_r|].
  etrans; [apply IHf; lia|]. do 2 f_equal. lia.
Qed.

Lemma permute_lookup n f {A} (l : list A) :
  length l = n → (∀ i, i < n ↔ f i < n) →
  length (permute n f l) = n ∧ ∀ i, permute n f l !! i = l !! f i.
Proof.
  intros Hl Hf. unfold permute. rewrite decide_True by done.
  destruct (omap_lookup_seq l f n 0) as [Hlen Hlk]; [intros i Hi; rewrite Hl; by apply (proj1 (Hf i))|].
  split; [done|]. intros i. destruct (decide (i < n)) as [Hi|Hi]; [rewrite (Hlk i Hi); done|].
  rewrite !lookup_ge_None_2; [done| |lia]. rewrite Hl. rewrite Hf in Hi. lia.
Qed.

Lemma permute_perm n f {A} (l : list A) :
  Inj (=) (=) f → (∀ i, i < n ↔ f i < n) → permute n f l ≡ₚ l.
Proof.
  intros Hinj Hf. destruct (decide (length l = n)) as [Hl|Hl].
  - destruct (permute_lookup n f l Hl Hf) as [Hlen Hlk].
    apply Permutation_inj. split; [by rewrite Hlen|]. by exists f.
  - unfold permute. by rewrite decide_False.
Qed.

(** Any permutation of a list is what some [Shuffle] makes of it. *)
Lemma shuffle_to {A} (l t : list A) : l ≡ₚ t → ∃ σ : Shuffle, shuffle σ l = t.
Proof.
  intros [Hlen (f & Hinj & Hf)]%symmetry%Permutation_inj.
  assert (Hlt : ∀ i, i < length l ↔ f i < length l).
  { intros i. rewrite <-(lookup_lt_is_Some l (f i)), <-Hf, lookup_lt_is_Some. lia. }
  exists {| shuffle := fun B => @permute (length l) f B;
            shuffle_perm := fun B k => permute_perm _ _ k Hinj Hlt |}. simpl.
  apply list_eq. intros i. rewrite Hf.
  by apply (permute_lookup (length l) f l).
Qed.

(** [for k, v := range m] *)
Definition range {K V} `{Countable K} (σ : Shuffle) (m : gmap K V) : list (K * V) :=
  shuffle σ (map_to_list m).

(** [for _, v := range m] *)
Definition range_values {K V} `{Countable K} (σ : Shuffle) (m : gmap K V) : list V :=
  (range σ m).*2.

(** The loop [for k, v := range m { if drop(v) { delete(m, k) } }]. *)
Definition sweep {K V} `{Countable K} (σ : Shuffle) (drop : V -> bool) (m : gmap K V) : gmap K V :=
  foldl (fun acc kv => if drop kv.2 then delete kv.1 acc else acc) m (range σ m).

(** ** [sort.Slice]

    The sort is not stable: its result is the stable sort of an arbitrary
    reordering of its input ([sort_slice_complete]: every ordered permutation
    of the input is such a result). *)

Section sort_slice.
Context {A : Type} (less : A -> A -> bool).

Fixpoint insert_sorted (x : A) (l : list A) : list A :=
  match l with
  | [] => [x]
  | y :: l' => if less y x then y :: insert_sorted x l' else x :: y :: l'
  end.

Definition stable_sort (l : list A) : list A := foldr insert_sorted [] l.

Definition sort_slice (σ : Shuffle) (l : list A) : list A := stable_sort (shuffle σ l).
End sort_slice.

(** ** Lemmas on decisions and lists *)

Lemma if_bool_decide_iff {A} P Q `{Decision P, Decision Q} (x y : A) :
  (P ↔ Q) → (if bool_decide P then x else y) = (if bool_decide Q then x else y).
Proof. intros HPQ. by rewrite (bool_decide_ext P Q HPQ). Qed.

Lemma forallb_Forall {A} (f : A -> bool) l : forallb f l = true ↔ Forall (fun x => f x = true) l.
Proof. rewrite List.forallb_forall, Forall_forall. setoid_rewrite list_elem_of_In. done. Qed.

Lemma filter_fmap {A B} (f : A → B) (P : B → Prop) `{∀ x, Decision (P x)} (l : list A) :
  filter P (f <$> l) = f <$> filter (fun x => P (f x)) l.
Proof. induction l as [|x l IH]; csimpl; [done|]. rewrite !filter_cons, IH. by repeat case_decide. Qed.

(** ** Lemmas on iteration *)

Section range_lemmas.
Context {K V : Type} `{Countable K}.
Implicit Types m : gmap K V.

Lemma range_perm σ m : range σ m ≡ₚ map_to_list m.
Proof. apply shuffle_perm. Qed.

Lemma elem_of_range σ m k v : (k, v) ∈ range σ m ↔ m !! k = Some v.
Proof. by rewrite range_perm, elem_of_map_to_list. Qed.

Lemma elem_of_range_values σ m v : v ∈ range_values σ m ↔ ∃ k, m !! k = Some v.
Proof.
  unfold range_values. rewrite list_elem_of_fmap. split.
  - intros ([k w] & -> & Hin). exists k. by apply elem_of_range in Hin.
  - intros [k Hk]. exists (k, v). by rewrite elem_of_range.
Qed.

Lemma length_range σ m : length (range σ m) = size m.
Proof. by rewrite range_perm, length_map_to_list. Qed.

Lemma NoDup_range_keys σ m : NoDup (range σ m).*1.
Proof. rewrite range_perm. apply NoDup_fst_map_to_list. Qed.

Lemma foldl_insert_list_to_map (l : list (K * V)) (m : gmap K V) :
  NoDup l.*1 → (∀ k, k ∈ l.*1 → m !! k = None) →
  foldl (fun m kv => <[kv.1 := kv.2]> m) m l = list_to_map l ∪ m.
Proof.
  revert m. induction l as [|[k v] l IH]; intros m Hnd Hm; csimpl in *; [by rewrite (left_id _ _)|].
  apply NoDup_cons in Hnd as [Hk Hnd]. rewrite IH; [|done|].
  - rewrite <-insert_union_r; [by rewrite insert_union_l|]. by apply not_elem_of_list_to_map.
  - intros k' Hk'. rewrite lookup_insert_ne by (by intros ->). apply Hm. by right.
Qed.

(** A map that is filled by ranging over another is a copy of it. *)
Lemma rebuild_range σ m : foldl (fun acc kv => <[kv.1 := kv.2]> acc) ∅ (range σ m) = m.
Proof.
  rewrite foldl_insert_list_to_map; [|apply NoDup_range_keys|intros; apply lookup_empty].
  rewrite (right_id _ _). rewrite (list_to_map_proper _ (map_to_list m)); [apply list_to_map_to_list| |apply range_perm].
  apply NoDup_range_keys.
Qed.

Lemma foldl_delete_lookup (drop : V -> bool) (l : list (K * V)) m k :
  foldl (fun acc kv => if drop kv.2 then delete kv.1 acc else acc) m l !! k =
  if bool_decide (Exists (fun kv => kv.1 = k ∧ drop kv.2 = true) l) then None else m !! k.
Proof.
  revert m. induction l as [|[j w] l IH]; intros m; [done|]; simpl.
  rewrite IH. repeat case_bool_decide; try done; rewrite Exists_cons in *; simpl in *;
    destruct (drop w) eqn:Hd; rewrite ?lookup_delete; try case_decide; naive_solver congruence.
Qed.

(** The delete-while-ranging loop keeps exactly the entries not dropped,
    whatever the order. *)
Lemma sweep_lookup σ drop m k :
  sweep σ drop m !! k = (v ← m !! k; if drop v then None else Some v).
Proof.
  unfold sweep. rewrite foldl_delete_lookup. case_bool_decide as HE.
  - apply Exists_exists in HE as ([j w] & Hin & <- & Hd).
    apply elem_of_range in Hin. simpl in *. by rewrite Hin; simpl; rewrite Hd.
  - destruct (m !! k) as [v|] eqn:Hk; [|done]. simpl. destruct (drop v) eqn:Hd; [|done].
    destruct HE. apply Exists_exists. exists (k, v). by rewrite elem_of_range.
Qed.
End range_lemmas.

#[export] Hint Resolve range_perm NoDup_range_keys : nightjar.

(** ** Lemmas on sorting *)

Lemma StronglySorted_fmap {A B} (R : A -> A -> Prop) (S : B -> B -> Prop) (f : A -> B) l :
  (∀ x y, R x y → S (f x) (f y)) → StronglySorted R l → StronglySorted S (f <$> l).
Proof.
  intros Hf. induction 1 as [|x l _ IH Hx]; constructor; [done|]. apply Forall_fmap. eapply Forall_impl; [exact Hx|]. apply Hf.
Qed.

Section sort_lemmas.
Context {A : Type} (less : A -> A -> bool).

(** [not_after x y]: the comparison does not put [y] strictly before [x]. *)
Definition not_after (x y : A) : Prop := less y x = false.

(** What [sort.Slice] requires of its [less]: a strict weak order. *)
Class StrictWeakOrder := {
  less_asym : forall x y, less x y = true -> less y x = false;
  less_trans_false : forall x y z, less y x = false -> less z y = false -> less z x = false;
}.

Lemma insert_sorted_perm x l : insert_sorted less x l ≡ₚ x :: l.
Proof.
  induction l as [|y l IH]; simpl; [done|]. case_match; [|done].
  rewrite IH. apply Permutation_swap.
Qed.

Lemma stable_sort_perm l : stable_sort less l ≡ₚ l.
Proof. induction l as [|x l IH]; simpl; [done|]. by rewrite insert_sorted_perm, IH. Qed.

Lemma sort_slice_perm σ l : sort_slice less σ l ≡ₚ l.
Proof. unfold sort_slice. by rewrite stable_sort_perm, shuffle_perm. Qed.

Context `{!StrictWeakOrder}.

Lemma insert_sorted_sorted x l :
  StronglySorted not_after l → StronglySorted not_after (insert_sorted less x l).
Proof.
  induction 1 as [|y l Hs IH Hy]; simpl; [repeat constructor|].
  destruct (less y x) eqn:Hyx.
  - constructor; [done|]. rewrite insert_sorted_perm. constructor; [|done].
    by apply less_asym.
  - constructor; [by constructor|]. constructor; [done|].
    eapply Forall_impl; [exact Hy|]. unfold not_after. intros z Hz.
    by eapply less_trans_false.
Qed.

Lemma stable_sort_sorted l : StronglySorted not_after (stable_sort less l).
Proof. induction l; simpl; [constructor|by apply insert_sorted_sorted]. Qed.

Lemma sort_slice_sorted σ l : StronglySorted not_after (sort_slice less σ l).
Proof. apply stable_sort_sorted. Qed.

Lemma stable_sort_id l : StronglySorted not_after l → stable_sort less l = l.
Proof.
  induction 1 as [|x l Hs IH Hx]; simpl; [done|]. rewrite IH.
  destruct l as [|y l]; simpl; [done|]. apply Forall_cons in Hx as [Hxy _].
  unfold not_after in Hxy. by rewrite Hxy.
Qed.

(** Every ordered permutation of the input is a result of [sort_slice] for
    some order of equal elements. *)
Lemma sort_slice_complete l t :
  l ≡ₚ t → StronglySorted not_after t → ∃ σ, sort_slice less σ l = t.
Proof.
  intros Hp Ht. destruct (shuffle_to l t Hp) as [σ Hσ]. exists σ.
  unfold sort_slice. rewrite Hσ. by apply stable_sort_id.
Qed.
End sort_lemmas.
Arguments StrictWeakOrder {_} _.

(** A comparison through an integer key is a strict weak order. *)
#[export] Instance key_order {A} (key : A -> Z) : StrictWeakOrder (fun x y => (key x <? key y)%Z).
Proof. split; intros *; rewrite ?Z.ltb_lt, ?Z.ltb_ge; lia. Qed.
