(* ===== verification/GoStd.v ===== *)
(** * The part of the Go language and standard library the sources use

    Strings are Go strings: sequences of bytes.  [strings.ToLower],
    [strings.ToUpper] and the [%q] verb are modelled on ASCII; bytes of
    multi-byte runes are left as they are.  Times are nanoseconds since the
    zero [time.Time], durations are [int64] nanoseconds. *)

From S2P Require Import Prelude.
From Stdlib Require Import Ascii SpecFloat.

Open Scope go_scope.

(** ** Package strings *)

Definition strings_HasPrefix (s p : string) : bool := String.prefix p s.

Fixpoint strings_Contains (s sub : string) : bool :=
  String.prefix sub s ||
  match s with
  | EmptyString => false
  | String _ s' => strings_Contains s' sub
  end.

Definition strings_HasSuffix (s suf : string) : bool :=
  let n := String.length s in
  let k := String.length suf in
  (k <=? n)%nat && (String.substring (n - k) k s == suf).

Definition strings_TrimSuffix (s suf : string) : string :=
  if strings_HasSuffix s suf
  then String.substring 0 (String.length s - String.length suf) s
  else s.

Definition strings_TrimPrefix (s p : string) : string :=
  if strings_HasPrefix s p
  then String.substring (String.length p) (String.length s - String.length p) s
  else s.

Definition byte_lower (c : ascii) : ascii :=
  let n := nat_of_ascii c in
  if ((65 <=? n) && (n <=? 90))%nat then ascii_of_nat (n + 32) else c.

Definition byte_upper (c : ascii) : ascii :=
  let n := nat_of_ascii c in
  if ((97 <=? n) && (n <=? 122))%nat then ascii_of_nat (n - 32) else c.

Fixpoint string_map (f : ascii -> ascii) (s : string) : string :=
  match s with
  | EmptyString => EmptyString
  | String c s' => String (f c) (string_map f s')
  end.

Definition strings_ToLower : string -> string := string_map byte_lower.
Definition strings_ToUpper : string -> string := string_map byte_upper.

(** [strings.Split(s, sep)] for a one-byte separator. *)
Fixpoint strings_Split (s : string) (sep : ascii) : list string :=
  match s with
  | EmptyString => [EmptyString]
  | String c s' =>
      if c == sep then EmptyString :: strings_Split s' sep
      else match strings_Split s' sep with
           | [] => [String c EmptyString]
           | w :: ws => String c w :: ws
           end
  end.

(** [strings.SplitN(s, sep, 2)] for a one-byte separator. *)
Fixpoint strings_SplitN2 (s : string) (sep : ascii) : list string :=
  match s with
  | EmptyString => [EmptyString]
  | String c s' =>
      if c == sep then [EmptyString; s']
      else match strings_SplitN2 s' sep with
           | [] => [String c EmptyString]
           | w :: ws => String c w :: ws
           end
  end.

(** [strings.LastIndex(s, sep)] for a one-byte [sep]; [None] is -1. *)
Fixpoint strings_LastIndex (s : string) (sep : ascii) : option nat :=
  match s with
  | EmptyString => None
  | String c s' =>
      match strings_LastIndex s' sep with
      | Some i => Some (S i)
      | None => if c == sep then Some 0%nat else None
      end
  end.

(** [strings.Index(s, sep)] for a one-byte [sep]; [None] is -1. *)
Fixpoint strings_Index (s : string) (sep : ascii) : option nat :=
  match s with
  | EmptyString => None
  | String c s' => if c == sep then Some 0%nat else S <$> strings_Index s' sep
  end.

Definition strings_Join (l : list string) (sep : string) : string := String.concat sep l.

Definition is_space (c : ascii) : bool :=
  let n := nat_of_ascii c in ((9 <=? n) && (n <=? 13) || (n =? 32))%nat.

Fixpoint trim_left (s : string) : string :=
  match s with
  | EmptyString => EmptyString
  | String c s' => if is_space c then trim_left s' else s
  end.

Fixpoint trim_right (s : string) : string :=
  match s with
  | EmptyString => EmptyString
  | String c s' =>
      match trim_right s' with
      | EmptyString => if is_space c then EmptyString else String c EmptyString
      | t => String c t
      end
  end.

Definition strings_TrimSpace (s : string) : string := trim_right (trim_left s).

(** [s < t] on strings: byte-wise, a proper prefix first. *)
Fixpoint string_less (s t : string) : bool :=
  match s, t with
  | _, EmptyString => false
  | EmptyString, String _ _ => true
  | String a s', String b t' =>
      let x := nat_of_ascii a in
      let y := nat_of_ascii b in
      if (x <? y)%nat then true else if (y <? x)%nat then false else string_less s' t'
  end.

(** [sort.Strings] *)
Definition sort_Strings (σ : Shuffle) (l : list string) : list string := sort_slice string_less σ l.

(** The keys of a map, sorted with [sort.Strings]: the result does not depend
    on the order of iteration ([sort_Strings_unique]). *)
Definition sorted_keys {V} (m : gmap string V) : list string := sort_Strings in_order (map_to_list m).*1.

(** ** Package fmt *)

Definition dquote : ascii := ascii_of_nat 34.
Definition backslash : ascii := ascii_of_nat 92.

Definition hex_digit (n : nat) : ascii :=
  if (n <? 10)%nat then ascii_of_nat (48 + n) else ascii_of_nat (87 + n).

(** One byte of [strconv.Quote] on ASCII and printable runes, whose bytes it
    leaves as they are. *)
Definition quote_byte (c : ascii) : string :=
  let n := nat_of_ascii c in
  let esc c := String backslash (String c EmptyString) in
  if (c == dquote) || (c == backslash) then esc c
  else if (n =? 7)%nat then esc "a"%char
  else if (n =? 8)%nat then esc "b"%char
  else if (n =? 12)%nat then esc "f"%char
  else if (n =? 10)%nat then esc "n"%char
  else if (n =? 13)%nat then esc "r"%char
  else if (n =? 9)%nat then esc "t"%char
  else if (n =? 11)%nat then esc "v"%char
  else if ((n <? 32) || (n =? 127))%nat
  then String backslash (String "x"%char (String (hex_digit (n / 16)) (String (hex_digit (n mod 16)) EmptyString)))
  else String c EmptyString.

Fixpoint quote_bytes (s : string) : string :=
  match s with
  | EmptyString => EmptyString
  | String c s' => quote_byte c +:+ quote_bytes s'
  end.

(** The [%q] verb. *)
Definition fmt_q (s : string) : string :=
  String dquote (quote_bytes s +:+ String dquote EmptyString).

(** The [%d] verb. *)
Definition fmt_d (z : Z) : string := pretty z.

(** [len(l)] as an [int]. *)
Definition go_len {A} (l : list A) : Z := Z.of_nat (length l).

(** ** int64 and package time *)

Definition int64_min : Z := - 2 ^ 63.
Definition int64_max : Z := 2 ^ 63 - 1.

(** The value of an [int64] expression whose mathematical value is [z]. *)
Definition wrap64 (z : Z) : Z := (z + 2 ^ 63) mod 2 ^ 64 - 2 ^ 63.

Abbreviation Time := Z (only parsing).
Abbreviation Duration := Z (only parsing).

Definition time_Nanosecond : Duration := 1.
Definition time_Second : Duration := 1000000000.
Definition time_Minute : Duration := 60 * time_Second.
Definition time_Hour : Duration := 60 * time_Minute.

(** The zero [time.Time], what a missing map entry reads as. *)
Definition zero_time : Time := 0.

(** [t.Sub(u)] saturates at the bounds of [Duration]. *)
Definition time_Sub (t u : Time) : Duration := Z.max int64_min (Z.min int64_max (t - u)).

(** [time.Since(u)] at the instant [now]. *)
Definition time_Since (now u : Time) : Duration := time_Sub now u.

Definition time_Add (t : Time) (d : Duration) : Time := t + d.
Definition time_Before (t u : Time) : bool := (t <? u)%Z.

(** ** float64, on the IEEE 754 binary64 operations of [SpecFloat] *)

Abbreviation float64 := spec_float (only parsing).

Definition float64_of_int (z : Z) : float64 := binary_normalize 53 1024 z 0 false.
Definition float64_zero : float64 := S754_zero false.
Definition float64_div (x y : float64) : float64 := SFdiv 53 1024 x y.
Definition float64_mul (x y : float64) : float64 := SFmul 53 1024 x y.
Definition float64_geb (x y : float64) : bool := SFleb y x.
Definition float64_gtb (x y : float64) : bool := SFltb y x.

(** [int64(x)] and [int(x)]: truncation toward zero; NaN, infinities and
    values out of range give the value amd64 gives. *)
Definition float64_to_int (x : float64) : Z :=
  match x with
  | S754_zero _ => 0
  | S754_finite sgn m e =>
      let a := (if (0 <=? e)%Z then Z.pos m * 2 ^ e else Z.pos m / 2 ^ (- e))%Z in
      let z := if sgn then (- a)%Z else a in
      if ((int64_min <=? z) && (z <=? int64_max))%Z then z else int64_min
  | _ => int64_min
  end.

(** ** Lemmas *)

#[local] Arguments String.append !_ _ /.

#[export] Instance string_less_order : StrictWeakOrder string_less.
Proof.
  split.
  - intros x. induction x as [|a x IH]; intros [|b y]; simpl; try done.
    repeat case_match; rewrite ?Nat.ltb_lt, ?Nat.ltb_ge in *; try done; try lia. apply IH.
  - intros x. induction x as [|a x IH]; intros [|b y] [|c z]; simpl; try done.
    repeat case_match; rewrite ?Nat.ltb_lt, ?Nat.ltb_ge in *; try done; try lia. apply IH.
Qed.

Lemma string_less_antisym s t : string_less s t = false → string_less t s = false → s = t.
Proof.
  revert t. induction s as [|a s IH]; intros [|b t]; simpl; try done.
  repeat case_match; rewrite ?Nat.ltb_lt, ?Nat.ltb_ge in *; try done; try lia. intros H1 H2.
  f_equal; [|by apply IH]. rewrite <-(ascii_nat_embedding a), <-(ascii_nat_embedding b). f_equal. lia.
Qed.

(** Sorting strings gives the same result for every order of the input. *)
Lemma sort_Strings_unique σ σ' l l' : l ≡ₚ l' → sort_Strings σ l = sort_Strings σ' l'.
Proof.
  intros Hp. assert (AntiSymm (=) (not_after string_less)).
  { intros x y Hxy Hyx. by apply string_less_antisym. }
  apply (StronglySorted_unique (not_after string_less)); try apply sort_slice_sorted, _.
  unfold sort_Strings. by rewrite !sort_slice_perm.
Qed.

Lemma wrap64_id z : (int64_min ≤ z ≤ int64_max)%Z → wrap64 z = z.
Proof. unfold wrap64, int64_min, int64_max. intros H. rewrite Z.mod_small; lia. Qed.

Lemma wrap64_bounds z : (int64_min ≤ wrap64 z ≤ int64_max)%Z.
Proof. unfold wrap64, int64_min, int64_max. pose proof (Z.mod_pos_bound (z + 2 ^ 63) (2 ^ 64)). lia. Qed.

(** Saturation does not change a comparison with a duration in range. *)
Lemma time_Since_lt now u (d : Duration) :
  (int64_min < d ≤ int64_max)%Z → (time_Since now u < d ↔ now - u < d)%Z.
Proof. unfold time_Since, time_Sub, int64_min, int64_max. lia. Qed.

#[export] Hint Resolve wrap64_bounds : nightjar.

Lemma string_append_nil_r s : s +:+ EmptyString = s.
Proof. induction s as [|c s IH]; simpl; [done|]. by rewrite IH. Qed.

Lemma string_append_assoc s t u : (s +:+ t) +:+ u = s +:+ (t +:+ u).
Proof. induction s as [|c s IH]; simpl; [done|]. by rewrite IH. Qed.

Lemma string_length_append s t : String.length (s +:+ t) = (String.length s + String.length t)%nat.
Proof. induction s as [|c s IH]; simpl; [done|]. by rewrite IH. Qed.

Lemma substring_all s : String.substring 0 (String.length s) s = s.
Proof. induction s as [|c s IH]; simpl; [done|]. by rewrite IH. Qed.

Lemma substring_append p s : String.substring (String.length p) (String.length s) (p +:+ s) = s.
Proof. induction p as [|c p IH]; simpl; [apply substring_all|exact IH]. Qed.

Lemma string_append_inj_l s t u : s +:+ t = s +:+ u → t = u.
Proof. induction s; simpl; naive_solver. Qed.

Lemma prefix_append p s : String.prefix p (p +:+ s) = true.
Proof. induction p as [|c p IH]; simpl; [by destruct s|]. destruct (ascii_dec c c); [done|congruence]. Qed.

Lemma strings_Contains_prefix sub s : strings_Contains (sub +:+ s) sub = true.
Proof.
  assert (∀ t, String.prefix sub t = true → strings_Contains t sub = true) as H.
  { intros [|c t] Ht; cbn [strings_Contains]; by rewrite Ht. }
  apply H, prefix_append.
Qed.

(** A string contains each of its infixes. *)
Lemma strings_Contains_infix a sub b : strings_Contains (a +:+ (sub +:+ b)) sub = true.
Proof.
  induction a as [|c a IH]; simpl; [apply strings_Contains_prefix|].
  rewrite IH. apply orb_true_r.
Qed.

Lemma switch_default {A} s (cases : list (string * A)) d :
  s ∉ cases.*1 → switch s cases d = d.
Proof.
  induction cases as [|[k v] cases IH]; simpl; [done|].
  intros [Hk Hc]%not_elem_of_cons. by rewrite bool_decide_eq_false_2; auto.
Qed.

(** What holds of every case and of the default holds of the result. *)
Lemma switch_forall {A} (P : A -> Prop) s (cases : list (string * A)) d :
  Forall (fun kv => P kv.2) cases → P d → P (switch s cases d).
Proof. intros Hc Hd. induction Hc as [|[k v] cases]; simpl; [done|]. by case_bool_decide. Qed.
