(* ===== verification/Encoding.v ===== *)
(** * The encodings of the standard library the sources write

    encoding/json on strings and on lists of flat objects, and
    [time.Time.Format(time.RFC3339)] in UTC.  A string is any sequence of
    bytes; the encoder decodes it as UTF-8 and writes the replacement character
    for a byte that is no part of a rune.  [json_unquote] and [json_objects_of]
    read the encoding back; they are the specification of what a client
    parses. *)

From S2P Require Import Prelude GoStd.
From Stdlib Require Import Ascii.

Open Scope go_scope.
#[local] Open Scope string_scope.

(** ** unicode/utf8 *)

Definition between (lo hi : nat) (c : ascii) : bool := ((lo <=? nat_of_ascii c) && (nat_of_ascii c <=? hi))%nat.

(** The bytes of one step of [utf8.DecodeRuneInString]; [RBad] is a byte where
    no rune starts: [RuneError] of width 1. *)
Inductive Rune := R1 (a : ascii) | R2 (a b : ascii) | R3 (a b c : ascii) | R4 (a b c d : ascii) | RBad (a : ascii).

Definition cont : ascii -> bool := between 128 191.
Definition is_rune2 (a b : ascii) : bool := between 194 223 a && cont b.
Definition is_rune3 (a b c : ascii) : bool :=
  (between 224 224 a && between 160 191 b || (between 225 236 a || between 238 239 a) && cont b || between 237 237 a && between 128 159 b) && cont c.
Definition is_rune4 (a b c d : ascii) : bool :=
  (between 240 240 a && between 144 191 b || between 241 243 a && cont b || between 244 244 a && between 128 143 b) && cont c && cont d.

Fixpoint runes (s : string) : list Rune :=
  match s with
  | EmptyString => []
  | String a s1 =>
      if between 0 127 a then R1 a :: runes s1
      else match s1 with
      | EmptyString => [RBad a]
      | String b s2 =>
          if is_rune2 a b then R2 a b :: runes s2
          else match s2 with
          | EmptyString => RBad a :: runes s1
          | String c s3 =>
              if is_rune3 a b c then R3 a b c :: runes s3
              else match s3 with
              | EmptyString => RBad a :: runes s1
              | String d s4 => if is_rune4 a b c d then R4 a b c d :: runes s4 else RBad a :: runes s1
              end
          end
      end
  end.

(** The bytes of a rune, and its text, with U+FFFD for what is none. *)
Definition rune_bytes (r : Rune) : string :=
  match r with
  | R1 a | RBad a => String a EmptyString
  | R2 a b => String a (String b EmptyString)
  | R3 a b c => String a (String b (String c EmptyString))
  | R4 a b c d => String a (String b (String c (String d EmptyString)))
  end.
Definition replacement : string :=
  String (ascii_of_nat 239) (String (ascii_of_nat 191) (String (ascii_of_nat 189) EmptyString)).
Definition rune_text (r : Rune) : string := match r with RBad _ => replacement | _ => rune_bytes r end.

(** [string([]rune(s))] and [utf8.ValidString(s)]. *)
Definition utf8_clean (s : string) : string := String.concat EmptyString (rune_text <$> runes s).
Definition utf8_valid (s : string) : bool := forallb (fun r => match r with RBad _ => false | _ => true end) (runes s).

(** ** encoding/json *)

(** One ASCII character of a JSON string; HTML characters are escaped. *)
Definition json_byte (c : ascii) : string :=
  let n := nat_of_ascii c in
  let esc c := String backslash (String c EmptyString) in
  if (c == dquote) || (c == backslash) then esc c
  else if (n =? 8)%nat then esc "b"%char
  else if (n =? 12)%nat then esc "f"%char
  else if (n =? 10)%nat then esc "n"%char
  else if (n =? 13)%nat then esc "r"%char
  else if (n =? 9)%nat then esc "t"%char
  else if (n <? 32)%nat || (c == "<"%char) || (c == ">"%char) || (c == "&"%char)
  then String backslash (String "u"%char (String "0"%char (String "0"%char
         (String (hex_digit (n / 16)) (String (hex_digit (n mod 16)) EmptyString)))))
  else String c EmptyString.

(** One rune: U+2028, U+2029 and what is no rune are escaped. *)
Definition json_rune (r : Rune) : string :=
  match r with
  | R1 a => json_byte a
  | RBad _ => String backslash "ufffd"
  | R3 a b c =>
      if between 226 226 a && between 128 128 b && between 168 169 c
      then String backslash ("u202" +:+ String (hex_digit (nat_of_ascii c mod 16)) EmptyString)
      else rune_bytes r
  | _ => rune_bytes r
  end.

Definition json_bytes (s : string) : string := String.concat EmptyString (json_rune <$> runes s).

Definition json_string (s : string) : string := String dquote (json_bytes s +:+ String dquote EmptyString).

(** An object whose members are all strings, in the order of its fields. *)
Definition json_member (kv : string * string) : string := json_string kv.1 +:+ ":" +:+ json_string kv.2.
Definition json_object (members : list (string * string)) : string :=
  "{" +:+ strings_Join (json_member <$> members) "," +:+ "}".

(** A slice of such objects; a nil slice is [null]. *)
Definition json_objects (l : list (list (string * string))) : string :=
  match l with
  | [] => "null"
  | _ => "[" +:+ strings_Join (json_object <$> l) "," +:+ "]"
  end.

(** ** [t.UTC().Format(time.RFC3339)] *)

(** The decimal digits of [z], padded with zeros to [width]. *)
Fixpoint zeros (n : nat) : string := match n with O => EmptyString | S n' => String "0"%char (zeros n') end.
Definition pad (width : nat) (z : Z) : string := let d := fmt_d z in zeros (width - String.length d) +:+ d.

(** Year, month and day of a count of days since 0001-01-01, in the
    proleptic Gregorian calendar; years start in March in between. *)
Definition civil (days : Z) : Z * Z * Z :=
  (let z := days + 306 in
   let doe := z mod 146097 in
   let yoe := (doe - doe / 1460 + doe / 36524 - doe / 146096) / 365 in
   let doy := doe - (365 * yoe + yoe / 4 - yoe / 100) in
   let mp := (5 * doy + 2) / 153 in
   let m := if mp <? 10 then mp + 3 else mp - 9 in
   (yoe + (z / 146097) * 400 + (if m <=? 2 then 1 else 0), m, doy - (153 * mp + 2) / 5 + 1))%Z.

Definition format_RFC3339 (t : Time) : string :=
  let secs := (t / time_Second)%Z in
  let '(y, m, d) := civil (secs / 86400)%Z in
  let sod := (secs mod 86400)%Z in
  pad 4 y +:+ "-" +:+ pad 2 m +:+ "-" +:+ pad 2 d +:+ "T" +:+
  pad 2 (sod / 3600)%Z +:+ ":" +:+ pad 2 (sod / 60 mod 60)%Z +:+ ":" +:+ pad 2 (sod mod 60)%Z +:+ "Z".

Example format_epoch : format_RFC3339 (62135596800 * time_Second) = "1970-01-01T00:00:00Z".
Proof. vm_compute. reflexivity. Qed.

Example format_leap_day : format_RFC3339 ((62135596800 + 1709210096) * time_Second + 7) = "2024-02-29T12:34:56Z".
Proof. vm_compute. reflexivity. Qed.

(** ** Reading it back *)

Definition hex_value (c : ascii) : option nat :=
  let n := nat_of_ascii c in
  if ((48 <=? n) && (n <=? 57))%nat then Some (n - 48)%nat
  else if ((97 <=? n) && (n <=? 102))%nat then Some (n - 87)%nat
  else None.

(** The character of a two-character escape. *)
Definition json_escape (c : ascii) : option ascii :=
  if (c == dquote) || (c == backslash) then Some c
  else if c == "b"%char then Some (ascii_of_nat 8)
  else if c == "f"%char then Some (ascii_of_nat 12)
  else if c == "n"%char then Some (ascii_of_nat 10)
  else if c == "r"%char then Some (ascii_of_nat 13)
  else if c == "t"%char then Some (ascii_of_nat 9)
  else None.

(** The UTF-8 bytes of a code point of four hexadecimal digits; no half of a
    surrogate pair. *)
Definition utf8_encode (n : N) : option string :=
  (if n <? 128 then Some (String (ascii_of_N n) EmptyString)
   else if n <? 2048 then Some (String (ascii_of_N (192 + n / 64)) (String (ascii_of_N (128 + n mod 64)) EmptyString))
   else if (55296 <=? n) && (n <=? 57343) then None
   else Some (String (ascii_of_N (224 + n / 4096)) (String (ascii_of_N (128 + n / 64 mod 64)) (String (ascii_of_N (128 + n mod 64)) EmptyString))))%N.

Definition code_point (h1 h2 h3 h4 : ascii) : option N :=
  w ← hex_value h1; x ← hex_value h2; y ← hex_value h3; z ← hex_value h4;
  Some (4096 * N.of_nat w + 256 * N.of_nat x + 16 * N.of_nat y + N.of_nat z)%N.

(** The rest of a JSON string up to its closing quote, and what follows it. *)
Fixpoint json_unquote_bytes (s : string) : option (string * string) :=
  match s with
  | EmptyString => None
  | String c s1 =>
      if c == dquote then Some (EmptyString, s1)
      else if c == backslash then
        match s1 with
        | EmptyString => None
        | String e s2 =>
            if e == "u"%char then
              match s2 with
              | String h1 (String h2 (String h3 (String h4 s3))) =>
                  n ← code_point h1 h2 h3 h4; u ← utf8_encode n; '(t, rest) ← json_unquote_bytes s3; Some (u +:+ t, rest)
              | _ => None
              end
            else x ← json_escape e; '(t, rest) ← json_unquote_bytes s2; Some (String x t, rest)
        end
      else '(t, rest) ← json_unquote_bytes s1; Some (String c t, rest)
  end.

Definition json_unquote (s : string) : option (string * string) :=
  match s with
  | String c s1 => if c == dquote then json_unquote_bytes s1 else None
  | EmptyString => None
  end.

(** [expect c s] drops the expected character. *)
Definition expect (c : ascii) (s : string) : option string :=
  match s with
  | String d s1 => if c == d then Some s1 else None
  | EmptyString => None
  end.

(** The members of an object after its brace, one for each of the [n] fields. *)
Fixpoint json_members_of (n : nat) (s : string) : option (list (string * string) * string) :=
  match n with
  | O => s' ← expect "}"%char s; Some ([], s')
  | S n' =>
      '(k, s1) ← json_unquote s; s2 ← expect ":"%char s1; '(v, s3) ← json_unquote s2;
      s4 ← (if n' == 0%nat then Some s3 else expect ","%char s3);
      '(rest, s5) ← json_members_of n' s4; Some ((k, v) :: rest, s5)
  end.

(** A list of objects of [n] fields, after its bracket; [fuel] bounds the
    number of objects, the length of the text suffices. *)
Fixpoint json_list_of (n fuel : nat) (s : string) : option (list (list (string * string))) :=
  match fuel with
  | O => None
  | S fuel' =>
      s1 ← expect "{"%char s; '(o, s2) ← json_members_of n s1;
      match s2 with
      | String c s3 =>
          if c == "]"%char then (if s3 == EmptyString then Some [o] else None)
          else if c == ","%char then rest ← json_list_of n fuel' s3; Some (o :: rest)
          else None
      | EmptyString => None
      end
  end.

Definition json_objects_of (n : nat) (s : string) : option (list (list (string * string))) :=
  if s == "null" then Some []
  else s1 ← expect "["%char s; json_list_of n (String.length s) s1.

(** ** Lemmas *)

#[local] Arguments String.append !_ _ /.

Lemma unquote_plain c s :
  c ≠ dquote → c ≠ backslash → json_unquote_bytes (String c s) = '(t, rest) ← json_unquote_bytes s; Some (String c t, rest).
Proof. intros H1 H2. cbn [json_unquote_bytes]. by rewrite !bool_decide_false. Qed.

(** A decoded rune. *)
Definition rune_ok (r : Rune) : bool :=
  match r with
  | R1 a => between 0 127 a
  | RBad _ => true
  | R2 a b => is_rune2 a b
  | R3 a b c => is_rune3 a b c
  | R4 a b c d => is_rune4 a b c d
  end.

Lemma runes_ind (P : string -> list Rune -> Prop) :
  P EmptyString [] →
  (∀ r s, rune_ok r = true → P s (runes s) → P (rune_bytes r +:+ s) (r :: runes s)) →
  ∀ s, P s (runes s).
Proof.
  intros H0 Hr s. remember (String.length s) as n eqn:Hn. revert s Hn. induction (lt_wf n) as [n _ IH]. intros s ->.
  destruct s as [|a s1]; [done|]. assert (P s1 (runes s1)) as H1 by (eapply IH; [|done]; simpl; lia). simpl.
  destruct (between 0 127 a) eqn:Ha; [by apply (Hr (R1 a))|].
  destruct s1 as [|b s2]; [by apply (Hr (RBad a) EmptyString)|].
  destruct (is_rune2 a b) eqn:H2; [apply (Hr (R2 a b)); [done|]; eapply IH; [|done]; simpl; lia|].
  destruct s2 as [|c s3]; [by apply (Hr (RBad a) (String b EmptyString))|].
  destruct (is_rune3 a b c) eqn:H3; [apply (Hr (R3 a b c)); [done|]; eapply IH; [|done]; simpl; lia|].
  destruct s3 as [|d s4]; [by apply (Hr (RBad a) (String b (String c EmptyString)))|].
  destruct (is_rune4 a b c d) eqn:H4; [apply (Hr (R4 a b c d)); [done|]; eapply IH; [|done]; simpl; lia|].
  by apply (Hr (RBad a) (String b (String c (String d s4)))).
Qed.

Lemma concat_cons_empty x (l : list string) : String.concat EmptyString (x :: l) = x +:+ String.concat EmptyString l.
Proof. destruct l; simpl; [by rewrite string_append_nil_r|done]. Qed.

Lemma runes_bytes s : String.concat EmptyString (rune_bytes <$> runes s) = s.
Proof. apply (runes_ind (fun s l => String.concat EmptyString (rune_bytes <$> l) = s)); [done|]. intros r t _ IH. by rewrite fmap_cons, concat_cons_empty, IH. Qed.

Lemma runes_ok s : Forall (fun r => rune_ok r = true) (runes s).
Proof. apply (runes_ind (fun _ l => Forall (fun r => rune_ok r = true) l)); [constructor|]. by constructor. Qed.

(** Valid UTF-8 is left as it is. *)
Lemma utf8_clean_valid s : utf8_valid s = true → utf8_clean s = s.
Proof.
  unfold utf8_valid, utf8_clean. intros Hv. rewrite <-(runes_bytes s) at 2. revert Hv. generalize (runes s). intros l.
  induction l as [|r l IH]; [done|]. simpl forallb. intros [Hr Hl]%andb_true_iff.
  rewrite !fmap_cons, !concat_cons_empty, IH by done. by destruct r.
Qed.

Lemma between_spec lo hi c : between lo hi c = true ↔ (lo ≤ nat_of_ascii c ≤ hi)%nat.
Proof. unfold between. by rewrite andb_true_iff, !Nat.leb_le. Qed.

Lemma unquote_high c s :
  (128 ≤ nat_of_ascii c)%nat → json_unquote_bytes (String c s) = '(t, rest) ← json_unquote_bytes s; Some (String c t, rest).
Proof. intros H. apply unquote_plain; intros ->; vm_compute in H; lia. Qed.

Lemma json_unquote_ascii c s :
  between 0 127 c = true → json_unquote_bytes (json_byte c +:+ s) = '(t, rest) ← json_unquote_bytes s; Some (String c t, rest).
Proof. destruct c as [[] [] [] [] [] [] [] []]; try discriminate; intros _; reflexivity. Qed.

(** A rune of more than one byte. *)
Definition wide (r : Rune) : Prop := match r with R1 _ | RBad _ => False | _ => True end.

Ltac bytes_high := rewrite ?andb_true_iff, ?orb_true_iff, ?andb_true_iff, ?orb_true_iff, ?between_spec; lia.

Lemma rune2_high a b : is_rune2 a b = true → (128 ≤ nat_of_ascii a ∧ 128 ≤ nat_of_ascii b)%nat.
Proof. unfold is_rune2, cont. bytes_high. Qed.
Lemma rune3_high a b c : is_rune3 a b c = true → (128 ≤ nat_of_ascii a ∧ 128 ≤ nat_of_ascii b ∧ 128 ≤ nat_of_ascii c)%nat.
Proof. unfold is_rune3, cont. bytes_high. Qed.
Lemma rune4_high a b c d :
  is_rune4 a b c d = true → (128 ≤ nat_of_ascii a ∧ 128 ≤ nat_of_ascii b ∧ 128 ≤ nat_of_ascii c ∧ 128 ≤ nat_of_ascii d)%nat.
Proof. unfold is_rune4, cont. bytes_high. Qed.

Lemma unquote_wide r s :
  rune_ok r = true → wide r →
  json_unquote_bytes (rune_bytes r +:+ s) = '(t, rest) ← json_unquote_bytes s; Some (rune_bytes r +:+ t, rest).
Proof.
  destruct r as [a|a b|a b c|a b c d|a]; try done; cbn [rune_ok rune_bytes String.append]; intros Hr _.
  - apply rune2_high in Hr as (? & ?). rewrite !unquote_high by done. by destruct (json_unquote_bytes s) as [[]|].
  - apply rune3_high in Hr as (? & ? & ?). rewrite !unquote_high by done. by destruct (json_unquote_bytes s) as [[]|].
  - apply rune4_high in Hr as (? & ? & ? & ?). rewrite !unquote_high by done. by destruct (json_unquote_bytes s) as [[]|].
Qed.

Lemma json_unquote_rune r s :
  rune_ok r = true → json_unquote_bytes (json_rune r +:+ s) = '(t, rest) ← json_unquote_bytes s; Some (rune_text r +:+ t, rest).
Proof.
  destruct r as [a|a b|a b c|a b c d|a]; intros Hr; [by apply json_unquote_ascii|by apply unquote_wide| |by apply unquote_wide|reflexivity].
  unfold json_rune. destruct (_ && _ && _) eqn:E; [|by apply unquote_wide].
  apply andb_true_iff in E as [[Ha Hb]%andb_true_iff Hc]. rewrite !between_spec in *.
  rewrite <-(ascii_nat_embedding a), <-(ascii_nat_embedding b), <-(ascii_nat_embedding c).
  assert (nat_of_ascii a = 226%nat) as -> by lia. assert (nat_of_ascii b = 128%nat) as -> by lia.
  assert (nat_of_ascii c = 168%nat ∨ nat_of_ascii c = 169%nat) as [->| ->] by lia; reflexivity.
Qed.

Lemma json_unquote_bytes_ok s rest :
  json_unquote_bytes (json_bytes s +:+ String dquote rest) = Some (utf8_clean s, rest).
Proof.
  unfold json_bytes, utf8_clean. pose proof (runes_ok s) as Hok. induction Hok as [|r l Hr Hl IH]; [done|].
  by rewrite !fmap_cons, !concat_cons_empty, string_append_assoc, json_unquote_rune, IH.
Qed.

Lemma json_unquote_ok s rest : json_unquote (json_string s +:+ rest) = Some (utf8_clean s, rest).
Proof.
  unfold json_string. cbn [String.append json_unquote]. rewrite bool_decide_true by done.
  rewrite string_append_assoc. apply json_unquote_bytes_ok.
Qed.

Lemma expect_ok c s : expect c (String c s) = Some s.
Proof. unfold expect. by rewrite bool_decide_true. Qed.

(** One member, and what follows it. *)
Lemma json_member_ok k v rest :
  ('(k', s1) ← json_unquote (json_member (k, v) +:+ rest); s2 ← expect ":"%char s1; '(v', s3) ← json_unquote s2;
   Some (k', v', s3)) = Some (utf8_clean k, utf8_clean v, rest).
Proof.
  unfold json_member. cbn [fst snd]. rewrite !string_append_assoc, json_unquote_ok.
  cbn [mbind option_bind String.append]. rewrite expect_ok. cbn [mbind option_bind]. by rewrite json_unquote_ok.
Qed.

Definition clean_member (kv : string * string) : string * string := (utf8_clean kv.1, utf8_clean kv.2).
Definition clean_members (members : list (string * string)) : list (string * string) := clean_member <$> members.

Lemma json_members_ok members rest :
  json_members_of (length members) (strings_Join (json_member <$> members) "," +:+ String "}" rest) = Some (clean_members members, rest).
Proof.
  induction members as [|[k v] members IH]; [done|]. cbn [length json_members_of]. rewrite fmap_cons. unfold strings_Join in *.
  assert (∃ sep, String.concat "," (json_member (k, v) :: (json_member <$> members)) +:+ String "}" rest =
            json_member (k, v) +:+ sep +:+ (String.concat "," (json_member <$> members) +:+ String "}" rest) ∧
            ∀ s, (if length members == 0%nat then Some (sep +:+ s) else expect ","%char (sep +:+ s)) = Some s) as (sep & -> & Hsep).
  { destruct members as [|m members]; [exists EmptyString; split; [done|]; intros s; by rewrite bool_decide_true|].
    exists ",". rewrite fmap_cons. cbn [String.concat]. rewrite !string_append_assoc. split; [done|].
    intros s. rewrite bool_decide_false by done. apply expect_ok. }
  pose proof (json_member_ok k v (sep +:+ (String.concat "," (json_member <$> members) +:+ String "}" rest))) as Hm.
  apply bind_Some in Hm as ([k' s1] & -> & Hm). apply bind_Some in Hm as (s2 & He & Hm). cbn [mbind option_bind]. rewrite He.
  apply bind_Some in Hm as ([v' s3] & Hv & [= -> -> ->]). cbn [mbind option_bind]. rewrite Hv.
  cbn [mbind option_bind]. rewrite Hsep. cbn [mbind option_bind]. by rewrite IH.
Qed.

Lemma json_list_ok n fuel l :
  l ≠ [] → (length l ≤ fuel)%nat → Forall (fun o => length o = n) l →
  json_list_of n fuel (strings_Join (json_object <$> l) "," +:+ "]") = Some (clean_members <$> l).
Proof.
  revert fuel. induction l as [|o l IH]; intros [|fuel] Hne Hf Hl; simpl in Hf; try (done || lia).
  apply Forall_cons in Hl as [Ho Hl]. cbn [json_list_of]. rewrite fmap_cons. unfold strings_Join in *.
  assert (∀ rest, (s1 ← expect "{" (json_object o +:+ rest); json_members_of n s1) = Some (clean_members o, rest)) as Hobj.
  { intros rest. unfold json_object. rewrite !string_append_assoc. simpl. rewrite <-Ho. apply json_members_ok. }
  destruct l as [|p l].
  - cbn [String.concat fmap list_fmap]. specialize (Hobj "]"). destruct (expect "{" _) as [s1|]; [|done].
    simpl in *. by rewrite Hobj.
  - rewrite fmap_cons in *. cbn [String.concat]. rewrite !string_append_assoc.
    specialize (Hobj ("," +:+ (String.concat "," (json_object p :: (json_object <$> l)) +:+ "]"))).
    destruct (expect "{" _) as [s1|]; [|done]. simpl in Hobj |- *. rewrite Hobj. simpl.
    rewrite IH; [done|done|simpl in *; lia|done].
Qed.

Lemma json_objects_length l : (length l ≤ String.length (strings_Join (json_object <$> l) ","))%nat.
Proof.
  unfold strings_Join. induction l as [|o l IH]; [simpl; lia|]. rewrite fmap_cons.
  assert (1 ≤ String.length (json_object o))%nat by (unfold json_object; rewrite string_length_append; simpl; lia).
  destruct l as [|p l]; [simpl; lia|]. rewrite fmap_cons in *. cbn [String.concat length] in *.
  rewrite !string_length_append. simpl in *. lia.
Qed.

(** What json.Marshal writes for a list of structs of [n] string fields is
    read back as that list, with the replacement character for what is not
    UTF-8. *)
Lemma json_objects_roundtrip n l :
  Forall (fun o => length o = n) l → json_objects_of n (json_objects l) = Some (clean_members <$> l).
Proof.
  intros Hl. destruct l as [|o l]; [done|]. unfold json_objects, json_objects_of.
  rewrite bool_decide_false by discriminate. cbn [String.append]. rewrite expect_ok. cbn [mbind option_bind].
  apply json_list_ok; [done| |done]. pose proof (json_objects_length (o :: l)) as H.
  cbn [String.length]. rewrite string_length_append. lia.
Qed.

(** ** net/url: query strings *)

Definition is_alnum (c : ascii) : bool :=
  let n := nat_of_ascii c in
  (((48 <=? n) && (n <=? 57)) || ((65 <=? n) && (n <=? 90)) || ((97 <=? n) && (n <=? 122)))%nat.

Definition url_unreserved (c : ascii) : bool :=
  is_alnum c || (c == "-"%char) || (c == "_"%char) || (c == "."%char) || (c == "~"%char).

Definition upper_hex (n : nat) : ascii := if (n <? 10)%nat then ascii_of_nat (48 + n) else ascii_of_nat (55 + n).

Definition query_escape_byte (c : ascii) : string :=
  if url_unreserved c then String c EmptyString
  else if c == " "%char then "+"
  else let n := nat_of_ascii c in
       String "%"%char (String (upper_hex (n / 16)) (String (upper_hex (n mod 16)) EmptyString)).

Fixpoint url_QueryEscape (s : string) : string :=
  match s with
  | EmptyString => EmptyString
  | String c s' => query_escape_byte c +:+ url_QueryEscape s'
  end.

Definition unhex (c : ascii) : option nat :=
  let n := nat_of_ascii c in
  if ((65 <=? n) && (n <=? 70))%nat then Some (n - 55)%nat else hex_value c.

(** [url.QueryUnescape]; [None] is an error. *)
Fixpoint url_QueryUnescape (s : string) : option string :=
  match s with
  | EmptyString => Some EmptyString
  | String c s' =>
      if c == "%"%char then
        match s' with
        | String a (String b rest) =>
            x ← unhex a; y ← unhex b; t ← url_QueryUnescape rest; Some (String (ascii_of_nat (16 * x + y)) t)
        | _ => None
        end
      else t ← url_QueryUnescape s'; Some (String (if c == "+"%char then " "%char else c) t)
  end.

(** [strings.Cut(s, sep)] for a one-byte separator, without its last result. *)
Fixpoint strings_Cut (s : string) (sep : ascii) : string * string :=
  match s with
  | EmptyString => (EmptyString, EmptyString)
  | String c s' => if c == sep then (EmptyString, s') else let '(before, after) := strings_Cut s' sep in (String c before, after)
  end.

(** [u.RawQuery] of [url.Parse(s)]: the fragment is cut first. *)
Definition url_RawQuery (s : string) : string := (strings_Cut (strings_Cut s "#"%char).1 "?"%char).2.

Fixpoint avoids (c : ascii) (s : string) : bool :=
  match s with
  | EmptyString => true
  | String d s' => (d != c) && avoids c s'
  end.

(** [url.ParseQuery]: a part with a semicolon or a bad escape is dropped. *)
Definition query_part (part : string) : option (string * string) :=
  if (part == EmptyString) || negb (avoids ";"%char part) then None
  else let '(key, value) := strings_Cut part "="%char in
       k ← url_QueryUnescape key; v ← url_QueryUnescape value; Some (k, v).

(** [u.Query().Get(key)]: the first value, or the empty string. *)
Definition query_Get (raw key : string) : string :=
  default EmptyString (snd <$> head (filter (fun kv : string * string => kv.1 = key) (omap query_part (strings_Split raw "&"%char)))).

Lemma avoids_append c s t : avoids c (s +:+ t) = avoids c s && avoids c t.
Proof. induction s as [|d s IH]; simpl; [done|]. by rewrite IH, andb_assoc. Qed.

(** The bytes that do not occur in an escaped string. *)
Definition url_separator (c : ascii) : bool := negb (url_unreserved c) && (c != "+"%char) && (c != "%"%char).

Lemma not_separator c d : url_separator c = true → url_separator d = false → (d != c) = true.
Proof. intros Hc Hd. apply negb_true_iff, bool_decide_eq_false. intros ->. congruence. Qed.

(** No separator of a URL is left in an escaped string. *)
Lemma escape_avoids c s : url_separator c = true → avoids c (url_QueryEscape s) = true.
Proof.
  intros Hc. induction s as [|d s IH]; [done|]. cbn [url_QueryEscape]. rewrite avoids_append, IH, andb_true_r.
  unfold query_escape_byte. destruct (url_unreserved d) eqn:Hd.
  { cbn [avoids]. rewrite not_separator; [done|done|]. unfold url_separator. by rewrite Hd. }
  destruct (d == " "%char); cbn [avoids]; [by rewrite not_separator|].
  assert (∀ n, (n < 16)%nat → (upper_hex n != c) = true) as Hh.
  { intros n Hn. apply not_separator; [done|]. clear -Hn. do 16 (destruct n as [|n]; [reflexivity|]). lia. }
  pose proof (nat_ascii_bounded d). rewrite not_separator, !Hh; try done.
  - by apply Nat.mod_upper_bound.
  - apply Nat.Div0.div_lt_upper_bound. lia.
Qed.

Lemma unescape_byte c t : url_QueryUnescape (query_escape_byte c +:+ t) = String c <$> url_QueryUnescape t.
Proof. destruct c as [[] [] [] [] [] [] [] []]; reflexivity. Qed.

Lemma query_unescape_escape s : url_QueryUnescape (url_QueryEscape s) = Some s.
Proof. induction s as [|c s IH]; [done|]. cbn [url_QueryEscape]. by rewrite unescape_byte, IH. Qed.

Lemma strings_Cut_at c s t : avoids c s = true → strings_Cut (s +:+ String c t) c = (s, t).
Proof.
  induction s as [|d s IH]; simpl; [by rewrite bool_decide_true|].
  intros [Hd Hs]%andb_true_iff. case_bool_decide; [done|]. by rewrite (IH Hs).
Qed.

Lemma strings_Cut_none c s : avoids c s = true → strings_Cut s c = (s, EmptyString).
Proof.
  induction s as [|d s IH]; simpl; [done|].
  intros [Hd Hs]%andb_true_iff. case_bool_decide; [done|]. by rewrite (IH Hs).
Qed.

Lemma strings_Split_none c s : avoids c s = true → strings_Split s c = [s].
Proof.
  induction s as [|d s IH]; simpl; [done|].
  intros [Hd Hs]%andb_true_iff. case_bool_decide; [done|]. by rewrite (IH Hs).
Qed.

(** A parameter written with [url.QueryEscape] after the question mark of a
    URL is what the server reads. *)
Lemma query_Get_escaped base key v :
  avoids "#"%char base = true → avoids "?"%char base = true → key ≠ EmptyString → url_QueryEscape key = key →
  query_Get (url_RawQuery (base +:+ "?" +:+ key +:+ "=" +:+ url_QueryEscape v)) key = v.
Proof.
  intros Hh Hq Hne Hkey.
  assert (∀ c, url_separator c = true → avoids c key = true) as Hk.
  { intros c Hc. rewrite <-Hkey. by apply escape_avoids. }
  assert (∀ c, url_separator c = true → c ≠ "="%char →
               avoids c (key +:+ "=" +:+ url_QueryEscape v) = true) as Hraw.
  { intros c Hc He. rewrite avoids_append, Hk by done. cbn [andb String.append avoids].
    rewrite bool_decide_eq_false_2 by congruence. by rewrite escape_avoids. }
  assert (url_RawQuery (base +:+ "?" +:+ key +:+ "=" +:+ url_QueryEscape v) = key +:+ "=" +:+ url_QueryEscape v) as ->.
  { unfold url_RawQuery. rewrite (strings_Cut_none "#"%char); [cbn [fst]; exact (f_equal snd (strings_Cut_at _ _ _ Hq))|].
    rewrite avoids_append, Hh. exact (Hraw "#"%char eq_refl ltac:(discriminate)). }
  unfold query_Get. rewrite strings_Split_none by by apply Hraw. cbn [omap list_omap]. unfold query_part.
  rewrite bool_decide_eq_false_2, Hraw by (done || by destruct key). cbn [orb negb].
  change ("=" +:+ url_QueryEscape v) with (String "="%char (url_QueryEscape v)). rewrite strings_Cut_at by by apply Hk.
  rewrite <-Hkey at 1. rewrite !query_unescape_escape. cbn. by rewrite decide_True.
Qed.
