(* ===== verification/Json.v ===== *)
(** * JSON documents (encoding/json)

    [json_Encode] is what an encoder with [SetIndent(EmptyString, two spaces)]
    writes of a value, [json_parse] is the specification of a client that reads
    it: a reader of JSON text with white space, integers and the string escapes
    of [Encoding].  Whatever is written is read back, with the replacement
    character for bytes that are not UTF-8 ([json_parse_Encode]). *)

From S2P Require Import Prelude GoStd Encoding.
From Stdlib Require Import Ascii.
From stdpp Require Import pretty.

Open Scope go_scope.
#[local] Open Scope string_scope.

#[local] Arguments String.append !_ _ /.

(** ** Values and their text *)

Set Warnings "-register-all".
Inductive Json :=
  | JNull
  | JBool (b : bool)
  | JInt (z : Z)
  | JStr (s : string)
  | JArr (l : list Json)
  | JObj (l : list (string * Json)).
Set Warnings "register-all".

Definition newline : ascii := ascii_of_nat 10.
Definition space : ascii := ascii_of_nat 32.

Fixpoint spaces (n : nat) : string := match n with O => EmptyString | S n' => String space (String space (spaces n')) end.
Definition new_line (n : nat) : string := String newline (spaces n).

Definition json_block (n : nat) (open close : ascii) (items : list string) : string :=
  match items with
  | [] => String open (String close EmptyString)
  | _ => String open (new_line (S n) +:+ strings_Join items ("," +:+ new_line (S n)) +:+ new_line n +:+ String close EmptyString)
  end.

Fixpoint json_indent (n : nat) (v : Json) : string :=
  match v with
  | JNull => "null"
  | JBool b => if b then "true" else "false"
  | JInt z => fmt_d z
  | JStr s => json_string s
  | JArr l => json_block n "["%char "]"%char (List.map (json_indent (S n)) l)
  | JObj l => json_block n "{"%char "}"%char (List.map (fun kv => json_string kv.1 +:+ ": " +:+ json_indent (S n) kv.2) l)
  end.

(** [encoder.Encode(v)] ends its output with a newline. *)
Definition json_Encode (v : Json) : string := json_indent 0 v +:+ String newline EmptyString.

(** ** Reading *)

Definition is_ws (c : ascii) : bool := (c == space) || (c == newline) || (c == ascii_of_nat 9) || (c == ascii_of_nat 13).
Fixpoint skip_ws (s : string) : string :=
  match s with
  | String c s' => if is_ws c then skip_ws s' else s
  | EmptyString => EmptyString
  end.

Definition digit (c : ascii) : option N :=
  let n := nat_of_ascii c in if ((48 <=? n) && (n <=? 57))%nat then Some (N.of_nat (n - 48)) else None.
Fixpoint read_digits (acc : N) (s : string) : N * string :=
  match s with
  | String c s' => match digit c with Some d => read_digits (10 * acc + d) s' | None => (acc, s) end
  | EmptyString => (acc, EmptyString)
  end.
Definition read_N (s : string) : option (N * string) :=
  match s with
  | String c _ => _ ← digit c; Some (read_digits 0 s)
  | EmptyString => None
  end.

Definition strip (p s : string) : option string := if strings_HasPrefix s p then Some (strings_TrimPrefix s p) else None.

(** Each call consumes one unit of [fuel]; the length of the text suffices. *)
Fixpoint json_value (fuel : nat) (s : string) : option (Json * string) :=
  match fuel with
  | O => None
  | S f =>
      match skip_ws s with
      | EmptyString => None
      | String c r =>
          if c == dquote then '(t, r') ← json_unquote_bytes r; Some (JStr t, r')
          else if c == "["%char then
            match expect "]"%char (skip_ws r) with
            | Some r' => Some (JArr [], r')
            | None => '(l, r') ← json_items f r; Some (JArr l, r')
            end
          else if c == "{"%char then
            match expect "}"%char (skip_ws r) with
            | Some r' => Some (JObj [], r')
            | None => '(l, r') ← json_fields f r; Some (JObj l, r')
            end
          else if c == "n"%char then r' ← strip "ull" r; Some (JNull, r')
          else if c == "t"%char then r' ← strip "rue" r; Some (JBool true, r')
          else if c == "f"%char then r' ← strip "alse" r; Some (JBool false, r')
          else if c == "-"%char then '(n, r') ← read_N r; Some (JInt (- Z.of_N n), r')
          else '(n, r') ← read_N (String c r); Some (JInt (Z.of_N n), r')
      end
  end
with json_items (fuel : nat) (s : string) : option (list Json * string) :=
  match fuel with
  | O => None
  | S f =>
      '(v, r) ← json_value f s;
      match skip_ws r with
      | String c r' =>
          if c == ","%char then '(l, r'') ← json_items f r'; Some (v :: l, r'')
          else if c == "]"%char then Some ([v], r') else None
      | EmptyString => None
      end
  end
with json_fields (fuel : nat) (s : string) : option (list (string * Json) * string) :=
  match fuel with
  | O => None
  | S f =>
      '(k, r) ← json_unquote (skip_ws s); r1 ← expect ":"%char (skip_ws r); '(v, r2) ← json_value f r1;
      match skip_ws r2 with
      | String c r' =>
          if c == ","%char then '(l, r'') ← json_fields f r'; Some ((k, v) :: l, r'')
          else if c == "}"%char then Some ([(k, v)], r') else None
      | EmptyString => None
      end
  end.

Definition json_parse (s : string) : option Json :=
  '(v, r) ← json_value (String.length s) s; if skip_ws r == EmptyString then Some v else None.

Example json_parse_example :
  json_parse (json_Encode (JObj [("a", JArr [JInt (-12); JNull; JArr []]); ("b", JObj [("c", JStr "x<y")]); ("d", JBool false)])) =
  Some (JObj [("a", JArr [JInt (-12); JNull; JArr []]); ("b", JObj [("c", JStr "x<y")]); ("d", JBool false)]).
Proof. vm_compute. reflexivity. Qed.

(** ** What is written is read back *)

(** The document with its strings cleaned of what is not UTF-8, and whether
    there is nothing to clean. *)
Fixpoint json_clean (v : Json) : Json :=
  match v with
  | JStr s => JStr (utf8_clean s)
  | JArr l => JArr (List.map json_clean l)
  | JObj l => JObj (List.map (fun kv => (utf8_clean kv.1, json_clean kv.2)) l)
  | _ => v
  end.
Fixpoint json_utf8 (v : Json) : bool :=
  match v with
  | JStr s => utf8_valid s
  | JArr l => forallb json_utf8 l
  | JObj l => forallb (fun kv => utf8_valid kv.1 && json_utf8 kv.2) l
  | _ => true
  end.

Example json_parse_not_utf8 :
  let separator := String (ascii_of_nat 226) (String (ascii_of_nat 128) (String (ascii_of_nat 168) EmptyString)) in
  let s := String (ascii_of_nat 255) (separator +:+ "é") in
  json_Encode (JStr s) = String dquote (String backslash ("ufffd" +:+ String backslash ("u2028é" +:+ String dquote (String newline EmptyString)))) ∧
  json_parse (json_Encode (JStr s)) = Some (JStr (replacement +:+ separator +:+ "é")).
Proof. split; vm_compute; reflexivity. Qed.

Definition each {A} {Q : A -> Prop} (H : ∀ a, Q a) : ∀ l, Forall Q l :=
  fix go l := match l with [] => Forall_nil_2 Q | a :: l' => Forall_cons_2 Q a l' (H a) (go l') end.

Section json_induction.
Variable P : Json -> Prop.
Hypothesis HNull : P JNull.
Hypothesis HBool : ∀ b, P (JBool b).
Hypothesis HInt : ∀ z, P (JInt z).
Hypothesis HStr : ∀ s, P (JStr s).
Hypothesis HArr : ∀ l, Forall P l → P (JArr l).
Hypothesis HObj : ∀ l, Forall (fun kv => P kv.2) l → P (JObj l).

Fixpoint Json_nested_ind (v : Json) : P v :=
  match v with
  | JNull => HNull
  | JBool b => HBool b
  | JInt z => HInt z
  | JStr s => HStr s
  | JArr l => HArr l (each Json_nested_ind l)
  | JObj l => HObj l (each (fun kv => Json_nested_ind kv.2) l)
  end.
End json_induction.

(** The fuel that reading a value takes. *)
Fixpoint json_size (v : Json) : nat :=
  match v with
  | JArr l => S (list_sum (List.map (fun v => S (json_size v)) l))
  | JObj l => S (list_sum (List.map (fun kv => S (json_size kv.2)) l))
  | _ => 1
  end.

Lemma skip_new_line n s : skip_ws (new_line n +:+ s) = skip_ws s.
Proof. unfold new_line. simpl. induction n as [|n IH]; [done|]. simpl. exact IH. Qed.

Lemma json_value_new_line fuel n s : json_value fuel (new_line n +:+ s) = json_value fuel s.
Proof. destruct fuel as [|f]; [done|]. cbn [json_value]. by rewrite skip_new_line. Qed.

(** What may follow a number. *)
Definition no_digit (s : string) : bool := match s with String c _ => bool_decide (digit c = None) | EmptyString => true end.

Lemma no_digit_new_line n s : no_digit (new_line n +:+ s) = true.
Proof. reflexivity. Qed.

Lemma digit_pretty x : (x < 10)%N → digit (pretty_N_char x) = Some x.
Proof. intros. assert (x = 0 ∨ x = 1 ∨ x = 2 ∨ x = 3 ∨ x = 4 ∨ x = 5 ∨ x = 6 ∨ x = 7 ∨ x = 8 ∨ x = 9)%N by lia. naive_solver. Qed.

Lemma read_digits_pretty x s : read_digits 0 (pretty_N_go x s) = read_digits x s.
Proof.
  revert s. induction (N.lt_wf_0 x) as [x _ IH]; intros s. assert (x = 0 ∨ 0 < x)%N as [->|Hx] by lia; [done|].
  rewrite pretty_N_go_step, IH by (try apply N.div_lt; lia). simpl.
  pose proof (N.mod_lt x 10 ltac:(done)) as Hm. rewrite digit_pretty by lia. f_equal. symmetry. apply N.div_mod'.
Qed.

Lemma pretty_N_go_append x s t : pretty_N_go x s +:+ t = pretty_N_go x (s +:+ t).
Proof.
  revert s. induction (N.lt_wf_0 x) as [x _ IH]; intros s. assert (x = 0 ∨ 0 < x)%N as [->|Hx] by lia; [done|].
  rewrite pretty_N_go_step, IH by (try apply N.div_lt; lia). by rewrite (pretty_N_go_step x (s +:+ t)).
Qed.

Lemma read_digits_stop x s : no_digit s = true → read_digits x s = (x, s).
Proof. destruct s as [|c s]; [done|]. unfold no_digit. rewrite bool_decide_eq_true. simpl. by intros ->. Qed.

(** A positive number starts with a digit. *)
Lemma pretty_N_go_head x s : (0 < x)%N → ∃ c t d, pretty_N_go x s = String c t ∧ digit c = Some d.
Proof.
  revert s. induction (N.lt_wf_0 x) as [x _ IH]; intros s Hx. rewrite pretty_N_go_step by done.
  pose proof (N.mod_lt x 10 ltac:(done)) as Hm. destruct (N.eq_0_gt_0_cases (x `div` 10)) as [E|Hd].
  - rewrite E. eexists _, _, (x mod 10)%N. split; [done|]. by apply digit_pretty.
  - apply IH; [apply N.div_lt; lia|done].
Qed.

Lemma read_number x rest : no_digit rest = true → read_N (pretty x +:+ rest) = Some (x, rest).
Proof.
  intros Hr. unfold pretty, pretty_N. case_decide as Hx; [subst; simpl; by rewrite read_digits_stop|].
  rewrite pretty_N_go_append. simpl. destruct (pretty_N_go_head x rest) as (c & t & d & E & Hd); [lia|].
  unfold read_N. rewrite E, Hd. cbn [mbind option_bind]. rewrite <-E, read_digits_pretty. by rewrite read_digits_stop.
Qed.

Definition json_reads (v : Json) : Prop := ∀ n fuel rest,
  (json_size v ≤ fuel)%nat → no_digit rest = true → json_value fuel (json_indent n v +:+ rest) = Some (json_clean v, rest).

Lemma digit_plain c d : digit c = Some d →
  is_ws c = false ∧ (c == dquote) = false ∧ (c == "["%char) = false ∧ (c == "{"%char) = false ∧ (c == "n"%char) = false ∧
  (c == "t"%char) = false ∧ (c == "f"%char) = false ∧ (c == "-"%char) = false.
Proof. destruct c as [[] [] [] [] [] [] [] []]; try discriminate; intros _; vm_compute; done. Qed.

Lemma json_reads_int z : json_reads (JInt z).
Proof.
  intros n [|f] rest Hs Hr; [simpl in Hs; lia|]. cbn [json_indent json_value]. unfold fmt_d.
  assert (∀ x, json_value (S f) (pretty x +:+ rest) = Some (JInt (Z.of_N x), rest)) as Hpos.
  { intros x. pose proof (read_number x rest Hr) as Hn. destruct (pretty x +:+ rest) as [|c t] eqn:E; [done|].
    assert (∃ d, digit c = Some d) as [d Hd] by (unfold read_N in Hn; destruct (digit c); [eauto|done]).
    destruct (digit_plain _ _ Hd) as (Hw & H1 & H2 & H3 & H4 & H5 & H6 & H7).
    cbn [json_value skip_ws]. rewrite Hw, H1, H2, H3, H4, H5, H6, H7, Hn. done. }
  destruct z as [|p|p]; [exact (Hpos 0%N)|exact (Hpos (Npos p))|].
  change (pretty (Z.neg p)) with (String "-" (pretty (Npos p))). simpl. by rewrite read_number.
Qed.

(** The first character of a value is neither blank nor a closing bracket. *)
Lemma json_indent_head n v : ∃ c t, json_indent n v = String c t ∧ is_ws c = false ∧ (c == "]"%char) = false.
Proof.
  destruct v as [|[]|z|s|l|l]; cbn [json_indent].
  1-3: by eexists _, _.
  - assert (∀ x : N, ∃ c t, pretty x = String c t ∧ is_ws c = false ∧ (c == "]"%char) = false) as Hpos.
    { intros x. pose proof (read_number x EmptyString eq_refl) as Hn. rewrite string_append_nil_r in Hn.
      destruct (pretty x) as [|c t]; [done|]. exists c, t. split; [done|]. unfold read_N in Hn.
      destruct (digit c) as [d|] eqn:Hd; [|done]. clear Hn. revert Hd.
      destruct c as [[] [] [] [] [] [] [] []]; try discriminate; intros _; vm_compute; done. }
    destruct z as [|p|p]; [apply (Hpos 0%N)|apply (Hpos (Npos p))|by eexists _, _].
  - by eexists _, _.
  - destruct l; by eexists _, _.
  - destruct l; by eexists _, _.
Qed.

Lemma join_cons x y l sep : strings_Join (x :: y :: l) sep = x +:+ (sep +:+ strings_Join (y :: l) sep).
Proof. reflexivity. Qed.

Lemma json_items_ok n l fuel rest :
  l ≠ [] → Forall json_reads l → (list_sum (List.map (fun v => S (json_size v)) l) ≤ fuel)%nat →
  json_items fuel (new_line (S n) +:+ strings_Join (List.map (json_indent (S n)) l) ("," +:+ new_line (S n)) +:+
                   new_line n +:+ String "]" rest) = Some (List.map json_clean l, rest).
Proof.
  intros Hne Hl. revert fuel. induction Hl as [|v l Hv Hl IH]; intros fuel Hf; [done|]. clear Hne.
  change (S (json_size v) + list_sum (List.map (fun v => S (json_size v)) l) ≤ fuel)%nat in Hf.
  destruct fuel as [|f]; [lia|]. cbn [json_items]. rewrite json_value_new_line. destruct l as [|w l].
  - cbn [List.map strings_Join String.concat]. rewrite Hv by (done || lia). cbn [mbind option_bind]. rewrite skip_new_line. done.
  - specialize (IH ltac:(done) f ltac:(lia)). revert IH. cbn [List.map]. rewrite join_cons.
    generalize (strings_Join (json_indent (S n) w :: List.map (json_indent (S n)) l) ("," +:+ new_line (S n))). intros J IH.
    rewrite !string_append_assoc, Hv by (done || lia). cbn [mbind option_bind].
    change (skip_ws ("," +:+ ?s)) with (String "," s). cbv iota. rewrite bool_decide_eq_true_2 by done.
    change (EmptyString +:+ ?s) with s. by rewrite IH.
Qed.

Definition clean_field (kv : string * Json) : string * Json := (utf8_clean kv.1, json_clean kv.2).
Definition json_field (n : nat) (kv : string * Json) : string := json_string kv.1 +:+ ": " +:+ json_indent n kv.2.

(** One field of an object, up to what follows its value. *)
Lemma json_field_ok n kv m rest f :
  json_reads kv.2 → (json_size kv.2 ≤ f)%nat → no_digit rest = true →
  ('(k, r) ← json_unquote (skip_ws (new_line m +:+ json_field n kv +:+ rest)); r1 ← expect ":"%char (skip_ws r);
   '(v, r2) ← json_value f r1; Some (k, v, r2)) = Some (utf8_clean kv.1, json_clean kv.2, rest).
Proof.
  intros Hv Hf Hr. rewrite skip_new_line. unfold json_field. rewrite !string_append_assoc.
  change (skip_ws (json_string kv.1 +:+ ?s)) with (json_string kv.1 +:+ s). rewrite json_unquote_ok. cbn [mbind option_bind].
  change (expect ":"%char (skip_ws (": " +:+ ?s))) with (Some (String space s)). cbn [mbind option_bind].
  assert (∀ s, json_value f (String space s) = json_value f s) as -> by (by destruct f).
  rewrite Hv by done. done.
Qed.

Lemma json_fields_step f s k v r2 :
  ('(k, r) ← json_unquote (skip_ws s); r1 ← expect ":"%char (skip_ws r); '(v, r2) ← json_value f r1; Some (k, v, r2)) = Some (k, v, r2) →
  json_fields (S f) s =
  match skip_ws r2 with
  | String c r' =>
      if c == ","%char then '(l, r'') ← json_fields f r'; Some ((k, v) :: l, r'')
      else if c == "}"%char then Some ([(k, v)], r') else None
  | EmptyString => None
  end.
Proof.
  cbn [json_fields]. intros ([k' r] & -> & (r1 & Hr1 & ([v' r2'] & Hv & [= -> -> ->])%bind_Some)%bind_Some)%bind_Some.
  cbn [mbind option_bind]. rewrite Hr1. cbn [mbind option_bind]. by rewrite Hv.
Qed.

Lemma json_fields_ok n l fuel rest :
  l ≠ [] → Forall (fun kv => json_reads kv.2) l → (list_sum (List.map (fun kv => S (json_size kv.2)) l) ≤ fuel)%nat →
  json_fields fuel (new_line (S n) +:+ strings_Join (List.map (json_field (S n)) l) ("," +:+ new_line (S n)) +:+
                    new_line n +:+ String "}" rest) = Some (List.map clean_field l, rest).
Proof.
  intros Hne Hl. revert fuel. induction Hl as [|[k v] l Hv Hl IH]; intros fuel Hf; [done|]. clear Hne.
  change (S (json_size v) + list_sum (List.map (fun kv => S (json_size kv.2)) l) ≤ fuel)%nat in Hf.
  destruct fuel as [|f]; [lia|]. destruct l as [|w l].
  - cbn [List.map strings_Join String.concat]. erewrite json_fields_step by (apply (json_field_ok _ (k, v)); [done|simpl; lia|done]).
    by rewrite skip_new_line.
  - specialize (IH ltac:(done) f ltac:(lia)). revert IH. cbn [List.map]. rewrite join_cons.
    generalize (strings_Join (json_field (S n) w :: List.map (json_field (S n)) l) ("," +:+ new_line (S n))). intros J IH.
    rewrite !string_append_assoc. erewrite json_fields_step by (apply (json_field_ok _ (k, v)); [done|simpl; lia|done]).
    change (skip_ws ("," +:+ ?s)) with (String "," s). cbv iota. rewrite bool_decide_eq_true_2 by done.
    change (EmptyString +:+ ?s) with s. by rewrite IH.
Qed.

Lemma json_block_cons n open close x items rest :
  json_block n open close (x :: items) +:+ rest =
  String open (new_line (S n) +:+ strings_Join (x :: items) ("," +:+ new_line (S n)) +:+ new_line n +:+ String close rest).
Proof. unfold json_block. cbn [String.append]. by rewrite !string_append_assoc. Qed.

Lemma strip_ok p s : strip p (p +:+ s) = Some s.
Proof.
  unfold strip, strings_TrimPrefix, strings_HasPrefix. rewrite prefix_append. f_equal.
  rewrite string_length_append, Nat.add_sub_swap, Nat.sub_diag by lia. apply substring_append.
Qed.

Lemma json_reads_all v : json_reads v.
Proof.
  induction v as [|b|z|s|l Hl|l Hl] using Json_nested_ind; [| |apply json_reads_int|..]; intros n [|f] rest Hs Hr;
    try (simpl in Hs; lia); cbn [json_indent].
  - cbn [json_value]. change (skip_ws ("null" +:+ ?s)) with (String "n" ("ull" +:+ s)). cbv iota. by rewrite strip_ok.
  - cbn [json_value]. destruct b.
    + change (skip_ws ("true" +:+ ?s)) with (String "t" ("rue" +:+ s)). cbv iota. by rewrite strip_ok.
    + change (skip_ws ("false" +:+ ?s)) with (String "f" ("alse" +:+ s)). cbv iota. by rewrite strip_ok.
  - unfold json_string. cbn [String.append json_value skip_ws]. change (is_ws dquote) with false. cbv iota.
    rewrite bool_decide_eq_true_2, string_append_assoc by done. cbn [String.append]. by rewrite json_unquote_bytes_ok.
  - destruct l as [|v l]; [done|]. cbn [List.map]. rewrite json_block_cons. cbn [json_value skip_ws].
    change (is_ws "["%char) with false. cbv iota. rewrite (bool_decide_eq_false_2 ("["%char = dquote)), bool_decide_eq_true_2 by done.
    rewrite skip_new_line. destruct (json_indent_head (S n) v) as (c & t & E & Hw & Hc).
    assert (∀ s, expect "]"%char (skip_ws (strings_Join (json_indent (S n) v :: List.map (json_indent (S n)) l) ("," +:+ new_line (S n)) +:+ s)) = None) as ->.
    { intros s. unfold strings_Join. destruct l; cbn [List.map String.concat]; rewrite E; cbn [String.append skip_ws]; rewrite Hw; cbn [expect];
      rewrite bool_decide_eq_false_2; [done|by apply bool_decide_eq_false in Hc; congruence|done|by apply bool_decide_eq_false in Hc; congruence]. }
    pose proof (json_items_ok n (v :: l) f rest ltac:(done) Hl ltac:(simpl in *; lia)) as Hi. cbn [List.map] in Hi. by rewrite Hi.
  - destruct l as [|kv l]; [done|].
    change (json_block n "{"%char "}"%char _) with (json_block n "{"%char "}"%char (List.map (json_field (S n)) (kv :: l))).
    pose proof (json_fields_ok n (kv :: l) f rest ltac:(done) Hl ltac:(simpl in *; lia)) as Hi. revert Hi.
    cbn [List.map]. rewrite json_block_cons. intros Hi. cbn [json_value skip_ws]. change (is_ws "{"%char) with false. cbv iota.
    rewrite skip_new_line, Hi. unfold strings_Join, json_field, json_string. by destruct l.
Qed.

(** The fuel that reading takes is bounded by the text. *)
Lemma json_items_length {A} (f : A -> string) (size : A -> nat) n sep l :
  Forall (fun a => size a ≤ String.length (f a))%nat l →
  (list_sum (List.map (fun a => S (size a)) l) ≤ String.length (strings_Join (List.map f l) ("," +:+ sep)) + n + 1)%nat.
Proof.
  induction 1 as [|a l Ha Hl IH]; [simpl; lia|]. destruct l as [|b l]; [unfold strings_Join; simpl; lia|].
  change (S (size a) + list_sum (List.map (fun a => S (size a)) (b :: l)) ≤
          String.length (strings_Join (f a :: f b :: List.map f l) ("," +:+ sep)) + n + 1)%nat.
  change (f b :: List.map f l) with (List.map f (b :: l)) in IH |- *. revert IH.
  generalize (list_sum (List.map (fun a => S (size a)) (b :: l))). intros m IH. cbn [List.map] in *. rewrite join_cons.
  rewrite !string_length_append. assert (String.length "," = 1)%nat by done. lia.
Qed.

Lemma json_block_length n open close items :
  items ≠ [] → String.length (json_block n open close items) =
  (4 + String.length (strings_Join items ("," +:+ new_line (S n))) + String.length (spaces (S n)) + String.length (spaces n))%nat.
Proof.
  destruct items as [|x items]; [done|]. intros _. unfold json_block.
  generalize (strings_Join (x :: items) ("," +:+ new_line (S n))). intros J. unfold new_line. cbn [String.length].
  rewrite !string_length_append. cbn [String.length]. lia.
Qed.

Lemma json_size_length n v : (json_size v ≤ String.length (json_indent n v))%nat.
Proof.
  revert n. induction v as [|b|z|s|l Hl|l Hl] using Json_nested_ind; intros n.
  1-4: match goal with |- (_ ≤ String.length (json_indent ?m ?v))%nat =>
         destruct (json_indent_head m v) as (c & t & E & _) end; rewrite E; simpl; lia.
  - destruct l as [|v l]; [simpl; lia|]. cbn [json_indent]. rewrite json_block_length by done. unfold json_size. fold json_size.
    pose proof (json_items_length (json_indent (S n)) json_size 0 (new_line (S n)) (v :: l)) as Hlen.
    ospecialize (Hlen _); [by eapply Forall_impl; [exact Hl|]|]. lia.
  - destruct l as [|kv l]; [simpl; lia|].
    change (json_indent n (JObj (kv :: l))) with (json_block n "{"%char "}"%char (List.map (json_field (S n)) (kv :: l))).
    rewrite json_block_length by done. unfold json_size. fold json_size.
    pose proof (json_items_length (json_field (S n)) (fun kv => json_size kv.2) 0 (new_line (S n)) (kv :: l)) as Hlen.
    ospecialize (Hlen _); [|lia]. eapply Forall_impl; [exact Hl|]. intros [k v] Hv. unfold json_field. rewrite !string_length_append.
    specialize (Hv (S n)). simpl in *. lia.
Qed.

Lemma json_parse_Encode v : json_parse (json_Encode v) = Some (json_clean v).
Proof.
  unfold json_parse, json_Encode. rewrite json_reads_all; [done| |done].
  rewrite string_length_append. pose proof (json_size_length 0 v). lia.
Qed.

Lemma map_id_forallb {A} (f : A -> A) (p : A -> bool) l :
  Forall (fun a => p a = true → f a = a) l → forallb p l = true → List.map f l = l.
Proof. induction 1 as [|a l Ha Hl IH]; simpl; [done|]. intros [? ?]%andb_true_iff. by rewrite Ha, IH. Qed.

Lemma json_clean_utf8 v : json_utf8 v = true → json_clean v = v.
Proof.
  induction v as [|b|z|s|l Hl|l Hl] using Json_nested_ind; simpl; try done.
  - intros ?. by rewrite utf8_clean_valid.
  - intros Hv. f_equal. by eapply map_id_forallb.
  - intros Hv. f_equal. revert Hv. apply map_id_forallb. eapply Forall_impl; [exact Hl|]. intros [k v] Hv [? ?]%andb_true_iff.
    simpl in *. by rewrite utf8_clean_valid, Hv.
Qed.

Lemma json_Encode_inj v w : json_utf8 v = true → json_utf8 w = true → json_Encode v = json_Encode w → v = w.
Proof. intros Hv Hw E%(f_equal json_parse). rewrite !json_parse_Encode, !json_clean_utf8 in E by done. by injection E. Qed.
