(* ===== verification/Types.v ===== *)
(** * The data model: package internal/types and the values it is built of

    [Constraint] is the record of internal/types/constraint.go.  A Go pointer
    or a nil-able slice or map whose nil-ness the sources test is an [option];
    a slice only read through [len] and [range] is a list.  [GoVal] is the
    dynamic content of an [interface{}]: its constructors are the dynamic
    types the sources store and assert, so that a type assertion that names
    the wrong one fails here as it does in Go. *)

From S2P Require Import Prelude GoStd.
From Stdlib Require Import SpecFloat.

(** ** Identifiers of Kubernetes objects *)

Abbreviation UID := string (only parsing).
Abbreviation error := string (only parsing).

(** schema.GroupVersionResource *)
Record GroupVersionResource := mkGVR {
  g_Group : string;
  g_Version : string;
  g_Resource : string;
}.

#[export] Instance GVR_eq_dec : EqDecision GroupVersionResource.
Proof. solve_decision. Defined.

#[export] Program Instance GVR_countable : Countable GroupVersionResource :=
  inj_countable' (fun g => (g_Group g, g_Version g, g_Resource g))
                 (fun t => mkGVR t.1.1 t.1.2 t.2) _.
Next Obligation. by intros []. Qed.

(** ** Label selectors (metav1.LabelSelector) *)

Record LabelSelectorRequirement := mkRequirement {
  lr_Key : string;
  lr_Operator : string;
  lr_Values : list string;
}.

Record LabelSelector := mkLabelSelector {
  ls_MatchLabels : gmap string string;
  ls_MatchExpressions : list LabelSelectorRequirement;
}.

(** ** Constraint categories *)

Abbreviation ConstraintType := string (only parsing).
Abbreviation Severity := string (only parsing).
Abbreviation DetailLevel := string (only parsing).

Definition ConstraintTypeNetworkIngress : ConstraintType := "NetworkIngress".
Definition ConstraintTypeNetworkEgress : ConstraintType := "NetworkEgress".
Definition ConstraintTypeAdmission : ConstraintType := "Admission".
Definition ConstraintTypeResourceLimit : ConstraintType := "ResourceLimit".
Definition ConstraintTypeMeshPolicy : ConstraintType := "MeshPolicy".
Definition ConstraintTypeMissing : ConstraintType := "MissingResource".
Definition ConstraintTypeUnknown : ConstraintType := "Unknown".

Definition SeverityCritical : Severity := "Critical".
Definition SeverityWarning : Severity := "Warning".
Definition SeverityInfo : Severity := "Info".

(** Critical comes before warning, warning before info, and these before anything else. *)
Definition no_less_severe (s t : Severity) : Prop :=
  (t = "Critical" → s = "Critical") ∧ (t = "Warning" → s = "Critical" ∨ s = "Warning") ∧
  (t = "Info" → s = "Critical" ∨ s = "Warning" ∨ s = "Info").

Lemma ranked_no_less_severe s t :
  (switch t [("Critical", 0); ("Warning", 1); ("Info", 2)] 3 <? switch s [("Critical", 0); ("Warning", 1); ("Info", 2)] 3)%Z = false →
  no_less_severe s t.
Proof.
  rewrite Z.ltb_ge. unfold no_less_severe. intros H.
  split_and!; intros ->; revert H; cbn [switch]; repeat case_bool_decide; simplify_eq; naive_solver lia.
Qed.

Definition DetailLevelSummary : DetailLevel := "summary".
Definition DetailLevelDetailed : DetailLevel := "detailed".
Definition DetailLevelFull : DetailLevel := "full".

(** ** Resource targets and remediation steps *)

Record ResourceTarget := mkTarget {
  rt_APIGroups : list string;
  rt_Resources : list string;
}.

Record RemediationStep := mkStep {
  rs_Type : string;
  rs_Description : string;
  rs_Command : string;
  rs_Patch : string;
  rs_Template : string;
  rs_URL : string;
  rs_Contact : string;
  rs_RequiresPrivilege : string;
}.

(** ** The dynamic values of [interface{}] *)

Set Warnings "-register-all".
Inductive GoVal :=
  | VNil
  | VStr (s : string)                               (**r string *)
  | VBool (b : bool)                                (**r bool *)
  | VInt64 (z : Z)                                  (**r int64, the integers of decoded JSON *)
  | VInt (z : Z)                                    (**r int *)
  | VFloat (f : spec_float)                         (**r float64 *)
  | VSlice (l : list GoVal)                         (**r []interface{} *)
  | VMap (m : gmap string GoVal)                    (**r map[string]interface{} *)
  | VStrs (l : list string)                         (**r []string *)
  | VStrMap (m : gmap string string)                (**r map[string]string *)
  | VMapMap (m : gmap string (gmap string GoVal))   (**r map[string]map[string]interface{} *)
  | VTargets (l : list ResourceTarget).             (**r []types.ResourceTarget *)
Set Warnings "register-all".

(** The assertions [v.(string)], [v.(map[string]interface{})], ... *)
Definition as_string (v : GoVal) : option string :=
  match v with VStr s => Some s | _ => None end.
Definition as_map (v : GoVal) : option (gmap string GoVal) :=
  match v with VMap m => Some m | _ => None end.
Definition as_slice (v : GoVal) : option (list GoVal) :=
  match v with VSlice l => Some l | _ => None end.
Definition as_int (v : GoVal) : option Z :=
  match v with VInt z => Some z | _ => None end.
Definition as_float64 (v : GoVal) : option spec_float :=
  match v with VFloat f => Some f | _ => None end.

(** [m[k].(string)] of a nil-able [map[string]interface{}]. *)
Definition map_string (m : option (gmap string GoVal)) (k : string) : option string :=
  d ← m; v ← d !! k; as_string v.

(** unstructured.Unstructured *)
Record Unstructured := mkUnstructured { Object : gmap string GoVal }.

(** ** The normalized constraint (internal/types/constraint.go) *)

Record Constraint := mkConstraint {
  c_UID : UID;
  c_Source : GroupVersionResource;
  c_Name : string;
  c_Namespace : string;
  c_AffectedNamespaces : list string;
  c_NamespaceSelector : option LabelSelector;
  c_WorkloadSelector : option LabelSelector;
  c_ResourceTargets : list ResourceTarget;
  c_ConstraintType : ConstraintType;
  c_Effect : string;
  c_Severity : Severity;
  c_Details : option (gmap string GoVal);
  c_Summary : string;
  c_RemediationHint : string;
  c_Remediation : list RemediationStep;
  c_Tags : list string;
  c_RawObject : option Unstructured;
}.

(** ** The interfaces of internal/types/adapter.go *)

(** [Parse] returns the pair of Go's two results; its [error] is [None] for nil. *)
Record Adapter := mkAdapter {
  a_Name : string;
  a_Handles : list GroupVersionResource;
  a_Parse : Unstructured -> list Constraint * option error;
}.

(** The queries a rule makes of the cluster, as it is at one instant. *)
Record RequirementEvalContext := mkEvalContext {
  ec_GetNamespace : string -> Unstructured + error;
  ec_ListByGVR : GroupVersionResource -> string -> list Unstructured + error;
  ec_FindMatchingResources :
    GroupVersionResource -> string -> gmap string string -> list Unstructured + error;
}.

Record RequirementRule := mkRule {
  r_Name : string;
  r_Description : string;
  r_Evaluate : Unstructured -> RequirementEvalContext -> list Constraint + error;
}.

(** A constraint with the fields of identity and scope given, for evaluation. *)
Definition example_constraint (uid : UID) (src : GroupVersionResource) (name ns : string)
    (affected : list string) (ct : ConstraintType) (sev : Severity) : Constraint :=
  {| c_UID := uid; c_Source := src; c_Name := name; c_Namespace := ns;
     c_AffectedNamespaces := affected; c_NamespaceSelector := None; c_WorkloadSelector := None;
     c_ResourceTargets := []; c_ConstraintType := ct; c_Effect := "deny"; c_Severity := sev;
     c_Details := None; c_Summary := "summary text"; c_RemediationHint := EmptyString; c_Remediation := [];
     c_Tags := []; c_RawObject := None |}.

Definition networkpolicies_gvr : GroupVersionResource :=
  mkGVR "networking.k8s.io" "v1" "networkpolicies".
