(* ===== verification/Apimachinery.v ===== *)
(** * What the sources use of k8s.io/apimachinery

    The library is not part of the repository: its functions are the fields of
    the class [Apimachinery], over which every definition that calls them is
    parametric, and [ApimachineryLaws] states the documented behaviour some of
    the theorems rely on.  [reference_apimachinery] is a concrete instance
    that satisfies the laws, on which the definitions are evaluated. *)

From S2P Require Import Prelude GoStd Types.
From Stdlib Require Import Ascii.

(** The value at a field path of a decoded JSON object. *)
Fixpoint field_at (obj : gmap string GoVal) (fields : list string) : option GoVal :=
  match fields with
  | [] => Some (VMap obj)
  | [f] => obj !! f
  | f :: fs => v ← obj !! f; m ← as_map v; field_at m fs
  end.

(** The strings of a [[]interface{}], when it holds nothing else. *)
Definition all_strings (l : list GoVal) : option (list string) := mapM as_string l.

(** An operator with the number of values it takes. *)
Definition requirement_valid (r : LabelSelectorRequirement) : bool :=
  switch (lr_Operator r)
    [("In", (lr_Values r != [])%go); ("NotIn", (lr_Values r != [])%go);
     ("Exists", (lr_Values r == [])%go); ("DoesNotExist", (lr_Values r == [])%go)]%string false.

(** The documented meaning of a label selector: each requirement, and each
    [matchLabels] pair as an [In] requirement with one value, must hold. *)
Definition requirement_holds (lbls : gmap string string) (r : LabelSelectorRequirement) : bool :=
  switch (lr_Operator r)
    [("In", match lbls !! lr_Key r with Some v => bool_decide (v ∈ lr_Values r) | None => false end);
     ("NotIn", match lbls !! lr_Key r with Some v => bool_decide (v ∉ lr_Values r) | None => true end);
     ("Exists", bool_decide (is_Some (lbls !! lr_Key r)));
     ("DoesNotExist", bool_decide (lbls !! lr_Key r = None))]%string false.

Definition selector_holds (ls : LabelSelector) (lbls : gmap string string) : bool :=
  bool_decide (map_Forall (fun k v => lbls !! k = Some v) (ls_MatchLabels ls)) &&
  forallb (requirement_holds lbls) (ls_MatchExpressions ls).

(** schema.GroupVersionKind *)
Record GroupVersionKind := mkGVK { k_Group : string; k_Version : string; k_Kind : string }.

(** The results of [unstructured.NestedX]: value, found, error. *)
Abbreviation nested A := (A * bool * option error)%type.

Class Apimachinery := {
  NestedString : gmap string GoVal -> list string -> nested string;
  NestedBool : gmap string GoVal -> list string -> nested bool;
  NestedInt64 : gmap string GoVal -> list string -> nested Z;
  NestedStringSlice : gmap string GoVal -> list string -> nested (list string);
  NestedMap : gmap string GoVal -> list string -> nested (gmap string GoVal);
  NestedSlice : gmap string GoVal -> list string -> nested (list GoVal);
  GetName : Unstructured -> string;
  GetNamespace : Unstructured -> string;
  GetUID : Unstructured -> UID;
  GetKind : Unstructured -> string;
  GetLabels : Unstructured -> option (gmap string string);
  GetAnnotations : Unstructured -> option (gmap string string);
  GetGroupVersionKind : Unstructured -> GroupVersionKind;
  Selector : Type;
  LabelSelectorAsSelector : LabelSelector -> Selector + error;
  SelectorFromSet : gmap string string -> Selector;
  Selector_Matches : Selector -> gmap string string -> bool;
  ParseGroupVersion : string -> (string * string) + error;
}.

Class ApimachineryLaws (A : Apimachinery) : Prop := {
  NestedString_spec obj fs s :
    NestedString obj fs = (s, true, None) ↔ field_at obj fs = Some (VStr s);
  NestedMap_spec obj fs m :
    NestedMap obj fs = (m, true, None) ↔ field_at obj fs = Some (VMap m);
  NestedSlice_spec obj fs l :
    NestedSlice obj fs = (l, true, None) ↔ field_at obj fs = Some (VSlice l);
  NestedStringSlice_spec obj fs l :
    NestedStringSlice obj fs = (l, true, None) ↔
    ∃ vs, field_at obj fs = Some (VSlice vs) ∧ all_strings vs = Some l;
  NestedMap_found obj fs m err : NestedMap obj fs = (m, true, err) → err = None;
  NestedSlice_found obj fs l err : NestedSlice obj fs = (l, true, err) → err = None;
  LabelSelectorAsSelector_ok ls s lbls :
    LabelSelectorAsSelector ls = inl s → Selector_Matches s lbls = selector_holds ls lbls;
}.

(** ** A concrete instance *)

Definition found_as {A} (dflt : A) (conv : GoVal -> option A) (o : option GoVal) : nested A :=
  match o with
  | None => (dflt, false, None)
  | Some v => match conv v with
              | Some a => (a, true, None)
              | None => (dflt, false, Some "accessor error"%string)
              end
  end.

Definition as_bool (v : GoVal) : option bool := match v with VBool b => Some b | _ => None end.
Definition as_int64 (v : GoVal) : option Z := match v with VInt64 z => Some z | _ => None end.
Definition as_string_slice (v : GoVal) : option (list string) := l ← as_slice v; all_strings l.
Definition as_string_map (v : GoVal) : option (gmap string string) :=
  match as_map v with
  | Some m => let sm : gmap string string := omap as_string m in
              if (size sm == size m)%go then Some sm else None
  | None => None
  end.

Definition meta_string (obj : Unstructured) (f : string) : string :=
  default EmptyString (v ← field_at (Object obj) ["metadata"%string; f]; as_string v).

Definition reference_gvk (obj : Unstructured) : GroupVersionKind :=
  let api := default EmptyString (v ← Object obj !! "apiVersion"%string; as_string v) in
  let kind := default EmptyString (v ← Object obj !! "kind"%string; as_string v) in
  match strings_SplitN2 api "/"%char with
  | [g; v] => mkGVK g v kind
  | _ => mkGVK EmptyString api kind
  end.

#[export] Instance reference_apimachinery : Apimachinery := {
  NestedString obj fs := found_as EmptyString as_string (field_at obj fs);
  NestedBool obj fs := found_as false as_bool (field_at obj fs);
  NestedInt64 obj fs := found_as 0%Z as_int64 (field_at obj fs);
  NestedStringSlice obj fs := found_as [] as_string_slice (field_at obj fs);
  NestedMap obj fs := found_as ∅ as_map (field_at obj fs);
  NestedSlice obj fs := found_as [] as_slice (field_at obj fs);
  GetName obj := meta_string obj "name";
  GetNamespace obj := meta_string obj "namespace";
  GetUID obj := meta_string obj "uid";
  GetKind obj := default EmptyString (v ← Object obj !! "kind"%string; as_string v);
  GetLabels obj := v ← field_at (Object obj) ["metadata"; "labels"]%string; as_string_map v;
  GetAnnotations obj := v ← field_at (Object obj) ["metadata"; "annotations"]%string; as_string_map v;
  GetGroupVersionKind := reference_gvk;
  Selector := LabelSelector;
  LabelSelectorAsSelector ls :=
    if forallb requirement_valid (ls_MatchExpressions ls) then inl ls else inr "invalid selector"%string;
  SelectorFromSet m := mkLabelSelector m [];
  Selector_Matches := selector_holds;
  ParseGroupVersion gv :=
    match strings_Split gv "/"%char with
    | [v] => inl (EmptyString, v)
    | [g; v] => inl (g, v)
    | _ => inr "unexpected GroupVersion string"%string
    end;
}.

Lemma found_as_found {A} (d a : A) conv o err : found_as d conv o = (a, true, err) → err = None.
Proof. unfold found_as. destruct o as [v|]; [destruct (conv v)|]; naive_solver. Qed.

Lemma found_as_spec {A} (d a : A) conv o :
  found_as d conv o = (a, true, None) ↔ ∃ v, o = Some v ∧ conv v = Some a.
Proof. unfold found_as. destruct o as [v|]; [destruct (conv v) eqn:E|]; naive_solver congruence. Qed.

#[export] Instance reference_laws : ApimachineryLaws reference_apimachinery.
Proof.
  split; cbn [NestedString NestedMap NestedSlice NestedStringSlice LabelSelectorAsSelector
              Selector_Matches reference_apimachinery].
  1-3: intros obj fs x; rewrite found_as_spec; split; [|naive_solver];
    intros (v & -> & Hv); destruct v; naive_solver.
  - intros obj fs l. rewrite found_as_spec. split.
    + intros (v & -> & Hv). destruct v; naive_solver.
    + intros (vs & -> & Hvs). by exists (VSlice vs).
  - intros obj fs m err. apply found_as_found.
  - intros obj fs l err. apply found_as_found.
  - intros ls s lbls. case_match; naive_solver.
Qed.
