(* ===== verification/Util.v ===== *)
(** * Package internal/util: safe accessors, label matching, deduplication *)

From S2P Require Import Prelude GoStd Types Apimachinery.

Open Scope go_scope.

(** ** internal/util/unstructured.go

    A [nil] object is [None]; so is the nil slice or map the accessors return
    for a missing or ill-typed field. *)

Section unstructured.
Context {AM : Apimachinery}.

(** [if err != nil || !found { return zero }; return val] *)
Definition safe_value {A} (zero : A) (r : nested A) : A :=
  let '(val, found, err) := r in
  if (err != None) || negb found then zero else val.

Definition safe_option {A} (r : nested A) : option A :=
  let '(val, found, err) := r in
  if (err != None) || negb found then None else Some val.

Definition SafeNestedString (obj : option (gmap string GoVal)) (fields : list string) : string :=
  match obj with
  | None => EmptyString
  | Some o => safe_value EmptyString (NestedString o fields)
  end.

Definition SafeNestedBool (obj : option (gmap string GoVal)) (fields : list string) : bool :=
  match obj with
  | None => false
  | Some o => safe_value false (NestedBool o fields)
  end.

Definition SafeNestedInt64 (obj : option (gmap string GoVal)) (fields : list string) : Z :=
  match obj with
  | None => 0
  | Some o => safe_value 0%Z (NestedInt64 o fields)
  end.

Definition SafeNestedStringSlice (obj : option (gmap string GoVal)) (fields : list string) : list string :=
  match obj with
  | None => []
  | Some o => safe_value [] (NestedStringSlice o fields)
  end.

Definition SafeNestedMap (obj : option (gmap string GoVal)) (fields : list string) : option (gmap string GoVal) :=
  match obj with
  | None => None
  | Some o => safe_option (NestedMap o fields)
  end.

Definition SafeNestedSlice (obj : option (gmap string GoVal)) (fields : list string) : option (list GoVal) :=
  match obj with
  | None => None
  | Some o => safe_option (NestedSlice o fields)
  end.

Definition SafeStringFromMap (m : option (gmap string GoVal)) (key : string) : string :=
  match m with
  | None => EmptyString
  | Some m' => match m' !! key with
               | None => EmptyString
               | Some val => default EmptyString (as_string val)
               end
  end.

(** The [values] of one expression: the strings among the elements. *)
Definition string_values (l : list GoVal) : list string := omap as_string l.

(** One element of [matchExpressions]. *)
Definition parse_requirement (exprMap : gmap string GoVal) : LabelSelectorRequirement :=
  mkRequirement (SafeStringFromMap (Some exprMap) "key")
                (SafeStringFromMap (Some exprMap) "operator")
                match SafeNestedSlice (Some exprMap) ["values"]%string with
                | Some valuesRaw => string_values valuesRaw
                | None => []
                end.

Definition SafeNestedLabelSelector (obj : option (gmap string GoVal)) (fields : list string) : option LabelSelector :=
  match SafeNestedMap obj fields with
  | None => None
  | Some selectorMap =>
      let matchLabels :=
        match SafeNestedMap (Some selectorMap) ["matchLabels"]%string with
        | Some raw => omap as_string raw
        | None => ∅
        end in
      let expressions :=
        match SafeNestedSlice (Some selectorMap) ["matchExpressions"]%string with
        | Some raw => parse_requirement <$> omap as_map raw
        | None => []
        end in
      Some (mkLabelSelector matchLabels expressions)
  end.

(** ** internal/util/labels.go *)

Definition MatchesLabelSelector (selector : option LabelSelector) (lbls : gmap string string) : bool :=
  match selector with
  | None => true
  | Some ls =>
      if (size (ls_MatchLabels ls) == 0) && (ls_MatchExpressions ls == []) then true
      else match LabelSelectorAsSelector ls with
           | inr _ => false
           | inl sel => Selector_Matches sel lbls
           end
  end.
End unstructured.

(** ** internal/util/strings.go *)

(** The loop of [UniqueStrings], with its [seen] set. *)
Fixpoint unique_loop (seen : gset string) (s : list string) : list string :=
  match s with
  | [] => []
  | v :: s' => if bool_decide (v ∈ seen) then unique_loop seen s'
               else v :: unique_loop ({[v]} ∪ seen) s'
  end.

Definition UniqueStrings (s : list string) : list string := unique_loop ∅ s.

(** ** Lemmas *)

Section accessor_lemmas.
Context {AM : Apimachinery} {AML : ApimachineryLaws AM}.

Lemma safe_option_Some {A} (r : nested A) v : safe_option r = Some v ↔ r = (v, true, None).
Proof. destruct r as [[w []] [e|]]; simpl; naive_solver. Qed.

Lemma SafeNestedMap_Some obj fs m :
  SafeNestedMap (Some obj) fs = Some m ↔ field_at obj fs = Some (VMap m).
Proof. unfold SafeNestedMap. by rewrite safe_option_Some, NestedMap_spec. Qed.

Lemma SafeNestedSlice_Some obj fs l :
  SafeNestedSlice (Some obj) fs = Some l ↔ field_at obj fs = Some (VSlice l).
Proof. unfold SafeNestedSlice. by rewrite safe_option_Some, NestedSlice_spec. Qed.

Lemma SafeNestedString_of obj fs s :
  field_at obj fs = Some (VStr s) → SafeNestedString (Some obj) fs = s.
Proof. intros H. unfold SafeNestedString. by rewrite (proj2 (NestedString_spec _ _ _) H). Qed.
End accessor_lemmas.

(** The decoded JSON form of a label selector. *)
Definition encode_requirement (r : LabelSelectorRequirement) : GoVal :=
  VMap {[ "key" := VStr (lr_Key r); "operator" := VStr (lr_Operator r);
          "values" := VSlice (VStr <$> lr_Values r) ]}%string.

Definition encode_selector (ls : LabelSelector) : GoVal :=
  VMap {[ "matchLabels" := VMap (VStr <$> ls_MatchLabels ls);
          "matchExpressions" := VSlice (encode_requirement <$> ls_MatchExpressions ls) ]}%string.

Lemma string_values_encode (l : list string) : string_values (VStr <$> l) = l.
Proof. unfold string_values. induction l; simpl; f_equal; done. Qed.

Section selector_lemmas.
Context {AM : Apimachinery} {AML : ApimachineryLaws AM}.

Lemma parse_encode_requirement r m :
  encode_requirement r = VMap m → parse_requirement m = r.
Proof.
  unfold encode_requirement. intros [= <-]. destruct r as [k op vs]. unfold parse_requirement.
  rewrite (proj2 (SafeNestedSlice_Some _ ["values"%string] (VStr <$> vs))) by done.
  by rewrite string_values_encode.
Qed.

Lemma parse_encode_requirements (l : list LabelSelectorRequirement) : parse_requirement <$> omap as_map (encode_requirement <$> l) = l.
Proof.
  induction l as [|r l IH]; [done|]. rewrite fmap_cons. simpl. f_equal; [|done].
  by apply parse_encode_requirement.
Qed.

Lemma omap_as_string_encode (m : gmap string string) :
  omap as_string (VStr <$> m) = m.
Proof.
  apply map_eq. intros i. rewrite lookup_omap, lookup_fmap. by destruct (m !! i).
Qed.

Lemma selector_roundtrip obj fields ls :
  field_at obj fields = Some (encode_selector ls) →
  SafeNestedLabelSelector (Some obj) fields = Some ls.
Proof.
  intros Hf. unfold SafeNestedLabelSelector, encode_selector in *.
  rewrite (proj2 (SafeNestedMap_Some _ _ _) Hf).
  rewrite (proj2 (SafeNestedMap_Some _ ["matchLabels"%string] (VStr <$> ls_MatchLabels ls))) by done.
  rewrite (proj2 (SafeNestedSlice_Some _ ["matchExpressions"%string]
    (encode_requirement <$> ls_MatchExpressions ls))) by done.
  rewrite omap_as_string_encode, parse_encode_requirements. by destruct ls.
Qed.

(** A label selector read back from its JSON form under any field path is
    that selector: no pair, operator or value is lost or invented. *)
Theorem SafeNestedLabelSelector_roundtrip obj fields ls :
  field_at obj fields = Some (encode_selector ls) →
  SafeNestedLabelSelector (Some obj) fields = Some ls.
Proof. apply selector_roundtrip. Qed.

Lemma selector_holds_empty ls lbls :
  (size (ls_MatchLabels ls) == 0) && (ls_MatchExpressions ls == []) = true →
  selector_holds ls lbls = true.
Proof.
  intros Hb. go_bool. unfold selector_holds. rewrite H0.
  apply map_size_empty_inv in H. rewrite H.
  rewrite bool_decide_eq_true_2; [done|]. apply map_Forall_empty.
Qed.

Definition selector_empty (ls : LabelSelector) : bool :=
  (size (ls_MatchLabels ls) == 0) && (ls_MatchExpressions ls == []).

(** [MatchesLabelSelector] accepts exactly the workloads that satisfy the
    documented meaning of the selector: all of them for a nil or an empty
    selector, none for a selector the API machinery rejects. *)
Theorem MatchesLabelSelector_spec selector lbls :
  MatchesLabelSelector selector lbls = true ↔
  match selector with
  | None => True
  | Some ls => selector_holds ls lbls = true ∧
               (selector_empty ls = true ∨ ∃ s, LabelSelectorAsSelector ls = inl s)
  end.
Proof.
  unfold MatchesLabelSelector. destruct selector as [ls|]; [|done].
  fold (selector_empty ls). destruct (selector_empty ls) eqn:He.
  - rewrite selector_holds_empty by done. naive_solver.
  - destruct (LabelSelectorAsSelector ls) as [s|e] eqn:Hs; [|naive_solver].
    rewrite (LabelSelectorAsSelector_ok _ _ _ Hs). naive_solver.
Qed.
End selector_lemmas.

Section unique_lemmas.
Implicit Types s : list string.

Lemma elem_of_unique_loop x seen s : x ∈ unique_loop seen s ↔ x ∈ s ∧ x ∉ seen.
Proof.
  revert seen. induction s as [|v s IH]; intros seen; simpl; [set_solver|].
  case_bool_decide; rewrite ?elem_of_cons, IH; destruct (decide (x = v)); set_solver.
Qed.

Lemma NoDup_unique_loop seen s : NoDup (unique_loop seen s).
Proof.
  revert seen. induction s as [|v s IH]; intros seen; simpl; [constructor|].
  case_bool_decide; [done|]. constructor; [|done]. rewrite elem_of_unique_loop. set_solver.
Qed.

Lemma sublist_unique_loop seen s : unique_loop seen s `sublist_of` s.
Proof.
  revert seen. induction s as [|v s IH]; intros seen; simpl; [constructor|].
  case_bool_decide; by constructor.
Qed.

Lemma elem_of_UniqueStrings x s : x ∈ UniqueStrings s ↔ x ∈ s.
Proof. unfold UniqueStrings. rewrite elem_of_unique_loop. set_solver. Qed.
End unique_lemmas.

(** Evaluation of the two selector theorems on a selector with a label pair
    and an [In] expression, under [spec.selector]. *)
Definition example_selector : LabelSelector :=
  mkLabelSelector {[ "app" := "web" ]}%string [mkRequirement "tier" "In" ["front"; "back"]]%string.

Definition example_selector_object : gmap string GoVal :=
  {[ "spec" := VMap {[ "selector" := encode_selector example_selector ]} ]}%string.

Lemma SafeNestedLabelSelector_roundtrip_witness :
  SafeNestedLabelSelector (Some example_selector_object) ["spec"; "selector"]%string = Some example_selector.
Proof. apply SafeNestedLabelSelector_roundtrip. reflexivity. Defined.

Example example_selector_matches :
  MatchesLabelSelector (Some example_selector) {[ "app" := "web"; "tier" := "front" ]}%string = true ∧
  MatchesLabelSelector (Some example_selector) {[ "app" := "web" ]}%string = false.
Proof. split; reflexivity. Qed.

Lemma MatchesLabelSelector_spec_witness :
  MatchesLabelSelector (Some example_selector) {[ "app" := "web"; "tier" := "front" ]}%string = true.
Proof.
  apply (MatchesLabelSelector_spec (Some example_selector) {[ "app" := "web"; "tier" := "front" ]}%string).
  split; [vm_compute; reflexivity|]. right. eexists. reflexivity.
Defined.
