(* ===== verification/Dedupe.v ===== *)
(** * Time-windowed suppression of duplicates

    The correlator (internal/correlator/correlator.go) and the dispatcher
    (internal/notifier/dispatcher.go) each keep a map from keys to the time a
    key was last let through, an atomic check-and-mark ([tryMarkSeen]) and a
    background sweep ([cleanupDedupeCache]).  [Dedupe] is the interface both
    implement, [DedupeLaws] what it promises, and the theorems on executions
    are proved once, against the interface.

    Both operations run under a mutex, so an execution of any number of
    goroutines is a sequence of atomic steps ([dedupe_op]).  A step carries the
    instants its calls of [time.Since] and [time.Now] read. *)

From S2P Require Import Prelude GoStd.

Open Scope go_scope.

(** ** The two loops, on the map *)

Section cache.
Context {K : Type} `{Countable K}.
Implicit Types (m : gmap K Time) (k : K).

(** The check at instant [t] and the mark at instant [t']. *)
Definition try_mark (window : Duration) (t t' : Time) k m : bool * gmap K Time :=
  match m !! k with
  | Some seenAt =>
      if (time_Since t seenAt <? window)%Z then (false, m) else (true, <[k := t']> m)
  | None => (true, <[k := t']> m)
  end.

(** One tick of the cleanup loop at instant [t]. *)
Definition cleanup (σ : Shuffle) (window : Duration) (t : Time) m : gmap K Time :=
  let cutoff := time_Add t (wrap64 (- window)) in
  sweep σ (fun seenAt => time_Before seenAt cutoff) m.
End cache.

(** ** The interface *)

Class Dedupe (S K : Type) `{Countable K} := {
  d_window : S -> Duration;
  d_cache : S -> gmap K Time;
  d_mark : Time -> Time -> K -> S -> bool * S;
  d_clean : Shuffle -> Time -> S -> S;
}.

Class DedupeLaws (S K : Type) `{Dedupe S K} : Prop := {
  d_window_range : forall s, (int64_min <= d_window s <= int64_max)%Z;
  d_mark_window : forall t t' k s, d_window (d_mark t t' k s).2 = d_window s;
  d_clean_window : forall σ t s, d_window (d_clean σ t s) = d_window s;
  d_mark_cache : forall t t' k s,
    ((d_mark t t' k s).1, d_cache (d_mark t t' k s).2) = try_mark (d_window s) t t' k (d_cache s);
  d_clean_cache : forall σ t s, d_cache (d_clean σ t s) = cleanup σ (d_window s) t (d_cache s);
}.

(** ** Executions *)

Inductive dedupe_op (K : Type) :=
  | OpMark (t t' : Time) (k : K)
  | OpClean (σ : Shuffle) (t : Time).
Arguments OpMark {K} _ _ _.
Arguments OpClean {K} _ _.

(** The clock does not go backwards: within a step and from step to step. *)
Fixpoint clock_monotone {K} (now : Time) (ops : list (dedupe_op K)) : Prop :=
  match ops with
  | [] => True
  | OpMark t t' _ :: ops' => (now <= t <= t')%Z ∧ clock_monotone t' ops'
  | OpClean _ t :: ops' => (now <= t)%Z ∧ clock_monotone t ops'
  end.

Section execution.
Context {S K : Type} `{Dedupe S K}.

(** The verdicts of the marks of an execution, with the key and the time
    each one records. *)
Fixpoint dedupe_run (s : S) (ops : list (dedupe_op K)) : list (K * Time * bool) :=
  match ops with
  | [] => []
  | OpMark t t' k :: ops' =>
      let '(ok, s') := d_mark t t' k s in (k, t', ok) :: dedupe_run s' ops'
  | OpClean σ t :: ops' => dedupe_run (d_clean σ t s) ops'
  end.
End execution.

(** ** The specification

    No cache and no cleanup: the whole history of admissions is remembered,
    and a key is admitted exactly when it has no admission in the window. *)

Section specification.
Context {K : Type} `{EqDecision K}.

Definition recently (window : Duration) (t : Time) (k : K) (hist : list (K * Time)) : bool :=
  existsb (fun e => (e.1 == k) && (t - e.2 <? window)%Z) hist.

Fixpoint spec_run (window : Duration) (hist : list (K * Time)) (ops : list (dedupe_op K))
    : list (K * Time * bool) :=
  match ops with
  | [] => []
  | OpMark t t' k :: ops' =>
      if recently window t k hist then (k, t', false) :: spec_run window hist ops'
      else (k, t', true) :: spec_run window ((k, t') :: hist) ops'
  | OpClean _ _ :: ops' => spec_run window hist ops'
  end.

(** The times at which [k] is admitted. *)
Definition admissions (k : K) (log : list (K * Time * bool)) : list Time :=
  omap (fun e => if (e.1.1 == k) && e.2 then Some e.1.2 else None) log.

(** Each element is at least [w] after every earlier one. *)
Definition spaced (w : Duration) (l : list Time) : Prop :=
  StronglySorted (fun a b => (w <= b - a)%Z) l.
End specification.

(** ** Refinement *)

Section cache_lemmas.
Context {K : Type} `{Countable K}.
Implicit Types (m : gmap K Time) (hist : list (K * Time)).

(** The cache holds the last admission of each key, or the key has no
    admission a check from [now] on can still find in the window. *)
Definition represents (window : Duration) (now : Time) m hist : Prop :=
  (∀ k s, (k, s) ∈ hist → (s ≤ now)%Z) ∧
  ∀ k, match m !! k with
       | Some s => (k, s) ∈ hist ∧ ∀ s', (k, s') ∈ hist → (s' ≤ s)%Z
       | None => ∀ s', (k, s') ∈ hist → (window ≤ now - s')%Z
       end.

Lemma represents_later window now now' m hist :
  represents window now m hist → (now ≤ now')%Z → represents window now' m hist.
Proof.
  intros [Hle Hm] Hnow. split; [intros k s Hs; specialize (Hle _ _ Hs); lia|].
  intros k. specialize (Hm k). destruct (m !! k); [done|]. intros s' Hs'. specialize (Hm _ Hs'). lia.
Qed.

Lemma recently_true window t k hist :
  recently window t k hist = true ↔ ∃ s, (k, s) ∈ hist ∧ (t - s < window)%Z.
Proof.
  unfold recently. rewrite existsb_exists. setoid_rewrite <-list_elem_of_In. split.
  - intros ([k' s] & Hin & Hb). go_bool. simpl in *. subst. eauto.
  - intros (s & Hin & Hlt). exists (k, s). split; [done|]. simpl.
    rewrite bool_decide_eq_true_2 by done. by apply Z.ltb_lt.
Qed.

Lemma time_Since_window t s window :
  (int64_min ≤ window ≤ int64_max)%Z → (s ≤ t)%Z →
  (time_Since t s <? window)%Z = (t - s <? window)%Z.
Proof.
  intros Hw Hst. unfold time_Since, time_Sub, int64_min, int64_max in *.
  apply eq_true_iff_eq. rewrite !Z.ltb_lt. lia.
Qed.

(** The check finds a recent mark exactly when the history has one. *)
Lemma try_mark_recently window now t t' m hist k :
  (int64_min ≤ window ≤ int64_max)%Z → represents window now m hist → (now ≤ t)%Z →
  try_mark window t t' k m = if recently window t k hist then (false, m) else (true, <[k := t']> m).
Proof.
  intros Hw [Hle Hm] Hnow. unfold try_mark. specialize (Hm k).
  destruct (m !! k) as [s|].
  - destruct Hm as [Hs Hlast]. specialize (Hle _ _ Hs). rewrite time_Since_window by (done || lia).
    destruct (recently window t k hist) eqn:Hr.
    + apply recently_true in Hr as (s' & Hs' & Hlt). specialize (Hlast _ Hs').
      by rewrite (proj2 (Z.ltb_lt _ _)) by lia.
    + destruct (t - s <? window)%Z eqn:Hlt; [|done]. apply Z.ltb_lt in Hlt.
      enough (recently window t k hist = true) by congruence. apply recently_true. eauto.
  - destruct (recently window t k hist) eqn:Hr; [|done].
    apply recently_true in Hr as (s' & Hs' & Hlt). specialize (Hm _ Hs'). lia.
Qed.

Lemma represents_insert window now t' m hist k :
  represents window now m hist → (now ≤ t')%Z → represents window t' (<[k := t']> m) ((k, t') :: hist).
Proof.
  intros Hrep Hnow. apply (represents_later _ _ t') in Hrep as [Hle Hm]; [|done]. split.
  - intros k' s [[= -> ->]|Hs]%elem_of_cons; [lia|eauto].
  - intros k'. specialize (Hm k'). destruct (decide (k = k')) as [->|Hk].
    + rewrite lookup_insert_eq. split; [left|]. intros s' [[= ->]|Hs']%elem_of_cons; [lia|eauto].
    + rewrite lookup_insert_ne by done. destruct (m !! k').
      * destruct Hm as [Hs Hlast]. split; [by right|]. intros s' [[= -> ->]|Hs']%elem_of_cons; [done|eauto].
      * intros s' [[= -> ->]|Hs']%elem_of_cons; [done|eauto].
Qed.

Lemma cleanup_lookup σ window t m k :
  cleanup σ window t m !! k = (s ← m !! k; if (s <? t + wrap64 (- window))%Z then None else Some s).
Proof. apply sweep_lookup. Qed.

(** What the cleanup forgets is out of every later window. *)
Lemma represents_cleanup σ window now t m hist :
  (int64_min ≤ window ≤ int64_max)%Z → represents window now m hist → (now ≤ t)%Z →
  represents window t (cleanup σ window t m) hist.
Proof.
  intros Hw Hrep Hnow. apply (represents_later _ _ t) in Hrep as [Hle Hm]; [|done]. split; [done|].
  intros k. specialize (Hm k). rewrite cleanup_lookup. destruct (m !! k) as [s|]; simpl; [|done].
  destruct (s <? t + wrap64 (- window))%Z eqn:Hlt; [|done]. apply Z.ltb_lt in Hlt.
  destruct Hm as [_ Hlast]. intros s' Hs'. specialize (Hlast _ Hs').
  destruct (decide (window = int64_min)) as [->|Hne].
  - change (wrap64 (- int64_min)) with int64_min in Hlt. unfold int64_min in *. lia.
  - rewrite wrap64_id in Hlt by (unfold int64_min, int64_max in *; lia). lia.
Qed.

(** The history only grows with admissions spaced by the window. *)
Lemma spec_run_spaced window now hist (ops : list (dedupe_op K)) k :
  (∀ s, (k, s) ∈ hist → (s ≤ now)%Z) → clock_monotone now ops →
  spaced window (admissions k (spec_run window hist ops)) ∧
  Forall (fun b => ∀ s, (k, s) ∈ hist → (window ≤ b - s)%Z) (admissions k (spec_run window hist ops)).
Proof.
  revert now hist. induction ops as [|[t t' k'|σ t] ops IH]; intros now hist Hle Hmono; simpl.
  - split; constructor.
  - destruct Hmono as [Ht Hmono]. destruct (recently window t k' hist) eqn:Hr; simpl.
    + rewrite andb_false_r. apply (IH t'); [|done]. intros s Hs. specialize (Hle _ Hs). lia.
    + rewrite andb_true_r. case_bool_decide as Hk; simpl.
      * subst k'. destruct (IH t' ((k, t') :: hist)) as [Hsp Hall].
        { intros s [[= ->]|Hs]%elem_of_cons; [lia|]. specialize (Hle _ Hs). lia. }
        { done. }
        split.
        -- constructor; [done|]. eapply Forall_impl; [exact Hall|]. intros b Hb. apply Hb. left.
        -- constructor.
           ++ intros s Hs. destruct (decide (t - s < window)%Z) as [Hlt|]; [|lia].
              enough (recently window t k hist = true) by congruence. apply recently_true. eauto.
           ++ eapply Forall_impl; [exact Hall|]. intros b Hb s Hs. apply Hb. by right.
      * destruct (IH t' ((k', t') :: hist)) as [Hsp Hall].
        { intros s [[= -> ->]|Hs]%elem_of_cons; [done|]. specialize (Hle _ Hs). lia. }
        { done. }
        split; [done|]. eapply Forall_impl; [exact Hall|]. intros b Hb s Hs. apply Hb. by right.
  - destruct Hmono as [Ht Hmono]. apply (IH t); [|done]. intros s Hs. specialize (Hle _ Hs). lia.
Qed.
End cache_lemmas.

Section refinement.
Context {S K : Type} `{DedupeLaws S K}.

(** A cached execution answers as the specification does: neither the cache
    nor the cleanup changes a verdict. *)
Lemma dedupe_run_refines (s : S) now hist (ops : list (dedupe_op K)) :
  represents (d_window s) now (d_cache s) hist → clock_monotone now ops →
  dedupe_run s ops = spec_run (d_window s) hist ops.
Proof.
  revert s now hist. induction ops as [|[t t' k|σ t] ops IH]; intros s now hist Hrep Hmono; [done| |]; simpl.
  - destruct Hmono as [Ht Hmono]. pose proof (d_mark_cache t t' k s) as Hc.
    pose proof (d_mark_window t t' k s) as Hw. destruct (d_mark t t' k s) as [ok s']. simpl in *.
    erewrite try_mark_recently in Hc by (eauto using d_window_range; lia).
    destruct (recently (d_window s) t k hist); injection Hc as -> Hc; f_equal; rewrite <-Hw;
      apply (IH _ t'); rewrite ?Hw, ?Hc; try done.
    + eapply represents_later; [done|lia].
    + eapply represents_insert; [done|lia].
  - destruct Hmono as [Ht Hmono]. rewrite <-(d_clean_window σ t s). apply (IH _ t); [|done].
    rewrite d_clean_window, d_clean_cache. eapply represents_cleanup; eauto using d_window_range.
Qed.

(** From an empty cache. *)
Lemma dedupe_run_spec (s : S) now (ops : list (dedupe_op K)) :
  d_cache s = ∅ → clock_monotone now ops → dedupe_run s ops = spec_run (d_window s) [] ops.
Proof.
  intros Hc. apply dedupe_run_refines. split; [set_solver|].
  intros k. rewrite Hc, lookup_empty. set_solver.
Qed.

Lemma dedupe_run_spaced (s : S) now (ops : list (dedupe_op K)) k :
  d_cache s = ∅ → clock_monotone now ops → spaced (d_window s) (admissions k (dedupe_run s ops)).
Proof.
  intros Hc Hmono. rewrite (dedupe_run_spec s now) by done.
  apply (spec_run_spaced _ now); [set_solver|done].
Qed.
End refinement.
