(* ===== verification/Registry.v ===== *)
(** * The adapter registry (internal/adapters/registry.go)

    The three maps of [Registry], each exported method as one atomic step (the
    methods hold the registry's lock), and the consistency of the maps over
    every sequence of calls.  Adapters are compared by name, as the code does. *)

From S2P Require Import Prelude GoStd Types.

Open Scope go_scope.

Record Registry := mkRegistry {
  adapters : gmap string Adapter;
  gvrMap : gmap GroupVersionResource Adapter;
  groupMap : gmap string Adapter;
}.

Definition NewRegistry : Registry := mkRegistry ∅ ∅ ∅.

(** The errors of [Register] and [Unregister], before formatting. *)
Inductive RegistryError :=
  | AdapterAlreadyRegistered (name : string)
  | GVRAlreadyRegistered (gvr : GroupVersionResource) (existing name : string)
  | AdapterNotRegistered (name : string).

(** [if _, exists := r.groupMap[group]; !exists { r.groupMap[group] = adapter }] *)
Definition index_group (group : string) (adapter : Adapter) (m : gmap string Adapter) : gmap string Adapter :=
  match m !! group with
  | Some _ => m
  | None => <[group := adapter]> m
  end.

(** The loop of [Register] over [adapter.Handles()]. *)
Fixpoint register_loop (adapter : Adapter) (handles : list GroupVersionResource) (r : Registry)
    : Registry * option RegistryError :=
  match handles with
  | [] => (r, None)
  | gvr :: handles' =>
      match gvrMap r !! gvr with
      | Some existing => (r, Some (GVRAlreadyRegistered gvr (a_Name existing) (a_Name adapter)))
      | None =>
          register_loop adapter handles'
            (mkRegistry (adapters r) (<[gvr := adapter]> (gvrMap r))
                        (index_group (g_Group gvr) adapter (groupMap r)))
      end
  end.

Definition Register (adapter : Adapter) (r : Registry) : Registry * option RegistryError :=
  let name := a_Name adapter in
  match adapters r !! name with
  | Some _ => (r, Some (AdapterAlreadyRegistered name))
  | None =>
      match register_loop adapter (a_Handles adapter) r with
      | (r', Some err) => (r', Some err)
      | (r', None) => (mkRegistry (<[name := adapter]> (adapters r')) (gvrMap r') (groupMap r'), None)
      end
  end.

Definition ForGVR (r : Registry) (gvr : GroupVersionResource) : option Adapter := gvrMap r !! gvr.
Definition ForName (r : Registry) (name : string) : option Adapter := adapters r !! name.
Definition ForGroup (r : Registry) (group : string) : option Adapter := groupMap r !! group.
Definition All (σ : Shuffle) (r : Registry) : list Adapter := range_values σ (adapters r).
Definition HandledGVRs (σ : Shuffle) (r : Registry) : list GroupVersionResource := (range σ (gvrMap r)).*1.

(** The first entry of the group met by [range]. *)
Definition first_of_group (σ : Shuffle) (group : string) (m : gmap GroupVersionResource Adapter)
    : option (GroupVersionResource * Adapter) :=
  head (filter (fun e : GroupVersionResource * Adapter => g_Group e.1 = group) (range σ m)).

(** The groups of the entries that [Unregister] deletes. *)
Definition affected_groups (name : string) (m : gmap GroupVersionResource Adapter) : gset string :=
  list_to_set ((fun e : GroupVersionResource * Adapter => g_Group e.1)
               <$> filter (fun e : GroupVersionResource * Adapter => a_Name e.2 = name) (map_to_list m)).

(** One group of the second loop of [Unregister]. *)
Definition reassign_group (σ : Shuffle) (name : string) (gm : gmap GroupVersionResource Adapter)
    (group : string) (m : gmap string Adapter) : gmap string Adapter :=
  match m !! group with
  | Some g =>
      if a_Name g == name then
        match first_of_group σ group gm with
        | Some (_, a) => <[group := a]> m
        | None => delete group m
        end
      else m
  | None => m
  end.

(** [σ], [σg] and [σs group] are the orders of the three [range] loops. *)
Definition Unregister (σ σg : Shuffle) (σs : string -> Shuffle) (name : string) (r : Registry)
    : Registry * option RegistryError :=
  match adapters r !! name with
  | None => (r, Some (AdapterNotRegistered name))
  | Some _ =>
      let affectedGroups := affected_groups name (gvrMap r) in
      let gvrMap' := sweep σ (fun a => a_Name a == name) (gvrMap r) in
      let groupMap' := foldl (fun m group => reassign_group (σs group) name gvrMap' group m)
                             (groupMap r) (shuffle σg (elements affectedGroups)) in
      (mkRegistry (delete name (adapters r)) gvrMap' groupMap', None)
  end.

Definition RegisterGVR (gvr : GroupVersionResource) (adapter : Adapter) (r : Registry) : Registry :=
  mkRegistry (adapters r) (<[gvr := adapter]> (gvrMap r))
             (index_group (g_Group gvr) adapter (groupMap r)).

Definition UnregisterGVR (σ : Shuffle) (gvr : GroupVersionResource) (r : Registry) : Registry :=
  match gvrMap r !! gvr with
  | None => r
  | Some adapter =>
      let gvrMap' := delete gvr (gvrMap r) in
      let groupMap' :=
        match groupMap r !! g_Group gvr with
        | Some g =>
            if a_Name g == a_Name adapter then
              match first_of_group σ (g_Group gvr) gvrMap' with
              | Some _ => groupMap r
              | None => delete (g_Group gvr) (groupMap r)
              end
            else groupMap r
        | None => groupMap r
        end in
      mkRegistry (adapters r) gvrMap' groupMap'
  end.

(** ** Sequences of calls *)

Inductive registry_op :=
  | OpRegister (adapter : Adapter)
  | OpUnregister (σ σg : Shuffle) (σs : string -> Shuffle) (name : string)
  | OpRegisterGVR (gvr : GroupVersionResource) (adapter : Adapter)
  | OpUnregisterGVR (σ : Shuffle) (gvr : GroupVersionResource).

Definition registry_step (r : Registry) (op : registry_op) : Registry :=
  match op with
  | OpRegister a => (Register a r).1
  | OpUnregister σ σg σs n => (Unregister σ σg σs n r).1
  | OpRegisterGVR g a => RegisterGVR g a r
  | OpUnregisterGVR σ g => UnregisterGVR σ g r
  end.

Definition registry_run : list registry_op -> Registry := foldl registry_step NewRegistry.

(** ** The invariant: a mapped GVR has an adapter for its group *)

Definition group_covered (gm : gmap GroupVersionResource Adapter) (m : gmap string Adapter) : Prop :=
  ∀ gvr a, gm !! gvr = Some a → is_Some (m !! g_Group gvr).

Definition covered (r : Registry) : Prop := group_covered (gvrMap r) (groupMap r).

Lemma index_group_lookup group a m g :
  index_group group a m !! g =
  match m !! g with Some x => Some x | None => if g == group then Some a else None end.
Proof.
  unfold index_group. destruct (m !! group) as [y|] eqn:Hg; case_bool_decide as E; subst.
  - by rewrite Hg.
  - by destruct (m !! g).
  - by rewrite Hg, lookup_insert_eq.
  - rewrite lookup_insert_ne by done. by destruct (m !! g).
Qed.

Lemma index_group_covered gvr a gm m :
  group_covered gm m → group_covered (<[gvr := a]> gm) (index_group (g_Group gvr) a m).
Proof.
  intros Hc g b. rewrite lookup_insert_Some, index_group_lookup. intros [[<- <-]|[Hne Hg]].
  - rewrite bool_decide_eq_true_2 by done. by destruct (m !! _).
  - destruct (Hc _ _ Hg) as [x ->]. by eexists.
Qed.

#[export] Hint Resolve index_group_covered : nightjar.

Lemma register_loop_covered a hs r : covered r → covered (register_loop a hs r).1.
Proof.
  revert r. induction hs as [|g hs IH]; intros r Hr; simpl; [done|].
  case_match; [done|]. apply IH. unfold covered. simpl. auto with nightjar.
Qed.

Lemma Register_covered a r : covered r → covered (Register a r).1.
Proof.
  intros Hr. unfold Register. case_match; [done|].
  pose proof (register_loop_covered a (a_Handles a) r Hr) as Hl.
  by destruct (register_loop a (a_Handles a) r) as [r' [e|]].
Qed.

Lemma first_of_group_Some σ group m e :
  first_of_group σ group m = Some e → g_Group e.1 = group ∧ m !! e.1 = Some e.2.
Proof.
  unfold first_of_group. intros He. destruct (filter _ _) as [|e' l] eqn:Hf; [done|].
  injection He as ->. assert (e ∈ e :: l) as Hin by left. rewrite <-Hf in Hin.
  apply list_elem_of_filter in Hin as [Hg Hr]. destruct e. by apply elem_of_range in Hr.
Qed.

Lemma first_of_group_None σ m gvr a :
  m !! gvr = Some a → first_of_group σ (g_Group gvr) m ≠ None.
Proof.
  intros Hm. unfold first_of_group. destruct (filter _ _) as [|e l] eqn:Hf; [|done].
  apply (filter_nil_not_elem_of _ _ (gvr, a)) in Hf; [|done]. by rewrite elem_of_range in Hf.
Qed.

Lemma reassign_group_covered σ name gm group m :
  group_covered gm m → group_covered gm (reassign_group σ name gm group m).
Proof.
  intros Hc gvr a Hg. unfold reassign_group. case_match; [|by eauto]. case_match; [|by eauto].
  destruct (first_of_group σ group gm) as [[g b]|] eqn:Hf.
  - rewrite lookup_insert. destruct (decide _); [by eexists|]. by eapply Hc.
  - rewrite lookup_delete_ne; [by eapply Hc|]. intros ->. by eapply first_of_group_None.
Qed.

Lemma group_covered_mono gm gm' m :
  (∀ g a, gm' !! g = Some a → gm !! g = Some a) → group_covered gm m → group_covered gm' m.
Proof. intros Hsub Hc g a Hg. eapply Hc. by apply Hsub. Qed.

Lemma sweep_sub {K V} `{Countable K} σ (drop : V → bool) (m : gmap K V) k v :
  sweep σ drop m !! k = Some v → m !! k = Some v ∧ drop v = false.
Proof. rewrite sweep_lookup. destruct (m !! k) as [w|] eqn:E; simpl; [|done]. destruct (drop w) eqn:?; naive_solver. Qed.

Lemma Unregister_covered σ σg σs name r : covered r → covered (Unregister σ σg σs name r).1.
Proof.
  intros Hr. unfold Unregister, covered. case_match; [|done]. simpl.
  set (gm := sweep _ _ _). assert (group_covered gm (groupMap r)) as Hc.
  { eapply group_covered_mono; [|exact Hr]. intros g x Hg. by apply sweep_sub in Hg as [? _]. }
  revert Hc. generalize (groupMap r). induction (shuffle σg _) as [|g gs IH]; intros m Hc; simpl; [done|].
  apply IH. by apply reassign_group_covered.
Qed.

Lemma RegisterGVR_covered gvr a r : covered r → covered (RegisterGVR gvr a r).
Proof. intros Hr. unfold covered. simpl. auto with nightjar. Qed.

Lemma UnregisterGVR_covered σ gvr r : covered r → covered (UnregisterGVR σ gvr r).
Proof.
  intros Hr. unfold UnregisterGVR. destruct (gvrMap r !! gvr) as [x|] eqn:Hx; [|done].
  intros g a. simpl. intros Hg. pose proof Hg as [Hne Hg']%lookup_delete_Some.
  repeat case_match; try (by eapply Hr). rewrite lookup_delete_ne; [by eapply Hr|].
  intros Heq. eapply (first_of_group_None σ _ _ _ Hg). congruence.
Qed.

#[export] Hint Resolve Register_covered Unregister_covered RegisterGVR_covered UnregisterGVR_covered : nightjar.

(** In every state the registry can reach, failed registrations included,
    a GVR that has an adapter belongs to a group that has one: the fallback of
    the discovery engine by group never misses a group with a mapped GVR. *)
Theorem registry_group_covered ops gvr a :
  ForGVR (registry_run ops) gvr = Some a → is_Some (ForGroup (registry_run ops) (g_Group gvr)).
Proof.
  revert gvr a. change (covered (registry_run ops)). unfold registry_run.
  assert (covered NewRegistry) as H0 by (intros ? ?; simpl; rewrite lookup_empty; done).
  revert H0. generalize NewRegistry.
  induction ops as [|[] ops IH]; intros r Hr; simpl; [done|..]; apply IH; auto with nightjar.
Qed.

(** ** Register *)

Lemma register_loop_ok a hs r r' :
  register_loop a hs r = (r', None) ↔
  NoDup hs ∧ (∀ g, g ∈ hs → gvrMap r !! g = None) ∧
  r' = mkRegistry (adapters r) (foldl (fun m g => <[g := a]> m) (gvrMap r) hs)
                  (foldl (fun m g => index_group (g_Group g) a m) (groupMap r) hs).
Proof.
  revert r. induction hs as [|g hs IH]; intros r; simpl.
  - destruct r; simpl. split; [intros [= <-]; repeat split; [constructor|set_solver]|naive_solver].
  - destruct (gvrMap r !! g) eqn:Hg.
    + split; [done|]. intros (_ & Hf & _). rewrite Hf in Hg; [done|left].
    + rewrite IH. simpl. rewrite NoDup_cons. split; intros (Hnd & Hf & ->).
      * repeat split; try done.
        -- intros Hin. specialize (Hf _ Hin). by rewrite lookup_insert_eq in Hf.
        -- intros g' [->|Hin]%elem_of_cons; [done|]. specialize (Hf _ Hin).
           by apply lookup_insert_None in Hf as [? _].
      * destruct Hnd as [Hnin Hnd]. repeat split; try done. intros g' Hin.
        apply lookup_insert_None. split; [apply Hf; by right|]. by intros <-.
Qed.

Lemma foldl_insert_lookup {K V} `{Countable K} (v : V) (ks : list K) (m : gmap K V) k :
  foldl (fun m g => <[g := v]> m) m ks !! k = if bool_decide (k ∈ ks) then Some v else m !! k.
Proof.
  revert m. induction ks as [|k' ks IH]; intros m; simpl; [done|]. rewrite IH.
  repeat case_bool_decide; try done; rewrite ?elem_of_cons in *; rewrite ?lookup_insert;
    try case_decide; naive_solver.
Qed.

(** The first adapter of a group stays. *)
Lemma foldl_index_group_mono a (hs : list GroupVersionResource) m grp x :
  m !! grp = Some x → foldl (fun m g => index_group (g_Group g) a m) m hs !! grp = Some x.
Proof.
  revert m. induction hs as [|g hs IH]; intros m Hm; simpl; [done|]. apply IH. by rewrite index_group_lookup, Hm.
Qed.

(** [Register] succeeds exactly when the name is new and every handled GVR
    is unmapped and listed once; then the handled GVRs and the name lead to the
    adapter, every other GVR and name to what they led to before, and no group
    loses its adapter. *)
Theorem Register_spec a r :
  ((Register a r).2 = None ↔
   ForName r (a_Name a) = None ∧ NoDup (a_Handles a) ∧ ∀ g, g ∈ a_Handles a → ForGVR r g = None) ∧
  ∀ r', Register a r = (r', None) →
    (∀ g, ForGVR r' g = if bool_decide (g ∈ a_Handles a) then Some a else ForGVR r g) ∧
    (∀ n, ForName r' n = if n == a_Name a then Some a else ForName r n) ∧
    (∀ grp x, ForGroup r grp = Some x → ForGroup r' grp = Some x).
Proof.
  unfold Register, ForName, ForGVR, ForGroup. destruct (adapters r !! a_Name a) eqn:Hn; [naive_solver|].
  destruct (register_loop a (a_Handles a) r) as [r1 [e|]] eqn:Hl; simpl.
  { split; [|done]. split; [done|]. intros (_ & Hnd & Hf).
    by rewrite (proj2 (register_loop_ok a (a_Handles a) r _) (conj Hnd (conj Hf eq_refl))) in Hl. }
  apply register_loop_ok in Hl as (Hnd & Hf & ->). split; [done|]. intros r' [= <-]. simpl. split_and!.
  - intros g. apply foldl_insert_lookup.
  - intros n. rewrite lookup_insert. case_decide; case_bool_decide; congruence.
  - intros grp x. apply foldl_index_group_mono.
Qed.

(** ** Unregister *)

(** [Unregister] of a registered name leaves no GVR on an adapter of that
    name, keeps every other mapping, and frees the name. *)
Theorem Unregister_spec σ σg σs name r :
  is_Some (ForName r name) →
  let '(r', err) := Unregister σ σg σs name r in
  err = None ∧ ForName r' name = None ∧
  (∀ n, n ≠ name → ForName r' n = ForName r n) ∧
  (∀ g a, ForGVR r' g = Some a ↔ ForGVR r g = Some a ∧ a_Name a ≠ name).
Proof.
  intros [x Hx]. unfold Unregister, ForName, ForGVR in *. rewrite Hx. simpl.
  split_and!; [done|by rewrite lookup_delete_eq|intros n Hn; by rewrite lookup_delete_ne|].
  intros g a. rewrite sweep_lookup. destruct (gvrMap r !! g) as [b|]; simpl; [|naive_solver].
  case_bool_decide; naive_solver.
Qed.

(** ** Two adapters, for evaluation *)

Definition example_adapter (name : string) (handles : list GroupVersionResource) : Adapter :=
  mkAdapter name handles (fun _ => ([], None)).

Definition policies_gvr : GroupVersionResource := mkGVR "cilium.io" "v2" "ciliumnetworkpolicies".
Definition example_a : Adapter := example_adapter "a" [networkpolicies_gvr; policies_gvr].
Definition example_b : Adapter := example_adapter "b" [mkGVR EmptyString "v1" "limitranges"; policies_gvr].
Definition example_c : Adapter := example_adapter "c" [mkGVR EmptyString "v1" "limitranges"].

Lemma registry_group_covered_witness :
  is_Some (ForGroup (registry_run [OpRegister example_a; OpRegister example_b]) "cilium.io").
Proof. exact (registry_group_covered [OpRegister example_a; OpRegister example_b] policies_gvr example_a eq_refl). Defined.

Lemma Register_spec_witness :
  (Register example_c (registry_run [OpRegister example_a])).2 = None ∧
  ForGVR (Register example_c (registry_run [OpRegister example_a])).1 policies_gvr = Some example_a.
Proof.
  split.
  - apply (Register_spec example_c (registry_run [OpRegister example_a])).
    split; [reflexivity|]. split; [apply NoDup_singleton|].
    intros g Hg. apply list_elem_of_singleton in Hg as ->. reflexivity.
  - exact (proj1 (proj2 (Register_spec example_c (registry_run [OpRegister example_a])) _ eq_refl) policies_gvr).
Defined.

Lemma Unregister_spec_witness :
  ForName (Unregister in_order in_order (fun _ => in_order) "a" (registry_run [OpRegister example_a])).1 "a" = None.
Proof.
  exact (proj1 (proj2 (Unregister_spec in_order in_order (fun _ => in_order) "a"
           (registry_run [OpRegister example_a]) (ex_intro _ example_a eq_refl)))).
Defined.

(** ** What the maps do not guarantee *)

(** A rejected registration is not rolled back: the GVRs before the
    conflicting one stay mapped to an adapter that has no name in the
    registry. *)
Theorem Register_error_partial :
  let '(r, err) := Register example_b (registry_run [OpRegister example_a]) in
  err = Some (GVRAlreadyRegistered policies_gvr "a" "b") ∧
  ForName r "b" = None ∧ ForGVR r (mkGVR EmptyString "v1" "limitranges") = Some example_b.
Proof. repeat split; reflexivity. Qed.

(** After a GVR is overwritten by [RegisterGVR], unregistering the adapter
    its group was indexed under leaves that adapter in the group index:
    [ForGroup] returns an adapter the registry no longer knows. *)
Theorem ForGroup_stale :
  let r := registry_run [OpRegister example_c; OpRegisterGVR (mkGVR EmptyString "v1" "limitranges") example_a;
                         OpUnregister in_order in_order (fun _ => in_order) "c"] in
  ForName r "c" = None ∧ ForGroup r EmptyString = Some example_c.
Proof. split; reflexivity. Qed.
