(* ===== verification/Indexer.v ===== *)
(** * The constraint index (internal/indexer/indexer.go)

    The in-memory store of constraints by UID, its queries, and the change
    events it sends.  An operation returns the new store and the events its
    callback receives; [onChange] says whether a callback is set.  [range] over
    the store takes the order as an argument.

    The store is also the instance of [ConstraintQuery], the interface through
    which the correlator, the report reconciler and the MCP handlers read it. *)

From S2P Require Import Prelude GoStd Types Apimachinery Util.

Open Scope go_scope.

Record IndexEvent := mkIndexEvent {
  ie_Type : string;
  ie_Constraint : Constraint;
}.

Record Indexer := mkIndexer {
  byUID : gmap UID Constraint;
  onChange : bool;
}.

Definition New (cb : bool) : Indexer := mkIndexer ∅ cb.

(** [if idx.onChange != nil { for _, e := range events { idx.onChange(e) } }] *)
Definition notify (idx : Indexer) (events : list IndexEvent) : list IndexEvent :=
  if onChange idx then events else [].

Definition Upsert (c : Constraint) (idx : Indexer) : Indexer * list IndexEvent :=
  let idx' := mkIndexer (<[c_UID c := c]> (byUID idx)) (onChange idx) in
  (idx', notify idx' [mkIndexEvent "upsert" c]).

Definition Delete (uid : UID) (idx : Indexer) : Indexer * list IndexEvent :=
  match byUID idx !! uid with
  | Some c =>
      let idx' := mkIndexer (delete uid (byUID idx)) (onChange idx) in
      (idx', notify idx' [mkIndexEvent "delete" c])
  | None => (idx, [])
  end.

Definition matchesNamespace (c : Constraint) (ns : string) : bool :=
  if c_Namespace c == EmptyString then true
  else if c_Namespace c == ns then true
  else existsb (fun affected => affected == ns) (c_AffectedNamespaces c).

(** [for _, c := range idx.byUID { if keep(c) { result = append(result, c) } }] *)
Definition select (σ : Shuffle) (keep : Constraint -> bool) (idx : Indexer) : list Constraint :=
  filter (fun c => keep c = true) (range_values σ (byUID idx)).

Definition ByNamespace (σ : Shuffle) (idx : Indexer) (ns : string) : list Constraint :=
  select σ (fun c => matchesNamespace c ns) idx.

Section labels.
Context {AM : Apimachinery}.

Definition matchesLabels (selector : option LabelSelector) (workloadLabels : gmap string string) : bool :=
  MatchesLabelSelector selector workloadLabels.

Definition ByLabels (σ : Shuffle) (idx : Indexer) (ns : string) (workloadLabels : gmap string string)
    : list Constraint :=
  select σ (fun c => if negb (matchesNamespace c ns) then false
                     else matchesLabels (c_WorkloadSelector c) workloadLabels) idx.
End labels.

Definition ByType (σ : Shuffle) (idx : Indexer) (ct : ConstraintType) : list Constraint :=
  select σ (fun c => c_ConstraintType c == ct) idx.

Definition BySourceGVR (σ : Shuffle) (idx : Indexer) (gvr : GroupVersionResource) : list Constraint :=
  select σ (fun c => c_Source c == gvr) idx.

(** The second loop of [DeleteBySource]: delete each collected UID and keep
    the constraint stored under it. *)
Fixpoint delete_uids (toDelete : list UID) (m : gmap UID Constraint) : gmap UID Constraint * list Constraint :=
  match toDelete with
  | [] => (m, [])
  | uid :: rest =>
      match m !! uid with
      | Some c => let '(m', deleted) := delete_uids rest (delete uid m) in (m', c :: deleted)
      | None => delete_uids rest m
      end
  end.

Definition DeleteBySource (σ : Shuffle) (gvr : GroupVersionResource) (idx : Indexer)
    : Indexer * list IndexEvent * Z :=
  let toDelete := (filter (fun e : UID * Constraint => c_Source e.2 = gvr) (range σ (byUID idx))).*1 in
  let '(m, deleted) := delete_uids toDelete (byUID idx) in
  let idx' := mkIndexer m (onChange idx) in
  (idx', notify idx' (mkIndexEvent "delete" <$> deleted), go_len toDelete).

Definition All (σ : Shuffle) (idx : Indexer) : list Constraint := range_values σ (byUID idx).
Definition Count (idx : Indexer) : Z := Z.of_nat (size (byUID idx)).

(** ** Sequences of operations, with the events they send *)

Inductive index_op :=
  | OpUpsert (c : Constraint)
  | OpDelete (uid : UID)
  | OpDeleteBySource (σ : Shuffle) (gvr : GroupVersionResource).

Definition index_step (idx : Indexer) (op : index_op) : Indexer * list IndexEvent :=
  match op with
  | OpUpsert c => Upsert c idx
  | OpDelete uid => Delete uid idx
  | OpDeleteBySource σ gvr => (DeleteBySource σ gvr idx).1
  end.

Fixpoint index_run (idx : Indexer) (ops : list index_op) : Indexer * list IndexEvent :=
  match ops with
  | [] => (idx, [])
  | op :: ops' =>
      let '(idx1, ev1) := index_step idx op in
      let '(idx2, ev2) := index_run idx1 ops' in
      (idx2, ev1 ++ ev2)
  end.

(** What a subscriber knows after an event: the abstract contract of the
    change stream. *)
Definition apply_event (m : gmap UID Constraint) (e : IndexEvent) : gmap UID Constraint :=
  if ie_Type e == "upsert"%string then <[c_UID (ie_Constraint e) := ie_Constraint e]> m
  else delete (c_UID (ie_Constraint e)) m.

Definition replay : gmap UID Constraint -> list IndexEvent -> gmap UID Constraint := foldl apply_event.

(** ** The interface of the index's readers *)

Class ConstraintQuery (I : Type) := {
  stored : I -> Constraint -> Prop;
  query_ns : Shuffle -> I -> string -> list Constraint;
  query_all : Shuffle -> I -> list Constraint;
}.

Class ConstraintQueryLaws (I : Type) `{ConstraintQuery I} : Prop := {
  query_ns_spec : forall σ i ns c, c ∈ query_ns σ i ns ↔ stored i c ∧ matchesNamespace c ns = true;
  query_all_spec : forall σ i c, c ∈ query_all σ i ↔ stored i c;
}.

(** The constraints a store holds. *)
Definition contains (idx : Indexer) (c : Constraint) : Prop := ∃ uid, byUID idx !! uid = Some c.

#[export] Instance indexer_query : ConstraintQuery Indexer := {
  stored := contains;
  query_ns := ByNamespace;
  query_all := All;
}.

(** ** The invariant: a constraint is stored under its own UID *)

Definition keyed (m : gmap UID Constraint) : Prop := ∀ uid c, m !! uid = Some c → c_UID c = uid.

Lemma keyed_insert m c : keyed m → keyed (<[c_UID c := c]> m).
Proof. intros Hk uid d. rewrite lookup_insert_Some. naive_solver. Qed.

Lemma keyed_delete m uid : keyed m → keyed (delete uid m).
Proof. intros Hk u d. rewrite lookup_delete_Some. naive_solver. Qed.

Lemma keyed_empty : keyed ∅.
Proof. intros ? ?. by rewrite lookup_empty. Qed.

#[export] Hint Resolve keyed_insert keyed_delete keyed_empty : nightjar.

Lemma delete_uids_lookup uids m uid :
  (delete_uids uids m).1 !! uid = if bool_decide (uid ∈ uids) then None else m !! uid.
Proof.
  revert m. induction uids as [|u uids IH]; intros m; simpl; [done|].
  destruct (m !! u) as [c|] eqn:Hu.
  - specialize (IH (delete u m)). destruct (delete_uids uids (delete u m)) as [m' del]. simpl in *.
    rewrite IH. destruct (decide (uid = u)) as [->|Hne].
    + rewrite lookup_delete_eq. repeat case_bool_decide; set_solver.
    + rewrite lookup_delete_ne by done. repeat case_bool_decide; set_solver.
  - rewrite IH. destruct (decide (uid = u)) as [->|Hne]; repeat case_bool_decide; set_solver.
Qed.

(** Deleting distinct keys that are present returns their constraints, in
    order, and shrinks the map by their number. *)
Lemma delete_uids_deleted (l : list (UID * Constraint)) m :
  NoDup l.*1 → (∀ e, e ∈ l → m !! e.1 = Some e.2) →
  (delete_uids l.*1 m).2 = l.*2 ∧ size m = size (delete_uids l.*1 m).1 + length l.
Proof.
  revert m. induction l as [|[u c] l IH]; intros m Hnd Hm; [csimpl; split; [done|lia]|]. csimpl in *.
  apply NoDup_cons in Hnd as [Hnin Hnd]. assert (m !! u = Some c) as Hu by (apply (Hm (u, c)); left).
  rewrite Hu. specialize (IH (delete u m) Hnd).
  rewrite map_size_delete_Some in IH by done. pose proof (map_size_ne_0_lookup_2 m u (mk_is_Some _ _ Hu)).
  destruct (delete_uids l.*1 (delete u m)) as [m' del]. simpl in *. destruct IH as [-> Hs]; [|split; [done|lia]].
  intros e He. rewrite lookup_delete_ne; [apply Hm; by right|].
  intros ->. apply Hnin. by apply list_elem_of_fmap_2.
Qed.

Section delete_by_source.
Context (σ : Shuffle) (gvr : GroupVersionResource).
Implicit Types m : gmap UID Constraint.

Definition doomed m : list (UID * Constraint) :=
  filter (fun e : UID * Constraint => c_Source e.2 = gvr) (range σ m).

Lemma elem_of_doomed m uid c : (uid, c) ∈ doomed m ↔ m !! uid = Some c ∧ c_Source c = gvr.
Proof. unfold doomed. rewrite list_elem_of_filter, elem_of_range. simpl. tauto. Qed.

Lemma NoDup_doomed m : NoDup (doomed m).*1.
Proof.
  unfold doomed. eapply sublist_NoDup; [|apply fmap_sublist, sublist_filter]. apply NoDup_range_keys.
Qed.

Lemma elem_of_doomed_keys m uid : uid ∈ (doomed m).*1 ↔ ∃ c, m !! uid = Some c ∧ c_Source c = gvr.
Proof.
  rewrite list_elem_of_fmap. split.
  - intros ([u c] & -> & He). exists c. by apply elem_of_doomed.
  - intros (c & He). exists (uid, c). by rewrite elem_of_doomed.
Qed.

Lemma DeleteBySource_eq idx :
  DeleteBySource σ gvr idx =
  let m := (delete_uids (doomed (byUID idx)).*1 (byUID idx)).1 in
  let idx' := mkIndexer m (onChange idx) in
  (idx', notify idx' (mkIndexEvent "delete" <$> (doomed (byUID idx)).*2), go_len (doomed (byUID idx))).
Proof.
  unfold DeleteBySource. fold (doomed (byUID idx)).
  pose proof (delete_uids_deleted (doomed (byUID idx)) (byUID idx) (NoDup_doomed _)) as Hdel.
  destruct (delete_uids _ _) as [m del]. simpl in *. unfold go_len. rewrite length_fmap.
  destruct Hdel as [-> _]; [|done]. intros [u c] He. by apply elem_of_doomed in He as [? _].
Qed.

Lemma DeleteBySource_lookup idx uid c :
  byUID (DeleteBySource σ gvr idx).1.1 !! uid = Some c ↔ byUID idx !! uid = Some c ∧ c_Source c ≠ gvr.
Proof.
  rewrite DeleteBySource_eq. simpl. rewrite delete_uids_lookup.
  case_bool_decide as E; rewrite elem_of_doomed_keys in E; naive_solver.
Qed.
End delete_by_source.

Lemma index_step_keyed idx op : keyed (byUID idx) → keyed (byUID (index_step idx op).1).
Proof.
  intros Hk. destruct op as [c|uid|σ gvr]; simpl; [auto with nightjar|..].
  - unfold Delete. destruct (byUID idx !! uid); simpl; auto with nightjar.
  - rewrite DeleteBySource_eq. simpl. intros uid c. rewrite delete_uids_lookup. case_bool_decide; [done|apply Hk].
Qed.

Lemma index_step_onChange idx op : onChange (index_step idx op).1 = onChange idx.
Proof.
  destruct op as [c|uid|σ gvr]; simpl; [done|unfold Delete; by case_match|by rewrite DeleteBySource_eq].
Qed.

Lemma index_run_keyed idx ops : keyed (byUID idx) → keyed (byUID (index_run idx ops).1).
Proof.
  revert idx. induction ops as [|op ops IH]; intros idx Hk; simpl; [done|].
  pose proof (index_step_keyed idx op Hk) as Hk'. destruct (index_step idx op) as [idx1 ev1]. simpl in *.
  specialize (IH idx1 Hk'). by destruct (index_run idx1 ops).
Qed.

Lemma replay_app m l1 l2 : replay m (l1 ++ l2) = replay (replay m l1) l2.
Proof. apply foldl_app. Qed.

(** Replaying deletions of constraints stored under their own UID. *)
Lemma replay_deletes (l : list (UID * Constraint)) m :
  (∀ e, e ∈ l → c_UID e.2 = e.1) → replay m (mkIndexEvent "delete" <$> l.*2) = (delete_uids l.*1 m).1.
Proof.
  intros Hl. apply map_eq. intros uid. rewrite delete_uids_lookup. revert m.
  induction l as [|[u c] l IH]; intros m; simpl; [done|].
  rewrite IH by (intros; apply Hl; by right). unfold apply_event. simpl.
  assert (c_UID c = u) as -> by (apply (Hl (u, c)); left).
  destruct (decide (uid = u)) as [->|Hne].
  - rewrite lookup_delete_eq. repeat case_bool_decide; set_solver.
  - rewrite lookup_delete_ne by done. repeat case_bool_decide; set_solver.
Qed.

Lemma index_step_replay idx op :
  keyed (byUID idx) → onChange idx = true →
  replay (byUID idx) (index_step idx op).2 = byUID (index_step idx op).1.
Proof.
  intros Hk Hcb. destruct op as [c|uid|σ gvr]; simpl.
  - unfold notify. by rewrite Hcb.
  - unfold Delete. destruct (byUID idx !! uid) as [c|] eqn:Hu; [|done]. unfold notify. simpl. rewrite Hcb.
    simpl. unfold apply_event. simpl. by rewrite (Hk _ _ Hu).
  - rewrite DeleteBySource_eq. unfold notify. simpl. rewrite Hcb. apply replay_deletes.
    intros [u c] [He _]%elem_of_doomed. by apply Hk in He.
Qed.

(** ** Theorems *)

(** C7: over every sequence of operations on a new index, the events sent are
    a faithful change log: a subscriber that replays them holds exactly the
    stored constraints. *)
Theorem index_events_refine ops :
  let '(idx, events) := index_run (New true) ops in replay ∅ events = byUID idx.
Proof.
  enough (∀ idx, keyed (byUID idx) → onChange idx = true →
            replay (byUID idx) (index_run idx ops).2 = byUID (index_run idx ops).1) as H.
  { specialize (H (New true) keyed_empty eq_refl). by destruct (index_run (New true) ops). }
  induction ops as [|op ops IH]; intros idx Hk Hcb; simpl; [done|].
  pose proof (index_step_keyed idx op Hk) as Hk'. pose proof (index_step_onChange idx op) as Ho.
  pose proof (index_step_replay idx op Hk Hcb) as Hr. destruct (index_step idx op) as [idx1 ev1]. simpl in *.
  specialize (IH idx1 Hk' ltac:(congruence)). destruct (index_run idx1 ops) as [idx2 ev2]. simpl in *.
  by rewrite replay_app, Hr.
Qed.

(** The elements of a [select]. *)
Lemma elem_of_select σ keep idx c : c ∈ select σ keep idx ↔ contains idx c ∧ keep c = true.
Proof. unfold select, contains. rewrite list_elem_of_filter, elem_of_range_values. tauto. Qed.

Lemma range_values_keyed σ idx : keyed (byUID idx) → c_UID <$> range_values σ (byUID idx) = (range σ (byUID idx)).*1.
Proof.
  intros Hk. unfold range_values. rewrite <-list_fmap_compose. apply list_fmap_ext. intros i [u c] He. simpl.
  apply list_elem_of_lookup_2, elem_of_range in He. by apply Hk.
Qed.

Lemma NoDup_select_uids σ keep idx : keyed (byUID idx) → NoDup (c_UID <$> select σ keep idx).
Proof.
  intros Hk. eapply sublist_NoDup; [|apply fmap_sublist, sublist_filter].
  rewrite range_values_keyed by done. apply NoDup_range_keys.
Qed.

Lemma matchesNamespace_spec c ns :
  matchesNamespace c ns = true ↔
  c_Namespace c = EmptyString ∨ c_Namespace c = ns ∨ ns ∈ c_AffectedNamespaces c.
Proof.
  unfold matchesNamespace. repeat case_bool_decide; try tauto.
  rewrite existsb_exists. setoid_rewrite <-list_elem_of_In. setoid_rewrite bool_decide_eq_true. naive_solver.
Qed.

#[export] Instance indexer_query_laws : ConstraintQueryLaws Indexer.
Proof.
  split; intros; [apply elem_of_select|apply elem_of_range_values].
Qed.

(** The namespaces that a constraint lives in or lists as affected. *)
Definition mentions (c : Constraint) (ns : string) : Prop :=
  ns ∈ c_AffectedNamespaces c ∨ (c_Namespace c = ns ∧ ns ≠ EmptyString).
#[export] Instance mentions_dec c ns : Decision (mentions c ns).
Proof. unfold mentions. apply _. Defined.

(** C8: after any sequence of operations, [ByNamespace] returns exactly the
    stored constraints that are cluster-scoped, live in the namespace or list
    it as affected, and no UID twice, in whatever order the map is ranged. *)
Theorem ByNamespace_exact cb ops σ ns :
  let idx := (index_run (New cb) ops).1 in
  NoDup (c_UID <$> ByNamespace σ idx ns) ∧
  ∀ c, c ∈ ByNamespace σ idx ns ↔
       byUID idx !! c_UID c = Some c ∧
       (c_Namespace c = EmptyString ∨ c_Namespace c = ns ∨ ns ∈ c_AffectedNamespaces c).
Proof.
  intros idx. assert (keyed (byUID idx)) as Hk by (apply index_run_keyed, keyed_empty).
  split; [by apply NoDup_select_uids|]. intros c.
  unfold ByNamespace. rewrite elem_of_select, matchesNamespace_spec. unfold contains.
  split; [|naive_solver]. intros [[uid Hu] Hns]. by rewrite (Hk _ _ Hu).
Qed.

(** [ByLabels] is [ByNamespace] restricted to the constraints whose
    workload selector the labels satisfy. *)
Theorem ByLabels_filter `{AM : Apimachinery} σ idx ns lbls :
  ByLabels σ idx ns lbls =
  filter (fun c => MatchesLabelSelector (c_WorkloadSelector c) lbls = true) (ByNamespace σ idx ns).
Proof.
  unfold ByLabels, ByNamespace, select, matchesLabels. rewrite list_filter_filter.
  apply list_filter_iff. intros c. destruct (matchesNamespace c ns); simpl; naive_solver.
Qed.

(** [DeleteBySource] removes exactly the constraints of the source, sends
    one delete event for each, and returns their number, which is the drop of
    [Count]. *)
Theorem DeleteBySource_exact σ gvr idx :
  onChange idx = true → 
  let '(idx', events, n) := DeleteBySource σ gvr idx in
  (∀ uid c, byUID idx' !! uid = Some c ↔ byUID idx !! uid = Some c ∧ c_Source c ≠ gvr) ∧
  events ≡ₚ mkIndexEvent "delete" <$> BySourceGVR σ idx gvr ∧
  n = go_len events ∧ (Count idx = Count idx' + n)%Z.
Proof.
  intros Hcb. pose proof (DeleteBySource_lookup σ gvr idx) as Hm'. revert Hm'.
  rewrite DeleteBySource_eq. simpl. unfold notify. simpl. rewrite Hcb. intros Hm'.
  set (D := doomed σ gvr (byUID idx)) in *. set (m' := (delete_uids D.*1 (byUID idx)).1) in *.
  split_and!; [done| | |].
  - subst D. unfold doomed, BySourceGVR, select, range_values. rewrite filter_fmap.
    apply Permutation_refl'. do 2 f_equal. apply list_filter_iff. intros e. simpl. by rewrite bool_decide_eq_true.
  - unfold go_len. by rewrite !length_fmap.
  - destruct (delete_uids_deleted D (byUID idx)) as [_ Hs]; [apply NoDup_doomed| |].
    + intros [u c] He. by apply elem_of_doomed in He as [? _].
    + unfold Count, go_len. simpl. fold m' in Hs. lia.
Qed.

(** ** Evaluation *)

Definition index_example_ops : list index_op :=
     [OpUpsert (example_constraint "u1" networkpolicies_gvr "deny-all" "prod" [] ConstraintTypeNetworkIngress SeverityCritical);
      OpUpsert (example_constraint "u2" (mkGVR EmptyString "v1" "resourcequotas") "quota" "dev" [] ConstraintTypeResourceLimit SeverityInfo);
      OpUpsert (example_constraint "u3" networkpolicies_gvr "shared" "infra" ["dev"] ConstraintTypeNetworkEgress SeverityWarning)]%string.

Definition example_index : Indexer := (index_run (New true) index_example_ops).1.

Example example_queries :
  c_UID <$> ByNamespace in_order example_index "dev" = ["u3"; "u2"]%string ∧
  c_UID <$> BySourceGVR reversed example_index networkpolicies_gvr = ["u1"; "u3"]%string ∧
  Count example_index = 3%Z ∧ length (All reversed example_index) = 3 ∧
  c_UID <$> ByType in_order example_index ConstraintTypeResourceLimit = ["u2"%string].
Proof. split_and!; vm_compute; reflexivity. Qed.

Lemma DeleteBySource_exact_witness :
  onChange example_index = true ∧
  (Count example_index = Count (DeleteBySource in_order networkpolicies_gvr example_index).1.1 + 2)%Z.
Proof.
  split; [reflexivity|].
  exact (proj2 (proj2 (proj2 (DeleteBySource_exact in_order networkpolicies_gvr example_index eq_refl)))).
Defined.
