(* ===== verification/Hubble.v ===== *)
(** * Package internal/hubble: flow drops and the Hubble Relay client

    types.go, converter.go and client.go.  The protobuf messages of
    github.com/cilium/cilium are third-party: a message is the record of what
    its getters return (a nil sub-message is [None]) and the enumeration
    constants are the fields of the class [FlowPB].  The client's connection
    loop is run against the list of what its environment does: the relay's
    answers, the stop signal and the reader of the flow channel. *)

From S2P Require Import Prelude GoStd Types.
From Stdlib Require Import Ascii.

Open Scope go_scope.

(** ** types.go *)

Abbreviation Protocol := string (only parsing).
Abbreviation DropReason := string (only parsing).
Abbreviation ConnectionState := string (only parsing).

Record WorkloadRef := mkWorkloadRef { w_Kind : string; w_Name : string }.

Record Endpoint := mkEndpoint {
  e_Identity : Z;
  e_Namespace : string;
  e_PodName : string;
  e_Labels : gmap string string;
  e_Workloads : list WorkloadRef;
}.

Record IPInfo := mkIPInfo { ip_Source : string; ip_Destination : string }.

Record TCPFlags := mkTCPFlags { SYN : bool; ACK : bool; FIN : bool; RST : bool }.

Record L4Info := mkL4Info {
  l4_Protocol : Protocol;
  l4_SourcePort : Z;
  l4_DestinationPort : Z;
  l4_TCP : option TCPFlags;
}.

Record FlowDrop := mkFlowDrop {
  f_Time : Time;
  f_Source : Endpoint;
  f_Destination : Endpoint;
  f_IP : IPInfo;
  f_L4 : L4Info;
  f_DropReason : DropReason;
  f_PolicyName : string;
  f_TraceID : string;
}.

Definition ProtocolTCP : Protocol := "TCP".
Definition ProtocolUDP : Protocol := "UDP".
Definition ProtocolICMP : Protocol := "ICMP".
Definition ProtocolUnknown : Protocol := "UNKNOWN".

Definition DropReasonPolicy : DropReason := "POLICY_DENIED".
Definition DropReasonPolicyL3 : DropReason := "POLICY_DENIED_L3".
Definition DropReasonPolicyL4 : DropReason := "POLICY_DENIED_L4".
Definition DropReasonPolicyL7 : DropReason := "POLICY_DENIED_L7".
Definition DropReasonPolicyAuth : DropReason := "POLICY_AUTH_REQUIRED".
Definition DropReasonNoNetworkPolicy : DropReason := "NO_NETWORK_POLICY".
Definition DropReasonIngressDenied : DropReason := "INGRESS_DENIED".
Definition DropReasonEgressDenied : DropReason := "EGRESS_DENIED".
Definition DropReasonInvalidPacket : DropReason := "INVALID_PACKET".
Definition DropReasonTTLExceeded : DropReason := "TTL_EXCEEDED".
Definition DropReasonNoMapping : DropReason := "NO_MAPPING".
Definition DropReasonProxyRedirect : DropReason := "PROXY_REDIRECT_FAILED".
Definition DropReasonUnknown : DropReason := "UNKNOWN".

Definition IsPolicyDrop (r : DropReason) : bool :=
  switch r [(DropReasonPolicy, true); (DropReasonPolicyL3, true); (DropReasonPolicyL4, true);
            (DropReasonPolicyL7, true); (DropReasonPolicyAuth, true); (DropReasonNoNetworkPolicy, true);
            (DropReasonIngressDenied, true); (DropReasonEgressDenied, true)] false.

Definition StateDisconnected : ConnectionState := "disconnected".
Definition StateConnecting : ConnectionState := "connecting".
Definition StateConnected : ConnectionState := "connected".
Definition StateReconnecting : ConnectionState := "reconnecting".

Definition zero_endpoint : Endpoint := mkEndpoint 0 EmptyString EmptyString ∅ [].
Definition zero_l4 : L4Info := mkL4Info EmptyString 0 0 None.
Definition zero_drop : FlowDrop :=
  mkFlowDrop zero_time zero_endpoint zero_endpoint (mkIPInfo EmptyString EmptyString) zero_l4
             EmptyString EmptyString EmptyString.

(** ** converter.go: the builder *)

Definition set_Source (e : Endpoint) (d : FlowDrop) : FlowDrop :=
  mkFlowDrop (f_Time d) e (f_Destination d) (f_IP d) (f_L4 d) (f_DropReason d) (f_PolicyName d) (f_TraceID d).
Definition set_Destination (e : Endpoint) (d : FlowDrop) : FlowDrop :=
  mkFlowDrop (f_Time d) (f_Source d) e (f_IP d) (f_L4 d) (f_DropReason d) (f_PolicyName d) (f_TraceID d).
Definition set_Identity (i : Z) (e : Endpoint) : Endpoint :=
  mkEndpoint i (e_Namespace e) (e_PodName e) (e_Labels e) (e_Workloads e).
Definition add_Workload (w : WorkloadRef) (e : Endpoint) : Endpoint :=
  mkEndpoint (e_Identity e) (e_Namespace e) (e_PodName e) (e_Labels e) (e_Workloads e ++ [w]).

Definition NewFlowDropBuilder (now : Time) : FlowDrop :=
  mkFlowDrop now zero_endpoint zero_endpoint (mkIPInfo EmptyString EmptyString) zero_l4
             EmptyString EmptyString EmptyString.
Definition WithTime (t : Time) (d : FlowDrop) : FlowDrop :=
  mkFlowDrop t (f_Source d) (f_Destination d) (f_IP d) (f_L4 d) (f_DropReason d) (f_PolicyName d) (f_TraceID d).
Definition WithTraceID (traceID : string) (d : FlowDrop) : FlowDrop :=
  mkFlowDrop (f_Time d) (f_Source d) (f_Destination d) (f_IP d) (f_L4 d) (f_DropReason d) (f_PolicyName d) traceID.
Definition WithSource (namespace podName : string) (labels : gmap string string) (d : FlowDrop) : FlowDrop :=
  set_Source (mkEndpoint 0 namespace podName labels []) d.
Definition WithSourceIdentity (identity : Z) (d : FlowDrop) : FlowDrop :=
  set_Source (set_Identity identity (f_Source d)) d.
Definition WithSourceWorkload (kind name : string) (d : FlowDrop) : FlowDrop :=
  set_Source (add_Workload (mkWorkloadRef kind name) (f_Source d)) d.
Definition WithDestination (namespace podName : string) (labels : gmap string string) (d : FlowDrop) : FlowDrop :=
  set_Destination (mkEndpoint 0 namespace podName labels []) d.
Definition WithDestinationIdentity (identity : Z) (d : FlowDrop) : FlowDrop :=
  set_Destination (set_Identity identity (f_Destination d)) d.
Definition WithDestinationWorkload (kind name : string) (d : FlowDrop) : FlowDrop :=
  set_Destination (add_Workload (mkWorkloadRef kind name) (f_Destination d)) d.
Definition WithIP (source destination : string) (d : FlowDrop) : FlowDrop :=
  mkFlowDrop (f_Time d) (f_Source d) (f_Destination d) (mkIPInfo source destination) (f_L4 d)
             (f_DropReason d) (f_PolicyName d) (f_TraceID d).
Definition set_L4 (l4 : L4Info) (d : FlowDrop) : FlowDrop :=
  mkFlowDrop (f_Time d) (f_Source d) (f_Destination d) (f_IP d) l4 (f_DropReason d) (f_PolicyName d) (f_TraceID d).
Definition WithTCP (srcPort dstPort : Z) (flags : TCPFlags) : FlowDrop -> FlowDrop :=
  set_L4 (mkL4Info ProtocolTCP srcPort dstPort (Some flags)).
Definition WithUDP (srcPort dstPort : Z) : FlowDrop -> FlowDrop :=
  set_L4 (mkL4Info ProtocolUDP srcPort dstPort None).
Definition WithDropReason (reason : DropReason) (d : FlowDrop) : FlowDrop :=
  mkFlowDrop (f_Time d) (f_Source d) (f_Destination d) (f_IP d) (f_L4 d) reason (f_PolicyName d) (f_TraceID d).
Definition WithPolicyName (name : string) (d : FlowDrop) : FlowDrop :=
  mkFlowDrop (f_Time d) (f_Source d) (f_Destination d) (f_IP d) (f_L4 d) (f_DropReason d) name (f_TraceID d).

(** ** converter.go: codes and labels *)

(** The constants of flowpb.DropReason that [ParseDropReason] names. *)
Class FlowPB := {
  POLICY_DENIED : Z; POLICY_DENY : Z; AUTH_REQUIRED : Z; INVALID_IDENTITY : Z;
  CT_NO_MAP_FOUND : Z; FIB_LOOKUP_FAILED : Z; INVALID_SOURCE_IP : Z; INVALID_PACKET_DROPPED : Z;
  TTL_EXCEEDED : Z; PROXY_REDIRECTION_NOT_SUPPORTED_FOR_PROTOCOL : Z;
  Verdict_DROPPED : Z;
}.

Definition ParseDropReason `{FlowPB} (code : Z) : DropReason :=
  if (code == POLICY_DENIED) || (code == POLICY_DENY) then DropReasonPolicy
  else if (code == AUTH_REQUIRED) || (code == INVALID_IDENTITY) then DropReasonPolicyAuth
  else if (code == CT_NO_MAP_FOUND) || (code == FIB_LOOKUP_FAILED) then DropReasonNoMapping
  else if (code == INVALID_SOURCE_IP) || (code == INVALID_PACKET_DROPPED) then DropReasonInvalidPacket
  else if code == TTL_EXCEEDED then DropReasonTTLExceeded
  else if code == PROXY_REDIRECTION_NOT_SUPPORTED_FOR_PROTOCOL then DropReasonProxyRedirect
  else DropReasonUnknown.

(** [l[idx+1:]] after the first colon. *)
Definition strip_source (l : string) : string :=
  match strings_Index l ":"%char with
  | Some idx => String.substring (S idx) (String.length l - S idx) l
  | None => l
  end.

(** The body of the loop of [parseLabels]. *)
Definition add_label (result : gmap string string) (l : string) : gmap string string :=
  match strings_SplitN2 (strip_source l) "="%char with
  | [k; v] => <[k := v]> result
  | k :: _ => if k != EmptyString then <[k := EmptyString]> result else result
  | [] => result
  end.

Definition parseLabels (protoLabels : list string) : gmap string string := foldl add_label ∅ protoLabels.

Definition ParseProtocol (proto : Z) : Protocol :=
  if proto == 6%Z then ProtocolTCP
  else if proto == 17%Z then ProtocolUDP
  else if proto == 1%Z then ProtocolICMP
  else ProtocolUnknown.

(** ** client.go: the conversion of a flow *)

Record PbEndpoint := mkPbEndpoint {
  pe_Identity : Z; pe_Namespace : string; pe_PodName : string; pe_Labels : list string;
  pe_Workloads : list (option WorkloadRef);
}.

Record PbTCP := mkPbTCP { pt_SourcePort : Z; pt_DestinationPort : Z; pt_Flags : option TCPFlags }.

Record PbL4 := mkPbL4 {
  pl_TCP : option PbTCP; pl_UDP : option (Z * Z); pl_ICMPv4 : bool; pl_ICMPv6 : bool;
}.

Record PbFlow := mkPbFlow {
  pf_Verdict : Z; pf_Uuid : string; pf_DropReasonDesc : Z; pf_Time : option Time;
  pf_Source : option PbEndpoint; pf_Destination : option PbEndpoint;
  pf_IP : option IPInfo; pf_L4 : option PbL4;
}.

(** The blocks of [convertFlow] for [f.GetSource()] and [f.GetDestination()]. *)
Definition convert_endpoint (e : option PbEndpoint) : Endpoint :=
  match e with
  | Some e => mkEndpoint (pe_Identity e) (pe_Namespace e) (pe_PodName e) (parseLabels (pe_Labels e))
                         (omap id (pe_Workloads e))
  | None => zero_endpoint
  end.

Definition convert_l4 (l4 : option PbL4) : L4Info :=
  match l4 with
  | None => zero_l4
  | Some l4 =>
      match pl_TCP l4, pl_UDP l4 with
      | Some tcp, _ => mkL4Info ProtocolTCP (pt_SourcePort tcp) (pt_DestinationPort tcp) (pt_Flags tcp)
      | None, Some (s, d) => mkL4Info ProtocolUDP s d None
      | None, None => if pl_ICMPv4 l4 then mkL4Info ProtocolICMP 0 0 None
                      else if pl_ICMPv6 l4 then mkL4Info ProtocolICMP 0 0 None
                      else mkL4Info ProtocolUnknown 0 0 None
      end
  end.

(** [None] is the [false] result. *)
Definition convertFlow `{FlowPB} (now : Time) (f : PbFlow) : option FlowDrop :=
  if pf_Verdict f != Verdict_DROPPED then None
  else Some (mkFlowDrop (default now (pf_Time f)) (convert_endpoint (pf_Source f))
                        (convert_endpoint (pf_Destination f))
                        (default (mkIPInfo EmptyString EmptyString) (pf_IP f)) (convert_l4 (pf_L4 f))
                        (ParseDropReason (pf_DropReasonDesc f)) EmptyString (pf_Uuid f)).

(** ** client.go: the client *)

Record ClientOptions := mkClientOptions {
  co_RelayAddress : string;
  co_ReconnectInterval : Duration;
  co_MaxReconnectInterval : Duration;
  co_BufferSize : Z;
}.

Definition DefaultClientOptions : ClientOptions :=
  mkClientOptions "hubble-relay.kube-system.svc.cluster.local:4245" time_Second time_Minute 1000.

Record Client := mkClient {
  cl_opts : ClientOptions;
  cl_state : ConnectionState;
  cl_drops : list FlowDrop;        (**r the content of the channel [drops] *)
  cl_closed : bool;                (**r [drops] is closed *)
  cl_reconnects : Z;               (**r uint64 *)
  cl_flowDrops : Z;                (**r uint64 *)
}.

Definition wrap_u64 (z : Z) : Z := z mod 2 ^ 64.

Definition NewClient (opts : ClientOptions) : Client :=
  let d := DefaultClientOptions in
  let addr := if co_RelayAddress opts == EmptyString then co_RelayAddress d else co_RelayAddress opts in
  let ri := if co_ReconnectInterval opts == 0%Z then co_ReconnectInterval d else co_ReconnectInterval opts in
  let mri := if co_MaxReconnectInterval opts == 0%Z then co_MaxReconnectInterval d else co_MaxReconnectInterval opts in
  let bs := if co_BufferSize opts == 0%Z then co_BufferSize d else co_BufferSize opts in
  mkClient (mkClientOptions addr ri mri bs) StateDisconnected [] false 0 0.

Definition setState (st : ConnectionState) (c : Client) : Client :=
  mkClient (cl_opts c) st (cl_drops c) (cl_closed c) (cl_reconnects c) (cl_flowDrops c).

Definition IsConnected (c : Client) : bool := cl_state c == StateConnected.

Definition nextReconnectInterval (c : Client) (current : Duration) : Duration :=
  let next := wrap64 (current * 2) in
  if (co_MaxReconnectInterval (cl_opts c) <? next)%Z then co_MaxReconnectInterval (cl_opts c) else next.

(** The non-blocking send: the drop is lost when the channel is full. *)
Definition recordFlowDrop (drop : FlowDrop) (c : Client) : Client :=
  if (go_len (cl_drops c) <? co_BufferSize (cl_opts c))%Z
  then mkClient (cl_opts c) (cl_state c) (cl_drops c ++ [drop]) (cl_closed c) (cl_reconnects c)
                (wrap_u64 (cl_flowDrops c + 1))
  else c.

(** The reader of [DroppedFlows()] takes one flow. *)
Definition receive (c : Client) : option FlowDrop * Client :=
  match cl_drops c with
  | [] => (None, c)
  | d :: ds => (Some d, mkClient (cl_opts c) (cl_state c) ds (cl_closed c) (cl_reconnects c) (cl_flowDrops c))
  end.

(** What happens at one round of the loop of [streamFlows]: the stop signal,
    an error of [Recv] (end of stream included), a response, or the reader
    taking a flow meanwhile. *)
Inductive stream_event :=
  | SStop
  | SRecvErr
  | SResponse (now : Time) (flow : option PbFlow)
  | SReader.

Section client.
Context `{FP : FlowPB}.

(** The loop runs until it is stopped or the stream fails; the flows the
    reader took are returned too. *)
Fixpoint streamFlows (events : list stream_event) (c : Client) : Client * list FlowDrop :=
  match events with
  | [] | SStop :: _ | SRecvErr :: _ => (c, [])
  | SResponse now (Some f) :: events' =>
      match convertFlow now f with
      | Some drop => streamFlows events' (recordFlowDrop drop c)
      | None => streamFlows events' c
      end
  | SResponse _ None :: events' => streamFlows events' c
  | SReader :: events' =>
      let '(d, c1) := receive c in
      let '(c2, ds) := streamFlows events' c1 in
      (c2, option_list d ++ ds)
  end.

(** One iteration of [connectionLoop] as the environment decides it. *)
Inductive iteration :=
  | ILoopStop                               (**r ctx.Done() or stopCh at the loop's head *)
  | IConnectFail (stopped : bool)           (**r connect fails; the wait is cut by a stop *)
  | IConnected (events : list stream_event).

(** The loop, with the backoff durations it waits for and what was read. *)
Fixpoint connection_loop (interval : Duration) (its : list iteration) (c : Client)
    : Client * list Duration * list FlowDrop :=
  match its with
  | [] => (c, [], [])
  | ILoopStop :: _ =>
      (mkClient (cl_opts c) (cl_state c) (cl_drops c) true (cl_reconnects c) (cl_flowDrops c), [], [])
  | IConnectFail stopped :: its' =>
      let c1 := setState StateConnecting c in
      if stopped
      then (mkClient (cl_opts c1) (cl_state c1) (cl_drops c1) true (cl_reconnects c1) (cl_flowDrops c1), [], [])
      else let '(c2, waits, read) := connection_loop (nextReconnectInterval c1 interval) its' c1 in
           (c2, interval :: waits, read)
  | IConnected events :: its' =>
      let c1 := setState StateConnected (setState StateConnecting c) in
      let '(c2, read1) := streamFlows events c1 in
      let c3 := mkClient (cl_opts c2) StateReconnecting (cl_drops c2) (cl_closed c2)
                         (wrap_u64 (cl_reconnects c2 + 1)) (cl_flowDrops c2) in
      let '(c4, waits, read2) := connection_loop (co_ReconnectInterval (cl_opts c)) its' c3 in
      (c4, waits, read1 ++ read2)
  end.

Definition connectionLoop (its : list iteration) (c : Client) : Client * list Duration * list FlowDrop :=
  connection_loop (co_ReconnectInterval (cl_opts c)) its c.
End client.

Record ClientStats := mkClientStats { cs_State : ConnectionState; cs_Reconnects : Z; cs_FlowDrops : Z }.
Definition State (c : Client) : ConnectionState := cl_state c.
Definition Stats (c : Client) : ClientStats := mkClientStats (cl_state c) (cl_reconnects c) (cl_flowDrops c).

(** *** Close *)

(** Where the goroutine of the connection loop is: at the head of the loop,
    waiting to reconnect, inside [GetFlows], at the head of the loop of
    [streamFlows], inside [Recv], or gone, with [wg.Done()] called and [drops] closed. *)
Inductive place := LoopHead | Backoff | Opening | StreamHead | InRecv | Exited.

(** [cc_stop] is whether [stopCh] is closed, [cc_ctx] whether the context of
    [NewClient] is cancelled. *)
Record Control := mkControl { cc_place : place; cc_stop : bool; cc_ctx : bool }.

(** What lets the goroutine go on: itself, the timer, or the relay (an answer,
    the end of the stream, a connection). *)
Inductive mover := Self | Timer | Relay.

Inductive loop_step : mover -> Control -> Control -> Prop :=
  | head_stops stop ctx : stop || ctx = true -> loop_step Self (mkControl LoopHead stop ctx) (mkControl Exited stop ctx)
  | head_connects : loop_step Self (mkControl LoopHead false false) (mkControl Opening false false)
  | head_fails : loop_step Self (mkControl LoopHead false false) (mkControl Backoff false false)
  | backoff_stops stop ctx : stop || ctx = true -> loop_step Self (mkControl Backoff stop ctx) (mkControl Exited stop ctx)
  | backoff_ends stop ctx : loop_step Timer (mkControl Backoff stop ctx) (mkControl LoopHead stop ctx)
  | stream_opens stop ctx : loop_step Relay (mkControl Opening stop ctx) (mkControl StreamHead stop ctx)
  | stream_refused stop ctx : loop_step Relay (mkControl Opening stop ctx) (mkControl LoopHead stop ctx)
  | open_cancelled stop : loop_step Self (mkControl Opening stop true) (mkControl LoopHead stop true)
  | stream_stops ctx : loop_step Self (mkControl StreamHead true ctx) (mkControl LoopHead true ctx)
  | stream_receives ctx : loop_step Self (mkControl StreamHead false ctx) (mkControl InRecv false ctx)
  | recv_answer stop ctx : loop_step Relay (mkControl InRecv stop ctx) (mkControl StreamHead stop ctx)
  | recv_ends stop ctx : loop_step Relay (mkControl InRecv stop ctx) (mkControl LoopHead stop ctx)
  | recv_cancelled stop : loop_step Self (mkControl InRecv stop true) (mkControl LoopHead stop true).

(** The first half of [Close], under its [sync.Once]; [Close] returns when the
    goroutine has exited. *)
Definition Close (c : Control) : Control := mkControl (cc_place c) true (cc_ctx c).
Definition Close_returns (c : Control) : bool := match cc_place c with Exited => true | _ => false end.

(** Steps that need nobody else. *)
Definition own_step : Control -> Control -> Prop := loop_step Self.

(** The goroutine is in a call that only the relay or the context ends. *)
Definition in_call (p : place) : bool := match p with Opening | InRecv => true | _ => false end.

(** Once [Close] has signalled, the goroutine exits by itself within two steps
    wherever it is, except inside a call to the relay with a live context: there
    it makes no step of its own, so that [Close] blocks while the relay is silent. *)
Theorem Close_terminates c :
  let c' := Close c in
  (in_call (cc_place c) = false ∨ cc_ctx c = true →
   (∃ d, rtc own_step c' d ∧ Close_returns d = true) ∧ ∀ d e f, own_step c' d → own_step d e → own_step e f → False) ∧
  (in_call (cc_place c) = true → cc_ctx c = false → ∀ d, ¬ own_step c' d).
Proof.
  destruct c as [pl stop ctx]. unfold Close, own_step. simpl. split.
  - intros Hp. split.
    + exists (mkControl Exited true ctx). split; [|done].
      assert (rtc (loop_step Self) (mkControl LoopHead true ctx) (mkControl Exited true ctx)) as Hh by (by apply rtc_once; constructor).
      destruct pl; [done|by apply rtc_once; constructor| | | |done].
      * destruct Hp as [?| ->]; [done|]. eapply rtc_l; [apply open_cancelled|done].
      * eapply rtc_l; [apply stream_stops|done].
      * destruct Hp as [?| ->]; [done|]. eapply rtc_l; [apply recv_cancelled|done].
    + intros d e f H1 H2 H3. inversion H1; subst; inversion H2; subst; inversion H3.
  - intros Hp -> d H. by destruct pl; inversion H.
Qed.

(** ** Drop reasons *)

(** A drop is classified as a policy drop exactly for the four policy and
    identity codes; every other code, unknown ones included, is ignored by the
    correlator. *)
Theorem ParseDropReason_policy `{FlowPB} code :
  IsPolicyDrop (ParseDropReason code) = true ↔
  code ∈ [POLICY_DENIED; POLICY_DENY; AUTH_REQUIRED; INVALID_IDENTITY].
Proof.
  unfold ParseDropReason. rewrite !elem_of_cons, elem_of_nil.
  repeat case_bool_decide; simpl; split; (done || tauto || intros [|[|[|[|[]]]]]; done).
Qed.

(** ** Labels *)

Fixpoint no_char (c : ascii) (s : string) : bool :=
  match s with
  | EmptyString => true
  | String d s' => (d != c) && no_char c s'
  end.

#[local] Arguments String.append !_ _ /.

Lemma strings_Index_prefix p c s :
  no_char c p = true → strings_Index (p +:+ String c s) c = Some (String.length p).
Proof.
  induction p as [|d p IH]; simpl; intros Hp.
  - by rewrite bool_decide_eq_true_2.
  - apply andb_true_iff in Hp as [Hd Hp]. apply negb_true_iff in Hd. rewrite Hd. by rewrite IH.
Qed.

Lemma strip_source_prefix p s : no_char ":"%char p = true → strip_source (p +:+ String ":"%char s) = s.
Proof.
  intros Hp. unfold strip_source. rewrite strings_Index_prefix by done.
  rewrite string_length_append. simpl. replace (_ - _) with (String.length s) by lia.
  induction p as [|c p IH]; simpl; [apply substring_all|]. apply IH.
  by apply andb_true_iff in Hp as [_ ?].
Qed.

Lemma strings_SplitN2_prefix p c s :
  no_char c p = true → strings_SplitN2 (p +:+ String c s) c = [p; s].
Proof.
  induction p as [|d p IH]; simpl; intros Hp.
  - by rewrite bool_decide_eq_true_2.
  - apply andb_true_iff in Hp as [Hd Hp]. apply negb_true_iff in Hd. rewrite Hd. by rewrite IH.
Qed.

(** The Cilium form of a label. *)
Definition proto_label (source : string) (kv : string * string) : string :=
  source +:+ String ":"%char (kv.1 +:+ String "="%char kv.2).

Lemma add_label_proto source m kv :
  no_char ":"%char source = true → no_char "="%char kv.1 = true →
  add_label m (proto_label source kv) = <[kv.1 := kv.2]> m.
Proof.
  intros Hs Hk. unfold add_label, proto_label. by rewrite strip_source_prefix, strings_SplitN2_prefix.
Qed.

(** The pod labels that Cilium encodes as [source:key=value] strings, in
    any order, are read back exactly: only the source prefix is stripped, also
    when keys or values contain colons, or values equality signs. *)
Theorem parseLabels_roundtrip σ source (labels : gmap string string) :
  no_char ":"%char source = true → map_Forall (fun k _ => no_char "="%char k = true) labels →
  parseLabels (proto_label source <$> range σ labels) = labels.
Proof.
  intros Hs Hk. unfold parseLabels. rewrite foldl_fmap.
  assert (∀ m l, (∀ kv, kv ∈ l → labels !! kv.1 = Some kv.2) →
     foldl (fun m kv => add_label m (proto_label source kv)) m l = foldl (fun m kv => <[kv.1 := kv.2]> m) m l) as E.
  { intros m l. revert m. induction l as [|kv l IH]; intros m Hl; simpl; [done|].
    rewrite add_label_proto; [|done|eapply (Hk kv.1 kv.2), Hl; left]. apply IH. intros; apply Hl; by right. }
  rewrite E; [|intros [k v] Hin; by apply elem_of_range in Hin].
  apply rebuild_range.
Qed.

(** ** Backoff *)

Section client_lemmas.
Context `{FP : FlowPB}.

Lemma nextReconnectInterval_double c k :
  let base := co_ReconnectInterval (cl_opts c) in
  let cap := co_MaxReconnectInterval (cl_opts c) in
  (0 < base)%Z → (2 * cap ≤ int64_max)%Z → (0 ≤ k)%Z → (0 < cap)%Z →
  nextReconnectInterval c (Z.min (base * 2 ^ k) cap) = Z.min (base * 2 ^ (k + 1)) cap.
Proof.
  intros base cap Hb Hc Hk Hc0. unfold nextReconnectInterval. fold cap.
  assert (0 < base * 2 ^ k)%Z by (apply Z.mul_pos_pos; [done|by apply Z.pow_pos_nonneg]).
  rewrite Z.pow_add_r, Z.pow_1_r, Z.mul_assoc by lia.
  rewrite wrap64_id by (unfold int64_min, int64_max in *; lia).
  destruct (cap <? Z.min (base * 2 ^ k) cap * 2)%Z eqn:E; [apply Z.ltb_lt in E|apply Z.ltb_ge in E]; lia.
Qed.

Lemma connection_loop_failures c k n :
  let base := co_ReconnectInterval (cl_opts c) in
  let cap := co_MaxReconnectInterval (cl_opts c) in
  (0 < base)%Z → (2 * cap ≤ int64_max)%Z → (0 < cap)%Z →
  (connection_loop (Z.min (base * 2 ^ Z.of_nat k) cap) (replicate n (IConnectFail false)) c).1.2 =
  (fun i => Z.min (base * 2 ^ Z.of_nat i) cap) <$> seq k n.
Proof.
  intros base cap Hb Hc Hc0. subst base cap. revert c k Hb Hc Hc0.
  induction n as [|n IH]; intros c k Hb Hc Hc0; simpl; [done|].
  rewrite (nextReconnectInterval_double (setState StateConnecting c)) by (simpl; lia). simpl.
  replace (Z.of_nat k + 1)%Z with (Z.of_nat (S k)) by lia.
  specialize (IH (setState StateConnecting c) (S k) Hb Hc Hc0). simpl in IH.
  destruct (connection_loop _ _ _) as [[c2 waits] rd]. simpl in *. by rewrite IH.
Qed.

(** The wait after the failure that follows [k] failures in a row. *)
Definition backoff (base cap : Duration) (k : nat) : Duration :=
  match k with O => base | S _ => Z.min (base * 2 ^ Z.of_nat k) cap end.

Lemma connection_loop_streak c n :
  let base := co_ReconnectInterval (cl_opts c) in
  let cap := co_MaxReconnectInterval (cl_opts c) in
  (0 < base)%Z → (2 * base ≤ int64_max)%Z → (0 < cap)%Z → (2 * cap ≤ int64_max)%Z →
  (connection_loop base (replicate n (IConnectFail false)) c).1.2 = backoff base cap <$> seq 0 n.
Proof.
  intros base cap Hb Hb2 Hc Hc2. destruct n as [|n]; [done|]. csimpl.
  assert (nextReconnectInterval (setState StateConnecting c) base = Z.min (base * 2 ^ Z.of_nat 1) cap) as ->.
  { unfold nextReconnectInterval. simpl. fold cap. rewrite wrap64_id by (unfold int64_min, int64_max in *; lia).
    destruct (cap <? base * 2)%Z eqn:E; [apply Z.ltb_lt in E|apply Z.ltb_ge in E]; lia. }
  pose proof (connection_loop_failures (setState StateConnecting c) 1 n Hb Hc2 Hc) as H. simpl in H. fold base cap in H.
  destruct (connection_loop _ _ _) as [[c2 waits] rd]. simpl in *. rewrite H. f_equal.
  apply list_fmap_ext. intros i k Hk. apply lookup_seq in Hk as [-> _]. done.
Qed.

(** The loop goes on. *)
Definition goes_on (it : iteration) : Prop := match it with ILoopStop | IConnectFail true => False | _ => True end.

Lemma streamFlows_opts events c : cl_opts (streamFlows events c).1 = cl_opts c.
Proof.
  revert c. induction events as [|[| |now [f|]|] events IH]; intros c; simpl; try done.
  - destruct (convertFlow now f); rewrite IH; [|done]. unfold recordFlowDrop. by case_match.
  - assert (cl_opts (receive c).2 = cl_opts c) as Hr by (unfold receive; by case_match).
    destruct (receive c) as [d c1]. specialize (IH c1). destruct (streamFlows events c1). simpl in *. congruence.
Qed.

Lemma connection_loop_reset iv its events rest c :
  Forall goes_on its →
  ∃ c', cl_opts c' = cl_opts c ∧
    (connection_loop iv (its ++ IConnected events :: rest) c).1.2 =
    (connection_loop iv (its ++ [IConnected events]) c).1.2 ++ (connection_loop (co_ReconnectInterval (cl_opts c)) rest c').1.2.
Proof.
  intros Hits. revert iv c. induction Hits as [|it its Hit Hits IH]; intros iv c; simpl.
  - pose proof (streamFlows_opts events (setState StateConnected (setState StateConnecting c))) as Ho.
    destruct (streamFlows _ _) as [c2 read1]. simpl in Ho.
    exists (mkClient (cl_opts c2) StateReconnecting (cl_drops c2) (cl_closed c2) (wrap_u64 (cl_reconnects c2 + 1)) (cl_flowDrops c2)).
    split; [exact Ho|]. by destruct (connection_loop _ rest _) as [[? ?] ?].
  - destruct it as [| |evs]; [done|destruct stopped; [done|]|].
    + destruct (IH (nextReconnectInterval (setState StateConnecting c) iv) (setState StateConnecting c)) as (c' & Ho & E).
      exists c'. split; [done|]. simpl in E.
      destruct (connection_loop _ (its ++ IConnected events :: rest) _) as [[? ?] ?].
      destruct (connection_loop _ (its ++ [IConnected events]) _) as [[? ?] ?]. simpl in *. by rewrite E.
    + pose proof (streamFlows_opts evs (setState StateConnected (setState StateConnecting c))) as Ho1.
      destruct (streamFlows evs _) as [c2 read1]. simpl in Ho1.
      destruct (IH (co_ReconnectInterval (cl_opts c)) (mkClient (cl_opts c2) StateReconnecting (cl_drops c2) (cl_closed c2)
                         (wrap_u64 (cl_reconnects c2 + 1)) (cl_flowDrops c2))) as (c' & Ho & E).
      simpl in Ho. exists c'. split; [congruence|]. simpl in E. rewrite Ho1 in E.
      rewrite Ho1.
      destruct (connection_loop _ (its ++ IConnected events :: rest) _) as [[? ?] ?].
      destruct (connection_loop _ (its ++ [IConnected events]) _) as [[? ?] ?]. simpl in *. by rewrite E.
Qed.

(** C37: while [connect] keeps failing, the waits are the configured interval and
    then its doublings, capped at the maximum, for any number of attempts, from
    the start of the loop as from any successful [connect] on.  The bounds keep
    the doubling within a Duration.  [connect] fails only where [grpc.NewClient]
    does; an unreachable relay fails in the stream instead and is not waited for
    ([connectionLoop_stream_failures_no_wait]). *)
Theorem connectionLoop_backoff c n :
  let base := co_ReconnectInterval (cl_opts c) in
  let cap := co_MaxReconnectInterval (cl_opts c) in
  let waits its := (connectionLoop its c).1.2 in
  let failures := replicate n (IConnectFail false) in
  (0 < base)%Z → (2 * base ≤ int64_max)%Z → (0 < cap)%Z → (2 * cap ≤ int64_max)%Z →
  waits failures = (fun k => if bool_decide (k = 0) then base else Z.min (base * 2 ^ Z.of_nat k) cap) <$> seq 0 n ∧
  ∀ its events, Forall goes_on its →
    waits (its ++ IConnected events :: failures) = waits (its ++ [IConnected events]) ++ waits failures.
Proof.
  intros base cap waits failures Hb Hb2 Hc Hc2. unfold waits, connectionLoop. fold base. split.
  - unfold failures, base. rewrite connection_loop_streak by done. apply list_fmap_ext. intros i k _. by destruct k.
  - intros its events Hits. destruct (connection_loop_reset base its events failures c Hits) as (c' & Ho & ->). f_equal.
    fold base. pose proof (connection_loop_streak c n Hb Hb2 Hc Hc2) as H1. pose proof (connection_loop_streak c' n) as H2.
    rewrite Ho in H2. unfold failures. unfold base, cap in *. rewrite (H2 Hb Hb2 Hc Hc2). symmetry. exact H1.
Qed.

(** A relay that accepts connections but whose stream fails at once is
    retried with no wait at all: the backoff is reset by [connect], which
    succeeds without contacting the relay. *)
Theorem connectionLoop_stream_failures_no_wait c n :
  (connectionLoop (replicate n (IConnected [SRecvErr])) c).1.2 = [] ∧
  (cl_reconnects (connectionLoop (replicate n (IConnected [SRecvErr])) c).1.1 mod 2 ^ 64 =
   (cl_reconnects c + Z.of_nat n) mod 2 ^ 64)%Z.
Proof.
  unfold connectionLoop. generalize (co_ReconnectInterval (cl_opts c)) as iv. revert c.
  induction n as [|n IH]; intros c iv; simpl; [split; [done|f_equal; lia]|].
  match goal with |- context [connection_loop ?i _ ?d] => destruct (IH d i) as [IHw IHr] end.
  destruct (connection_loop _ _ _) as [[c4 waits] rd]. simpl in *. split; [done|].
  rewrite IHr. unfold wrap_u64. rewrite Z.add_mod_idemp_l by done. f_equal. lia.
Qed.

(** ** The flow channel *)

(** The drops the relay sends, in order. *)
Definition stream_drops (events : list stream_event) : list FlowDrop :=
  omap (fun e => match e with SResponse now (Some f) => convertFlow now f | _ => None end) events.

Definition loop_drops (its : list iteration) : list FlowDrop :=
  mjoin ((fun it => match it with IConnected events => stream_drops events | _ => [] end) <$> its).

(** [moves sent c read c']: from [c] to [c'] the client received [sent] and its
    reader took [read]; the flows kept are in order and counted, and the
    channel's capacity is respected. *)
Definition moves (sent : list FlowDrop) (c : Client) (rd : list FlowDrop) (c' : Client) : Prop :=
  cl_opts c' = cl_opts c ∧
  (∃ kept, kept `sublist_of` sent ∧ rd ++ cl_drops c' = cl_drops c ++ kept ∧
           cl_flowDrops c' mod 2 ^ 64 = (cl_flowDrops c + go_len kept) mod 2 ^ 64)%Z ∧
  (go_len (cl_drops c) ≤ co_BufferSize (cl_opts c) → go_len (cl_drops c') ≤ co_BufferSize (cl_opts c'))%Z.

Lemma moves_refl sent c c' :
  cl_opts c' = cl_opts c → cl_drops c' = cl_drops c → cl_flowDrops c' = cl_flowDrops c → moves sent c [] c'.
Proof.
  intros Ho Hd Hf. split_and!; [done| |by rewrite Ho, Hd]. exists []. rewrite Hd, Hf, (right_id_L [] (++)).
  split_and!; [apply sublist_nil_l|done|]. unfold go_len. simpl. by rewrite Z.add_0_r.
Qed.

Lemma moves_trans s1 s2 c1 c2 c3 r1 r2 :
  moves s1 c1 r1 c2 → moves s2 c2 r2 c3 → moves (s1 ++ s2) c1 (r1 ++ r2) c3.
Proof.
  intros (Ho1 & (k1 & Hs1 & Hd1 & Hf1) & Hb1) (Ho2 & (k2 & Hs2 & Hd2 & Hf2) & Hb2).
  split_and!; [congruence| |auto]. exists (k1 ++ k2). split_and!.
  - by apply sublist_app.
  - by rewrite <-(assoc_L _), Hd2, (assoc_L _), Hd1, (assoc_L _).
  - rewrite Hf2. rewrite Z.add_mod, Hf1, <-Z.add_mod by done. f_equal. unfold go_len. rewrite length_app. lia.
Qed.

Lemma moves_record drop c : moves [drop] c [] (recordFlowDrop drop c).
Proof.
  unfold recordFlowDrop. destruct (_ <? _)%Z eqn:Hlt; [|by apply moves_refl]. apply Z.ltb_lt in Hlt.
  split_and!; [done| |].
  - exists [drop]. simpl. split_and!; [done|done|]. unfold wrap_u64. by rewrite Z.mod_mod.
  - simpl. unfold go_len in *. rewrite length_app. simpl. lia.
Qed.

Lemma moves_receive c : moves [] c (option_list (receive c).1) (receive c).2.
Proof.
  unfold receive. destruct (cl_drops c) as [|d ds] eqn:Hd; simpl; [by apply moves_refl|].
  split_and!; [done| |].
  - exists []. simpl. rewrite Hd. split_and!; [done|by rewrite (right_id_L [] (++))|]. unfold go_len. simpl. f_equal. lia.
  - simpl. rewrite Hd. unfold go_len. simpl. lia.
Qed.

Lemma streamFlows_moves events c :
  moves (stream_drops events) c (streamFlows events c).2 (streamFlows events c).1.
Proof.
  revert c. induction events as [|[| |now [f|]|] events IH]; intros c; simpl; try by apply moves_refl.
  - unfold stream_drops. csimpl. fold (stream_drops events). destruct (convertFlow now f) as [d|]; [|apply IH].
    apply (moves_trans [d] _ _ _ _ [] _ (moves_record d c)). apply IH.
  - apply IH.
  - pose proof (moves_receive c) as Hr. destruct (receive c) as [d c1]. simpl in *.
    specialize (IH c1). destruct (streamFlows events c1) as [c2 ds]. by apply (moves_trans [] _ _ _ _ _ _ Hr).
Qed.

Lemma connection_loop_moves iv its c :
  moves (loop_drops its) c (connection_loop iv its c).2 (connection_loop iv its c).1.1.
Proof.
  revert iv c. induction its as [|[|[]|events] its IH]; intros iv c; simpl; try by apply moves_refl.
  - specialize (IH (nextReconnectInterval (setState StateConnecting c) iv) (setState StateConnecting c)).
    destruct (connection_loop _ its _) as [[c2 waits] rd]. exact IH.
  - pose proof (streamFlows_moves events (setState StateConnected (setState StateConnecting c))) as Hs.
    destruct (streamFlows _ _) as [c2 rd]. simpl in *.
    match goal with |- context [connection_loop ?i its ?d] => specialize (IH i d) end.
    destruct (connection_loop _ its _) as [[c4 waits] rd2]. simpl in *.
    unfold loop_drops. csimpl. fold (loop_drops its).
    apply (moves_trans _ _ _ c2); [exact Hs|exact IH].
Qed.

(** Whatever the relay, the reader and the stop signal do, the flow channel
    never holds more than its buffer size, flows are never duplicated nor
    reordered (what was read followed by what is queued is a subsequence of the
    drops sent), and the statistic counts exactly the flows let in. *)
Theorem connectionLoop_channel opts its :
  (0 ≤ co_BufferSize (cl_opts (NewClient opts)))%Z →
  let '(c, _, rd) := connectionLoop its (NewClient opts) in
  (go_len (cl_drops c) ≤ co_BufferSize (cl_opts c))%Z ∧
  rd ++ cl_drops c `sublist_of` loop_drops its ∧
  (cl_flowDrops c mod 2 ^ 64 = (go_len rd + go_len (cl_drops c)) mod 2 ^ 64)%Z.
Proof.
  intros Hb. unfold connectionLoop.
  destruct (connection_loop_moves (co_ReconnectInterval (cl_opts (NewClient opts))) its (NewClient opts))
    as (Ho & (kept & Hsub & Hd & Hf) & Hlen).
  destruct (connection_loop _ _ _) as [[c waits] rd]. simpl in *.
  rewrite Hd, Hf. split_and!; [apply Hlen; done|done|].
  f_equal. subst kept. unfold go_len. rewrite length_app. lia.
Qed.
End client_lemmas.

(** ** Evaluation *)

#[export] Instance example_codes : FlowPB := {
  POLICY_DENIED := 133; POLICY_DENY := 181; AUTH_REQUIRED := 189; INVALID_IDENTITY := 171;
  CT_NO_MAP_FOUND := 190; FIB_LOOKUP_FAILED := 169; INVALID_SOURCE_IP := 132; INVALID_PACKET_DROPPED := 134;
  TTL_EXCEEDED := 196; PROXY_REDIRECTION_NOT_SUPPORTED_FOR_PROTOCOL := 180; Verdict_DROPPED := 2;
}.

Lemma parseLabels_roundtrip_witness :
  parseLabels (proto_label "k8s" <$> range in_order {[ "app" := "a:b=c"; "io.cilium/ns" := "x" ]}%string)
  = {[ "app" := "a:b=c"; "io.cilium/ns" := "x" ]}%string.
Proof. apply parseLabels_roundtrip; [reflexivity|refine (bool_decide_unpack _ _); vm_compute; exact I]. Defined.

Lemma connectionLoop_backoff_witness :
  (connectionLoop [IConnectFail false; IConnected []; IConnectFail false; IConnectFail false] (NewClient DefaultClientOptions)).1.2 =
  [time_Second; time_Second; 2 * time_Second]%Z.
Proof.
  destruct (connectionLoop_backoff (NewClient DefaultClientOptions) 2) as [H1 H2]; [reflexivity|vm_compute; discriminate|reflexivity|vm_compute; discriminate|].
  specialize (H2 [IConnectFail false] []). rewrite H1 in H2. apply H2. apply Forall_singleton. exact I.
Defined.

Definition example_flow : PbFlow :=
  mkPbFlow 2 "id" 133 None
    (Some (mkPbEndpoint 7 "prod" "web-1" ["k8s:app=web"] [Some (mkWorkloadRef "Deployment" "web"); None]))
    None None (Some (mkPbL4 None (Some (53, 53)%Z) false false)).

Lemma connectionLoop_channel_witness :
  let '(c, _, rd) := connectionLoop [IConnected [SResponse 5 (Some example_flow); SReader;
                                                 SResponse 6 (Some example_flow)]] (NewClient DefaultClientOptions) in
  (go_len (cl_drops c) ≤ 1000)%Z ∧ length (rd ++ cl_drops c) = 2.
Proof.
  split; [|reflexivity].
  exact (proj1 (connectionLoop_channel DefaultClientOptions
    [IConnected [SResponse 5 (Some example_flow); SReader; SResponse 6 (Some example_flow)]]
    ltac:(vm_compute; congruence))).
Defined.
