(* ===== verification/FlowBuilder.v ===== *)
(** * The flow drop builder and its references (internal/hubble/converter.go)

    [Hubble] treats the builder's drop as a value.  In the program the labels
    are maps that the caller still holds, the workloads are slices whose
    backing array [append] writes in place while there is room, and the TCP
    information is behind a pointer.  Here the drop holds references into a
    [Store]: the operations of the builder are shown to compute what the value
    model says, and what [Build] returns is shown not to change when the
    builder goes on or the caller writes its maps. *)

From S2P Require Import Prelude GoStd Types Hubble.

Open Scope go_scope.
#[local] Open Scope string_scope.

Module Builder.

(** ** The heap *)

(** Maps, backing arrays of slices of [WorkloadRef] (as long as their
    capacity) and [TCPInfo] structs; locations from [next] on are free. *)
Record Store := mkStore {
  maps : gmap nat (gmap string string);
  arrays : gmap nat (list WorkloadRef);
  tcps : gmap nat TCPFlags;
  next : nat;
}.

(** A slice that starts at the head of its array; nil is [None] below. *)
Record Slice := mkSlice { sl_array : nat; sl_len : nat }.

Record EndpointRef := mkEndpointRef {
  er_Identity : Z; er_Namespace : string; er_PodName : string; er_Labels : option nat; er_Workloads : option Slice }.

Record FlowDropBuilder := mkBuilder {
  b_Time : Time; b_Source : EndpointRef; b_Destination : EndpointRef; b_IP : IPInfo;
  b_Protocol : Protocol; b_SourcePort : Z; b_DestinationPort : Z; b_TCP : option nat;
  b_DropReason : DropReason; b_PolicyName : string; b_TraceID : string }.

Definition new_map (m : gmap string string) (s : Store) : nat * Store :=
  (next s, mkStore (<[next s := m]> (maps s)) (arrays s) (tcps s) (S (next s))).
Definition new_array (a : list WorkloadRef) (s : Store) : nat * Store :=
  (next s, mkStore (maps s) (<[next s := a]> (arrays s)) (tcps s) (S (next s))).
Definition new_tcp (f : TCPFlags) (s : Store) : nat * Store :=
  (next s, mkStore (maps s) (arrays s) (<[next s := f]> (tcps s)) (S (next s))).

Definition array (s : Store) (l : nat) : list WorkloadRef := default [] (arrays s !! l).

(** [append(ws, w)]: in place while the capacity allows, otherwise into a new
    array whose spare part is [room]. *)
Definition append (room : list WorkloadRef) (w : WorkloadRef) (ws : option Slice) (s : Store) : option Slice * Store :=
  match ws with
  | None => let '(l, s') := new_array (w :: room) s in (Some (mkSlice l 1), s')
  | Some sl =>
      let a := array s (sl_array sl) in
      if (sl_len sl <? length a)%nat
      then (Some (mkSlice (sl_array sl) (S (sl_len sl))),
            mkStore (maps s) (<[sl_array sl := <[sl_len sl := w]> a]> (arrays s)) (tcps s) (next s))
      else let '(l, s') := new_array (take (sl_len sl) a ++ w :: room) s in (Some (mkSlice l (S (sl_len sl))), s')
  end.

(** ** converter.go *)

Definition zero_ref : EndpointRef := mkEndpointRef 0 EmptyString EmptyString None None.

Definition NewFlowDropBuilder (now : Time) : FlowDropBuilder :=
  mkBuilder now zero_ref zero_ref (mkIPInfo EmptyString EmptyString) EmptyString 0 0 None EmptyString EmptyString EmptyString.

Definition set_source (e : EndpointRef) (b : FlowDropBuilder) : FlowDropBuilder :=
  mkBuilder (b_Time b) e (b_Destination b) (b_IP b) (b_Protocol b) (b_SourcePort b) (b_DestinationPort b) (b_TCP b)
    (b_DropReason b) (b_PolicyName b) (b_TraceID b).
Definition set_destination (e : EndpointRef) (b : FlowDropBuilder) : FlowDropBuilder :=
  mkBuilder (b_Time b) (b_Source b) e (b_IP b) (b_Protocol b) (b_SourcePort b) (b_DestinationPort b) (b_TCP b)
    (b_DropReason b) (b_PolicyName b) (b_TraceID b).
Definition set_workloads (ws : option Slice) (e : EndpointRef) : EndpointRef :=
  mkEndpointRef (er_Identity e) (er_Namespace e) (er_PodName e) (er_Labels e) ws.
Definition set_identity (i : Z) (e : EndpointRef) : EndpointRef :=
  mkEndpointRef i (er_Namespace e) (er_PodName e) (er_Labels e) (er_Workloads e).
Definition set_l4 (p : Protocol) (src dst : Z) (tcp : option nat) (b : FlowDropBuilder) : FlowDropBuilder :=
  mkBuilder (b_Time b) (b_Source b) (b_Destination b) (b_IP b) p src dst tcp (b_DropReason b) (b_PolicyName b) (b_TraceID b).

Definition set_plain (t : Time) (ip : IPInfo) (reason : DropReason) (policy trace : string) (b : FlowDropBuilder) : FlowDropBuilder :=
  mkBuilder t (b_Source b) (b_Destination b) ip (b_Protocol b) (b_SourcePort b) (b_DestinationPort b) (b_TCP b) reason policy trace.

(** The methods of the builder; the labels are the caller's map. *)
Inductive op :=
  | WithTime (t : Time)
  | WithTraceID (traceID : string)
  | WithIP (source destination : string)
  | WithDropReason (reason : DropReason)
  | WithPolicyName (name : string)
  | WithSource (namespace podName : string) (labels : option nat)
  | WithSourceIdentity (identity : Z)
  | WithSourceWorkload (kind name : string) (room : list WorkloadRef)
  | WithDestination (namespace podName : string) (labels : option nat)
  | WithDestinationIdentity (identity : Z)
  | WithDestinationWorkload (kind name : string) (room : list WorkloadRef)
  | WithTCP (srcPort dstPort : Z) (flags : TCPFlags)
  | WithUDP (srcPort dstPort : Z).

Definition apply (o : op) (b : FlowDropBuilder) (s : Store) : FlowDropBuilder * Store :=
  match o with
  | WithTime t => (set_plain t (b_IP b) (b_DropReason b) (b_PolicyName b) (b_TraceID b) b, s)
  | WithTraceID id => (set_plain (b_Time b) (b_IP b) (b_DropReason b) (b_PolicyName b) id b, s)
  | WithIP src dst => (set_plain (b_Time b) (mkIPInfo src dst) (b_DropReason b) (b_PolicyName b) (b_TraceID b) b, s)
  | WithDropReason r => (set_plain (b_Time b) (b_IP b) r (b_PolicyName b) (b_TraceID b) b, s)
  | WithPolicyName n => (set_plain (b_Time b) (b_IP b) (b_DropReason b) n (b_TraceID b) b, s)
  | WithSource ns pod labels => (set_source (mkEndpointRef 0 ns pod labels None) b, s)
  | WithSourceIdentity i => (set_source (set_identity i (b_Source b)) b, s)
  | WithSourceWorkload kind name room =>
      let '(ws, s') := append room (mkWorkloadRef kind name) (er_Workloads (b_Source b)) s in
      (set_source (set_workloads ws (b_Source b)) b, s')
  | WithDestination ns pod labels => (set_destination (mkEndpointRef 0 ns pod labels None) b, s)
  | WithDestinationIdentity i => (set_destination (set_identity i (b_Destination b)) b, s)
  | WithDestinationWorkload kind name room =>
      let '(ws, s') := append room (mkWorkloadRef kind name) (er_Workloads (b_Destination b)) s in
      (set_destination (set_workloads ws (b_Destination b)) b, s')
  | WithTCP src dst flags => let '(l, s') := new_tcp flags s in (set_l4 ProtocolTCP src dst (Some l) b, s')
  | WithUDP src dst => (set_l4 ProtocolUDP src dst None b, s)
  end.

(** The loop of [copyStringMap] over the map, in the order [σ]. *)
Definition copyStringMap (σ : Shuffle) (m : option nat) (s : Store) : option nat * Store :=
  match m with
  | None => (None, s)
  | Some l =>
      let result := foldl (fun acc kv => <[kv.1 := kv.2]> acc) ∅ (range σ (default ∅ (maps s !! l))) in
      let '(l', s') := new_map result s in (Some l', s')
  end.

Definition copyWorkloads (ws : option Slice) (s : Store) : option Slice * Store :=
  match ws with
  | None => (None, s)
  | Some sl => let '(l, s') := new_array (take (sl_len sl) (array s (sl_array sl))) s in (Some (mkSlice l (sl_len sl)), s')
  end.

Definition with_refs (labels : option nat) (ws : option Slice) (e : EndpointRef) : EndpointRef :=
  mkEndpointRef (er_Identity e) (er_Namespace e) (er_PodName e) labels ws.

Definition Build (σ σ' : Shuffle) (b : FlowDropBuilder) (s : Store) : FlowDropBuilder * Store :=
  let '(l1, s1) := copyStringMap σ (er_Labels (b_Source b)) s in
  let '(l2, s2) := copyStringMap σ' (er_Labels (b_Destination b)) s1 in
  let '(w1, s3) := copyWorkloads (er_Workloads (b_Source b)) s2 in
  let '(w2, s4) := copyWorkloads (er_Workloads (b_Destination b)) s3 in
  (set_source (with_refs l1 w1 (b_Source b)) (set_destination (with_refs l2 w2 (b_Destination b)) b), s4).

(** ** What a drop looks like through the heap *)

Definition labels_value (s : Store) (l : option nat) : gmap string string :=
  match l with Some l => default ∅ (maps s !! l) | None => ∅ end.
Definition workloads_value (s : Store) (ws : option Slice) : list WorkloadRef :=
  match ws with Some sl => take (sl_len sl) (array s (sl_array sl)) | None => [] end.
Definition endpoint_value (s : Store) (e : EndpointRef) : Endpoint :=
  mkEndpoint (er_Identity e) (er_Namespace e) (er_PodName e) (labels_value s (er_Labels e)) (workloads_value s (er_Workloads e)).

Definition value (s : Store) (b : FlowDropBuilder) : FlowDrop :=
  mkFlowDrop (b_Time b) (endpoint_value s (b_Source b)) (endpoint_value s (b_Destination b)) (b_IP b)
    (mkL4Info (b_Protocol b) (b_SourcePort b) (b_DestinationPort b) (l ← b_TCP b; tcps s !! l))
    (b_DropReason b) (b_PolicyName b) (b_TraceID b).
End Builder.

Import Builder.

(** ** The value model *)

(** The operation as [Hubble] has it, with the labels the map now has. *)
Definition value_op (s : Store) (o : op) : FlowDrop -> FlowDrop :=
  match o with
  | WithTime t => Hubble.WithTime t
  | WithTraceID id => Hubble.WithTraceID id
  | WithIP src dst => Hubble.WithIP src dst
  | WithDropReason r => Hubble.WithDropReason r
  | WithPolicyName n => Hubble.WithPolicyName n
  | WithSource ns pod labels => Hubble.WithSource ns pod (labels_value s labels)
  | WithSourceIdentity i => Hubble.WithSourceIdentity i
  | WithSourceWorkload k n _ => Hubble.WithSourceWorkload k n
  | WithDestination ns pod labels => Hubble.WithDestination ns pod (labels_value s labels)
  | WithDestinationIdentity i => Hubble.WithDestinationIdentity i
  | WithDestinationWorkload k n _ => Hubble.WithDestinationWorkload k n
  | WithTCP src dst f => Hubble.WithTCP src dst f
  | WithUDP src dst => Hubble.WithUDP src dst
  end.

(** ** Well-formed references *)

Definition map_ok (s : Store) (l : option nat) : Prop := ∀ x, l = Some x → (x < next s)%nat.
Definition slice_ok (s : Store) (ws : option Slice) : Prop :=
  ∀ sl, ws = Some sl → (sl_array sl < next s)%nat ∧ (sl_len sl ≤ length (array s (sl_array sl)))%nat.
Definition at_array (ws : option Slice) : option nat := sl_array <$> ws.

Definition endpoint_ok (s : Store) (e : EndpointRef) : Prop := map_ok s (er_Labels e) ∧ slice_ok s (er_Workloads e).

Definition ws_array (e : EndpointRef) : option nat := at_array (er_Workloads e).

(** The builder's references are allocated, and its two slices do not share
    their array. *)
Record ok (b : FlowDropBuilder) (s : Store) : Prop := {
  ok_source : endpoint_ok s (b_Source b);
  ok_destination : endpoint_ok s (b_Destination b);
  ok_tcp : map_ok s (b_TCP b);
  ok_apart : ∀ l, ws_array (b_Source b) = Some l → ws_array (b_Destination b) ≠ Some l;
}.

(** The heap grows, and keeps what it has but for the maps that the caller
    writes and the array at [w]. *)
Record grows (w : option nat) (s s' : Store) : Prop := {
  gr_next : (next s ≤ next s')%nat;
  gr_maps : ∀ l, (l < next s)%nat → maps s' !! l = maps s !! l;
  gr_tcps : ∀ l, (l < next s)%nat → tcps s' !! l = tcps s !! l;
  gr_arrays : ∀ l, (l < next s)%nat → w ≠ Some l → arrays s' !! l = arrays s !! l;
}.

Lemma grows_refl w s : grows w s s.
Proof. by split. Qed.

Lemma grows_trans w s1 s2 s3 : grows w s1 s2 → grows w s2 s3 → grows w s1 s3.
Proof.
  intros [N1 M1 T1 A1] [N2 M2 T2 A2]. split; [lia|intros l Hl..].
  - rewrite M2 by lia. by apply M1.
  - rewrite T2 by lia. by apply T1.
  - intros Hw. rewrite A2 by (done || lia). by apply A1.
Qed.

Lemma grows_weaken w s s' : grows None s s' → grows w s s'.
Proof. intros [N M T A]. split; [done|done|done|]. intros l Hl _. by apply A. Qed.

Lemma grows_new_map m s : grows None s (new_map m s).2.
Proof. split; simpl; [lia|intros l Hl; by rewrite lookup_insert_ne by lia|done..]. Qed.
Lemma grows_new_array a s : grows None s (new_array a s).2.
Proof. split; simpl; [lia|done|done|]. intros l Hl _. by rewrite lookup_insert_ne by lia. Qed.
Lemma grows_new_tcp f s : grows None s (new_tcp f s).2.
Proof. split; simpl; [lia|done|intros l Hl; by rewrite lookup_insert_ne by lia|done]. Qed.

Lemma grows_labels w s s' l : grows w s s' → map_ok s l → labels_value s' l = labels_value s l ∧ map_ok s' l.
Proof.
  intros [N M _ _] Hl. split; [|intros x Hx; specialize (Hl x Hx); lia].
  destruct l as [l|]; [|done]. simpl. by rewrite M by (by apply Hl).
Qed.

Lemma grows_slice w s s' ws :
  grows w s s' → slice_ok s ws → (∀ l, w = Some l → at_array ws ≠ Some l) →
  workloads_value s' ws = workloads_value s ws ∧ slice_ok s' ws.
Proof.
  intros [N _ _ A] Hs Hw. destruct ws as [sl|]; [|done]. destruct (Hs sl eq_refl) as [Hl Hn].
  assert (array s' (sl_array sl) = array s (sl_array sl)) as Ha.
  { unfold array. rewrite A; [done|done|]. intros ->. by apply (Hw (sl_array sl)). }
  simpl. rewrite Ha. split; [done|]. intros ? [= <-]. rewrite Ha. lia.
Qed.

Lemma append_spec room w ws s ws' s' :
  slice_ok s ws → append room w ws s = (ws', s') →
  workloads_value s' ws' = (workloads_value s ws ++ [w])%list ∧ slice_ok s' ws' ∧ grows (at_array ws) s s' ∧
  (at_array ws' = at_array ws ∨ at_array ws' = Some (next s)).
Proof.
  intros Hs. unfold append. destruct ws as [sl|].
  - destruct (Hs sl eq_refl) as [Hl Hn]. destruct (_ <? _)%nat eqn:Hroom.
    + apply Nat.ltb_lt in Hroom. intros [= <- <-]. unfold slice_ok, array, at_array. simpl. unfold array in *. split_and!.
      * unfold array. simpl. rewrite lookup_insert_eq. simpl. rewrite (take_S_r _ _ w) by (by rewrite list_lookup_insert_eq).
        by rewrite take_insert_ge by lia.
      * intros ? [= <-]. simpl. rewrite lookup_insert_eq. simpl. rewrite length_insert. split; [done|]. unfold array in Hroom. lia.
      * split; simpl; [lia|done|done|]. intros l _ Hne. rewrite lookup_insert_ne; [done|]. intros <-. by apply Hne.
      * by left.
    + apply Nat.ltb_ge in Hroom. intros [= <- <-]. split_and!.
      * simpl. unfold array at 1. simpl. rewrite lookup_insert_eq. simpl. rewrite cons_middle, (assoc_L (++)).
        rewrite take_app_length'; [done|]. rewrite length_app, length_take. simpl. lia.
      * intros ? [= <-]. simpl. unfold array. simpl. rewrite lookup_insert_eq. simpl. rewrite length_app, length_take. simpl.
        unfold array in *. lia.
      * apply grows_weaken, (grows_new_array (take (sl_len sl) (array s (sl_array sl)) ++ w :: room)).
      * by right.
  - intros [= <- <-]. split_and!.
    + simpl. unfold array. simpl. by rewrite lookup_insert_eq.
    + intros ? [= <-]. simpl. unfold array. simpl. rewrite lookup_insert_eq. simpl. lia.
    + apply (grows_new_array (w :: room)).
    + by right.
Qed.

Lemma grows_endpoint w s s' e :
  grows w s s' → endpoint_ok s e → (∀ l, w = Some l → ws_array e ≠ Some l) →
  endpoint_value s' e = endpoint_value s e ∧ endpoint_ok s' e.
Proof.
  intros Hg [Hl Hs] Hw. destruct (grows_labels _ _ _ _ Hg Hl) as [El Hl']. destruct (grows_slice _ _ _ _ Hg Hs Hw) as [Es Hs'].
  unfold endpoint_value. by rewrite El, Es.
Qed.

Lemma grows_tcp w s s' l : grows w s s' → map_ok s l → (x ← l; tcps s' !! x) = (x ← l; tcps s !! x) ∧ map_ok s' l.
Proof.
  intros [N _ T _] Hl. split; [|intros x Hx; specialize (Hl x Hx); lia].
  destruct l as [l|]; [|done]. simpl. by rewrite T by (by apply Hl).
Qed.

(** [append] to the workloads of an endpoint. *)
Lemma append_endpoint room w e s ws s' :
  endpoint_ok s e → append room w (er_Workloads e) s = (ws, s') →
  endpoint_value s' (set_workloads ws e) = add_Workload w (endpoint_value s e) ∧ endpoint_ok s' (set_workloads ws e) ∧
  grows (ws_array e) s s' ∧ (ws_array (set_workloads ws e) = ws_array e ∨ ws_array (set_workloads ws e) = Some (next s)).
Proof.
  intros [Hl Hs] Ha. destruct (append_spec _ _ _ _ _ _ Hs Ha) as (Hv & Hs' & Hg & Hat).
  destruct (grows_labels _ _ _ _ Hg Hl) as [El Hl']. unfold endpoint_value, add_Workload. simpl. by rewrite Hv, El.
Qed.

Lemma ws_array_bound s e l : endpoint_ok s e → ws_array e = Some l → (l < next s)%nat.
Proof.
  intros [_ Hs] Hl. unfold ws_array, at_array in Hl. destruct (er_Workloads e) as [sl|]; simplify_eq/=. by destruct (Hs sl eq_refl).
Qed.

(** The caller gives maps that exist. *)
Definition op_ok (s : Store) (o : op) : Prop :=
  match o with WithSource _ _ l | WithDestination _ _ l => map_ok s l | _ => True end.

(** The array that an operation may write in place. *)
Definition op_writes (b : FlowDropBuilder) (o : op) : option nat :=
  match o with
  | WithSourceWorkload _ _ _ => ws_array (b_Source b)
  | WithDestinationWorkload _ _ _ => ws_array (b_Destination b)
  | _ => None
  end.

(** The array of an endpoint after an operation is one the builder had, or new. *)
Definition array_from (b : FlowDropBuilder) (s : Store) (e : EndpointRef) : Prop :=
  ∀ l, ws_array e = Some l → ws_array (b_Source b) = Some l ∨ ws_array (b_Destination b) = Some l ∨ (next s ≤ l)%nat.

(** The operations are those of the value model, and keep the references
    well formed; an [append] in place is seen by its own slice only. *)
Lemma apply_spec o b s b' s' :
  ok b s → op_ok s o → apply o b s = (b', s') →
  value s' b' = value_op s o (value s b) ∧ ok b' s' ∧ grows (op_writes b o) s s' ∧
  array_from b s (b_Source b') ∧ array_from b s (b_Destination b').
Proof.
  intros [E1 E2 T A] Ho. unfold array_from.
  destruct o as [t|id|src dst|rs|n|ns pod l|i|k n room|ns pod l|i|k n room|src dst f|src dst]; cbn [apply];
    try (intros [= <- <-]; (split_and!; [done|by split|apply grows_refl|naive_solver|naive_solver])).
  - destruct (append _ _ _ _) as [ws s1] eqn:Ha. intros [= <- <-].
    destruct (append_endpoint _ _ _ _ _ _ E1 Ha) as (Hv & E1' & Hg & Hat).
    destruct (grows_endpoint _ _ _ _ Hg E2) as [V2 E2']; [intros l Hl; by apply A|].
    destruct (grows_tcp _ _ _ _ Hg T) as [V3 T']. split_and!; [|split|done|..]; try done; simpl.
    + unfold value. simpl. by rewrite Hv, V2, V3.
    + intros x Hx Hy. destruct Hat as [Hat|Hat]; rewrite Hat in Hx; [by apply (A x)|].
      pose proof (ws_array_bound _ _ _ E2 Hy). simplify_eq. lia.
    + intros x Hx. destruct Hat as [Hat|Hat]; rewrite Hat in Hx; simplify_eq; auto.
    + auto.
  - destruct (append _ _ _ _) as [ws s1] eqn:Ha. intros [= <- <-].
    destruct (append_endpoint _ _ _ _ _ _ E2 Ha) as (Hv & E2' & Hg & Hat).
    destruct (grows_endpoint _ _ _ _ Hg E1) as [V1 E1']; [intros l Hl Hl'; by apply (A l)|].
    destruct (grows_tcp _ _ _ _ Hg T) as [V3 T']. split_and!; [|split|done|..]; try done; simpl.
    + unfold value. simpl. by rewrite Hv, V1, V3.
    + intros x Hx. destruct Hat as [Hat|Hat]; rewrite Hat; [by apply A|].
      intros [= <-]. pose proof (ws_array_bound _ _ _ E1 Hx). lia.
    + auto.
    + intros x Hx. destruct Hat as [Hat|Hat]; rewrite Hat in Hx; simplify_eq; auto.
  - intros [= <- <-]. pose proof (grows_new_tcp f s) as Hg. destruct (grows_endpoint _ _ _ _ Hg E1) as [V1 E1']; [done|].
    destruct (grows_endpoint _ _ _ _ Hg E2) as [V2 E2']; [done|]. split_and!; [|split|done|..]; try done; simpl; auto.
    + unfold value. simpl in *. rewrite V1, V2. unfold Hubble.WithTCP, set_L4. simpl. by rewrite lookup_insert_eq.
    + intros x [= <-]. simpl. lia.
Qed.

(** ** Build *)

Lemma copyStringMap_spec σ l s l' s' :
  map_ok s l → copyStringMap σ l s = (l', s') →
  labels_value s' l' = labels_value s l ∧ map_ok s' l' ∧ grows None s s' ∧ ∀ x, l' = Some x → (next s ≤ x)%nat.
Proof.
  intros Hl. unfold copyStringMap. destruct l as [l|].
  - rewrite rebuild_range. intros [= <- <-]. split_and!.
    + simpl. by rewrite lookup_insert_eq.
    + intros x [= <-]. simpl. lia.
    + apply (grows_new_map (default ∅ (maps s !! l))).
    + intros x [= <-]. lia.
  - intros [= <- <-]. split_and!; [done..|apply grows_refl|done].
Qed.

Lemma copyWorkloads_spec ws s ws' s' :
  slice_ok s ws → copyWorkloads ws s = (ws', s') →
  workloads_value s' ws' = workloads_value s ws ∧ slice_ok s' ws' ∧ grows None s s' ∧ ∀ x, at_array ws' = Some x → (next s ≤ x)%nat.
Proof.
  intros Hs. unfold copyWorkloads. destruct ws as [sl|].
  - destruct (Hs sl eq_refl) as [Hl Hn]. intros [= <- <-]. split_and!.
    + simpl. unfold array at 1. simpl. rewrite lookup_insert_eq. simpl. rewrite take_take. f_equal. lia.
    + intros ? [= <-]. simpl. unfold array at 1. simpl. rewrite lookup_insert_eq. simpl. rewrite length_take. lia.
    + apply (grows_new_array (take (sl_len sl) (array s (sl_array sl)))).
    + intros x [= <-]. lia.
  - intros [= <- <-]. split_and!; [done..|apply grows_refl|done].
Qed.

(** Both copies of an endpoint. *)
Lemma copied_endpoint e s l ws s1 s2 s' :
  endpoint_ok s e → labels_value s1 l = labels_value s (er_Labels e) → map_ok s1 l → grows None s1 s2 →
  workloads_value s2 ws = workloads_value s (er_Workloads e) → slice_ok s2 ws → grows None s2 s' →
  endpoint_value s' (with_refs l ws e) = endpoint_value s e ∧ endpoint_ok s' (with_refs l ws e).
Proof.
  intros _ Hl Ol G1 Hw Ow G2. destruct (grows_labels _ _ _ _ (grows_trans _ _ _ _ G1 G2) Ol) as [El Ol'].
  destruct (grows_slice _ _ _ _ G2 Ow) as [Ew Ow']; [done|]. unfold endpoint_value, endpoint_ok. simpl. by rewrite El, Ew, Hl, Hw.
Qed.

(** What [Build] returns: the drop of the builder, on references of its own. *)
Lemma Build_spec σ σ' b s d s' :
  ok b s → Build σ σ' b s = (d, s') →
  value s' d = value s b ∧ ok d s' ∧ grows None s s' ∧ b_TCP d = b_TCP b ∧
  ∀ e, (e = b_Source d ∨ e = b_Destination d) → ∀ l, (er_Labels e = Some l ∨ ws_array e = Some l) → (next s ≤ l)%nat.
Proof.
  intros [[M1 S1] [M2 S2] T A]. unfold Build.
  destruct (copyStringMap σ _ s) as [l1 s1] eqn:H1. destruct (copyStringMap σ' _ s1) as [l2 s2] eqn:H2.
  destruct (copyWorkloads _ s2) as [w1 s3] eqn:H3. destruct (copyWorkloads _ s3) as [w2 s4] eqn:H4. intros [= <- <-].
  destruct (copyStringMap_spec _ _ _ _ _ M1 H1) as (V1 & O1 & G1 & F1).
  destruct (grows_labels _ _ _ _ G1 M2) as [E2 M2']. destruct (copyStringMap_spec _ _ _ _ _ M2' H2) as (V2 & O2 & G2 & F2).
  pose proof (grows_trans _ _ _ _ G1 G2) as G12. destruct (grows_slice _ _ _ _ G12 S1) as [E3 S1']; [done|].
  destruct (copyWorkloads_spec _ _ _ _ S1' H3) as (V3 & O3 & G3 & F3). pose proof (grows_trans _ _ _ _ G12 G3) as G13.
  destruct (grows_slice _ _ _ _ G13 S2) as [E4 S2']; [done|]. destruct (copyWorkloads_spec _ _ _ _ S2' H4) as (V4 & O4 & G4 & F4).
  pose proof (grows_trans _ _ _ _ G13 G4) as G14. destruct (grows_tcp _ _ _ _ G14 T) as [V5 T'].
  destruct (copied_endpoint (b_Source b) s l1 w1 s1 s3 s4) as [VA OA]; [by split|done|done|by eapply grows_trans|congruence|done|done|].
  destruct (copied_endpoint (b_Destination b) s l2 w2 s2 s4 s4) as [VB OB];
    [by split|congruence|done|by eapply grows_trans|congruence|done|apply grows_refl|].
  pose proof (gr_next _ _ _ G1). pose proof (gr_next _ _ _ G12). pose proof (gr_next _ _ _ G13). pose proof (gr_next _ _ _ G3).
  split_and!; [|split|done|done|]; simpl; try done.
  - unfold value. simpl. by rewrite VA, VB, V5.
  - intros l Hl Hl'. pose proof (F4 l Hl'). destruct w1 as [sl|]; [|done]. destruct (O3 sl eq_refl). unfold ws_array in Hl. simplify_eq/=. lia.
  - intros e [->| ->] l [Hl|Hl]; simpl in Hl; [specialize (F1 l Hl)|specialize (F3 l Hl)|specialize (F2 l Hl)|specialize (F4 l Hl)]; lia.
Qed.

(** ** After Build *)

(** What happens while the drop [d] is in use: the builder goes on and builds
    again, the caller makes maps and writes those that are not [d]'s. *)
Inductive act := Do (o : op) | CallerMap (m : gmap string string) | CallerWrite (l : nat) (k v : string) | BuildAgain (σ σ' : Shuffle).

Definition write_map (l : nat) (k v : string) (s : Store) : Store :=
  mkStore (<[l := <[k := v]> (default ∅ (maps s !! l))]> (maps s)) (arrays s) (tcps s) (next s).

Definition perform (a : act) (b : FlowDropBuilder) (s : Store) : FlowDropBuilder * Store :=
  match a with
  | Do o => apply o b s
  | CallerMap m => (b, (new_map m s).2)
  | CallerWrite l k v => (b, write_map l k v s)
  | BuildAgain σ σ' => (b, (Build σ σ' b s).2)
  end.

Definition act_ok (d : FlowDropBuilder) (s : Store) (a : act) : Prop :=
  match a with
  | Do o => op_ok s o
  | CallerWrite l _ _ => er_Labels (b_Source d) ≠ Some l ∧ er_Labels (b_Destination d) ≠ Some l
  | _ => True
  end.

Inductive later (d : FlowDropBuilder) (b : FlowDropBuilder) (s : Store) : FlowDropBuilder -> Store -> Prop :=
  | later_refl : later d b s b s
  | later_step a b1 s1 b2 s2 : later d b s b1 s1 → act_ok d s1 a → perform a b1 s1 = (b2, s2) → later d b s b2 s2.

(** The builder [b] cannot reach the arrays of [d]. *)
Record isolated (d b : FlowDropBuilder) (s : Store) : Prop := {
  is_builder : ok b s;
  is_drop : ok d s;
  is_arrays : ∀ e e' l, (e = b_Source b ∨ e = b_Destination b) → (e' = b_Source d ∨ e' = b_Destination d) →
    ws_array e = Some l → ws_array e' ≠ Some l;
}.

Lemma ok_bound d s e l : ok d s → (e = b_Source d ∨ e = b_Destination d) → ws_array e = Some l → (l < next s)%nat.
Proof. intros [E1 E2 _ _] [->| ->]; by apply ws_array_bound. Qed.

Lemma grows_value w s s' d :
  grows w s s' → ok d s → (∀ e l, (e = b_Source d ∨ e = b_Destination d) → w = Some l → ws_array e ≠ Some l) →
  value s' d = value s d ∧ ok d s'.
Proof.
  intros Hg [E1 E2 T A] Hw. destruct (grows_endpoint _ _ _ _ Hg E1) as [V1 E1']; [intros l; apply Hw; auto|].
  destruct (grows_endpoint _ _ _ _ Hg E2) as [V2 E2']; [intros l; apply Hw; auto|]. destruct (grows_tcp _ _ _ _ Hg T) as [V3 T'].
  unfold value. rewrite V1, V2, V3. split; [done|by split].
Qed.

(** A write to a map that an endpoint does not refer to. *)
Lemma write_map_value l k v s d :
  (er_Labels (b_Source d) ≠ Some l ∧ er_Labels (b_Destination d) ≠ Some l) → value (write_map l k v s) d = value s d.
Proof.
  intros [H1 H2]. assert (∀ m, m ≠ Some l → labels_value (write_map l k v s) m = labels_value s m) as Hm.
  { intros [m|] Hm; [|done]. simpl. rewrite lookup_insert_ne; [done|]. intros ->. done. }
  unfold value, endpoint_value. by rewrite !Hm.
Qed.

Lemma perform_isolated d a b s b' s' :
  isolated d b s → act_ok d s a → perform a b s = (b', s') → value s' d = value s d ∧ isolated d b' s'.
Proof.
  intros [Hb Hd Ha] Hok. destruct a as [o|m|l k v|σ σ']; simpl.
  - intros Hp. destruct (apply_spec o b s b' s' Hb Hok Hp) as (_ & Hb' & Hg & F1 & F2).
    destruct (grows_value _ _ _ d Hg Hd) as [Hv Hd'].
    { intros e l He Hw. destruct o; simpl in Hw; try done; [by apply (Ha (b_Source b) e l (or_introl eq_refl) He Hw)|by apply (Ha (b_Destination b) e l (or_intror eq_refl) He Hw)]. }
    split; [done|]. split; [done|done|]. intros e e' l He He' Hl Hl'.
    assert (array_from b s e) as F by (by destruct He as [->| ->]).
    assert (l < next s)%nat as Hlt by (by apply (ok_bound d s e')).
    destruct (F l Hl) as [H|[H|H]]; [by apply (Ha (b_Source b) e' l (or_introl eq_refl) He' H)|by apply (Ha (b_Destination b) e' l (or_intror eq_refl) He' H)|lia].
  - intros [= <- <-]. pose proof (grows_new_map m s) as Hg. destruct (grows_value _ _ _ d Hg Hd) as [Hv Hd']; [done|].
    destruct (grows_value _ _ _ b Hg Hb) as [_ Hb']; [done|].
    split; [done|by split].
  - intros [= <- <-]. split; [by apply write_map_value|]. 
    split; [|by destruct Hd|done]. by destruct Hb.
  - intros [= <- <-]. destruct (Build σ σ' b s) as [d2 s2] eqn:Hbd. destruct (Build_spec _ _ _ _ _ _ Hb Hbd) as (_ & _ & Hg & _).
    destruct (grows_value _ _ _ d Hg Hd) as [Hv Hd']; [done|]. destruct (grows_value _ _ _ b Hg Hb) as [_ Hb']; [done|].
    split; [done|by split].
Qed.

Lemma Build_isolates σ σ' b s d s' : ok b s → Build σ σ' b s = (d, s') → isolated d b s'.
Proof.
  intros Hb Hbd. destruct (Build_spec _ _ _ _ _ _ Hb Hbd) as (_ & Hd & Hg & _ & Hf).
  destruct (grows_value _ _ _ b Hg Hb) as [_ Hb']; [done|]. split; [done|done|]. intros e e' l He He' Hl Hl'.
  assert (l < next s)%nat by (by apply (ok_bound b s e)).
  pose proof (Hf e' He' l (or_intror Hl')). lia.
Qed.

(** The operations of a builder, with the caller's maps of the store. *)
Fixpoint run_ops (os : list op) (b : FlowDropBuilder) (s : Store) : FlowDropBuilder * Store :=
  match os with [] => (b, s) | o :: os => let '(b', s') := apply o b s in run_ops os b' s' end.

Lemma value_op_grows w s s' o : grows w s s' → op_ok s o → value_op s' o = value_op s o ∧ op_ok s' o.
Proof. intros Hg Ho. destruct o; simpl in *; try done; by destruct (grows_labels _ _ _ _ Hg Ho) as [-> ?]. Qed.

Lemma run_ops_value os b s b' s' :
  ok b s → Forall (op_ok s) os → run_ops os b s = (b', s') →
  value s' b' = foldl (fun d o => value_op s o d) (value s b) os ∧ ok b' s'.
Proof.
  revert b s. induction os as [|o os IH]; intros b s Hb Hos; simpl; [by intros [= <- <-]|].
  apply Forall_cons in Hos as [Ho Hos]. destruct (apply o b s) as [b1 s1] eqn:Ha.
  destruct (apply_spec o b s b1 s1 Hb Ho Ha) as (Hv & Hb1 & Hg & _). intros Hr.
  destruct (IH b1 s1 Hb1) as [-> ?]; [|done|].
  { eapply Forall_impl; [exact Hos|]. intros o' Ho'. by apply (value_op_grows _ s s1 o' Hg). }
  split; [|done]. rewrite Hv. clear -Hg Hos. generalize (value_op s o (value s b)) as x.
  induction os as [|o' os IH]; intros x; [done|]. apply Forall_cons in Hos as [Ho' Hos]. simpl.
  destruct (value_op_grows _ s s1 o' Hg Ho') as [-> _]. by apply IH.
Qed.

Lemma New_ok now s : ok (NewFlowDropBuilder now) s.
Proof. by repeat split. Qed.

(** C40: what [Build] returns after any calls of the builder's methods is the
    drop that the value model of [Hubble] computes, although [append] writes
    arrays in place; and it keeps that value, whatever the builder does next,
    however often it builds again and whatever the caller writes into the maps
    it passed, as long as nobody writes the returned maps themselves. *)
Theorem Build_value_kept now os σ σ' s b s1 d s2 b3 s3 :
  Forall (op_ok s) os → run_ops os (NewFlowDropBuilder now) s = (b, s1) →
  Build σ σ' b s1 = (d, s2) → later d b s2 b3 s3 →
  value s3 d = foldl (fun x o => value_op s o x) (Hubble.NewFlowDropBuilder now) os.
Proof.
  intros Hos Hr Hbd Hl. destruct (run_ops_value os _ _ _ _ (New_ok now s) Hos Hr) as [Hv Hb].
  destruct (Build_spec _ _ _ _ _ _ Hb Hbd) as (Hvd & _). pose proof (Build_isolates _ _ _ _ _ _ Hb Hbd) as Hi.
  assert (value s3 d = value s2 d ∧ isolated d b3 s3) as [-> _].
  { clear Hvd. induction Hl as [|a b1 x1 b2 x2 Hl IH Hok Hp]; [done|]. destruct IH as [<- Hi1]. by eapply perform_isolated. }
  rewrite Hvd, Hv. done.
Qed.

(** The TCP information is not copied: the drops that one builder returns
    share it, and a write through one is seen through the others. *)
Theorem Build_shares_tcp σ1 σ1' σ2 σ2' b s d1 s1 d2 s2 l flags :
  ok b s → b_TCP b = Some l → Build σ1 σ1' b s = (d1, s1) → Build σ2 σ2' b s1 = (d2, s2) →
  l4_TCP (f_L4 (value (mkStore (maps s2) (arrays s2) (<[l := flags]> (tcps s2)) (next s2)) d1)) = Some flags ∧
  l4_TCP (f_L4 (value (mkStore (maps s2) (arrays s2) (<[l := flags]> (tcps s2)) (next s2)) d2)) = Some flags.
Proof.
  intros Hb Hl H1 H2. destruct (Build_spec _ _ _ _ _ _ Hb H1) as (_ & _ & _ & T1 & _).
  pose proof (is_builder _ _ _ (Build_isolates _ _ _ _ _ _ Hb H1)) as Hb1.
  destruct (Build_spec _ _ _ _ _ _ Hb1 H2) as (_ & _ & _ & T2 & _).
  unfold value. simpl. rewrite T1, T2, Hl. simpl. by rewrite lookup_insert_eq.
Qed.

(** ** Evaluation *)

Definition caller_store : Store := mkStore {[ 0%nat := {[ "app" := "web" ]} ]} ∅ ∅ 1.
Definition example_ops : list op :=
  [WithSource "dev" "web-1" (Some 0%nat); WithSourceWorkload "Deployment" "web" [mkWorkloadRef EmptyString EmptyString];
   WithSourceWorkload "ReplicaSet" "web-5" []].

(** The caller renames the label in its map, and the builder adds a workload
    in the room that is left; the drop stays as built. *)
Lemma Build_value_kept_witness :
  let '(b, s1) := run_ops example_ops (NewFlowDropBuilder 0) caller_store in
  let '(d, s2) := Build in_order in_order b s1 in
  let '(b3, s3) := apply (WithSourceWorkload "Job" "batch" []) b (write_map 0 "app" "db" s2) in
  e_Labels (f_Source (value s3 d)) = {[ "app" := "web" ]} ∧ length (e_Workloads (f_Source (value s3 d))) = 2%nat ∧
  e_Labels (f_Source (value s3 b3)) = {[ "app" := "db" ]} ∧ length (e_Workloads (f_Source (value s3 b3))) = 3%nat.
Proof.
  destruct (run_ops example_ops (NewFlowDropBuilder 0) caller_store) as [b s1] eqn:Hr.
  destruct (Build in_order in_order b s1) as [d s2] eqn:Hb.
  destruct (apply (WithSourceWorkload "Job" "batch" []) b (write_map 0 "app" "db" s2)) as [b3 s3] eqn:Ha.
  rewrite (Build_value_kept 0 example_ops in_order in_order caller_store b s1 d s2 b3 s3).
  - vm_compute in Hr. injection Hr as <- <-. vm_compute in Hb. injection Hb as <- <-. vm_compute in Ha. injection Ha as <- <-.
    repeat split; vm_compute; reflexivity.
  - constructor; [|repeat constructor]. intros x [= <-]. apply Nat.lt_0_succ.
  - exact Hr.
  - exact Hb.
  - eapply later_step; [eapply later_step; [apply later_refl| |]| |].
    + instantiate (1 := CallerWrite 0 "app" "db"). vm_compute in Hr. injection Hr as <- <-. vm_compute in Hb. injection Hb as <- <-.
      split; discriminate.
    + reflexivity.
    + instantiate (1 := Do (WithSourceWorkload "Job" "batch" [])). exact I.
    + exact Ha.
Defined.
