(* ===== verification/Channel.v ===== *)
(** * Channels and rate limiters

    A buffered Go channel with its content, whether it is closed, and the log
    of what its reader took; and the [select] with a send, [ctx.Done()] and
    [default] that the correlator uses.  Go picks at random among the ready
    cases and a send on a closed channel panics; the pick is an argument.

    golang.org/x/time/rate is not part of the repository: a limiter is the
    parameter [RateLimiter], and [RateLimiterLaws] the documented behaviour
    that a new limiter starts with its full burst. *)

From S2P Require Import Prelude GoStd.
From Stdlib Require Import SpecFloat.

Open Scope go_scope.

Record Chan (A : Type) := mkChan {
  ch_cap : Z;
  ch_buf : list A;
  ch_closed : bool;
  ch_taken : list A;
}.
Arguments mkChan {A} _ _ _ _.
Arguments ch_cap {A} _.
Arguments ch_buf {A} _.
Arguments ch_closed {A} _.
Arguments ch_taken {A} _.

Definition make_chan {A} (cap : Z) : Chan A := mkChan cap [] false [].

(** Everything that was ever sent. *)
Definition ch_sent {A} (c : Chan A) : list A := ch_taken c ++ ch_buf c.

Definition ch_close {A} (c : Chan A) : Chan A := mkChan (ch_cap c) (ch_buf c) true (ch_taken c).

(** The reader takes up to [n] values. *)
Definition ch_take {A} (n : nat) (c : Chan A) : Chan A :=
  mkChan (ch_cap c) (drop n (ch_buf c)) (ch_closed c) (ch_taken c ++ take n (ch_buf c)).

Inductive SendResult (A : Type) :=
  | Sent (c : Chan A)
  | Full
  | Cancelled
  | PanicClosed.
Arguments Sent {A} _.
Arguments Full {A}.
Arguments Cancelled {A}.
Arguments PanicClosed {A}.

(** [ch <- x] when the send is ready. *)
Definition ch_send {A} (x : A) (c : Chan A) : SendResult A :=
  if ch_closed c then PanicClosed
  else Sent (mkChan (ch_cap c) (ch_buf c ++ [x]) (ch_closed c) (ch_taken c)).

Definition send_ready {A} (c : Chan A) : bool := ch_closed c || (go_len (ch_buf c) <? ch_cap c)%Z.

(** [select { case ch <- x: case <-ctx.Done(): default: }] *)
Definition select_send {A} (done pick : bool) (x : A) (c : Chan A) : SendResult A :=
  if send_ready c then
    if done then (if pick then ch_send x c else Cancelled) else ch_send x c
  else if done then Cancelled else Full.

(** The capacity is respected. *)
Definition ch_ok {A} (c : Chan A) : Prop := (go_len (ch_buf c) <= ch_cap c)%Z.

Lemma ch_sent_take {A} n (c : Chan A) : ch_sent (ch_take n c) = ch_sent c.
Proof. unfold ch_sent. simpl. by rewrite <-(assoc_L _), take_drop. Qed.

Lemma ch_ok_take {A} n (c : Chan A) : ch_ok c → ch_ok (ch_take n c).
Proof. unfold ch_ok, go_len. simpl. rewrite length_drop. lia. Qed.

(** A send adds its value at the end, within the capacity. *)
Lemma select_send_Sent {A} done pick (x : A) c c' :
  select_send done pick x c = Sent c' →
  ch_sent c' = ch_sent c ++ [x] ∧ ch_cap c' = ch_cap c ∧ ch_closed c' = false ∧ ch_ok c'.
Proof.
  unfold select_send, ch_send, send_ready, ch_ok, ch_sent, go_len.
  destruct (ch_closed c) eqn:Hc; simpl; [by destruct done, pick|].
  destruct (_ <? _)%Z eqn:Hlt; [apply Z.ltb_lt in Hlt|by destruct done].
  destruct done, pick; intros [= <-]; simpl; rewrite length_app, (assoc_L (++)); simpl; repeat split; try lia; done.
Qed.

Lemma select_send_open {A} done pick (x : A) c c' : select_send done pick x c = Sent c' → ch_closed c = false.
Proof. unfold select_send, ch_send. by repeat case_match. Qed.

(** An open channel with room and a live context always takes the value. *)
Lemma select_send_room {A} pick (x : A) c :
  ch_closed c = false → (go_len (ch_buf c) < ch_cap c)%Z → ∃ c', select_send false pick x c = Sent c'.
Proof.
  intros Hc Hr. unfold select_send, send_ready, ch_send. rewrite Hc. simpl.
  rewrite (proj2 (Z.ltb_lt _ _) Hr). eauto.
Qed.

#[export] Hint Resolve ch_ok_take : nightjar.

(** ** Tickers *)

(** What wakes a loop that waits for its context and a ticker. *)
Inductive Wake (A : Type) := Cancel | Tick (a : A).
Arguments Cancel {A}.
Arguments Tick {A} _.

(** [for { select { case <-ctx.Done(): return; case <-ticker.C: body } }];
    [true] when the loop has returned. *)
Fixpoint ticker_loop {A S} (body : A -> S -> S) (wakes : list (Wake A)) (s : S) : bool * S :=
  match wakes with
  | [] => (false, s)
  | Cancel :: _ => (true, s)
  | Tick a :: rest => ticker_loop body rest (body a s)
  end.

(** The loop behind [time.NewTicker(d)], which panics unless [d] is positive:
    [None]. *)
Definition with_ticker {A S} (d : Duration) (body : A -> S -> S) (wakes : list (Wake A)) (s : S) : option (bool * S) :=
  if (0 <? d)%Z then Some (ticker_loop body wakes s) else None.

Lemma ticker_loop_invariant {A S} (P : S -> Prop) (body : A -> S -> S) wakes s :
  (∀ a s, P s → P (body a s)) → P s → P (ticker_loop body wakes s).2.
Proof. intros Hb. revert s. induction wakes as [|[|a] wakes IH]; intros s Hs; simpl; auto. Qed.

Lemma with_ticker_Some {A S} d (body : A -> S -> S) wakes s : (0 < d)%Z → with_ticker d body wakes s = Some (ticker_loop body wakes s).
Proof. intros Hd. unfold with_ticker. by rewrite (proj2 (Z.ltb_lt _ _) Hd). Qed.

Lemma with_ticker_None {A S} d (body : A -> S -> S) wakes s : (d ≤ 0)%Z → with_ticker d body wakes s = None.
Proof. intros Hd. unfold with_ticker. by rewrite (proj2 (Z.ltb_ge _ _) Hd). Qed.

(** ** Rate limiters *)

Class RateLimiter := {
  Limiter : Type;
  NewLimiter : float64 -> Z -> Limiter;
  Limiter_Allow : Time -> Limiter -> bool * Limiter;
}.

Class RateLimiterLaws (RL : RateLimiter) : Prop := {
  NewLimiter_allows : forall r b now, (1 <= b)%Z -> (Limiter_Allow now (NewLimiter r b)).1 = true;
}.

(** A limiter that allows its burst and nothing more, for evaluation. *)
#[export] Instance burst_limiter : RateLimiter := {
  Limiter := Z;
  NewLimiter _ b := b;
  Limiter_Allow _ tokens := if (1 <=? tokens)%Z then (true, tokens - 1)%Z else (false, tokens);
}.

#[export] Instance burst_limiter_laws : RateLimiterLaws burst_limiter.
Proof. split. intros r b now Hb. simpl. by rewrite (proj2 (Z.leb_le _ _) Hb). Qed.
