(* ===== verification/Correlator.v ===== *)
(** * The correlator (internal/correlator/correlator.go)

    Kubernetes Warning events and Hubble flow drops are matched with the
    constraints of a namespace and sent on two bounded channels, with
    per-pair duplicate suppression.  The index is read through the interface
    [ConstraintQuery].  Each round of a matching loop runs in an environment
    ([Round]): the instants it reads, whether the context is cancelled, which
    ready case [select] picks, what the channel's reader took meanwhile and
    whether [Start] closed the channel. *)

From S2P Require Import Prelude GoStd Types Apimachinery Util Dedupe Indexer Hubble Channel.

Open Scope go_scope.

Definition eventRateLimit : Z := 100.
Definition eventRateBurst : Z := 200.
Definition dedupeWindow : Duration := 5 * time_Minute.
Definition notificationBuffer : Z := 1000.

(** The fields of corev1.Event the correlator reads. *)
Record Event := mkEvent {
  ev_UID : UID;
  ev_Name : string;
  ev_InvolvedNamespace : string;
  ev_InvolvedName : string;
  ev_InvolvedKind : string;
}.

Record CorrelatedNotification := mkNotification {
  n_Event : Event;
  n_Constraint : Constraint;
  n_Namespace : string;
  n_WorkloadName : string;
  n_WorkloadKind : string;
}.

Record FlowDropNotification := mkFlowNotification {
  fn_FlowDrop : FlowDrop;
  fn_Constraint : Constraint;
  fn_SourceNamespace : string;
  fn_SourcePodName : string;
  fn_SourceWorkload : string;
  fn_SourceLabels : gmap string string;
  fn_DestNamespace : string;
  fn_DestPodName : string;
  fn_DestWorkload : string;
  fn_DestLabels : gmap string string;
  fn_DestPort : Z;
  fn_Protocol : string;
}.

(** The struct [dedupeKey]: eventUID, constraintUID. *)
Abbreviation dedupeKey := (string * string)%type (only parsing).

Record Round := mkRound {
  rd_since : Time;                 (**r the instant of [time.Since] *)
  rd_now : Time;                   (**r the instant of [time.Now] *)
  rd_done : bool;                  (**r [ctx.Done()] is ready *)
  rd_pick : bool;                  (**r the send is picked among ready cases *)
  rd_taken : nat;                  (**r values the reader takes before the send *)
  rd_closed : bool;                (**r [Start] has closed the channel *)
}.

Section correlator.
Context `{RL : RateLimiter}.

Record Correlator := mkCorrelator {
  notifications : Chan CorrelatedNotification;
  flowDrops : Chan FlowDropNotification;
  limiter : Limiter;
  seenPairs : gmap dedupeKey Time;
}.

Definition NewWithOptions : Correlator :=
  mkCorrelator (make_chan notificationBuffer) (make_chan notificationBuffer)
               (NewLimiter (float64_of_int eventRateLimit) eventRateBurst) ∅.

Definition New : Correlator := NewWithOptions.

Definition set_seen (m : gmap dedupeKey Time) (c : Correlator) : Correlator :=
  mkCorrelator (notifications c) (flowDrops c) (limiter c) m.
Definition set_limiter (l : Limiter) (c : Correlator) : Correlator :=
  mkCorrelator (notifications c) (flowDrops c) l (seenPairs c).
Definition set_notifications (ch : Chan CorrelatedNotification) (c : Correlator) : Correlator :=
  mkCorrelator ch (flowDrops c) (limiter c) (seenPairs c).
Definition set_flowDrops (ch : Chan FlowDropNotification) (c : Correlator) : Correlator :=
  mkCorrelator (notifications c) ch (limiter c) (seenPairs c).

(** ** Duplicate suppression *)

Definition tryMarkSeen (t t' : Time) (key : dedupeKey) (c : Correlator) : bool * Correlator :=
  match seenPairs c !! key with
  | Some seenAt =>
      if (time_Since t seenAt <? dedupeWindow)%Z then (false, c)
      else (true, set_seen (<[key := t']> (seenPairs c)) c)
  | None => (true, set_seen (<[key := t']> (seenPairs c)) c)
  end.

(** One tick of the loop of [cleanupDedupeCache]. *)
Definition cleanupDedupeCache (σ : Shuffle) (now : Time) (c : Correlator) : Correlator :=
  let cutoff := time_Add now (wrap64 (- dedupeWindow)) in
  set_seen (sweep σ (fun seenAt => time_Before seenAt cutoff) (seenPairs c)) c.

(** [c.limiter.Allow()] *)
Definition allow (now : Time) (c : Correlator) : bool * Correlator :=
  let '(ok, l) := Limiter_Allow now (limiter c) in (ok, set_limiter l c).

(** ** Events *)

Section events.
Context {Idx : Type} `{ConstraintQuery Idx}.

Definition correlated (event : Event) (c : Constraint) : CorrelatedNotification :=
  mkNotification event c (ev_InvolvedNamespace event) (ev_InvolvedName event) (ev_InvolvedKind event).

(** The loop of [handleEvent].  It runs in the goroutine of [Start], which
    closes the channel only after it, so [rd_closed] is not read. *)
Fixpoint emit_loop (env : nat -> Round) (i : nat) (event : Event) (cs : list Constraint) (c : Correlator)
    : Correlator :=
  match cs with
  | [] => c
  | k :: cs' =>
      let r := env i in
      let '(fresh, c1) := tryMarkSeen (rd_since r) (rd_now r) (ev_UID event, c_UID k) c in
      if negb fresh then emit_loop env (S i) event cs' c1
      else
        let ch := ch_take (rd_taken r) (notifications c1) in
        match select_send (rd_done r) (rd_pick r) (correlated event k) ch with
        | Sent ch' => emit_loop env (S i) event cs' (set_notifications ch' c1)
        | Cancelled => set_notifications ch c1
        | Full => emit_loop env (S i) event cs' (set_notifications ch c1)
        | PanicClosed => c1
        end
  end.

Definition handleEvent (σ : Shuffle) (now : Time) (env : nat -> Round) (idx : Idx) (event : Event) (c : Correlator)
    : Correlator :=
  let '(ok, c1) := allow now c in
  if negb ok then c1
  else
    let ns := ev_InvolvedNamespace event in
    if ns == EmptyString then c1
    else
      let constraints := query_ns σ idx ns in
      if constraints == [] then c1 else emit_loop env 0 event constraints c1.

(** The events a watch delivers, as [watchEvents] handles them; the index is
    read as it is at each event. *)
Record WatchEvent := mkWatchEvent {
  we_Type : string;
  we_Object : Event;
  we_order : Shuffle;
  we_now : Time;
  we_env : nat -> Round;
  we_index : Idx;
}.

Definition watchEvents (events : list WatchEvent) (c : Correlator) : Correlator :=
  foldl (fun c e =>
           if (we_Type e == "ADDED"%string) || (we_Type e == "MODIFIED"%string)
           then handleEvent (we_order e) (we_now e) (we_env e) (we_index e) (we_Object e) c
           else c) c events.

(** *** Start *)

(** One call of [watchEvents] by the loop of [Start]: the watch is refused,
    with the context cancelled by then or not, or it delivers events until the
    context ends it or the server closes it. *)
Inductive Attempt :=
  | WatchRefused (cancelled : bool)
  | Watched (events : list WatchEvent) (cancelled : bool).

Definition retry_wait : Duration := 5 * time_Second.

Definition close_channels (c : Correlator) : Correlator :=
  set_flowDrops (ch_close (flowDrops c)) (set_notifications (ch_close (notifications c)) c).

(** The loop of [Start], with the waits before its retries; [true] when it has
    returned.  A watch that the server closes is retried at once. *)
Fixpoint Start (attempts : list Attempt) (c : Correlator) : bool * list Duration * Correlator :=
  match attempts with
  | [] => (false, [], c)
  | WatchRefused true :: _ => (true, [], close_channels c)
  | WatchRefused false :: rest => let '(returned, waits, c') := Start rest c in (returned, retry_wait :: waits, c')
  | Watched events true :: _ => (true, [], close_channels (watchEvents events c))
  | Watched events false :: rest => Start rest (watchEvents events c)
  end.
End events.

(** ** Flow drops *)

Section flows.
Context {AM : Apimachinery} {Idx : Type} `{ConstraintQuery Idx}.

Definition matchesSelector (selector : option LabelSelector) (lbls : gmap string string) : bool :=
  MatchesLabelSelector selector lbls.

Definition is_network (c : Constraint) : bool :=
  negb ((c_ConstraintType c != ConstraintTypeNetworkIngress) && (c_ConstraintType c != ConstraintTypeNetworkEgress)).

(** [fmt.Sprintf("flow:%s:%s:%s:%d", ...)] *)
Definition flow_key (d : FlowDrop) : string :=
  "flow:" +:+ e_PodName (f_Source d) +:+ ":" +:+ e_PodName (f_Destination d) +:+ ":" +:+
  l4_Protocol (f_L4 d) +:+ ":" +:+ fmt_d (l4_DestinationPort (f_L4 d)).

Definition first_workload (e : Endpoint) : string :=
  match e_Workloads e with w :: _ => w_Name w | [] => EmptyString end.

Definition flow_notification (d : FlowDrop) (c : Constraint) : FlowDropNotification :=
  mkFlowNotification d c
    (e_Namespace (f_Source d)) (e_PodName (f_Source d)) (first_workload (f_Source d)) (e_Labels (f_Source d))
    (e_Namespace (f_Destination d)) (e_PodName (f_Destination d)) (first_workload (f_Destination d))
    (e_Labels (f_Destination d)) (l4_DestinationPort (f_L4 d)) (l4_Protocol (f_L4 d)).

(** The outcomes of a loop: it goes on, the context ended it, or the process
    panics on a closed channel. *)
Inductive outcome := Running | Returned | Panicked.

Fixpoint flow_loop (env : nat -> Round) (i : nat) (d : FlowDrop) (matchLabels : gmap string string)
    (cs : list Constraint) (c : Correlator) : outcome * Correlator :=
  match cs with
  | [] => (Running, c)
  | k :: cs' =>
      if negb (is_network k) then flow_loop env (S i) d matchLabels cs' c
      else if negb (matchesSelector (c_WorkloadSelector k) matchLabels)
      then flow_loop env (S i) d matchLabels cs' c
      else
        let r := env i in
        let '(fresh, c1) := tryMarkSeen (rd_since r) (rd_now r) (flow_key d, c_UID k) c in
        if negb fresh then flow_loop env (S i) d matchLabels cs' c1
        else
          let ch0 := ch_take (rd_taken r) (flowDrops c1) in
          let ch := if rd_closed r then ch_close ch0 else ch0 in
          match select_send (rd_done r) (rd_pick r) (flow_notification d k) ch with
          | Sent ch' => flow_loop env (S i) d matchLabels cs' (set_flowDrops ch' c1)
          | Cancelled => (Returned, set_flowDrops ch c1)
          | Full => flow_loop env (S i) d matchLabels cs' (set_flowDrops ch c1)
          | PanicClosed => (Panicked, set_flowDrops ch c1)
          end
  end.

Definition correlateFlowDropInNamespace (σ : Shuffle) (env : nat -> Round) (idx : Idx) (d : FlowDrop)
    (namespace : string) (c : Correlator) : outcome * Correlator :=
  let constraints := query_ns σ idx namespace in
  if constraints == [] then (Running, c)
  else
    let matchLabels := if namespace == e_Namespace (f_Source d) then e_Labels (f_Source d)
                       else e_Labels (f_Destination d) in
    flow_loop env 0 d matchLabels constraints c.

Definition drop_namespaces (d : FlowDrop) : list string :=
  let src := e_Namespace (f_Source d) in
  let dst := e_Namespace (f_Destination d) in
  (if src != EmptyString then [src] else []) ++
  (if (dst != EmptyString) && (dst != src) then [dst] else []).

(** The loop over the namespaces: a return from one namespace goes on with the
    next, a panic does not. *)
Fixpoint namespace_loop (σs : string -> Shuffle) (envs : string -> nat -> Round) (idx : string -> Idx)
    (d : FlowDrop) (nss : list string) (c : Correlator) : outcome * Correlator :=
  match nss with
  | [] => (Running, c)
  | ns :: nss' =>
      match correlateFlowDropInNamespace (σs ns) (envs ns) (idx ns) d ns c with
      | (Panicked, c1) => (Panicked, c1)
      | (_, c1) => namespace_loop σs envs idx d nss' c1
      end
  end.

Definition handleFlowDrop (σs : string -> Shuffle) (now : Time) (envs : string -> nat -> Round)
    (idx : string -> Idx) (d : FlowDrop) (c : Correlator) : outcome * Correlator :=
  if negb (IsPolicyDrop (f_DropReason d)) then (Running, c)
  else
    let '(ok, c1) := allow now c in
    if negb ok then (Running, c1)
    else
      let namespaces := drop_namespaces d in
      if namespaces == [] then (Running, c1) else namespace_loop σs envs idx d namespaces c1.

(** What the loop of [processFlowDrops] receives. *)
Inductive FlowInput :=
  | FlowCancelled
  | FlowChannelClosed
  | FlowReceived (σs : string -> Shuffle) (now : Time) (envs : string -> nat -> Round) (idx : string -> Idx) (d : FlowDrop).

Fixpoint flow_inputs (inputs : list FlowInput) (c : Correlator) : outcome * Correlator :=
  match inputs with
  | [] => (Running, c)
  | FlowCancelled :: _ | FlowChannelClosed :: _ => (Returned, c)
  | FlowReceived σs now envs idx d :: rest =>
      match handleFlowDrop σs now envs idx d c with
      | (Panicked, c1) => (Panicked, c1)
      | (_, c1) => flow_inputs rest c1
      end
  end.

(** [enabled]: a Hubble client is configured. *)
Definition processFlowDrops (enabled : bool) (inputs : list FlowInput) (c : Correlator) : outcome * Correlator :=
  if enabled then flow_inputs inputs c else (Returned, c).
End flows.

(** ** The interface of duplicate suppression *)

#[export] Instance correlator_dedupe : Dedupe Correlator dedupeKey := {
  d_window _ := dedupeWindow;
  d_cache := seenPairs;
  d_mark := tryMarkSeen;
  d_clean := cleanupDedupeCache;
}.

#[export] Instance correlator_dedupe_laws : DedupeLaws Correlator dedupeKey.
Proof.
  split; simpl; [by intros|done|done| |done].
  intros t t' k c. unfold tryMarkSeen, try_mark. by repeat case_match.
Qed.

(** C12: over every interleaving of event handlers, flow handlers and cleanup
    ticks with a clock that does not go back, a pair is admitted exactly when
    it has no admission in the preceding five minutes: the cache and its
    cleanup are invisible. *)
Theorem correlator_dedupe_refines now ops :
  clock_monotone now ops →
  dedupe_run NewWithOptions ops = spec_run dedupeWindow [] ops.
Proof. exact (dedupe_run_spec (K:=string * string) NewWithOptions now ops eq_refl). Qed.

(** Two admissions of the same pair are at least five minutes apart, so no
    pair is notified twice within the window. *)
Theorem correlator_dedupe_spaced now ops key :
  clock_monotone now ops → spaced dedupeWindow (admissions key (dedupe_run NewWithOptions ops)).
Proof. exact (dedupe_run_spaced (K:=string * string) NewWithOptions now ops key eq_refl). Qed.

(** ** What the handlers send *)

Lemma tryMarkSeen_channels t t' key c :
  let c' := (tryMarkSeen t t' key c).2 in
  notifications c' = notifications c ∧ flowDrops c' = flowDrops c ∧ limiter c' = limiter c.
Proof. unfold tryMarkSeen. by repeat case_match. Qed.

Lemma allow_channels now c :
  let c' := (allow now c).2 in
  notifications c' = notifications c ∧ flowDrops c' = flowDrops c ∧ seenPairs c' = seenPairs c.
Proof. unfold allow. by destruct (Limiter_Allow now (limiter c)). Qed.

(** A key that is not in the cache is admitted and recorded. *)
Lemma tryMarkSeen_absent t t' key c :
  seenPairs c !! key = None → tryMarkSeen t t' key c = (true, set_seen (<[key := t']> (seenPairs c)) c).
Proof. unfold tryMarkSeen. by intros ->. Qed.

Section event_lemmas.
Context {Idx : Type} `{ConstraintQueryLaws Idx}.

Lemma emit_loop_sound env i event cs c :
  ch_ok (notifications c) →
  let c' := emit_loop env i event cs c in
  ch_ok (notifications c') ∧ flowDrops c' = flowDrops c ∧
  ∃ extra, ch_sent (notifications c') = ch_sent (notifications c) ++ extra ∧
           extra `sublist_of` (correlated event <$> cs).
Proof.
  revert i c. induction cs as [|k cs IH]; intros i c Hok; csimpl.
  { split_and!; [done|done|]. exists []. by rewrite (right_id_L [] (++)). }
  pose proof (tryMarkSeen_channels (rd_since (env i)) (rd_now (env i)) (ev_UID event, c_UID k) c) as (Hn & Hf & _).
  destruct (tryMarkSeen _ _ _ _) as [fresh c1]. simpl in *.
  destruct fresh; simpl.
  2:{ destruct (IH (S i) c1) as (Ho & Hfl & ex & Hs & Hsub); [by rewrite Hn|].
      rewrite <-Hf, <-Hn. split_and!; [done|done|]. exists ex. split; [done|by apply sublist_cons]. }
  rewrite <-Hn in Hok. rewrite <-Hf, <-Hn. set (ch := ch_take (rd_taken (env i)) (notifications c1)).
  assert (ch_sent ch = ch_sent (notifications c1)) as Hch by apply ch_sent_take.
  assert (ch_ok ch) as Hcok by (by apply ch_ok_take).
  destruct (select_send _ _ _ ch) as [ch'| | |] eqn:Hsel; simpl.
  - apply select_send_Sent in Hsel as (Hsent & _ & _ & Hok').
    destruct (IH (S i) (set_notifications ch' c1)) as (Ho & Hfl & ex & Hs & Hsub); [done|]. simpl in *.
    split_and!; [done|done|]. exists (correlated event k :: ex).
    rewrite Hs, Hsent, Hch, <-(assoc_L (++)). split; [done|by apply sublist_skip].
  - destruct (IH (S i) (set_notifications ch c1)) as (Ho & Hfl & ex & Hs & Hsub); [done|]. simpl in *.
    split_and!; [done|done|]. exists ex. rewrite Hs, Hch. split; [done|by apply sublist_cons].
  - split_and!; [done|done|]. exists []. rewrite Hch, (right_id_L [] (++)). split; [done|apply sublist_nil_l].
  - split_and!; [done|done|]. exists []. rewrite (right_id_L [] (++)). split; [done|apply sublist_nil_l].
Qed.

Lemma handleEvent_justified σ now env (idx : Idx) event c :
  ch_ok (notifications c) →
  let c' := handleEvent σ now env idx event c in
  ch_ok (notifications c') ∧
  ∃ sent, ch_sent (notifications c') = ch_sent (notifications c) ++ sent ∧
    sent `sublist_of` (correlated event <$> query_ns σ idx (ev_InvolvedNamespace event)) ∧
    ∀ n, n ∈ sent →
      n_Event n = event ∧ n_Namespace n = ev_InvolvedNamespace event ∧ n_Namespace n ≠ EmptyString ∧
      n_WorkloadName n = ev_InvolvedName event ∧ n_WorkloadKind n = ev_InvolvedKind event ∧
      stored idx (n_Constraint n) ∧ matchesNamespace (n_Constraint n) (n_Namespace n) = true.
Proof.
  intros Hok. unfold handleEvent. pose proof (allow_channels now c) as (Hn & _ & _).
  destruct (allow now c) as [ok c1]. simpl in *. rewrite <-Hn in *.
  set (ns := ev_InvolvedNamespace event).
  assert (∀ P : CorrelatedNotification → Prop, ∃ sent,
            ch_sent (notifications c1) = ch_sent (notifications c1) ++ sent ∧
            sent `sublist_of` (correlated event <$> query_ns σ idx ns) ∧ ∀ n, n ∈ sent → P n) as Hnone.
  { intros P. exists []. rewrite (right_id_L [] (++)). split_and!; [done|apply sublist_nil_l|set_solver]. }
  destruct ok; [|split; [done|apply Hnone]]. simpl.
  case_bool_decide as Hns; [split; [done|apply Hnone]|].
  case_bool_decide as Hcs; [split; [done|apply Hnone]|].
  destruct (emit_loop_sound env 0 event (query_ns σ idx ns) c1 Hok) as (Hok' & _ & ex & Hs & Hsub).
  split; [done|]. exists ex. split_and!; [done|done|]. intros n Hin.
  eapply elem_of_sublist in Hin; [|exact Hsub]. apply list_elem_of_fmap in Hin as (k & -> & Hk). 
  apply query_ns_spec in Hk as [Hst Hm]. simpl. done.
Qed.

(** Neither the other channel nor the state of this one changes. *)
Lemma emit_loop_open env i event cs c :
  let c' := emit_loop env i event cs c in
  ch_closed (notifications c') = ch_closed (notifications c) ∧ flowDrops c' = flowDrops c.
Proof.
  revert i c. induction cs as [|k cs IH]; intros i c; csimpl; [done|].
  pose proof (tryMarkSeen_channels (rd_since (env i)) (rd_now (env i)) (ev_UID event, c_UID k) c) as (Hn & Hf & _).
  destruct (tryMarkSeen _ _ _ _) as [fresh c1]. simpl in *. rewrite <-Hf, <-Hn. destruct fresh; simpl; [|apply IH].
  destruct (select_send _ _ _ _) as [ch'| | |] eqn:Hsel; simpl; try done.
  - destruct (IH (S i) (set_notifications ch' c1)) as [-> ->]. split; [|done]. simpl.
    pose proof (select_send_open _ _ _ _ _ Hsel) as Ho. simpl in Ho. rewrite Ho. by apply select_send_Sent in Hsel as (_ & _ & ? & _).
  - by destruct (IH (S i) (set_notifications (ch_take (rd_taken (env i)) (notifications c1)) c1)) as [-> ->].
Qed.

Lemma handleEvent_open σ now env (idx : Idx) event c :
  let c' := handleEvent σ now env idx event c in
  ch_closed (notifications c') = ch_closed (notifications c) ∧ flowDrops c' = flowDrops c.
Proof.
  unfold handleEvent. pose proof (allow_channels now c) as (Hn & Hf & _). destruct (allow now c) as [ok c1]. simpl in *.
  rewrite <-Hn, <-Hf. destruct ok; [|done]. simpl. do 2 (case_bool_decide; [done|]). apply emit_loop_open.
Qed.

(** What a notification owes to an event of the watch. *)
Definition event_justified (e : WatchEvent (Idx:=Idx)) (n : CorrelatedNotification) : Prop :=
  n_Event n = we_Object e ∧ n_Namespace n = ev_InvolvedNamespace (we_Object e) ∧
  stored (we_index e) (n_Constraint n) ∧ matchesNamespace (n_Constraint n) (n_Namespace n) = true.

Lemma watchEvents_justified (events : list (WatchEvent (Idx:=Idx))) c :
  ch_ok (notifications c) →
  let c' := watchEvents events c in
  ch_ok (notifications c') ∧ ch_closed (notifications c') = ch_closed (notifications c) ∧ flowDrops c' = flowDrops c ∧
  ∃ sent, ch_sent (notifications c') = ch_sent (notifications c) ++ sent ∧
    ∀ n, n ∈ sent → ∃ e, e ∈ events ∧ event_justified e n.
Proof.
  unfold watchEvents. revert c. induction events as [|e events IH]; intros c Hok; simpl.
  { split_and!; [done..|]. exists []. rewrite (right_id_L [] (++)). set_solver. }
  set (c1 := if _ || _ then _ else c).
  assert (ch_ok (notifications c1) ∧ ch_closed (notifications c1) = ch_closed (notifications c) ∧ flowDrops c1 = flowDrops c ∧
    ∃ sent, ch_sent (notifications c1) = ch_sent (notifications c) ++ sent ∧ ∀ n, n ∈ sent → event_justified e n) as (Ho & Hc & Hf & s1 & Hs1 & Hj1).
  { unfold c1. destruct (_ || _).
    - destruct (handleEvent_justified (we_order e) (we_now e) (we_env e) (we_index e) (we_Object e) c Hok) as (Ho & sent & Hs & _ & Hj).
      destruct (handleEvent_open (we_order e) (we_now e) (we_env e) (we_index e) (we_Object e) c) as [Hc Hf].
      split_and!; [done..|]. exists sent. split; [done|]. intros n Hn. unfold event_justified. naive_solver.
    - split_and!; [done..|]. exists []. rewrite (right_id_L [] (++)). set_solver. }
  destruct (IH c1 Ho) as (Ho2 & Hc2 & Hf2 & s2 & Hs2 & Hj2). split_and!; [done|congruence|congruence|].
  exists (s1 ++ s2). rewrite Hs2, Hs1, (assoc_L (++)). split; [done|]. intros n [Hn|Hn]%elem_of_app.
  - exists e. split; [left|by apply Hj1].
  - destruct (Hj2 n Hn) as (e' & ? & ?). exists e'. split; [by right|done].
Qed.

(** The events of the attempts. *)
Definition attempt_events (a : Attempt (Idx:=Idx)) : list (WatchEvent (Idx:=Idx)) :=
  match a with WatchRefused _ => [] | Watched events _ => events end.
Definition attempt_cancelled (a : Attempt (Idx:=Idx)) : bool := match a with WatchRefused b | Watched _ b => b end.

(** [Start] returns exactly when the context is cancelled, and closes both
    channels then and not before; between two attempts it waits five seconds
    after a refusal and not at all otherwise; every notification that it ever
    sends is justified by an event of one of its watches. *)
Theorem Start_spec (attempts : list (Attempt (Idx:=Idx))) c returned waits c' :
  ch_ok (notifications c) → ch_closed (notifications c) = false → ch_closed (flowDrops c) = false →
  Start attempts c = (returned, waits, c') →
  (returned = true ↔ ∃ a, a ∈ attempts ∧ attempt_cancelled a = true) ∧
  ch_closed (notifications c') = returned ∧ ch_closed (flowDrops c') = returned ∧
  Forall (fun w => w = retry_wait) waits ∧
  ∃ sent, ch_sent (notifications c') = ch_sent (notifications c) ++ sent ∧
    ∀ n, n ∈ sent → ∃ a e, a ∈ attempts ∧ e ∈ attempt_events a ∧ event_justified e n.
Proof.
  revert c waits. induction attempts as [|a attempts IH]; intros c waits Hok Hcl Hfl HS; simpl in HS.
  { simplify_eq. split_and!; try done; [set_solver|]. exists []. rewrite (right_id_L [] (++)). set_solver. }
  destruct a as [[]|events []].
  - simplify_eq. split_and!; try done; [split; [|done]; intros _; by eexists; split; [left|]|].
    exists []. rewrite (right_id_L [] (++)). split; [done|]. set_solver.
  - destruct (Start attempts c) as [[r ws] c2] eqn:E. simplify_eq.
    destruct (IH c ws Hok Hcl Hfl E) as (Hr & H1 & H2 & Hw & sent & Hs & Hj).
    split_and!; try done; [|by constructor|exists sent; split; [done|]; intros n Hn; destruct (Hj n Hn) as (a & e & ? & ?); exists a, e; split; [by right|done]].
    rewrite Hr. split; [intros (a & ? & ?); exists a; by split; [right|]|intros (a & [->|?]%elem_of_cons & ?); [done|by exists a]].
  - destruct (watchEvents_justified events c Hok) as (Ho & Hc & Hf & sent & Hs & Hj). simplify_eq.
    split_and!; try done; [split; [|done]; intros _; by eexists; split; [left|]|].
    exists sent. split; [exact Hs|]. intros n (e & ? & ?)%Hj. exists (Watched events true), e. split; [left|done].
  - destruct (watchEvents_justified events c Hok) as (Ho & Hc & Hf & s1 & Hs1 & Hj1).
    destruct (IH (watchEvents events c) waits) as (Hr & H1 & H2 & Hw & sent & Hs & Hj); [done|congruence|congruence|done|].
    split_and!; try done.
    + rewrite Hr. split; [intros (a & ? & ?); exists a; by split; [right|]|intros (a & [->|?]%elem_of_cons & ?); [done|by exists a]].
    + exists (s1 ++ sent). rewrite Hs, Hs1, (assoc_L (++)). split; [done|]. intros n [Hn|Hn]%elem_of_app.
      * destruct (Hj1 n Hn) as (e & ? & ?). exists (Watched events false), e. split; [left|done].
      * destruct (Hj n Hn) as (a & e & ? & ?). exists a, e. split; [by right|done].
Qed.

End event_lemmas.

(** ** Which pairs are due *)

(** The pair was not admitted within the window before [t]. *)
Definition unpaired (m : gmap dedupeKey Time) (t : Time) (key : dedupeKey) : bool :=
  match m !! key with
  | Some seenAt => (dedupeWindow <=? time_Since t seenAt)%Z
  | None => true
  end.

(** The constraints whose pair with the event is due at the instant at which
    the loop comes to them. *)
Fixpoint due (env : nat -> Round) (i : nat) (event : Event) (m : gmap dedupeKey Time) (cs : list Constraint) : list Constraint :=
  match cs with
  | [] => []
  | k :: cs' =>
      let rest := due env (S i) event m cs' in
      if unpaired m (rd_since (env i)) (ev_UID event, c_UID k) then k :: rest else rest
  end.

Lemma elem_of_due env i event m cs k :
  k ∈ due env i event m cs ↔ ∃ j, cs !! j = Some k ∧ unpaired m (rd_since (env (i + j)%nat)) (ev_UID event, c_UID k) = true.
Proof.
  revert i. induction cs as [|k' cs IH]; intros i; simpl; [set_solver|].
  assert (k ∈ due env (S i) event m cs ↔
          ∃ j, (k' :: cs) !! S j = Some k ∧ unpaired m (rd_since (env (i + S j)%nat)) (ev_UID event, c_UID k) = true) as Hrest.
  { rewrite IH. setoid_rewrite Nat.add_succ_r. done. }
  assert ((∃ j, (k' :: cs) !! j = Some k ∧ unpaired m (rd_since (env (i + j)%nat)) (ev_UID event, c_UID k) = true) ↔
          (k = k' ∧ unpaired m (rd_since (env i)) (ev_UID event, c_UID k) = true) ∨ k ∈ due env (S i) event m cs) as ->.
  { rewrite Hrest. split.
    - intros ([|j] & Hj & Hu); [left; simpl in Hj; rewrite Nat.add_0_r in Hu; naive_solver|right; by exists j].
    - intros [[-> Hu]|(j & Hj)]; [exists 0%nat; by rewrite Nat.add_0_r|by exists (S j)]. }
  destruct (unpaired _ _ (_, c_UID k')) eqn:E; [rewrite elem_of_cons|]; naive_solver congruence.
Qed.

Lemma due_kept env i event m cs : due env i event m cs `sublist_of` cs.
Proof. revert i. induction cs as [|k cs IH]; intros i; simpl; [done|]. case_match; [by apply sublist_skip|by apply sublist_cons]. Qed.

(** What is marked for one constraint does not concern the others. *)
Lemma due_insert env i event m cs key t :
  key.2 ∉ c_UID <$> cs → due env i event (<[key := t]> m) cs = due env i event m cs.
Proof.
  revert i. induction cs as [|k cs IH]; intros i; csimpl; [done|]. rewrite not_elem_of_cons. intros [Hk Hcs].
  rewrite IH by done. unfold unpaired. rewrite lookup_insert_ne; [done|]. by intros ->.
Qed.

Lemma tryMarkSeen_unpaired t t' key c :
  tryMarkSeen t t' key c = if unpaired (seenPairs c) t key then (true, set_seen (<[key := t']> (seenPairs c)) c) else (false, c).
Proof.
  unfold tryMarkSeen, unpaired. destruct (seenPairs c !! key) as [s|]; [|done].
  rewrite Z.leb_antisym. by destruct (_ <? _)%Z.
Qed.

(** The loop sends at most what is due, marks what it sends, and keeps the
    channel within its capacity. *)
Lemma emit_loop_due env i event cs c :
  NoDup (c_UID <$> cs) → ch_ok (notifications c) →
  let c' := emit_loop env i event cs c in
  ch_ok (notifications c') ∧
  (∀ key, key.2 ∉ c_UID <$> cs → seenPairs c' !! key = seenPairs c !! key) ∧
  ∃ ks, ch_sent (notifications c') = ch_sent (notifications c) ++ (correlated event <$> ks) ∧
        ks `sublist_of` due env i event (seenPairs c) cs ∧
        ∀ k, k ∈ ks → ∃ j, seenPairs c' !! (ev_UID event, c_UID k) = Some (rd_now (env j)).
Proof.
  revert i c. induction cs as [|k cs IH]; intros i c Hnd Hok; csimpl.
  { split_and!; [done..|]. exists []. rewrite fmap_nil, (right_id_L [] (++)). split_and!; [done..|by intros k0 Hk0%elem_of_nil]. }
  apply NoDup_cons in Hnd as [Hk Hnd]. rewrite tryMarkSeen_unpaired. destruct (unpaired _ _ _); simpl.
  2:{ destruct (IH (S i) c Hnd Hok) as (Ho & Hm & ks & Hs & Hsub & Hj). split_and!; [done| |by exists ks].
      intros key [_ Hkey]%not_elem_of_cons. by apply Hm. }
  set (c1 := set_seen _ c). set (ch := ch_take (rd_taken (env i)) (notifications c)).
  assert (∀ ch1 extra, ch_ok ch1 → ch_sent ch1 = ch_sent (notifications c) ++ (correlated event <$> extra) → extra = [] ∨ extra = [k] →
    let c' := emit_loop env (S i) event cs (set_notifications ch1 c1) in
    ch_ok (notifications c') ∧ (∀ key, key.2 ∉ c_UID k :: (c_UID <$> cs) → seenPairs c' !! key = seenPairs c !! key) ∧
    ∃ ks, ch_sent (notifications c') = ch_sent (notifications c) ++ (correlated event <$> ks) ∧
      ks `sublist_of` k :: due env (S i) event (seenPairs c) cs ∧
      ∀ k, k ∈ ks → ∃ j, seenPairs c' !! (ev_UID event, c_UID k) = Some (rd_now (env j))) as Hgo.
  { intros ch1 extra Ho1 Hs1 Hex. destruct (IH (S i) (set_notifications ch1 c1) Hnd Ho1) as (Ho & Hm & ks & Hs & Hsub & Hj).
    simpl in *. rewrite due_insert in Hsub by done. split_and!; [done| |].
    - intros key [Hne Hni]%not_elem_of_cons. rewrite Hm by done. apply lookup_insert_ne. by intros <-.
    - exists (extra ++ ks). rewrite Hs, Hs1, fmap_app, (assoc_L (++)). split_and!; [done| |].
      + destruct Hex as [-> | ->]; simpl; [by apply sublist_cons|by apply sublist_skip].
      + intros k' [Hk'|Hk']%elem_of_app; [|by apply Hj]. assert (k' = k) as -> by (destruct Hex as [-> | ->]; [by apply not_elem_of_nil in Hk'|by apply list_elem_of_singleton in Hk']).
        exists i. rewrite Hm by done. apply lookup_insert_eq. }
  assert (ch_ok ch) as Hcok by (by apply ch_ok_take). assert (ch_sent ch = ch_sent (notifications c)) as Hch by apply ch_sent_take.
  destruct (select_send _ _ _ ch) as [ch'| | |] eqn:Hsel.
  - apply select_send_Sent in Hsel as (Hsent & _ & _ & Hok'). apply (Hgo ch' [k]); [by apply Hok'|by rewrite Hsent, Hch|by right].
  - apply (Hgo ch []); [done|by rewrite Hch, fmap_nil, (right_id_L [] (++))|by left].
  - split_and!; [done|intros key [Hne _]%not_elem_of_cons; simpl; apply lookup_insert_ne; by intros <-|].
    exists []. rewrite fmap_nil. simpl. rewrite Hch, (right_id_L [] (++)). split_and!; [done|apply sublist_nil_l|by intros k0 Hk0%elem_of_nil].
  - split_and!; [done|intros key [Hne _]%not_elem_of_cons; simpl; apply lookup_insert_ne; by intros <-|].
    exists []. rewrite fmap_nil. simpl. rewrite (right_id_L [] (++)). split_and!; [done|apply sublist_nil_l|by intros k0 Hk0%elem_of_nil].
Qed.

(** With room for what is due, and a live context, all of it is sent. *)
Lemma emit_loop_complete env i event cs c :
  ch_closed (notifications c) = false → (∀ j, rd_done (env j) = false) →
  (go_len (ch_buf (notifications c)) + go_len (due env i event (seenPairs c) cs) ≤ ch_cap (notifications c))%Z →
  NoDup (c_UID <$> cs) →
  ch_sent (notifications (emit_loop env i event cs c)) =
  ch_sent (notifications c) ++ (correlated event <$> due env i event (seenPairs c) cs).
Proof.
  revert i c. induction cs as [|k cs IH]; intros i c Hcl Hdone Hroom Hnd; csimpl in *.
  { by rewrite (right_id_L [] (++)). }
  apply NoDup_cons in Hnd as [Hk Hnd]. rewrite tryMarkSeen_unpaired.
  destruct (unpaired _ _ _); simpl; [|by apply IH].
  set (ch := ch_take (rd_taken (env i)) (notifications c)).
  destruct (select_send_room (rd_pick (env i)) (correlated event k) ch) as [ch' Hs]; [done| |].
  { unfold ch, go_len in *. simpl in *. rewrite length_drop. lia. }
  rewrite Hdone, Hs. pose proof (select_send_Sent _ _ _ _ _ Hs) as (Hsent & Hcap & Hcl' & Hok').
  rewrite IH; simpl; [|done|done| |done]; rewrite due_insert by done.
  - rewrite Hsent. unfold ch. by rewrite ch_sent_take, <-(assoc_L (++)).
  - unfold select_send, send_ready, ch_send in Hs. simpl in Hs. rewrite Hcl in Hs. simpl in Hs.
    destruct (_ <? _)%Z; [|done]. injection Hs as <-. unfold go_len in *. simpl in *.
    rewrite length_app, length_drop. simpl. lia.
Qed.

(** C13: whatever the environment does, the notifications that [handleEvent]
    sends pair this event with constraints of a reachable index that apply to
    the namespace of the involved object and name the object; each constraint
    is notified at most once, only if its pair with the event was not admitted
    within the window, and the pair is marked then; the channel keeps within its
    capacity. *)
Theorem handleEvent_sound σ now env cb ops event c :
  let idx := (index_run (Indexer.New cb) ops).1 in
  ch_ok (notifications c) →
  let c' := handleEvent σ now env idx event c in
  ch_ok (notifications c') ∧
  ∃ sent, ch_sent (notifications c') = ch_sent (notifications c) ++ sent ∧
    NoDup (c_UID ∘ n_Constraint <$> sent) ∧
    ∀ n, n ∈ sent →
      n_Event n = event ∧ n_Namespace n = ev_InvolvedNamespace event ∧ n_Namespace n ≠ EmptyString ∧
      n_WorkloadName n = ev_InvolvedName event ∧ n_WorkloadKind n = ev_InvolvedKind event ∧
      contains idx (n_Constraint n) ∧ matchesNamespace (n_Constraint n) (n_Namespace n) = true ∧
      (∃ j, unpaired (seenPairs c) (rd_since (env j)) (ev_UID event, c_UID (n_Constraint n)) = true) ∧
      (∃ j, seenPairs c' !! (ev_UID event, c_UID (n_Constraint n)) = Some (rd_now (env j))).
Proof.
  intros idx Hok. unfold handleEvent. pose proof (allow_channels now c) as (Hn & _ & Hsp).
  destruct (allow now c) as [ok c1]. simpl in Hn, Hsp. rewrite <-Hn in *.
  assert (∀ P : CorrelatedNotification → Prop, ∃ sent,
            ch_sent (notifications c1) = ch_sent (notifications c1) ++ sent ∧ NoDup (c_UID ∘ n_Constraint <$> sent) ∧ ∀ n, n ∈ sent → P n) as Hnone.
  { intros P. exists []. rewrite (right_id_L [] (++)). split_and!; [done|constructor|set_solver]. }
  destruct ok; [|split; [done|apply Hnone]]. cbn [negb]. cbv zeta.
  case_bool_decide as Hns; [split; [done|apply Hnone]|]. case_bool_decide as Hcs; [split; [done|apply Hnone]|].
  set (cs := query_ns σ idx (ev_InvolvedNamespace event)).
  assert (NoDup (c_UID <$> cs)) as Hnd by (apply NoDup_select_uids, index_run_keyed, keyed_empty).
  destruct (emit_loop_due env 0 event cs c1 Hnd Hok) as (Hok' & _ & ks & Hs & Hsub & Hj). rewrite Hsp in Hsub.
  split; [done|]. exists (correlated event <$> ks). split_and!; [done| |].
  - rewrite <-list_fmap_compose. change (NoDup (c_UID <$> ks)). eapply sublist_NoDup; [exact Hnd|].
    apply fmap_sublist. etrans; [exact Hsub|apply due_kept].
  - intros n (k & -> & Hk)%list_elem_of_fmap. simpl. pose proof (elem_of_sublist _ _ _ Hk Hsub) as (j & Hlk & Hu)%elem_of_due.
    apply list_elem_of_lookup_2, query_ns_spec in Hlk as [Hst Hm]. split_and!; try done; [by exists (0 + j)%nat|by apply Hj].
Qed.

(** C14: nothing is lost while there is room: if the rate limiter lets the event
    through, the context is live and the channel has room for what is due, the
    handler notifies, in the order of the query and once each, exactly the
    constraints of a reachable index that apply to the namespace and whose pair
    with the event was not admitted within the window when the loop comes to
    them, whichever of the others were. *)
Theorem handleEvent_complete σ now env cb ops event c :
  let idx := (index_run (Indexer.New cb) ops).1 in
  let cs := ByNamespace σ idx (ev_InvolvedNamespace event) in
  let ks := due env 0 event (seenPairs c) cs in
  (allow now c).1 = true → ev_InvolvedNamespace event ≠ EmptyString →
  ch_closed (notifications c) = false → (∀ j, rd_done (env j) = false) →
  (go_len (ch_buf (notifications c)) + go_len ks ≤ ch_cap (notifications c))%Z →
  ch_sent (notifications (handleEvent σ now env idx event c)) = ch_sent (notifications c) ++ (correlated event <$> ks) ∧
  ∀ k, k ∈ ks ↔ ∃ j, cs !! j = Some k ∧
         match seenPairs c !! (ev_UID event, c_UID k) with
         | Some seenAt => (dedupeWindow ≤ time_Since (rd_since (env j)) seenAt)%Z
         | None => True
         end.
Proof.
  intros idx cs ks Hok Hns Hcl Hdone Hroom. split.
  - unfold handleEvent. pose proof (allow_channels now c) as (Hn & _ & Hsp). destruct (allow now c) as [ok c1].
    simpl in Hok, Hn, Hsp. subst ok. cbn [negb]. cbv zeta. rewrite bool_decide_eq_false_2 by done.
    change (query_ns σ idx (ev_InvolvedNamespace event)) with cs. case_bool_decide as Hcs.
    + unfold ks. rewrite Hcs, Hn. csimpl. by rewrite (right_id_L [] (++)).
    + rewrite emit_loop_complete; rewrite ?Hn, ?Hsp; try done. apply NoDup_select_uids, index_run_keyed, keyed_empty.
  - intros k. unfold ks. rewrite elem_of_due. unfold unpaired. simpl. apply exist_proper. intros j.
    destruct (seenPairs c !! _); [rewrite Z.leb_le|]; naive_solver.
Qed.

(** ** Flow drops *)

Section flow_lemmas.
Context {AM : Apimachinery} {Idx : Type} `{ConstraintQueryLaws Idx}.

(** The notifications a loop over [cs] may send. *)
Definition flow_match (matchLabels : gmap string string) (k : Constraint) : bool :=
  is_network k && matchesSelector (c_WorkloadSelector k) matchLabels.

Lemma ch_close_sent {A} (b : bool) (ch : Chan A) : ch_sent (if b then ch_close ch else ch) = ch_sent ch.
Proof. by destruct b. Qed.

Lemma flow_loop_sound env i d lbls cs c :
  let c' := (flow_loop env i d lbls cs c).2 in
  notifications c' = notifications c ∧
  ∃ extra, ch_sent (flowDrops c') = ch_sent (flowDrops c) ++ extra ∧
           extra `sublist_of` (flow_notification d <$> filter (fun k => flow_match lbls k = true) cs).
Proof.
  revert i c. induction cs as [|k cs IH]; intros i c; csimpl.
  { split; [done|]. exists []. by rewrite (right_id_L [] (++)). }
  rewrite filter_cons. assert (flow_match lbls k = is_network k && matchesSelector (c_WorkloadSelector k) lbls) as Hm by done.
  destruct (is_network k); simpl in *; [|rewrite decide_False by congruence; apply IH].
  destruct (matchesSelector _ lbls); simpl in *; [|rewrite decide_False by congruence; apply IH].
  rewrite decide_True by done. csimpl.
  pose proof (tryMarkSeen_channels (rd_since (env i)) (rd_now (env i)) (flow_key d, c_UID k) c) as (Hn & Hf & _).
  destruct (tryMarkSeen _ _ _ _) as [fresh c1]. simpl in *. rewrite <-Hn, <-Hf. destruct fresh; simpl.
  2:{ destruct (IH (S i) c1) as (Hn' & ex & Hs & Hsub). split; [done|]. exists ex.
      split; [done|by apply sublist_cons]. }
  set (ch := if rd_closed (env i) then _ else _).
  assert (ch_sent ch = ch_sent (flowDrops c1)) as Hch by (unfold ch; by rewrite ch_close_sent, ch_sent_take).
  destruct (select_send _ _ _ ch) as [ch'| | |] eqn:Hsel; simpl.
  - apply select_send_Sent in Hsel as (Hsent & _). destruct (IH (S i) (set_flowDrops ch' c1)) as (Hn' & ex & Hs & Hsub).
    split; [done|]. simpl in *. exists (flow_notification d k :: ex).
    rewrite Hs, Hsent, Hch, <-(assoc_L (++)). split; [done|by apply sublist_skip].
  - destruct (IH (S i) (set_flowDrops ch c1)) as (Hn' & ex & Hs & Hsub). split; [done|]. simpl in *.
    exists ex. rewrite Hs, Hch. split; [done|by apply sublist_cons].
  - split; [done|]. exists []. rewrite Hch, (right_id_L [] (++)). split; [done|apply sublist_nil_l].
  - split; [done|]. exists []. rewrite Hch, (right_id_L [] (++)). split; [done|apply sublist_nil_l].
Qed.

(** What a notification of a drop says. *)
Definition flow_justified (idx : string -> Idx) (d : FlowDrop) (n : FlowDropNotification) : Prop :=
  ∃ ns k, n = flow_notification d k ∧ ns ∈ drop_namespaces d ∧ stored (idx ns) k ∧
    matchesNamespace k ns = true ∧
    (c_ConstraintType k = ConstraintTypeNetworkIngress ∨ c_ConstraintType k = ConstraintTypeNetworkEgress) ∧
    MatchesLabelSelector (c_WorkloadSelector k)
      (if ns == e_Namespace (f_Source d) then e_Labels (f_Source d) else e_Labels (f_Destination d)) = true.

Lemma is_network_spec k :
  is_network k = true ↔
  c_ConstraintType k = ConstraintTypeNetworkIngress ∨ c_ConstraintType k = ConstraintTypeNetworkEgress.
Proof. unfold is_network. repeat case_bool_decide; simpl; naive_solver. Qed.

Lemma correlate_sound σ env (idx : string -> Idx) d ns c :
  ns ∈ drop_namespaces d →
  let c' := (correlateFlowDropInNamespace σ env (idx ns) d ns c).2 in
  notifications c' = notifications c ∧
  ∃ extra, ch_sent (flowDrops c') = ch_sent (flowDrops c) ++ extra ∧ Forall (flow_justified idx d) extra.
Proof.
  intros Hns. unfold correlateFlowDropInNamespace. case_bool_decide as Hcs.
  { split; [done|]. exists []. by rewrite (right_id_L [] (++)). }
  set (lbls := if ns == e_Namespace (f_Source d) then e_Labels (f_Source d) else _).
  destruct (flow_loop_sound env 0 d lbls (query_ns σ (idx ns) ns) c) as (Hn & ex & Hs & Hsub).
  split; [done|]. exists ex. split; [done|]. apply Forall_forall. intros n Hin.
  eapply elem_of_sublist in Hin; [|exact Hsub]. apply list_elem_of_fmap in Hin as (k & -> & Hk).
  apply list_elem_of_filter in Hk as [Hm Hk]. apply query_ns_spec in Hk as [Hst Hmn].
  unfold flow_match in Hm. apply andb_true_iff in Hm as [Hnet Hsel]. apply is_network_spec in Hnet.
  by exists ns, k.
Qed.

Lemma namespace_loop_sound σs envs (idx : string -> Idx) d nss c :
  (∀ ns, ns ∈ nss → ns ∈ drop_namespaces d) →
  let c' := (namespace_loop σs envs idx d nss c).2 in
  notifications c' = notifications c ∧
  ∃ extra, ch_sent (flowDrops c') = ch_sent (flowDrops c) ++ extra ∧ Forall (flow_justified idx d) extra.
Proof.
  revert c. induction nss as [|ns nss IH]; intros c Hin; simpl.
  { split; [done|]. exists []. by rewrite (right_id_L [] (++)). }
  destruct (correlate_sound (σs ns) (envs ns) idx d ns c) as (Hn & e1 & Hs1 & Hj1); [apply Hin; left|].
  destruct (correlateFlowDropInNamespace _ _ _ _ _ _) as [o c1]. simpl in *.
  destruct (IH c1) as (Hn2 & e2 & Hs2 & Hj2); [intros; apply Hin; by right|].
  destruct o; simpl; try (split; [congruence|]; exists (e1 ++ e2);
    rewrite Hs2, Hs1, (assoc_L (++)); split; [done|by apply Forall_app]).
  split; [done|]. by exists e1.
Qed.

(** A flow drop is only reported for policy drops, and each notification
    names a stored network constraint that applies to the source's or the
    destination's namespace and whose workload selector accepts the labels of
    the pod in that namespace; event notifications are not touched. *)
Theorem handleFlowDrop_sound σs now envs (idx : string -> Idx) d c :
  let c' := (handleFlowDrop σs now envs idx d c).2 in
  notifications c' = notifications c ∧
  ∃ extra, ch_sent (flowDrops c') = ch_sent (flowDrops c) ++ extra ∧
    (extra ≠ [] → IsPolicyDrop (f_DropReason d) = true) ∧ Forall (flow_justified idx d) extra.
Proof.
  unfold handleFlowDrop. destruct (IsPolicyDrop _); simpl.
  2:{ split; [done|]. exists []. by rewrite (right_id_L [] (++)). }
  pose proof (allow_channels now c) as (Hn & Hf & _). destruct (allow now c) as [ok c1]. simpl in *.
  rewrite <-Hn, <-Hf. destruct ok; simpl.
  2:{ split; [done|]. exists []. by rewrite (right_id_L [] (++)). }
  case_bool_decide as Hns.
  { split; [done|]. exists []. by rewrite (right_id_L [] (++)). }
  destruct (namespace_loop_sound σs envs idx d (drop_namespaces d) c1) as (Hn' & ex & Hs & Hj); [done|].
  split; [done|]. exists ex. done.
Qed.

(** What a notification owes to a flow that the loop received. *)
Definition input_justified (n : FlowDropNotification) (x : FlowInput (Idx:=Idx)) : Prop :=
  match x with
  | FlowReceived _ _ _ idx d => IsPolicyDrop (f_DropReason d) = true ∧ flow_justified idx d n
  | _ => False
  end.

(** C36: whatever the loop over the dropped flows receives, in any number and
    under every interleaving with the reader and the shutdown, each notification
    that it sends is about a policy drop that was received, and names a stored
    network constraint that applies to the source's or the destination's
    namespace and whose workload selector accepts the labels of the pod there;
    without a Hubble client it sends nothing, and it never touches the
    notifications of events. *)
Theorem processFlowDrops_sound enabled (inputs : list (FlowInput (Idx:=Idx))) c :
  let c' := (processFlowDrops enabled inputs c).2 in
  notifications c' = notifications c ∧
  ∃ sent, ch_sent (flowDrops c') = ch_sent (flowDrops c) ++ sent ∧ (enabled = false → sent = []) ∧
    ∀ n, n ∈ sent → ∃ x, x ∈ inputs ∧ input_justified n x.
Proof.
  unfold processFlowDrops. destruct enabled; [|split; [done|]; exists []; rewrite (right_id_L [] (++)); set_solver].
  revert c. induction inputs as [|x inputs IH]; intros c; simpl; [split; [done|]; exists []; rewrite (right_id_L [] (++)); set_solver|].
  destruct x as [| |σs now envs idx d]; [split; [done|]; exists []; rewrite (right_id_L [] (++)); set_solver..|].
  destruct (handleFlowDrop_sound σs now envs idx d c) as (Hn & s1 & Hs1 & Hp & Hj). rewrite Forall_forall in Hj.
  destruct (handleFlowDrop σs now envs idx d c) as [o c1]. simpl in *.
  assert (∀ n, n ∈ s1 → input_justified n (FlowReceived σs now envs idx d)) as Hj1.
  { intros n Hin. split; [apply Hp; intros ->; by apply not_elem_of_nil in Hin|by apply Hj]. }
  destruct (IH c1) as (Hn2 & s2 & Hs2 & _ & Hj2).
  destruct o; simpl; try (split; [congruence|]; exists (s1 ++ s2); rewrite Hs2, Hs1, (assoc_L (++)); split_and!; [done..|];
    intros n [Hin|Hin]%elem_of_app; [eexists; split; [left|by apply Hj1]|destruct (Hj2 n Hin) as (x & ? & ?); exists x; split; [by right|done]]).
  split; [done|]. exists s1. split_and!; [done..|]. intros n Hin. eexists. split; [left|by apply Hj1].
Qed.
End flow_lemmas.
End correlator.

(** ** Evaluation *)

Definition quiet_round : Round := mkRound 0 0 false true 0 false.
Definition quiet_env : nat -> Round := fun _ => quiet_round.

Definition example_key : string * string := ("e1", "u1")%string.

Definition example_marks : list (dedupe_op (string * string)) :=
  [OpMark 0 1 example_key; OpMark 5 5 example_key; OpClean in_order (dedupeWindow + 2);
   OpMark (dedupeWindow + 2) (dedupeWindow + 3) example_key].

Lemma example_marks_monotone : clock_monotone 0 example_marks.
Proof. unfold example_marks, dedupeWindow, time_Minute, time_Second. simpl. lia. Qed.

Lemma correlator_dedupe_refines_witness :
  (dedupe_run NewWithOptions example_marks).*2 = [true; false; true] ∧
  dedupe_run NewWithOptions example_marks = spec_run dedupeWindow [] example_marks.
Proof.
  split; [vm_compute; reflexivity|]. exact (correlator_dedupe_refines 0 example_marks example_marks_monotone).
Defined.

Lemma correlator_dedupe_spaced_witness :
  admissions example_key (dedupe_run NewWithOptions example_marks) = [1; dedupeWindow + 3]%Z ∧
  spaced dedupeWindow (admissions example_key (dedupe_run NewWithOptions example_marks)).
Proof.
  split; [vm_compute; reflexivity|].
  exact (correlator_dedupe_spaced 0 example_marks example_key example_marks_monotone).
Defined.

Definition example_event : Event := mkEvent "e1" "web.1" "dev" "web" "Deployment".

(** The pair of the event with the constraint u2 was admitted before. *)
Definition example_paired : Correlator := set_seen {[ ("e1", "u2")%string := 0%Z ]} NewWithOptions.

Lemma handleEvent_sound_witness :
  let c' := handleEvent in_order 0 quiet_env example_index example_event example_paired in
  ∃ n, ch_sent (notifications c') = [n] ∧ c_UID (n_Constraint n) = "u3"%string ∧ n_Namespace n = "dev"%string ∧
       contains example_index (n_Constraint n) ∧ is_Some (seenPairs c' !! ("e1", "u3")%string).
Proof.
  intros c'. unfold example_index in *. eexists. split; [vm_compute; reflexivity|].
  destruct (handleEvent_sound in_order 0 quiet_env true index_example_ops example_event example_paired) as (_ & sent & Hs & _ & Hj).
  - vm_compute. congruence.
  - fold c' in Hs, Hj.
    assert (Hsent : sent = ch_sent (notifications c')) by (rewrite Hs; reflexivity).
    edestruct Hj as (_ & Hns & _ & _ & _ & Hc & _ & _ & [j Hm]); [rewrite Hsent; vm_compute; left|].
    split; [reflexivity|]. split; [exact Hns|]. split; [exact Hc|]. exists (rd_now (quiet_env j)). exact Hm.
Defined.

Lemma handleEvent_complete_witness :
  c_UID ∘ n_Constraint <$> ch_sent (notifications (handleEvent in_order 0 quiet_env example_index example_event example_paired))
  = ["u3"]%string.
Proof.
  unfold example_index.
  destruct (handleEvent_complete in_order 0 quiet_env true index_example_ops example_event example_paired) as [H _];
    [reflexivity|discriminate|reflexivity|reflexivity|vm_compute; congruence|].
  rewrite H. vm_compute. reflexivity.
Defined.

(** A drop between two pods of the namespace [prod], denied on ingress by a
    policy that selects the destination's labels. *)
Definition ingress_policy : Constraint :=
  mkConstraint "u9" networkpolicies_gvr "deny-db" "prod" [] None
    (Some (mkLabelSelector {[ "app" := "db" ]}%string []))
    [] ConstraintTypeNetworkIngress "deny" SeverityCritical None EmptyString EmptyString [] [] None.

Definition intra_drop : FlowDrop :=
  mkFlowDrop 0 (mkEndpoint 1 "prod" "web-1" {[ "app" := "web" ]} []) (mkEndpoint 2 "prod" "db-1" {[ "app" := "db" ]} [])
    (mkIPInfo EmptyString EmptyString) (mkL4Info ProtocolTCP 4000 5432 None) DropReasonIngressDenied EmptyString EmptyString.

Definition cross_drop : FlowDrop :=
  mkFlowDrop 0 (mkEndpoint 1 "shop" "web-1" {[ "app" := "web" ]} []) (mkEndpoint 2 "prod" "db-1" {[ "app" := "db" ]} [])
    (mkIPInfo EmptyString EmptyString) (mkL4Info ProtocolTCP 4000 5432 None) DropReasonIngressDenied EmptyString EmptyString.

Definition policy_index : Indexer := (Upsert ingress_policy (Indexer.New false)).1.

Definition run_drop (d : FlowDrop) : list FlowDropNotification :=
  ch_sent (flowDrops (handleFlowDrop (fun _ => in_order) 0 (fun _ => quiet_env) (fun _ => policy_index) d NewWithOptions).2).

(** The same policy and destination pod: a drop from another namespace is
    reported, a drop from a pod of the same namespace is not, because only the
    source's labels are matched when both pods share the namespace. *)
Theorem handleFlowDrop_intra_namespace_missed :
  length (run_drop cross_drop) = 1 ∧ run_drop intra_drop = [].
Proof. split; vm_compute; reflexivity. Qed.

(** The round in which [Start] has closed the channels after the context was
    cancelled, and [select] picks the send. *)
Definition closing_env : nat -> Round := fun _ => mkRound 0 0 true true 0 true.

(** A flow drop that is being correlated while [Start] shuts down can send
    on the channel [Start] has closed, which panics: [Start] does not wait for
    [processFlowDrops]. *)
Theorem handleFlowDrop_shutdown_panic :
  (handleFlowDrop (fun _ => in_order) 0 (fun _ => closing_env) (fun _ => policy_index) cross_drop NewWithOptions).1 = Panicked.
Proof. vm_compute. reflexivity. Qed.

Definition example_inputs : list (FlowInput (Idx:=Indexer)) :=
  [FlowReceived (fun _ => in_order) 0 (fun _ => quiet_env) (fun _ => policy_index) intra_drop;
   FlowReceived (fun _ => in_order) 0 (fun _ => quiet_env) (fun _ => policy_index) cross_drop; FlowChannelClosed].

Lemma processFlowDrops_sound_witness :
  let sent := ch_sent (flowDrops (processFlowDrops true example_inputs NewWithOptions).2) in
  length sent = 1 ∧ ∀ n, n ∈ sent → ∃ x, x ∈ example_inputs ∧ input_justified n x.
Proof.
  split; [vm_compute; reflexivity|].
  destruct (processFlowDrops_sound true example_inputs NewWithOptions) as (_ & sent & Hs & _ & Hj). rewrite Hs. exact Hj.
Defined.

Example Start_example :
  let attempts := [WatchRefused false; Watched [mkWatchEvent "ADDED" example_event in_order 0 quiet_env example_index] false;
                   WatchRefused true] in
  let '(returned, waits, c) := Start attempts NewWithOptions in
  returned = true ∧ waits = [retry_wait] ∧ length (ch_sent (notifications c)) = 2 ∧ ch_closed (notifications c) = true.
Proof. vm_compute. repeat split. Qed.
