(* ===== verification/Remediation.v ===== *)
(** * Remediation steps (internal/notifier/remediation.go)

    [Build] turns a constraint into the structured remediation of
    api/v1alpha1/types.go: the adapter's own steps when it has some, generated
    steps otherwise. *)

From S2P Require Import Prelude GoStd Types.
From Stdlib Require Import Ascii.

Open Scope go_scope.

(** v1alpha1.RemediationInfo; v1alpha1.RemediationStep has the fields of
    [RemediationStep]. *)
Record RemediationInfo := mkRemediationInfo {
  ri_Summary : string;
  ri_Steps : list RemediationStep;
}.

Record RemediationBuilder := mkRemediationBuilder { DefaultContact : string }.

Definition NewRemediationBuilder (defaultContact : string) : RemediationBuilder :=
  mkRemediationBuilder (if defaultContact == EmptyString then "your platform team"%string else defaultContact).

(** The step literals of the source, by the fields they set. *)
Definition kubectl_step (description command privilege : string) : RemediationStep :=
  mkStep "kubectl" description command EmptyString EmptyString EmptyString EmptyString privilege.
Definition manual_step (description contact privilege : string) : RemediationStep :=
  mkStep "manual" description EmptyString EmptyString EmptyString EmptyString contact privilege.
Definition link_step (description url privilege : string) : RemediationStep :=
  mkStep "link" description EmptyString EmptyString EmptyString url EmptyString privilege.
Definition yaml_step (description template privilege : string) : RemediationStep :=
  mkStep "yaml_patch" description EmptyString EmptyString template EmptyString EmptyString privilege.

Definition isNetworkPolicySource (c : Constraint) : bool :=
  let r := g_Resource (c_Source c) in
  (r == "networkpolicies"%string) || (r == "ciliumnetworkpolicies"%string) || (r == "ciliumclusterwidenetworkpolicies"%string).

Definition isResourceQuotaSource (c : Constraint) : bool :=
  let r := g_Resource (c_Source c) in (r == "resourcequotas"%string) || (r == "limitranges"%string).

Definition isWebhookSource (c : Constraint) : bool :=
  let r := g_Resource (c_Source c) in
  (r == "validatingwebhookconfigurations"%string) || (r == "mutatingwebhookconfigurations"%string).

Definition generateSummary (rb : RemediationBuilder) (c : Constraint) : string :=
  if c_RemediationHint c != EmptyString then c_RemediationHint c
  else switch (c_ConstraintType c)
    [(ConstraintTypeNetworkIngress, "Review network policy or request ingress exception"%string);
     (ConstraintTypeNetworkEgress, "Review network policy or request egress exception"%string);
     (ConstraintTypeAdmission, "Review admission policy requirements or request exception"%string);
     (ConstraintTypeResourceLimit, "Optimize resource usage or request quota increase"%string);
     (ConstraintTypeMeshPolicy, "Review service mesh policy configuration"%string);
     (ConstraintTypeMissing, "Create the missing companion resource"%string)]
    ("Contact " +:+ DefaultContact rb +:+ " for assistance").

Definition resolveContact (rb : RemediationBuilder) (c : Constraint) : string :=
  let fallback :=
    if strings_Contains (c_RemediationHint c) "@" || strings_Contains (c_RemediationHint c) "#"
    then c_RemediationHint c else DefaultContact rb in
  match map_string (c_Details c) "contact" with
  | Some contact => if contact != EmptyString then contact else fallback
  | None => fallback
  end.

Definition convertSteps (rb : RemediationBuilder) (c : Constraint) : RemediationInfo :=
  mkRemediationInfo
    (if c_RemediationHint c == EmptyString then generateSummary rb c else c_RemediationHint c)
    (c_Remediation c).

Definition namespaced_steps (c : Constraint) (steps : list RemediationStep) : list RemediationStep :=
  if c_Namespace c != EmptyString then steps else [].

Definition buildNetworkPolicyRemediation (rb : RemediationBuilder) (c : Constraint) : RemediationInfo :=
  mkRemediationInfo (generateSummary rb c)
    (namespaced_steps c
       [kubectl_step "Inspect the NetworkPolicy to understand the allowed traffic"
          ("kubectl get networkpolicy " +:+ c_Name c +:+ " -n " +:+ c_Namespace c +:+ " -o yaml") "developer"] ++
     namespaced_steps c
       [kubectl_step "Check for related events in the namespace"
          ("kubectl get events -n " +:+ c_Namespace c +:+ " --field-selector reason=NetworkPolicyDrop") "developer"] ++
     [manual_step "Request a network policy exception or modification" (resolveContact rb c) "namespace-admin";
      link_step "Review network policy documentation"
        "https://kubernetes.io/docs/concepts/services-networking/network-policies/" "developer"]).

Definition buildResourceQuotaRemediation (rb : RemediationBuilder) (c : Constraint) : RemediationInfo :=
  mkRemediationInfo (generateSummary rb c)
    (namespaced_steps c
       [kubectl_step "View current quota usage"
          ("kubectl describe resourcequota " +:+ c_Name c +:+ " -n " +:+ c_Namespace c) "developer"] ++
     namespaced_steps c
       [kubectl_step "List pods with resource requests to identify optimization opportunities"
          ("kubectl get pods -n " +:+ c_Namespace c +:+ " -o custom-columns='NAME:.metadata.name,CPU_REQ:.spec.containers[*].resources.requests.cpu,MEM_REQ:.spec.containers[*].resources.requests.memory'") "developer"] ++
     [manual_step "Request a quota increase from your platform team" (resolveContact rb c) "namespace-admin";
      link_step "Review resource management best practices"
        "https://kubernetes.io/docs/concepts/configuration/manage-resources-containers/" "developer"]).

(** [c.Name[:idx]] for the last dash, unless it is the first byte. *)
Definition webhook_config_name (name : string) : string :=
  match strings_LastIndex name "-"%char with
  | Some idx => if (0 <? idx)%nat then String.substring 0 idx name else name
  | None => name
  end.

Definition buildWebhookRemediation (rb : RemediationBuilder) (c : Constraint) : RemediationInfo :=
  let configName := webhook_config_name (c_Name c) in
  let webhookKind := if g_Resource (c_Source c) == "mutatingwebhookconfigurations"%string
                     then "mutatingwebhookconfigurations"%string else "validatingwebhookconfigurations"%string in
  mkRemediationInfo (generateSummary rb c)
    [kubectl_step "Inspect the webhook configuration"
       ("kubectl get " +:+ webhookKind +:+ " " +:+ configName +:+ " -o yaml") "cluster-admin";
     manual_step "Check the webhook service logs for rejection details" (resolveContact rb c) "cluster-admin";
     kubectl_step "Test resource creation with dry-run to see webhook response"
       "kubectl apply --dry-run=server -f <your-manifest.yaml>" "developer";
     link_step "Review admission webhook documentation"
       "https://kubernetes.io/docs/reference/access-authn-authz/extensible-admission-controllers/" "developer"].

Definition getMissingResourceTemplate (kind : string) : string :=
  switch kind
    [("ServiceMonitor", "apiVersion: monitoring.coreos.com/v1
kind: ServiceMonitor
metadata:
  name: {workload_name}
  namespace: {namespace}
spec:
  selector:
    matchLabels:
      app: {workload_name}
  endpoints:
  - port: metrics
    interval: 30s"%string);
     ("VirtualService", "apiVersion: networking.istio.io/v1beta1
kind: VirtualService
metadata:
  name: {workload_name}
  namespace: {namespace}
spec:
  hosts:
  - {workload_name}
  http:
  - route:
    - destination:
        host: {workload_name}
        port:
          number: 80"%string);
     ("DestinationRule", "apiVersion: networking.istio.io/v1beta1
kind: DestinationRule
metadata:
  name: {workload_name}
  namespace: {namespace}
spec:
  host: {workload_name}
  trafficPolicy:
    tls:
      mode: ISTIO_MUTUAL"%string);
     ("PodDisruptionBudget", "apiVersion: policy/v1
kind: PodDisruptionBudget
metadata:
  name: {workload_name}
  namespace: {namespace}
spec:
  minAvailable: 1
  selector:
    matchLabels:
      app: {workload_name}"%string);
     ("HorizontalPodAutoscaler", "apiVersion: autoscaling/v2
kind: HorizontalPodAutoscaler
metadata:
  name: {workload_name}
  namespace: {namespace}
spec:
  scaleTargetRef:
    apiVersion: apps/v1
    kind: Deployment
    name: {workload_name}
  minReplicas: 2
  maxReplicas: 10
  metrics:
  - type: Resource
    resource:
      name: cpu
      target:
        type: Utilization
        averageUtilization: 80"%string)]%string
    EmptyString.

Definition buildMissingResourceRemediation (rb : RemediationBuilder) (c : Constraint) : RemediationInfo :=
  let expectedKind := default EmptyString (map_string (c_Details c) "expectedKind") in
  let template := getMissingResourceTemplate expectedKind in
  mkRemediationInfo (generateSummary rb c)
    ((if (expectedKind != EmptyString) && (c_Namespace c != EmptyString)
      then [kubectl_step ("Check if " +:+ expectedKind +:+ " resources exist in your namespace")
              ("kubectl get " +:+ strings_ToLower expectedKind +:+ " -n " +:+ c_Namespace c) "developer"]
      else []) ++
     (if template != EmptyString
      then [yaml_step ("Create the missing " +:+ expectedKind +:+ " resource") template "developer"] else []) ++
     [manual_step "Contact your platform team for guidance on creating this resource" (resolveContact rb c) "developer"]).

Definition buildGenericRemediation (rb : RemediationBuilder) (c : Constraint) : RemediationInfo :=
  let res := g_Resource (c_Source c) in
  mkRemediationInfo (generateSummary rb c)
    [if c_Namespace c != EmptyString
     then kubectl_step "Inspect the constraint source object"
            ("kubectl get " +:+ res +:+ " " +:+ c_Name c +:+ " -n " +:+ c_Namespace c +:+ " -o yaml") "developer"
     else kubectl_step "Inspect the constraint source object"
            ("kubectl get " +:+ res +:+ " " +:+ c_Name c +:+ " -o yaml") "cluster-admin";
     manual_step "Contact your platform team for assistance with this constraint" (resolveContact rb c) "developer"].

Definition Build (rb : RemediationBuilder) (c : Constraint) : RemediationInfo :=
  match c_Remediation c with
  | _ :: _ => convertSteps rb c
  | [] =>
      if isNetworkPolicySource c then buildNetworkPolicyRemediation rb c
      else if isResourceQuotaSource c then buildResourceQuotaRemediation rb c
      else if isWebhookSource c then buildWebhookRemediation rb c
      else if c_ConstraintType c == ConstraintTypeMissing then buildMissingResourceRemediation rb c
      else buildGenericRemediation rb c
  end.

(** ** Theorems *)

Lemma NewRemediationBuilder_contact dc : DefaultContact (NewRemediationBuilder dc) ≠ EmptyString.
Proof. unfold NewRemediationBuilder. simpl. by case_bool_decide. Qed.

Lemma strings_Contains_empty sub : sub ≠ EmptyString → strings_Contains EmptyString sub = false.
Proof. by destruct sub. Qed.

Lemma resolveContact_nonempty rb c : DefaultContact rb ≠ EmptyString → resolveContact rb c ≠ EmptyString.
Proof.
  intros Hd. unfold resolveContact.
  assert ((if strings_Contains (c_RemediationHint c) "@" || strings_Contains (c_RemediationHint c) "#"
           then c_RemediationHint c else DefaultContact rb) ≠ EmptyString) as Hf.
  { destruct (c_RemediationHint c) as [|a s]; [done|]. by case_match. }
  destruct (map_string _ _); [|done]. by case_bool_decide.
Qed.

#[export] Hint Resolve NewRemediationBuilder_contact resolveContact_nonempty : nightjar.

(** What a generated step promises its reader: a command, a contact, a
    template or a link to act on, and the privilege it needs. *)
Definition actionable (s : RemediationStep) : Prop :=
  (rs_Type s = "kubectl"%string ∧ strings_HasPrefix (rs_Command s) "kubectl " = true ∨
   rs_Type s = "manual"%string ∧ rs_Contact s ≠ EmptyString ∨
   rs_Type s = "link"%string ∧ rs_URL s ≠ EmptyString ∨
   rs_Type s = "yaml_patch"%string ∧ rs_Template s ≠ EmptyString) ∧
  rs_RequiresPrivilege s ∈ ["developer"; "namespace-admin"; "cluster-admin"]%string.

#[local] Arguments String.append !_ _ /.

Lemma privilege_known p :
  p = "developer"%string ∨ p = "namespace-admin"%string ∨ p = "cluster-admin"%string →
  p ∈ ["developer"; "namespace-admin"; "cluster-admin"]%string.
Proof. set_solver. Qed.

Lemma actionable_kubectl d cmd p :
  p ∈ ["developer"; "namespace-admin"; "cluster-admin"]%string → actionable (kubectl_step d ("kubectl " +:+ cmd) p).
Proof. intros Hp. split; [left; split; [done|]|done]. apply prefix_append. Qed.

Lemma actionable_manual d contact p :
  p ∈ ["developer"; "namespace-admin"; "cluster-admin"]%string → contact ≠ EmptyString → actionable (manual_step d contact p).
Proof. intros Hp Hc. split; [right; left; by split|done]. Qed.

Lemma actionable_link d url p :
  p ∈ ["developer"; "namespace-admin"; "cluster-admin"]%string → url ≠ EmptyString → actionable (link_step d url p).
Proof. intros Hp Hc. split; [right; right; left; by split|done]. Qed.

Lemma actionable_yaml d t p :
  p ∈ ["developer"; "namespace-admin"; "cluster-admin"]%string → t ≠ EmptyString → actionable (yaml_step d t p).
Proof. intros Hp Hc. split; [right; right; right; by split|done]. Qed.

(** Each element of a list of generated steps, by its kind. *)
Ltac generated_steps :=
  repeat match goal with
  | |- Forall _ (_ ++ _) => apply Forall_app; split
  | |- Forall _ (_ :: _) => constructor
  | |- Forall _ [] => constructor
  | |- Forall _ (namespaced_steps _ _) => unfold namespaced_steps
  | |- Forall _ (if ?b then _ else _) => destruct b eqn:?
  | |- actionable (if ?b then _ else _) => destruct b eqn:?
  | |- actionable (kubectl_step _ _ _) => apply actionable_kubectl; set_solver
  | |- actionable (manual_step _ _ _) => apply actionable_manual; [set_solver|auto with nightjar]
  | |- actionable (link_step _ _ _) => apply actionable_link; [set_solver|done]
  | |- actionable (yaml_step _ _ _) => apply actionable_yaml; [set_solver|]
  end.

Lemma Build_steps_nonempty rb c : ri_Steps (Build rb c) ≠ [].
Proof.
  intros E%(f_equal length). revert E. unfold Build. destruct (c_Remediation c) eqn:Hr; [|simpl; by rewrite Hr].
  repeat case_match; simpl; rewrite ?length_app; simpl; lia.
Qed.

Lemma Build_generated_actionable rb c :
  DefaultContact rb ≠ EmptyString → c_Remediation c = [] → Forall actionable (ri_Steps (Build rb c)).
Proof.
  intros Hd Hr. unfold Build. rewrite Hr.
  destruct (isNetworkPolicySource c); [simpl; generated_steps|].
  destruct (isResourceQuotaSource c); [simpl; generated_steps|].
  destruct (isWebhookSource c); [simpl; generated_steps|].
  case_bool_decide; simpl; generated_steps. go_bool. done.
Qed.

(** The enumerations of the CRD schema (the kubebuilder markers of
    api/v1alpha1/types.go) on a step: its type, and its privilege, which is
    left out of the object when it is empty. *)
Definition enum (values : list string) (s : string) : bool := bool_decide (s ∈ values).
Definition schema_step (s : RemediationStep) : bool :=
  enum ["manual"; "kubectl"; "annotation"; "yaml_patch"; "link"]%string (rs_Type s) &&
  ((rs_RequiresPrivilege s == EmptyString) ||
   enum ["developer"; "namespace-admin"; "cluster-admin"]%string (rs_RequiresPrivilege s)).

(** The generated steps satisfy the schema, and so do the adapter's when it keeps to it. *)
Lemma Build_schema rb c :
  Forall (fun s => schema_step s = true) (c_Remediation c) → Forall (fun s => schema_step s = true) (ri_Steps (Build rb c)).
Proof.
  intros Hc. unfold Build. destruct (c_Remediation c) eqn:Hr; [|simpl; by rewrite Hr].
  destruct (isNetworkPolicySource c); [|destruct (isResourceQuotaSource c); [|destruct (isWebhookSource c); [|case_bool_decide]]];
    simpl; generated_steps; try (vm_compute; reflexivity); case_bool_decide; vm_compute; reflexivity.
Qed.

(** Remediation is never empty, and every generated step can be acted on:
    it carries a kubectl command, a contact, a link or a template, and one of
    the three documented privileges. *)
Theorem Build_actionable dc c :
  let info := Build (NewRemediationBuilder dc) c in
  ri_Steps info ≠ [] ∧ (c_Remediation c = [] → Forall actionable (ri_Steps info)).
Proof.
  split; [apply Build_steps_nonempty|]. apply Build_generated_actionable, NewRemediationBuilder_contact.
Qed.

Lemma Build_actionable_witness :
  let c := example_constraint "u" (mkGVR EmptyString "v1" "limitranges") "lr" EmptyString [] ConstraintTypeResourceLimit SeverityInfo in
  Forall actionable (ri_Steps (Build (NewRemediationBuilder EmptyString) c)).
Proof. apply (proj2 (Build_actionable EmptyString _)). reflexivity. Defined.
