(* ===== verification/EventBuilder.v ===== *)
(** * Kubernetes Events with structured annotations (internal/notifier/event_builder.go)

    The event's metadata, its annotations (internal/annotations/keys.go) and
    the privacy scoping of what they reveal.  The structured-data annotation is
    the value of [EventStructuredData] that [json.Marshal] serializes, kept as
    a value. *)

From S2P Require Import Prelude GoStd Types Remediation.
From Stdlib Require Import Ascii SpecFloat.

Open Scope go_scope.

(** ** internal/annotations/keys.go *)

Definition ManagedBy : string := "nightjar.io/managed-by".
Definition EventConstraintType : string := "nightjar.io/constraint-type".
Definition EventConstraintName : string := "nightjar.io/constraint-name".
Definition EventConstraintNamespace : string := "nightjar.io/constraint-namespace".
Definition EventSourceGVR : string := "nightjar.io/source-gvr".
Definition EventSeverity : string := "nightjar.io/severity".
Definition EventEffect : string := "nightjar.io/effect".
Definition EventDetailLevel : string := "nightjar.io/detail-level".
Definition EventRemediationType : string := "nightjar.io/remediation-type".
Definition EventRemediationContact : string := "nightjar.io/remediation-contact".
Definition LabelManagedBy : string := "nightjar.io/managed-by".
Definition LabelSeverity : string := "nightjar.io/severity".
Definition LabelConstraintType : string := "nightjar.io/constraint-type".
Definition ManagedByValue : string := "nightjar".

(** ** Data *)

Record MetricDataPoint := mkMetric {
  m_Hard : string;
  m_Used : string;
  m_Unit : string;
  m_PercentUsed : float64;
}.

Record EventStructuredData := mkStructuredData {
  sd_SchemaVersion : string;
  sd_ConstraintUID : string;
  sd_ConstraintName : string;
  sd_ConstraintNamespace : string;
  sd_ConstraintType : string;
  sd_Severity : string;
  sd_Effect : string;
  sd_SourceGVR : string;
  sd_SourceKind : string;
  sd_SourceName : string;
  sd_SourceNamespace : string;
  sd_WorkloadKind : string;
  sd_WorkloadName : string;
  sd_WorkloadNamespace : string;
  sd_Summary : string;
  sd_Remediation : RemediationInfo;
  sd_Metrics : option (gmap string MetricDataPoint);
  sd_Tags : list string;
  sd_DetailLevel : string;
  sd_ObservedAt : Time;
}.

Record WorkloadRef := mkWorkload {
  wl_APIVersion : string;
  wl_Kind : string;
  wl_Name : string;
  wl_Namespace : string;
  wl_UID : string;
}.

(** The corev1.Event the builder fills in. *)
Record BuiltEvent := mkBuiltEvent {
  be_Namespace : string;
  be_Labels : gmap string string;
  be_Annotations : gmap string string;
  be_StructuredData : EventStructuredData;
  be_InvolvedObject : WorkloadRef;
  be_Reason : string;
  be_Message : string;
  be_Type : string;
  be_Timestamp : Time;
}.

(** ** Formatting *)

Definition formatGVR (gvr : GroupVersionResource) : string :=
  if g_Group gvr == EmptyString then "core/" +:+ g_Version gvr +:+ "/" +:+ g_Resource gvr
  else g_Group gvr +:+ "/" +:+ g_Version gvr +:+ "/" +:+ g_Resource gvr.

Definition capitalize (s : string) : string :=
  match s with String c s' => String (byte_upper c) s' | EmptyString => EmptyString end.

Definition gvrToKind (gvr : GroupVersionResource) : string :=
  let resource := g_Resource gvr in
  let singular :=
    if strings_HasSuffix resource "ies" then strings_TrimSuffix resource "ies" +:+ "y"
    else if strings_HasSuffix resource "s" then strings_TrimSuffix resource "s"
    else resource in
  capitalize singular.

Definition is_upper (c : ascii) : bool := let n := nat_of_ascii c in ((65 <=? n) && (n <=? 90))%nat.

(** The runes after the first. *)
Fixpoint kebab_tail (s : string) : string :=
  match s with
  | EmptyString => EmptyString
  | String c s' => if is_upper c then String "-"%char (String c (kebab_tail s')) else String c (kebab_tail s')
  end.

Definition toKebabCase (s : string) : string :=
  strings_ToLower match s with
                  | EmptyString => EmptyString
                  | String c s' => String c (kebab_tail s')
                  end.

Definition genericSummary (ct : ConstraintType) : string :=
  switch ct
    [(ConstraintTypeNetworkIngress, "Inbound network traffic is restricted by a network policy"%string);
     (ConstraintTypeNetworkEgress, "Outbound network traffic is restricted by a network policy"%string);
     (ConstraintTypeAdmission, "An admission policy may reject your resources"%string);
     (ConstraintTypeResourceLimit, "Resource quotas or limits apply to this namespace"%string);
     (ConstraintTypeMeshPolicy, "Service mesh policies affect this workload"%string);
     (ConstraintTypeMissing, "A required companion resource may be missing"%string)]
    "A policy constraint affects this workload"%string.

Definition guessUnit (resourceName : string) : string :=
  if (resourceName == "cpu"%string) || strings_HasSuffix resourceName ".cpu" then "cores"
  else if (resourceName == "memory"%string) || strings_HasSuffix resourceName ".memory" then "bytes"
  else if resourceName == "pods"%string then "count"
  else if resourceName == "services"%string then "count"
  else if strings_Contains resourceName "storage" then "bytes"
  else "count".

Definition eventType (severity : Severity) : string :=
  switch severity [(SeverityCritical, "Warning"%string); (SeverityWarning, "Warning"%string)] "Normal"%string.

(** ** Privacy scoping *)

Definition scopedConstraintName (c : Constraint) (level : DetailLevel) (viewerNamespace : string) : string :=
  if level == DetailLevelSummary then
    if (c_Namespace c == EmptyString) || (c_Namespace c != viewerNamespace) then "redacted"%string else c_Name c
  else c_Name c.

Definition canShowNamespace (c : Constraint) (level : DetailLevel) (viewerNamespace : string) : bool :=
  if level == DetailLevelSummary then c_Namespace c == viewerNamespace
  else if level == DetailLevelDetailed then (c_Namespace c == EmptyString) || (c_Namespace c == viewerNamespace)
  else true.

Definition scopedSummary (c : Constraint) (level : DetailLevel) : string :=
  switch level [(DetailLevelFull, c_Summary c); (DetailLevelDetailed, c_Summary c)] (genericSummary (c_ConstraintType c)).

Definition scope_step (level : DetailLevel) (step : RemediationStep) : RemediationStep :=
  if level == DetailLevelSummary then
    if (rs_Type step == "kubectl"%string) && (rs_RequiresPrivilege step == "cluster-admin"%string)
    then mkStep (rs_Type step) "Contact your platform team for this step" EmptyString (rs_Patch step)
                (rs_Template step) (rs_URL step) (rs_Contact step) (rs_RequiresPrivilege step)
    else step
  else step.

Definition scopeRemediation (r : RemediationInfo) (level : DetailLevel) : RemediationInfo :=
  mkRemediationInfo (ri_Summary r) (scope_step level <$> ri_Steps r).

(** The metric read from one entry of [Details["resources"]]. *)
Definition metric_of (name : string) (info : gmap string GoVal) : MetricDataPoint :=
  mkMetric (default EmptyString (v ← info !! "hard"%string; as_string v))
           (default EmptyString (v ← info !! "used"%string; as_string v))
           (guessUnit name)
           match info !! "percent"%string with
           | Some (VInt z) => float64_of_int z
           | Some (VFloat f) => f
           | _ => float64_zero
           end.

(** [None] is the nil map. *)
Definition extractMetrics (c : Constraint) : option (gmap string MetricDataPoint) :=
  match c_Details c with
  | None => None
  | Some d =>
      match d !! "resources"%string with
      | Some (VMap resources) =>
          Some (map_imap (fun name infoRaw => metric_of name <$> as_map infoRaw) resources : gmap string MetricDataPoint)
      | _ => None
      end
  end.

(** ** The event *)

Definition buildStructuredData (c : Constraint) (level : DetailLevel) (workload : WorkloadRef)
    (remediation : RemediationInfo) (now : Time) : EventStructuredData :=
  let detailed := (level == DetailLevelDetailed) || (level == DetailLevelFull) in
  {| sd_SchemaVersion := "1";
     sd_ConstraintUID := c_UID c;
     sd_ConstraintName := scopedConstraintName c level (wl_Namespace workload);
     sd_ConstraintNamespace := if canShowNamespace c level (wl_Namespace workload) then c_Namespace c else EmptyString;
     sd_ConstraintType := c_ConstraintType c;
     sd_Severity := c_Severity c;
     sd_Effect := c_Effect c;
     sd_SourceGVR := formatGVR (c_Source c);
     sd_SourceKind := gvrToKind (c_Source c);
     sd_SourceName := if detailed then c_Name c else EmptyString;
     sd_SourceNamespace := if detailed then c_Namespace c else EmptyString;
     sd_WorkloadKind := wl_Kind workload;
     sd_WorkloadName := wl_Name workload;
     sd_WorkloadNamespace := wl_Namespace workload;
     sd_Summary := scopedSummary c level;
     sd_Remediation := scopeRemediation remediation level;
     sd_Metrics := if c_ConstraintType c == ConstraintTypeResourceLimit
                   then (if detailed then extractMetrics c else None) else None;
     sd_Tags := c_Tags c;
     sd_DetailLevel := level;
     sd_ObservedAt := now |}.

Definition buildLabels (c : Constraint) : gmap string string :=
  {[ LabelManagedBy := ManagedByValue;
     LabelSeverity := strings_ToLower (c_Severity c);
     LabelConstraintType := toKebabCase (c_ConstraintType c) ]}.

(** The annotations apart from the structured data. *)
Definition buildAnnotations (rb : RemediationBuilder) (c : Constraint) (level : DetailLevel) (workload : WorkloadRef)
    : gmap string string :=
  let annots := {[ ManagedBy := ManagedByValue; EventConstraintType := c_ConstraintType c;
                   EventSeverity := c_Severity c; EventEffect := c_Effect c; EventDetailLevel := level;
                   EventConstraintName := scopedConstraintName c level (wl_Namespace workload) ]} in
  let annots := if (c_Namespace c != EmptyString) && canShowNamespace c level (wl_Namespace workload)
                then <[EventConstraintNamespace := c_Namespace c]> annots else annots in
  let annots := <[EventSourceGVR := formatGVR (c_Source c)]> annots in
  match ri_Steps (Build rb c) with
  | step :: _ =>
      let annots := <[EventRemediationType := rs_Type step]> annots in
      if rs_Contact step != EmptyString then <[EventRemediationContact := rs_Contact step]> annots else annots
  | [] => annots
  end.

Definition BuildEvent (rb : RemediationBuilder) (c : Constraint) (level : DetailLevel) (workload : WorkloadRef)
    (message : string) (now : Time) : BuiltEvent :=
  {| be_Namespace := wl_Namespace workload;
     be_Labels := buildLabels c;
     be_Annotations := buildAnnotations rb c level workload;
     be_StructuredData := buildStructuredData c level workload (Build rb c) now;
     be_InvolvedObject := workload;
     be_Reason := "ConstraintNotification";
     be_Message := message;
     be_Type := eventType (c_Severity c);
     be_Timestamp := now |}.

(** ** What a summary-level event reveals *)

(** The constraint [c] under another name, namespace and summary text. *)
Definition with_identity (name ns summary : string) (c : Constraint) : Constraint :=
  {| c_UID := c_UID c; c_Source := c_Source c; c_Name := name; c_Namespace := ns;
     c_AffectedNamespaces := c_AffectedNamespaces c; c_NamespaceSelector := c_NamespaceSelector c;
     c_WorkloadSelector := c_WorkloadSelector c; c_ResourceTargets := c_ResourceTargets c;
     c_ConstraintType := c_ConstraintType c; c_Effect := c_Effect c; c_Severity := c_Severity c;
     c_Details := c_Details c; c_Summary := summary; c_RemediationHint := c_RemediationHint c;
     c_Remediation := c_Remediation c; c_Tags := c_Tags c; c_RawObject := c_RawObject c |}.

(** The event without the remediation steps of its structured data. *)
Definition erase_steps (e : BuiltEvent) : BuiltEvent :=
  let sd := be_StructuredData e in
  {| be_Namespace := be_Namespace e; be_Labels := be_Labels e; be_Annotations := be_Annotations e;
     be_StructuredData :=
       {| sd_SchemaVersion := sd_SchemaVersion sd; sd_ConstraintUID := sd_ConstraintUID sd;
          sd_ConstraintName := sd_ConstraintName sd; sd_ConstraintNamespace := sd_ConstraintNamespace sd;
          sd_ConstraintType := sd_ConstraintType sd; sd_Severity := sd_Severity sd; sd_Effect := sd_Effect sd;
          sd_SourceGVR := sd_SourceGVR sd; sd_SourceKind := sd_SourceKind sd; sd_SourceName := sd_SourceName sd;
          sd_SourceNamespace := sd_SourceNamespace sd; sd_WorkloadKind := sd_WorkloadKind sd;
          sd_WorkloadName := sd_WorkloadName sd; sd_WorkloadNamespace := sd_WorkloadNamespace sd;
          sd_Summary := sd_Summary sd; sd_Remediation := mkRemediationInfo (ri_Summary (sd_Remediation sd)) [];
          sd_Metrics := sd_Metrics sd; sd_Tags := sd_Tags sd; sd_DetailLevel := sd_DetailLevel sd;
          sd_ObservedAt := sd_ObservedAt sd |};
     be_InvolvedObject := be_InvolvedObject e; be_Reason := be_Reason e; be_Message := be_Message e;
     be_Type := be_Type e; be_Timestamp := be_Timestamp e |}.

(** The kind of remediation and its contact do not depend on which other
    namespace the constraint is in. *)
Lemma Build_head_identity rb c n1 ns1 s1 n2 ns2 s2 :
  ns1 ≠ EmptyString → ns2 ≠ EmptyString →
  let heads c := (fun st => (rs_Type st, rs_Contact st)) <$> head (ri_Steps (Build rb c)) in
  heads (with_identity n1 ns1 s1 c) = heads (with_identity n2 ns2 s2 c) ∧
  ri_Summary (Build rb (with_identity n1 ns1 s1 c)) = ri_Summary (Build rb (with_identity n2 ns2 s2 c)).
Proof.
  intros H1 H2. unfold Build. simpl. destruct (c_Remediation c) eqn:Hr; [|done].
  change (isNetworkPolicySource (with_identity _ _ _ c)) with (isNetworkPolicySource c).
  change (isResourceQuotaSource (with_identity _ _ _ c)) with (isResourceQuotaSource c).
  change (isWebhookSource (with_identity _ _ _ c)) with (isWebhookSource c).
  unfold buildNetworkPolicyRemediation, buildResourceQuotaRemediation, buildMissingResourceRemediation,
    buildGenericRemediation, namespaced_steps.
  cbn [c_Namespace c_Name c_Details c_Source with_identity].
  generalize (getMissingResourceTemplate (default EmptyString (map_string (c_Details c) "expectedKind"))) as tm. intros tm.
  rewrite !(bool_decide_eq_false_2 (ns1 = EmptyString)), !(bool_decide_eq_false_2 (ns2 = EmptyString)) by done.
  destruct (isNetworkPolicySource c); [done|]. destruct (isResourceQuotaSource c); [done|].
  destruct (isWebhookSource c); [done|]. destruct (c_ConstraintType c == ConstraintTypeMissing); [|done].
  destruct (_ == EmptyString), (tm == EmptyString); done.
Qed.

Lemma annotations_of_head rb c level wl :
  buildAnnotations rb c level wl =
  let annots := {[ ManagedBy := ManagedByValue; EventConstraintType := c_ConstraintType c;
                   EventSeverity := c_Severity c; EventEffect := c_Effect c; EventDetailLevel := level;
                   EventConstraintName := scopedConstraintName c level (wl_Namespace wl) ]} in
  let annots := if (c_Namespace c != EmptyString) && canShowNamespace c level (wl_Namespace wl)
                then <[EventConstraintNamespace := c_Namespace c]> annots else annots in
  let annots := <[EventSourceGVR := formatGVR (c_Source c)]> annots in
  match (fun st => (rs_Type st, rs_Contact st)) <$> head (ri_Steps (Build rb c)) with
  | Some (ty, contact) =>
      let annots := <[EventRemediationType := ty]> annots in
      if contact != EmptyString then <[EventRemediationContact := contact]> annots else annots
  | None => annots
  end.
Proof. unfold buildAnnotations. by destruct (ri_Steps (Build rb c)). Qed.

(** Apart from the remediation steps, a summary-level event is the same for
    any two cross-namespace constraints that differ in name, namespace and
    summary text. *)
Lemma summary_event_identity rb c wl msg now n1 ns1 s1 n2 ns2 s2 :
  ns1 ≠ EmptyString → ns2 ≠ EmptyString → ns1 ≠ wl_Namespace wl → ns2 ≠ wl_Namespace wl →
  erase_steps (BuildEvent rb (with_identity n1 ns1 s1 c) DetailLevelSummary wl msg now) =
  erase_steps (BuildEvent rb (with_identity n2 ns2 s2 c) DetailLevelSummary wl msg now).
Proof.
  intros He1 He2 Hw1 Hw2.
  destruct (Build_head_identity rb c n1 ns1 s1 n2 ns2 s2 He1 He2) as [Hh Hs].
  unfold erase_steps, BuildEvent, buildStructuredData. cbn -[Build buildAnnotations genericSummary extractMetrics].
  rewrite !annotations_of_head, Hh, Hs. unfold scopedConstraintName, canShowNamespace.
  cbn [c_Namespace c_ConstraintType c_Severity c_Effect c_Source with_identity].
  rewrite !(bool_decide_eq_false_2 (ns1 = _)), !(bool_decide_eq_false_2 (ns2 = _)) by done. done.
Qed.

(** At summary level no cluster-admin command is shown: such steps keep
    their place but lose their command, all other steps are unchanged, and no
    step is dropped. *)
Theorem scopeRemediation_redacts r :
  let r' := scopeRemediation r DetailLevelSummary in
  length (ri_Steps r') = length (ri_Steps r) ∧
  (∀ s, s ∈ ri_Steps r' → rs_Type s = "kubectl"%string → rs_RequiresPrivilege s = "cluster-admin"%string →
        rs_Command s = EmptyString) ∧
  (∀ i s, ri_Steps r !! i = Some s →
        (rs_Type s ≠ "kubectl"%string ∨ rs_RequiresPrivilege s ≠ "cluster-admin"%string) → ri_Steps r' !! i = Some s).
Proof.
  simpl. rewrite length_fmap. split_and!; [done| |].
  - intros s. rewrite list_elem_of_fmap. intros (s0 & -> & _). unfold scope_step. simpl.
    case_bool_decide; simpl; [case_bool_decide; simpl|]; naive_solver.
  - intros i s Hi Hs. rewrite list_lookup_fmap, Hi. simpl. f_equal. unfold scope_step. simpl.
    case_bool_decide; simpl; [case_bool_decide; simpl|]; naive_solver.
Qed.

#[local] Arguments String.append !_ _ /.

(** A command of the form [a ++ name ++ b ++ ns ++ d] shows both. *)
Lemma command_shows a name b ns d :
  strings_Contains (a +:+ name +:+ b +:+ ns +:+ d) name = true ∧
  strings_Contains (a +:+ name +:+ b +:+ ns +:+ d) ns = true.
Proof.
  split; [apply strings_Contains_infix|].
  replace (a +:+ name +:+ b +:+ ns +:+ d) with ((a +:+ name +:+ b) +:+ (ns +:+ d)).
  2:{ by rewrite !string_append_assoc. }
  apply strings_Contains_infix.
Qed.

(** The remediation steps do reveal them: for every network-policy
    constraint of another namespace, the summary-level event carries a kubectl
    command for developers that contains the policy's name and its namespace. *)
Theorem summary_event_leaks_policy rb c wl msg now :
  isNetworkPolicySource c = true → c_Remediation c = [] → c_Namespace c ≠ EmptyString →
  ∃ step, step ∈ ri_Steps (sd_Remediation (be_StructuredData (BuildEvent rb c DetailLevelSummary wl msg now))) ∧
    rs_RequiresPrivilege step = "developer"%string ∧
    strings_Contains (rs_Command step) (c_Name c) = true ∧ strings_Contains (rs_Command step) (c_Namespace c) = true.
Proof.
  intros Hsrc Hr Hns. cbn [be_StructuredData sd_Remediation BuildEvent buildStructuredData].
  unfold Build. rewrite Hr, Hsrc. unfold buildNetworkPolicyRemediation, namespaced_steps.
  rewrite (bool_decide_eq_false_2 (c_Namespace c = _)) by done.
  eexists. split; [left|]. split; [done|].
  exact (command_shows "kubectl get networkpolicy " (c_Name c) " -n " (c_Namespace c) " -o yaml").
Qed.

(** ** Evaluation *)

Definition example_policy : Constraint :=
  example_constraint "u1" networkpolicies_gvr "deny-all" "prod" [] ConstraintTypeNetworkIngress SeverityCritical.
Definition example_workload : WorkloadRef := mkWorkload "apps/v1" "Deployment" "web" "dev" EmptyString.
Definition example_builder : RemediationBuilder := NewRemediationBuilder EmptyString.

Definition example_hook : Constraint :=
  example_constraint "u8" (mkGVR "admissionregistration.k8s.io" "v1" "validatingwebhookconfigurations") "guard-hook" EmptyString []
    ConstraintTypeAdmission SeverityWarning.

Lemma scopeRemediation_redacts_witness :
  ∃ s, s ∈ ri_Steps (scopeRemediation (Build example_builder example_hook) DetailLevelSummary) ∧
       rs_RequiresPrivilege s = "cluster-admin"%string ∧ rs_Command s = EmptyString.
Proof.
  eexists. split; [left|]. split; [reflexivity|].
  apply (proj1 (proj2 (scopeRemediation_redacts (Build example_builder example_hook)))); [left|reflexivity|reflexivity].
Defined.

Lemma summary_event_leaks_policy_witness :
  ∃ step, step ∈ ri_Steps (sd_Remediation (be_StructuredData
            (BuildEvent example_builder example_policy DetailLevelSummary example_workload "m" 0))) ∧
    rs_RequiresPrivilege step = "developer"%string ∧
    strings_Contains (rs_Command step) "deny-all" = true ∧ strings_Contains (rs_Command step) "prod" = true.
Proof. apply (summary_event_leaks_policy example_builder example_policy); [reflexivity|reflexivity|discriminate]. Defined.

Example example_labels : buildLabels example_policy !! LabelConstraintType = Some "network-ingress"%string.
Proof. reflexivity. Qed.
