(* ===== verification/Dispatcher.v ===== *)
(** * The dispatcher (internal/notifier/dispatcher.go)

    Renders a correlated notification and creates a Kubernetes Event for it,
    behind a rate limiter per namespace and the suppression of duplicates.  The
    answer of the API server to [Create] is an argument; an operation returns
    the events it tries to create. *)

From S2P Require Import Prelude GoStd Types Dedupe Channel Correlator Remediation EventBuilder.
From Stdlib Require Import SpecFloat.

Open Scope go_scope.

Record DispatcherOptions := mkDispatcherOptions {
  SuppressDuplicateMinutes : Z;
  RateLimitPerMinute : Z;
  RemediationContact : string;
}.

Definition DefaultDispatcherOptions : DispatcherOptions := mkDispatcherOptions 60 100 "your platform team".

(** The struct [dedupeKey]: constraintUID, workloadUID. *)
Abbreviation dedupeKey := (string * string)%type (only parsing).

Section dispatcher.
Context `{RL : RateLimiter}.

(** ** The rate limiter per namespace *)

Record nsRateLimiter := mkNsLimiter {
  limiters : gmap string Limiter;
  lastAccess : gmap string Time;
  nl_rate : float64;
  nl_burst : Z;
}.

Definition newNsRateLimiter (perMinute : Z) : nsRateLimiter :=
  mkNsLimiter ∅ ∅ (float64_div (float64_of_int perMinute) (float64_of_int 60)) (Z.max 1 (perMinute ÷ 10)).

(** [now] is read for [lastAccess], [now'] by [limiter.Allow]. *)
Definition Allow (now now' : Time) (ns : string) (n : nsRateLimiter) : bool * nsRateLimiter :=
  let limiter := match limiters n !! ns with Some l => l | None => NewLimiter (nl_rate n) (nl_burst n) end in
  let '(ok, limiter') := Limiter_Allow now' limiter in
  (ok, mkNsLimiter (<[ns := limiter']> (limiters n)) (<[ns := now]> (lastAccess n)) (nl_rate n) (nl_burst n)).

Definition Evict (σ : Shuffle) (now : Time) (maxAge : Duration) (n : nsRateLimiter) : nsRateLimiter :=
  let cutoff := time_Add now (wrap64 (- maxAge)) in
  let '(ls, la) :=
    foldl (fun acc kv => if time_Before kv.2 cutoff then (delete kv.1 acc.1, delete kv.1 acc.2) else acc)
          (limiters n, lastAccess n) (range σ (lastAccess n)) in
  mkNsLimiter ls la (nl_rate n) (nl_burst n).

(** ** The dispatcher *)

Record Dispatcher := mkDispatcher {
  opts : DispatcherOptions;
  nsLimiter : nsRateLimiter;
  eventBuilder : RemediationBuilder;
  dedupeCache : gmap dedupeKey Time;
}.

Definition NewDispatcher (o : DispatcherOptions) : Dispatcher :=
  mkDispatcher o (newNsRateLimiter (RateLimitPerMinute o)) (NewRemediationBuilder (RemediationContact o)) ∅.

Definition set_cache (m : gmap dedupeKey Time) (d : Dispatcher) : Dispatcher :=
  mkDispatcher (opts d) (nsLimiter d) (eventBuilder d) m.
Definition set_nsLimiter (n : nsRateLimiter) (d : Dispatcher) : Dispatcher :=
  mkDispatcher (opts d) n (eventBuilder d) (dedupeCache d).

(** [time.Duration(d.opts.SuppressDuplicateMinutes) * time.Minute] *)
Definition suppress_window (d : Dispatcher) : Duration := wrap64 (SuppressDuplicateMinutes (opts d) * time_Minute).

Definition tryMarkSeen (t t' : Time) (key : dedupeKey) (d : Dispatcher) : bool * Dispatcher :=
  match dedupeCache d !! key with
  | Some seenAt =>
      let window := suppress_window d in
      if (time_Since t seenAt <? window)%Z then (false, d)
      else (true, set_cache (<[key := t']> (dedupeCache d)) d)
  | None => (true, set_cache (<[key := t']> (dedupeCache d)) d)
  end.

(** The part of a cleanup tick under the dispatcher's mutex. *)
Definition clean_cache (σ : Shuffle) (now : Time) (d : Dispatcher) : Dispatcher :=
  let window := suppress_window d in
  let cutoff := time_Add now (wrap64 (- window)) in
  set_cache (sweep σ (fun seenAt => time_Before seenAt cutoff) (dedupeCache d)) d.

(** One tick of [cleanupDedupeCache]. *)
Definition cleanupDedupeCache (σ σ' : Shuffle) (now now' : Time) (d : Dispatcher) : Dispatcher :=
  let d' := clean_cache σ now d in
  set_nsLimiter (Evict σ' now' time_Hour (nsLimiter d')) d'.

(** ** Messages *)

Definition genericEffect (ct : ConstraintType) : string :=
  switch ct
    [(ConstraintTypeNetworkIngress, "Inbound network traffic is restricted"%string);
     (ConstraintTypeNetworkEgress, "Outbound network traffic is restricted"%string);
     (ConstraintTypeAdmission, "A validation policy may reject your resources"%string);
     (ConstraintTypeResourceLimit, "Resource quotas or limits apply"%string);
     (ConstraintTypeMeshPolicy, "Service mesh policies apply"%string);
     (ConstraintTypeMissing, "A required companion resource may be missing"%string)]
    "A policy constraint applies"%string.

Definition renderSummary (d : Dispatcher) (c : Constraint) : string :=
  "⚠️ " +:+ c_ConstraintType c +:+ " constraint is affecting your workload. " +:+ genericEffect (c_ConstraintType c) +:+
  ". Contact " +:+ RemediationContact (opts d) +:+ " for assistance.".

Definition renderDetailed (d : Dispatcher) (c : Constraint) : string :=
  let effect := if c_Summary c == EmptyString then genericEffect (c_ConstraintType c) else c_Summary c in
  let hint := if c_RemediationHint c == EmptyString
              then "Contact " +:+ RemediationContact (opts d) +:+ " for assistance." else c_RemediationHint c in
  "⚠️ " +:+ c_ConstraintType c +:+ " constraint " +:+ fmt_q (c_Name c) +:+ ": " +:+ effect +:+ ". " +:+ hint.

Definition renderFull (c : Constraint) : string :=
  let s := c_Source c in
  let source := if g_Group s == EmptyString then "core/" +:+ g_Version s +:+ "/" +:+ g_Resource s
                else g_Group s +:+ "/" +:+ g_Version s +:+ "/" +:+ g_Resource s in
  let location := if c_Namespace c != EmptyString then c_Namespace c +:+ "/" +:+ c_Name c else c_Name c in
  "⚠️ [" +:+ source +:+ "] " +:+ c_ConstraintType c +:+ " " +:+ fmt_q location +:+ ": " +:+ c_Summary c +:+ ". " +:+
  c_RemediationHint c.

Definition RenderMessage (d : Dispatcher) (c : Constraint) (level : DetailLevel) : string :=
  switch level [(DetailLevelFull, renderFull c); (DetailLevelDetailed, renderDetailed d c)] (renderSummary d c).

(** ** Dispatch *)

(** The instants a call reads, and the API server's answer to [Create]. *)
Record Call := mkCall {
  ca_access : Time;                (**r [time.Now()] of the namespace limiter *)
  ca_allow : Time;                 (**r the instant [limiter.Allow()] reads *)
  ca_since : Time;                 (**r [time.Since] of [tryMarkSeen] *)
  ca_mark : Time;                  (**r [time.Now()] of [tryMarkSeen] *)
  ca_built : Time;                 (**r the timestamps of the event *)
  ca_create : option error;        (**r the error of [Create] *)
}.

(** What a call does: the events it passes to [Create], and its error. *)
Definition result : Type := Dispatcher * list BuiltEvent * option error.

Definition createEvent (call : Call) (d : Dispatcher) (n : CorrelatedNotification) (message : string)
    : list BuiltEvent * option error :=
  let workload := mkWorkload EmptyString (n_WorkloadKind n) (n_WorkloadName n) (n_Namespace n) EmptyString in
  ([BuildEvent (eventBuilder d) (n_Constraint n) DetailLevelSummary workload message (ca_built call)], ca_create call).

Definition Dispatch (call : Call) (n : CorrelatedNotification) (d : Dispatcher) : result :=
  let ns := n_Namespace n in
  let '(ok, nl) := Allow (ca_access call) (ca_allow call) ns (nsLimiter d) in
  let d1 := set_nsLimiter nl d in
  if negb ok then (d1, [], None)
  else
    let key := (c_UID (n_Constraint n), ns +:+ "/" +:+ n_WorkloadName n) in
    let '(fresh, d2) := tryMarkSeen (ca_since call) (ca_mark call) key d1 in
    if negb fresh then (d2, [], None)
    else
      let message := RenderMessage d2 (n_Constraint n) DetailLevelSummary in
      let '(events, err) := createEvent call d2 n message in
      (d2, events, err).

Definition DispatchDirect (call : Call) (c : Constraint) (ns workloadName workloadKind : string) (level : DetailLevel)
    (d : Dispatcher) : result :=
  let '(ok, nl) := Allow (ca_access call) (ca_allow call) ns (nsLimiter d) in
  let d1 := set_nsLimiter nl d in
  if negb ok then (d1, [], None)
  else
    let key := (c_UID c, ns +:+ "/" +:+ workloadName) in
    let '(fresh, d2) := tryMarkSeen (ca_since call) (ca_mark call) key d1 in
    if negb fresh then (d2, [], None)
    else
      let message := RenderMessage d2 c level in
      let workload := mkWorkload EmptyString workloadKind workloadName ns EmptyString in
      (d2, [BuildEvent (eventBuilder d2) c level workload message (ca_built call)], ca_create call).

(** ** Duplicate suppression *)

#[export] Instance dispatcher_dedupe : Dedupe Dispatcher dedupeKey := {
  d_window := suppress_window;
  d_cache := dedupeCache;
  d_mark := tryMarkSeen;
  d_clean := clean_cache;
}.

#[export] Instance dispatcher_dedupe_laws : DedupeLaws Dispatcher dedupeKey.
Proof.
  split; simpl; [intros; apply wrap64_bounds| |done| |done].
  - intros t t' k d. unfold tryMarkSeen. by repeat case_match.
  - intros t t' k d. unfold tryMarkSeen, try_mark. by repeat case_match.
Qed.

(** C15: for every configured window, over every interleaving of dispatches and
    cleanup ticks, a constraint-workload pair is admitted exactly when it has
    no admission within the window, and two admissions are at least the window
    apart. *)
Theorem dispatcher_dedupe_refines o now ops key :
  clock_monotone now ops →
  let window := suppress_window (NewDispatcher o) in
  dedupe_run (NewDispatcher o) ops = spec_run window [] ops ∧
  spaced window (admissions key (dedupe_run (NewDispatcher o) ops)).
Proof.
  intros Hm window. split.
  - exact (dedupe_run_spec (K:=string * string) (NewDispatcher o) now ops eq_refl Hm).
  - exact (dedupe_run_spaced (K:=string * string) (NewDispatcher o) now ops key eq_refl Hm).
Qed.

(** ** The rate limiter *)

(** Both maps of the limiter have the same namespaces. *)
Definition limiter_ok (n : nsRateLimiter) : Prop := dom (limiters n) = dom (lastAccess n).

Lemma evict_loop cutoff (l : list (string * Time)) (ls : gmap string Limiter) (la : gmap string Time) :
  let r := foldl (fun acc kv => if time_Before kv.2 cutoff then (delete kv.1 acc.1, delete kv.1 acc.2) else acc) (ls, la) l in
  (∀ ns, r.1 !! ns = if bool_decide (Exists (fun kv => kv.1 = ns ∧ time_Before kv.2 cutoff = true) l) then None else ls !! ns) ∧
  (∀ ns, r.2 !! ns = if bool_decide (Exists (fun kv => kv.1 = ns ∧ time_Before kv.2 cutoff = true) l) then None else la !! ns).
Proof.
  revert ls la. induction l as [|[k t] l IH]; intros ls la; simpl; [done|].
  destruct (time_Before t cutoff) eqn:Ht;
    [destruct (IH (delete k ls) (delete k la)) as [H1 H2]|destruct (IH ls la) as [H1 H2]];
    (split; intros ns; [rewrite H1|rewrite H2]; clear H1 H2; rewrite ?lookup_delete;
     repeat case_bool_decide; repeat case_decide; rewrite ?Exists_cons in *; simpl in *; naive_solver congruence).
Qed.

(** [Evict] drops exactly the namespaces whose last access is older than
    the cutoff, from both maps, whatever the iteration order; in particular a
    limiter in use keeps its tokens. *)
Theorem Evict_spec σ now maxAge n :
  (int64_min < maxAge ≤ int64_max)%Z → limiter_ok n →
  limiter_ok (Evict σ now maxAge n) ∧
  ∀ ns, match lastAccess n !! ns with
        | Some last => if (last <? now - maxAge)%Z
                       then limiters (Evict σ now maxAge n) !! ns = None ∧ lastAccess (Evict σ now maxAge n) !! ns = None
                       else limiters (Evict σ now maxAge n) !! ns = limiters n !! ns ∧
                            lastAccess (Evict σ now maxAge n) !! ns = Some last
        | None => limiters (Evict σ now maxAge n) !! ns = None ∧ lastAccess (Evict σ now maxAge n) !! ns = None
        end.
Proof.
  intros Hage Hok. unfold Evict. set (cutoff := time_Add now (wrap64 (- maxAge))).
  assert (cutoff = now - maxAge)%Z as Hcut.
  { unfold cutoff, time_Add. rewrite wrap64_id; [lia|]. unfold int64_min, int64_max in *. lia. }
  destruct (evict_loop cutoff (range σ (lastAccess n)) (limiters n) (lastAccess n)) as [H1 H2].
  destruct (foldl _ _ _) as [ls la]. simpl in *.
  assert (∀ ns, Exists (fun kv => kv.1 = ns ∧ time_Before kv.2 cutoff = true) (range σ (lastAccess n)) ↔
                ∃ last, lastAccess n !! ns = Some last ∧ (last < now - maxAge)%Z) as Hex.
  { intros ns. rewrite Exists_exists. split.
    - intros ([k last] & Hin & <- & Hb). apply elem_of_range in Hin. apply Z.ltb_lt in Hb. rewrite Hcut in Hb. eauto.
    - intros (last & Hl & Hlt). exists (ns, last). rewrite elem_of_range. simpl. unfold time_Before.
      rewrite Hcut. by rewrite Z.ltb_lt. }
  assert (∀ ns, limiters n !! ns = None ↔ lastAccess n !! ns = None) as Hdom.
  { intros ns. by rewrite <-!not_elem_of_dom, Hok. }
  split.
  - apply set_eq. intros ns. simpl. rewrite !elem_of_dom. unfold is_Some. rewrite H1, H2.
    case_bool_decide; [naive_solver|]. specialize (Hdom ns).
    destruct (limiters n !! ns), (lastAccess n !! ns); naive_solver.
  - intros ns. simpl. rewrite H1, H2. destruct (lastAccess n !! ns) as [last|] eqn:Hl.
    + destruct (last <? now - maxAge)%Z eqn:Hlt; [apply Z.ltb_lt in Hlt|apply Z.ltb_ge in Hlt];
        case_bool_decide as E; rewrite Hex in E; naive_solver lia.
    + rewrite (proj2 (Hdom ns) Hl). by case_bool_decide.
Qed.

(** ** Dispatch *)

Lemma tryMarkSeen_fields t t' k d :
  opts (tryMarkSeen t t' k d).2 = opts d ∧ eventBuilder (tryMarkSeen t t' k d).2 = eventBuilder d ∧
  nsLimiter (tryMarkSeen t t' k d).2 = nsLimiter d.
Proof. unfold tryMarkSeen. by repeat case_match. Qed.

Lemma dispatcher_mark_absent t t' k d :
  dedupeCache d !! k = None → tryMarkSeen t t' k d = (true, set_cache (<[k := t']> (dedupeCache d)) d).
Proof. unfold tryMarkSeen. by intros ->. Qed.

(** The first notification of a namespace is never lost to the rate
    limiter, whatever the configured rate (zero and negative ones included):
    one event is created in the workload's namespace, on the workload, with
    the summary message. *)
Theorem Dispatch_first `{RLL : !RateLimiterLaws RL} call n o d :
  nsLimiter d = newNsRateLimiter (RateLimitPerMinute o) →
  dedupeCache d !! (c_UID (n_Constraint n), n_Namespace n +:+ "/" +:+ n_WorkloadName n) = None →
  let '(_, events, err) := Dispatch call n d in
  err = ca_create call ∧
  ∃ e, events = [e] ∧ be_Namespace e = n_Namespace n ∧ wl_Name (be_InvolvedObject e) = n_WorkloadName n ∧
       be_Message e = renderSummary d (n_Constraint n).
Proof.
  intros Hnl Hk. unfold Dispatch, Allow. rewrite Hnl. simpl. rewrite lookup_empty.
  pose proof (NewLimiter_allows (float64_div (float64_of_int (RateLimitPerMinute o)) (float64_of_int 60))
                (Z.max 1 (RateLimitPerMinute o ÷ 10)) (ca_allow call) ltac:(lia)) as Hal.
  destruct (Limiter_Allow _ _) as [ok l]. simpl in Hal. subst ok. simpl.
  rewrite dispatcher_mark_absent by done. simpl. split; [done|]. eexists. split_and!; done.
Qed.

(** A failed [Create] still counts as a notification: the error is
    returned, but a retry within the window creates no event at all. *)
Theorem Dispatch_failure_suppresses_retry call call' n d err :
  (Dispatch call n d).2 = Some err →
  (ca_since call' - ca_mark call < suppress_window d)%Z → (ca_mark call ≤ ca_since call')%Z →
  let d' := (Dispatch call n d).1.1 in
  (Dispatch call n d).1.2 ≠ [] ∧ (Dispatch call' n d').1.2 = [] ∧ (Dispatch call' n d').2 = None.
Proof.
  unfold Dispatch at 1. set (key := (c_UID (n_Constraint n), n_Namespace n +:+ "/" +:+ n_WorkloadName n)).
  destruct (Allow _ _ _ (nsLimiter d)) as [ok nl] eqn:HA. destruct ok; simpl; [|done].
  destruct (tryMarkSeen (ca_since call) (ca_mark call) key (set_nsLimiter nl d)) as [fresh d2] eqn:HT.
  destruct fresh; simpl; [|done]. intros Herr Hlt Hle.
  assert (Dispatch call n d = (d2, (createEvent call d2 n (RenderMessage d2 (n_Constraint n) DetailLevelSummary)).1, Some err)) as ->.
  { unfold Dispatch. fold key. rewrite HA. simpl. rewrite HT. simpl. by rewrite Herr. }
  simpl. split; [done|].
  assert (dedupeCache d2 !! key = Some (ca_mark call) ∧ suppress_window d2 = suppress_window d) as [Hc Hw].
  { revert HT. unfold tryMarkSeen. repeat case_match; intros [= <-]; simpl; by rewrite lookup_insert_eq. }
  unfold Dispatch. fold key. destruct (Allow _ _ _ (nsLimiter d2)) as [[] nl']; simpl; [|done].
  unfold tryMarkSeen. simpl. rewrite Hc. rewrite time_Since_window; [|apply wrap64_bounds|done].
  change (suppress_window (set_nsLimiter nl' d2)) with (suppress_window d2).
  rewrite Hw, (proj2 (Z.ltb_lt _ _) Hlt). done.
Qed.

(** The notification [n] with its constraint under another identity. *)
Definition rename_notification (name ns summary : string) (n : CorrelatedNotification) : CorrelatedNotification :=
  mkNotification (n_Event n) (with_identity name ns summary (n_Constraint n)) (n_Namespace n)
                 (n_WorkloadName n) (n_WorkloadKind n).

(** C32: what a developer can see of a cross-namespace constraint through
    [Dispatch] (message, labels, annotations and structured data, apart from the
    remediation steps, whether an event is created at all, and the error) does
    not depend on the constraint's name, namespace or summary text. *)
Theorem Dispatch_noninterference call n d n1 ns1 s1 n2 ns2 s2 :
  ns1 ≠ EmptyString → ns2 ≠ EmptyString → ns1 ≠ n_Namespace n → ns2 ≠ n_Namespace n →
  let r1 := Dispatch call (rename_notification n1 ns1 s1 n) d in
  let r2 := Dispatch call (rename_notification n2 ns2 s2 n) d in
  r1.1.1 = r2.1.1 ∧ erase_steps <$> r1.1.2 = erase_steps <$> r2.1.2 ∧ r1.2 = r2.2.
Proof.
  intros He1 He2 Hw1 Hw2. unfold Dispatch. cbn [n_Namespace n_Constraint n_WorkloadName c_UID rename_notification with_identity].
  destruct (Allow _ _ _ _) as [[] nl]; [|done]. cbn [negb].
  destruct (tryMarkSeen _ _ _ _) as [[] d2]; [|done]. cbn [negb createEvent fst snd].
  split_and!; [done| |done]. cbn [fmap list_fmap]. f_equal. by apply summary_event_identity.
Qed.
End dispatcher.

(** ** Evaluation *)

Definition example_notification : CorrelatedNotification :=
  mkNotification example_event example_policy "dev" "web" "Deployment".
Definition example_dispatcher : Dispatcher := NewDispatcher DefaultDispatcherOptions.
Definition call_at (t : Time) (err : option error) : Call := mkCall t t t t t err.

Lemma dispatcher_dedupe_refines_witness :
  (dedupe_run example_dispatcher [OpMark 0 0 example_key; OpMark 1 1 example_key]).*2 = [true; false] ∧
  spaced (suppress_window example_dispatcher)
    (admissions example_key (dedupe_run example_dispatcher [OpMark 0 0 example_key; OpMark 1 1 example_key])).
Proof.
  split; [vm_compute; reflexivity|].
  apply (dispatcher_dedupe_refines DefaultDispatcherOptions 0). simpl. lia.
Defined.

Definition used_limiter : nsRateLimiter := (Allow 5 5 "dev" (newNsRateLimiter 100)).2.

Lemma Evict_spec_witness :
  limiters (Evict in_order (time_Hour + 6) time_Hour used_limiter) !! "dev"%string = None.
Proof.
  refine (proj1 ((proj2 (Evict_spec in_order (time_Hour + 6) time_Hour used_limiter _ _)) "dev"%string)).
  - vm_compute. split; congruence || reflexivity.
  - vm_compute. reflexivity.
Defined.

Lemma Dispatch_first_witness :
  ∃ e, (Dispatch (call_at 0 None) example_notification (NewDispatcher (mkDispatcherOptions 60 0 "ops"))).1.2 = [e].
Proof.
  pose proof (Dispatch_first (call_at 0 None) example_notification (mkDispatcherOptions 60 0 "ops")
    (NewDispatcher (mkDispatcherOptions 60 0 "ops")) eq_refl eq_refl) as H.
  destruct (Dispatch _ _ _) as [[d events] err]. destruct H as (_ & e & -> & _). by exists e.
Defined.

Lemma Dispatch_failure_suppresses_retry_witness :
  let d' := (Dispatch (call_at 0 (Some "timeout"%string)) example_notification example_dispatcher).1.1 in
  (Dispatch (call_at time_Minute None) example_notification d').1.2 = [].
Proof.
  apply (Dispatch_failure_suppresses_retry (call_at 0 (Some "timeout"%string)) (call_at time_Minute None)
           example_notification example_dispatcher "timeout"); [reflexivity|reflexivity|vm_compute; congruence].
Defined.

Lemma Dispatch_noninterference_witness :
  erase_steps <$> (Dispatch (call_at 0 None) (rename_notification "a" "prod" "x" example_notification) example_dispatcher).1.2 =
  erase_steps <$> (Dispatch (call_at 0 None) (rename_notification "b" "stage" "y" example_notification) example_dispatcher).1.2.
Proof.
  apply (Dispatch_noninterference (call_at 0 None) example_notification example_dispatcher "a" "prod" "x" "b" "stage" "y");
    discriminate.
Defined.
