(* ===== verification/Requirements.v ===== *)
(** * Missing companion resources (internal/requirements)

    The four rules (rule_*.go), the evaluation context on a dynamic client
    (eval_context.go) and the debouncing evaluator (evaluator.go).  A rule is a
    function of the workload and of the cluster's answers; the client's calls
    are arguments ([RequirementEvalContext]). *)

From S2P Require Import Prelude GoStd Types Apimachinery Util Channel.

Open Scope go_scope.
#[local] Open Scope string_scope.

(** ** eval_context.go *)

(** dynamic.Interface: the answers of [Get] and [List]; an empty namespace
    lists the whole cluster. *)
Record DynamicClient := mkDynamicClient {
  dc_Get : GroupVersionResource -> string -> Unstructured + error;
  dc_List : GroupVersionResource -> string -> list Unstructured + error;
}.

Section eval_context.
Context {AM : Apimachinery}.

Definition GetNamespaceObj (client : DynamicClient) (name : string) : Unstructured + error :=
  match dc_Get client (mkGVR EmptyString "v1" "namespaces") name with
  | inl obj => inl obj
  | inr err => inr ("get namespace " +:+ fmt_q name +:+ ": " +:+ err)
  end.

Definition ListByGVR (client : DynamicClient) (gvr : GroupVersionResource) (namespace : string)
    : list Unstructured + error :=
  match dc_List client gvr namespace with
  | inl items => inl items
  | inr err => inr ("list " +:+ g_Resource gvr +:+ " in " +:+ fmt_q namespace +:+ ": " +:+ err)
  end.

Definition selects (labels : gmap string string) (obj : Unstructured) : bool :=
  match SafeNestedLabelSelector (Some (Object obj)) ["spec"; "selector"] with
  | None => false
  | Some selector => MatchesLabelSelector (Some selector) labels
  end.

Definition FindMatchingResources (client : DynamicClient) (gvr : GroupVersionResource) (namespace : string)
    (labels : gmap string string) : list Unstructured + error :=
  match ListByGVR client gvr namespace with
  | inr err => inr err
  | inl all => inl (filter (fun obj => selects labels obj = true) all)
  end.

Definition NewDynamicEvalContext (client : DynamicClient) : RequirementEvalContext :=
  mkEvalContext (GetNamespaceObj client) (ListByGVR client) (FindMatchingResources client).
End eval_context.

(** ** The rules *)

(** The constraint literals of the rules, by the fields that differ. *)
Definition missing_constraint (uid name namespace : string) (sev : Severity) (summary kind apiVersion reason : string)
    (extra : gmap string GoVal) (tags : list string) : Constraint :=
  {| c_UID := uid; c_Source := mkGVR EmptyString EmptyString EmptyString; c_Name := name; c_Namespace := namespace;
     c_AffectedNamespaces := [namespace]; c_NamespaceSelector := None; c_WorkloadSelector := None;
     c_ResourceTargets := []; c_ConstraintType := ConstraintTypeMissing; c_Effect := "missing"; c_Severity := sev;
     c_Details := Some (<["expectedKind" := VStr kind]> (<["expectedAPIVersion" := VStr apiVersion]>
                        (<["reason" := VStr reason]> extra)));
     c_Summary := summary; c_RemediationHint := EmptyString; c_Remediation := []; c_Tags := tags; c_RawObject := None |}.

Section rules.
Context {AM : Apimachinery}.

(** *** rule_istio_mtls.go *)

Definition peerAuthenticationGVR := mkGVR "security.istio.io" "v1" "peerauthentications".

Definition hasMeshWidePA (paList : list Unstructured) : bool :=
  existsb (fun pa =>
    match SafeNestedMap (Some (Object pa)) ["spec"; "selector"] with
    | None => true
    | Some selector =>
        if size selector == 0%nat then true
        else match SafeNestedMap (Some (Object pa)) ["spec"; "selector"; "matchLabels"] with
             | Some matchLabels => size matchLabels == 0%nat
             | None => false
             end
    end) paList.

(** [nsLabels == nil || nsLabels["istio-injection"] != "enabled"], negated. *)
Definition injection_enabled (nsLabels : option (gmap string string)) : bool :=
  match nsLabels with
  | None => false
  | Some m => default EmptyString (m !! "istio-injection") == "enabled"
  end.

Definition istioMTLS_Evaluate (workload : Unstructured) (eval : RequirementEvalContext) : list Constraint + error :=
  let namespace := GetNamespace workload in
  if namespace == EmptyString then inl []
  else match ec_GetNamespace eval namespace with
  | inr err => inr err
  | inl nsObj =>
    if negb (injection_enabled (GetLabels nsObj)) then inl []
    else match ec_ListByGVR eval peerAuthenticationGVR namespace with
    | inr err => inr err
    | inl (_ :: _) => inl []
    | inl [] =>
      let meshWide :=
        if namespace != "istio-system" then
          match ec_ListByGVR eval peerAuthenticationGVR "istio-system" with
          | inl meshPAList => hasMeshWidePA meshPAList
          | inr _ => false
          end
        else false in
      if meshWide then inl []
      else inl [missing_constraint ("missing:istio-mtls:" +:+ namespace +:+ "/" +:+ GetName workload)
                  ("missing-peer-authentication-" +:+ namespace) namespace SeverityWarning
                  "Namespace has Istio injection enabled but no PeerAuthentication policy"
                  "PeerAuthentication" "security.istio.io/v1"
                  "Namespace has istio-injection=enabled label but no mTLS policy; using mesh-wide defaults"
                  ∅ ["istio"; "mtls"; "security"; "missing-resource"]]
    end
  end.

(** *** rule_cert_issuer.go *)

Definition clusterIssuerGVR := mkGVR "cert-manager.io" "v1" "clusterissuers".
Definition issuerGVR := mkGVR "cert-manager.io" "v1" "issuers".

Definition issuerExists (eval : RequirementEvalContext) (gvr : GroupVersionResource) (namespace issuerName : string)
    : bool + error :=
  match ec_ListByGVR eval gvr namespace with
  | inr err => inr err
  | inl l => inl (existsb (fun obj => GetName obj == issuerName) l)
  end.

Definition makeCertConstraint (workloadName namespace issuerKind issuerName : string) : Constraint :=
  let ns := if namespace == EmptyString then "cluster" else namespace in
  missing_constraint
    ("missing:cert-issuer:" +:+ ns +:+ "/" +:+ workloadName +:+ ":" +:+ strings_ToLower issuerKind +:+ "/" +:+ issuerName)
    ("missing-" +:+ strings_ToLower issuerKind +:+ "-" +:+ issuerName) namespace SeverityCritical
    (issuerKind +:+ " " +:+ issuerName +:+ " referenced by workload does not exist")
    issuerKind "cert-manager.io/v1"
    ("Workload annotation references " +:+ issuerKind +:+ " " +:+ issuerName +:+ " which does not exist")
    {[ "issuerName" := VStr issuerName ]} ["cert-manager"; "tls"; "missing-resource"].

(** [v, ok := annotations[k]; ok && v != ""] *)
Definition nonempty_annotation (annotations : gmap string string) (k : string) : option string :=
  match annotations !! k with
  | Some v => if v != EmptyString then Some v else None
  | None => None
  end.

Definition certIssuer_Evaluate (workload : Unstructured) (eval : RequirementEvalContext) : list Constraint + error :=
  match GetAnnotations workload with
  | None => inl []
  | Some annotations =>
    let name := GetName workload in
    let namespace := GetNamespace workload in
    match nonempty_annotation annotations "cert-manager.io/cluster-issuer" with
    | Some clusterIssuerName =>
        match issuerExists eval clusterIssuerGVR EmptyString clusterIssuerName with
        | inr err => inr err
        | inl false => inl [makeCertConstraint name namespace "ClusterIssuer" clusterIssuerName]
        | inl true => inl []
        end
    | None =>
        match nonempty_annotation annotations "cert-manager.io/issuer-name" with
        | Some issuerName =>
            if namespace == EmptyString then inl []
            else match issuerExists eval issuerGVR namespace issuerName with
                 | inr err => inr err
                 | inl false => inl [makeCertConstraint name namespace "Issuer" issuerName]
                 | inl true => inl []
                 end
        | None => inl []
        end
    end
  end.

(** *** rule_prometheus_monitor.go *)

Definition serviceMonitorGVR := mkGVR "monitoring.coreos.com" "v1" "servicemonitors".
Definition podMonitorGVR := mkGVR "monitoring.coreos.com" "v1" "podmonitors".

Definition is_metrics_port (p : GoVal) : bool :=
  match as_map p with
  | None => false
  | Some pMap => let portName := SafeStringFromMap (Some pMap) "name" in
                 (portName == "metrics") || (portName == "http-metrics")
  end.

Definition hasMetricsPort (workload : Unstructured) : bool :=
  let containers :=
    match SafeNestedSlice (Some (Object workload)) ["spec"; "template"; "spec"; "containers"] with
    | Some cs => cs
    | None => default [] (SafeNestedSlice (Some (Object workload)) ["spec"; "containers"])
    end in
  existsb (fun c => match as_map c with
                    | None => false
                    | Some cMap => existsb is_metrics_port (default [] (SafeNestedSlice (Some cMap) ["ports"]))
                    end) containers.

(** A nil map reads as an empty one. *)
Definition podTemplateLabels (workload : Unstructured) : gmap string string :=
  match SafeNestedMap (Some (Object workload)) ["spec"; "template"; "metadata"; "labels"] with
  | None => ∅
  | Some raw => omap as_string raw
  end.

Definition prometheusMonitor_Evaluate (workload : Unstructured) (eval : RequirementEvalContext) : list Constraint + error :=
  if negb (hasMetricsPort workload) then inl []
  else
    let name := GetName workload in
    let namespace := GetNamespace workload in
    if namespace == EmptyString then inl []
    else
      let tmpl := podTemplateLabels workload in
      let podLabels := if size tmpl == 0%nat then default ∅ (GetLabels workload) else tmpl in
      if size podLabels == 0%nat then inl []
      else match ec_FindMatchingResources eval serviceMonitorGVR namespace podLabels with
      | inr err => inr err
      | inl (_ :: _) => inl []
      | inl [] =>
        match ec_FindMatchingResources eval podMonitorGVR namespace podLabels with
        | inr err => inr err
        | inl (_ :: _) => inl []
        | inl [] =>
          inl [missing_constraint ("missing:prometheus-monitor:" +:+ namespace +:+ "/" +:+ name)
                 ("missing-prometheus-monitor-" +:+ name) namespace SeverityWarning
                 "Workload exposes a metrics port but has no ServiceMonitor or PodMonitor"
                 "ServiceMonitor" "monitoring.coreos.com/v1"
                 "Workload has a port named metrics or http-metrics but no Prometheus monitor targets it"
                 ∅ ["prometheus"; "monitoring"; "missing-resource"]]
        end
      end.

(** *** rule_istio_routing.go *)

Definition virtualServiceGVR := mkGVR "networking.istio.io" "v1" "virtualservices".
Definition destinationRuleGVR := mkGVR "networking.istio.io" "v1" "destinationrules".

Definition hostMatchesWorkload (host workloadName namespace : string) : bool :=
  if host == EmptyString then false
  else
    let host := strings_TrimSpace host in
    if host == workloadName then true
    else if host == workloadName +:+ "." +:+ namespace then true
    else if host == workloadName +:+ "." +:+ namespace +:+ ".svc.cluster.local" then true
    else false.

(** The routes of one entry of [spec.http], [spec.tcp] or [spec.tls]. *)
Definition route_entry_matches (workloadName namespace : string) (entry : GoVal) : bool :=
  match as_map entry with
  | None => false
  | Some routeMap =>
      existsb (fun route => match as_map route with
                            | None => false
                            | Some rm => hostMatchesWorkload (SafeNestedString (Some rm) ["destination"; "host"]) workloadName namespace
                            end) (default [] (SafeNestedSlice (Some routeMap) ["route"]))
  end.

Definition vsRoutesToHost (vs : Unstructured) (workloadName namespace : string) : bool :=
  existsb (fun routeType =>
             existsb (route_entry_matches workloadName namespace)
                     (default [] (SafeNestedSlice (Some (Object vs)) ["spec"; routeType])))
          ["http"; "tcp"; "tls"].

Definition vsMatchesWorkload (vsList : list Unstructured) (workloadName namespace : string) : bool :=
  existsb (fun vs => vsRoutesToHost vs workloadName namespace) vsList.

Definition drMatchesWorkload (drList : list Unstructured) (workloadName namespace : string) : bool :=
  existsb (fun dr => hostMatchesWorkload (SafeNestedString (Some (Object dr)) ["spec"; "host"]) workloadName namespace) drList.

Definition istioRouting_Evaluate (workload : Unstructured) (eval : RequirementEvalContext) : list Constraint + error :=
  match GetAnnotations workload with
  | None => inl []
  | Some annotations =>
    match annotations !! "sidecar.istio.io/status" with
    | None => inl []
    | Some _ =>
      let name := GetName workload in
      let namespace := GetNamespace workload in
      if namespace == EmptyString then inl []
      else match ec_ListByGVR eval virtualServiceGVR namespace with
      | inr err => inr err
      | inl vsList =>
        if vsMatchesWorkload vsList name namespace then inl []
        else match ec_ListByGVR eval destinationRuleGVR namespace with
        | inr err => inr err
        | inl drList =>
          if drMatchesWorkload drList name namespace then inl []
          else inl [missing_constraint ("missing:istio-routing:" +:+ namespace +:+ "/" +:+ name)
                      ("missing-istio-routing-" +:+ name) namespace SeverityWarning
                      "Workload has Istio sidecar but no VirtualService or DestinationRule"
                      "VirtualService" "networking.istio.io/v1"
                      "Workload has sidecar.istio.io/status annotation but no routing rules"
                      ∅ ["istio"; "routing"; "missing-resource"]]
        end
      end
    end
  end.

Definition NewIstioMTLSRule : RequirementRule :=
  mkRule "istio-mtls" "Checks that namespaces with Istio injection have a PeerAuthentication policy" istioMTLS_Evaluate.
Definition NewCertIssuerRule : RequirementRule :=
  mkRule "cert-issuer" "Checks that cert-manager Issuers referenced by workload annotations exist" certIssuer_Evaluate.
Definition NewPrometheusMonitorRule : RequirementRule :=
  mkRule "prometheus-monitor" "Checks that workloads with a metrics port have a ServiceMonitor or PodMonitor" prometheusMonitor_Evaluate.
Definition NewIstioRoutingRule : RequirementRule :=
  mkRule "istio-routing" "Checks that workloads with Istio sidecar have a VirtualService or DestinationRule" istioRouting_Evaluate.
End rules.

(** ** evaluator.go *)

Definition defaultDebounceDuration : Duration := 120 * time_Second.

Record Evaluator := mkEvaluator {
  rules : list RequirementRule;
  duration : Duration;
  firstSeen : gmap string Time;
}.

Definition NewEvaluator : Evaluator := mkEvaluator [] defaultDebounceDuration ∅.

Definition SetDebounceDuration (d : Duration) (e : Evaluator) : Evaluator := mkEvaluator (rules e) d (firstSeen e).
Definition RegisterRule (rule : RequirementRule) (e : Evaluator) : Evaluator :=
  mkEvaluator (rules e ++ [rule]) (duration e) (firstSeen e).

Section evaluator.
Context {AM : Apimachinery}.

(** cmd/controller/main.go: the rules of every evaluator of the controller. *)
Definition registerRequirementRules (e : Evaluator) : Evaluator :=
  RegisterRule NewCertIssuerRule (RegisterRule NewIstioMTLSRule
    (RegisterRule NewIstioRoutingRule (RegisterRule NewPrometheusMonitorRule e))).

Definition workload_key (workload : Unstructured) : string :=
  if GetUID workload == EmptyString then GetNamespace workload +:+ "/" +:+ GetName workload else GetUID workload.

Definition debounce_key (workload : Unstructured) (rule : RequirementRule) : string :=
  workload_key workload +:+ ":" +:+ r_Name rule.

(** One iteration of the loop over the rules. *)
Definition evaluate_rule (now : Time) (eval : RequirementEvalContext) (workload : Unstructured) (d : Duration)
    (rule : RequirementRule) (seen : gmap string Time) : gmap string Time * list Constraint :=
  match r_Evaluate rule workload eval with
  | inr _ => (seen, [])
  | inl constraints =>
    let key := debounce_key workload rule in
    if constraints == [] then (delete key seen, [])
    else
      let '(first, seen') := match seen !! key with
                             | Some first => (first, seen)
                             | None => (now, <[key := now]> seen)
                             end in
      (seen', if (d <=? time_Sub now first)%Z then constraints else [])
  end.

Fixpoint evaluate_rules (now : Time) (eval : RequirementEvalContext) (workload : Unstructured) (d : Duration)
    (rs : list RequirementRule) (seen : gmap string Time) : gmap string Time * list Constraint :=
  match rs with
  | [] => (seen, [])
  | rule :: rs' =>
      let '(seen1, c1) := evaluate_rule now eval workload d rule seen in
      let '(seen2, c2) := evaluate_rules now eval workload d rs' seen1 in
      (seen2, (c1 ++ c2)%list)
  end.

(** A nil workload is [None]; the error result is always nil. *)
Definition Evaluate (now : Time) (eval : RequirementEvalContext) (workload : option Unstructured) (e : Evaluator)
    : Evaluator * list Constraint :=
  match workload with
  | None => (e, [])
  | Some w =>
      let '(seen, result) := evaluate_rules now eval w (duration e) (rules e) (firstSeen e) in
      (mkEvaluator (rules e) (duration e) seen, result)
  end.
End evaluator.

Definition CleanupStaleEntries (σ : Shuffle) (now : Time) (e : Evaluator) : Evaluator :=
  let cutoff := wrap64 (2 * duration e) in
  mkEvaluator (rules e) (duration e) (sweep σ (fun first => (cutoff <? time_Sub now first)%Z) (firstSeen e)).

(** [StartCleanup] reads the duration once, for its ticker; each tick meets a
    map order and an instant.  [None] is the panic of [time.NewTicker]. *)
Definition StartCleanup (wakes : list (Wake (Shuffle * Time))) (e : Evaluator) : option (bool * Evaluator) :=
  with_ticker (duration e) (fun t => CleanupStaleEntries t.1 t.2) wakes e.

(** The cleanup keeps the rules and the duration, and forgets entries only. *)
Lemma StartCleanup_frame wakes e returned e' :
  StartCleanup wakes e = Some (returned, e') → rules e' = rules e ∧ duration e' = duration e ∧ firstSeen e' ⊆ firstSeen e.
Proof.
  unfold StartCleanup, with_ticker. destruct (_ <? _)%Z; [|done]. intros [= Hl].
  change e' with (returned, e').2. rewrite <-Hl. clear Hl.
  apply (ticker_loop_invariant (fun x => rules x = rules e ∧ duration x = duration e ∧ firstSeen x ⊆ firstSeen e)); [|done].
  intros [σ now] x (Hr & Hd & Hs). split_and!; [done..|]. etrans; [|exact Hs]. apply map_subseteq_spec. intros k t. simpl.
  rewrite sweep_lookup. destruct (firstSeen x !! k) as [t'|]; simpl; [|done]. by destruct (_ <? _)%Z.
Qed.

(** An evaluator without a debounce window, as that of the MCP server, has no
    cleanup: its ticker would panic. *)
Lemma StartCleanup_undebounced wakes e : StartCleanup wakes (SetDebounceDuration 0 e) = None.
Proof. by apply with_ticker_None. Qed.

(** ** Executions of the evaluator *)

Section execution.
Context {AM : Apimachinery}.

Inductive eval_op :=
  | OpEvaluate (now : Time) (eval : RequirementEvalContext) (w : Unstructured)
  | OpCleanup (σ : Shuffle) (now : Time).

(** What an evaluation observes: for each rule that did not fail, its key and
    whether it found a resource missing. *)
Definition observation : Type := string * Time * bool.

Definition observe_rule (now : Time) (eval : RequirementEvalContext) (w : Unstructured) (rule : RequirementRule)
    : list observation :=
  match r_Evaluate rule w eval with
  | inl cs => [(debounce_key w rule, now, negb (bool_decide (cs = [])))]
  | inr _ => []
  end.

Definition observe (now : Time) (eval : RequirementEvalContext) (w : Unstructured) (rs : list RequirementRule)
    : list observation := mjoin (observe_rule now eval w <$> rs).

(** The evaluator after a sequence of operations, with everything observed. *)
Fixpoint eval_run (e : Evaluator) (hist : list observation) (ops : list eval_op) : Evaluator * list observation :=
  match ops with
  | [] => (e, hist)
  | OpEvaluate now eval w :: ops' =>
      eval_run (Evaluate now eval (Some w) e).1 (hist ++ observe now eval w (rules e))%list ops'
  | OpCleanup σ now :: ops' => eval_run (CleanupStaleEntries σ now e) hist ops'
  end.

(** At [t] the resource of key [k] was observed missing, and never since then
    was it observed present. *)
Definition missing_since (hist : list observation) (k : string) (t : Time) : Prop :=
  ∃ before after, hist = (before ++ (k, t, true) :: after)%list ∧ ∀ t', (k, t', false) ∉ after.

Definition tracked (hist : list observation) (seen : gmap string Time) : Prop :=
  ∀ k t, seen !! k = Some t → missing_since hist k t.

Lemma missing_since_snoc hist k t o :
  missing_since hist k t → (∀ t', o ≠ (k, t', false)) → missing_since (hist ++ [o])%list k t.
Proof.
  intros (b & a & -> & Ha) Ho. exists b, (a ++ [o])%list. rewrite <-(assoc_L (++)%list). split; [done|].
  intros t' [Hin|Hin%list_elem_of_singleton]%elem_of_app; [by eapply Ha|by eapply Ho].
Qed.

Lemma missing_since_now hist k t : missing_since (hist ++ [(k, t, true)])%list k t.
Proof. exists hist, []. split; [done|]. set_solver. Qed.

Lemma evaluate_rule_tracked now eval w d rule hist seen :
  tracked hist seen →
  tracked (hist ++ observe_rule now eval w rule)%list (evaluate_rule now eval w d rule seen).1.
Proof.
  intros Ht. unfold evaluate_rule, observe_rule. destruct (r_Evaluate rule w eval) as [cs|err]; simpl.
  2:{ by rewrite (right_id_L [] (++)%list). }
  set (key := debounce_key w rule). case_bool_decide as Hcs; simpl.
  - intros k t [Hne Hs]%lookup_delete_Some. apply missing_since_snoc; [by apply Ht|]. naive_solver.
  - destruct (seen !! key) as [first|] eqn:Hk; simpl; intros k t.
    + intros Hs. apply missing_since_snoc; [by apply Ht|]. naive_solver.
    + intros [[<- <-]|[Hne Hs]]%lookup_insert_Some; [apply missing_since_now|].
      apply missing_since_snoc; [by apply Ht|]. naive_solver.
Qed.

Lemma evaluate_rules_tracked now eval w d rs hist seen :
  tracked hist seen → tracked (hist ++ observe now eval w rs)%list (evaluate_rules now eval w d rs seen).1.
Proof.
  revert hist seen. induction rs as [|rule rs IH]; intros hist seen Ht; simpl.
  { unfold observe. simpl. by rewrite (right_id_L [] (++)%list). }
  pose proof (evaluate_rule_tracked now eval w d rule hist seen Ht) as Ht1.
  destruct (evaluate_rule now eval w d rule seen) as [seen1 c1]. simpl in *.
  specialize (IH _ _ Ht1). destruct (evaluate_rules now eval w d rs seen1) as [seen2 c2]. simpl in *.
  unfold observe in *. csimpl. by rewrite <-(assoc_L (++)%list) in IH.
Qed.

Lemma tracked_sweep σ drop hist seen : tracked hist seen → tracked hist (sweep σ drop seen).
Proof.
  intros Ht k t. rewrite sweep_lookup. destruct (seen !! k) as [s|] eqn:Hk; simpl; [|done].
  destruct (drop s); [done|]. intros [= <-]. by apply Ht.
Qed.

Lemma eval_run_tracked e hist ops :
  tracked hist (firstSeen e) → tracked (eval_run e hist ops).2 (firstSeen (eval_run e hist ops).1).
Proof.
  revert e hist. induction ops as [|[now eval w|σ now] ops IH]; intros e hist Ht; simpl; [done|..]; apply IH.
  - pose proof (evaluate_rules_tracked now eval w (duration e) (rules e) hist (firstSeen e) Ht) as H.
    unfold Evaluate. by destruct (evaluate_rules _ _ _ _ _ _).
  - by apply tracked_sweep.
Qed.

(** During an evaluation, an entry is older than it or made by it. *)
Definition tracked_or_now (hist : list observation) (now : Time) (seen : gmap string Time) : Prop :=
  ∀ k t, seen !! k = Some t → missing_since hist k t ∨ t = now.

Lemma evaluate_rule_emits now eval w d rule hist seen c :
  (0 < d)%Z → tracked_or_now hist now seen →
  tracked_or_now hist now (evaluate_rule now eval w d rule seen).1 ∧
  (c ∈ (evaluate_rule now eval w d rule seen).2 →
   ∃ cs t, r_Evaluate rule w eval = inl cs ∧ c ∈ cs ∧ missing_since hist (debounce_key w rule) t ∧ (d ≤ now - t)%Z).
Proof.
  intros Hd Ht. unfold evaluate_rule. destruct (r_Evaluate rule w eval) as [cs|err]; simpl; [|split; [done|set_solver]].
  set (key := debounce_key w rule). case_bool_decide as Hcs; simpl.
  { split; [|set_solver]. intros k t [Hne Hs]%lookup_delete_Some. by apply Ht. }
  destruct (seen !! key) as [first|] eqn:Hk; simpl.
  - split; [done|]. destruct (d <=? time_Sub now first)%Z eqn:Hle; [|set_solver]. apply Z.leb_le in Hle.
    intros Hc. exists cs, first. unfold time_Sub, int64_min, int64_max in Hle.
    split_and!; [done|done| |lia]. destruct (Ht _ _ Hk) as [?| ->]; [done|lia].
  - split; [intros k t [[<- <-]|[Hne Hs]]%lookup_insert_Some; [by right|by apply Ht]|].
    unfold time_Sub, int64_min, int64_max. rewrite (proj2 (Z.leb_gt _ _)) by lia. set_solver.
Qed.

Lemma evaluate_rules_emits now eval w d rs hist seen c :
  (0 < d)%Z → tracked_or_now hist now seen → c ∈ (evaluate_rules now eval w d rs seen).2 →
  ∃ rule cs t, rule ∈ rs ∧ r_Evaluate rule w eval = inl cs ∧ c ∈ cs ∧
               missing_since hist (debounce_key w rule) t ∧ (d ≤ now - t)%Z.
Proof.
  intros Hd. revert seen. induction rs as [|rule rs IH]; intros seen Ht; simpl; [set_solver|].
  destruct (evaluate_rule_emits now eval w d rule hist seen c Hd Ht) as [Ht1 Hc1].
  destruct (evaluate_rule now eval w d rule seen) as [seen1 c1]. simpl in *.
  specialize (IH seen1 Ht1). destruct (evaluate_rules now eval w d rs seen1) as [seen2 c2]. simpl in *.
  intros [Hc|Hc]%elem_of_app.
  - destruct (Hc1 Hc) as (cs & t & H'). exists rule, cs, t. split; [left|done].
  - destruct (IH Hc) as (r & cs & t & Hr & H'). exists r, cs, t. split; [by right|done].
Qed.

Lemma eval_run_config e hist ops :
  rules (eval_run e hist ops).1 = rules e ∧ duration (eval_run e hist ops).1 = duration e.
Proof.
  revert e hist. induction ops as [|[now eval w|σ now] ops IH]; intros e hist; simpl; [done|..];
    destruct (IH _ _) as [-> ->] || (edestruct IH as [-> ->]); [|done].
  unfold Evaluate. by destruct (evaluate_rules _ _ _ _ _ _).
Qed.

(** C34: over every sequence of evaluations and cleanups, a constraint is
    reported only if its rule finds the resource missing now, found it missing
    at least the debounce duration ago, and never found it present since. *)
Theorem Evaluate_debounced rs d ops now eval w c :
  (0 < d)%Z →
  let '(e, hist) := eval_run (mkEvaluator rs d ∅) [] ops in
  c ∈ (Evaluate now eval (Some w) e).2 →
  ∃ rule cs t, rule ∈ rs ∧ r_Evaluate rule w eval = inl cs ∧ c ∈ cs ∧
               missing_since hist (debounce_key w rule) t ∧ (d ≤ now - t)%Z.
Proof.
  intros Hd. pose proof (eval_run_tracked (mkEvaluator rs d ∅) [] ops) as Ht.
  destruct (eval_run_config (mkEvaluator rs d ∅) [] ops) as [Hrs Hde].
  destruct (eval_run _ [] ops) as [e hist]. simpl in *.
  assert (tracked hist (firstSeen e)) as Ht'.
  { apply Ht. intros k t. by rewrite lookup_empty. }
  pose proof (evaluate_rules_emits now eval w d (rules e) hist (firstSeen e) c Hd) as He.
  rewrite Hde. rewrite <-Hrs. destruct (evaluate_rules _ _ _ _ _ _) as [seen result]. simpl in *.
  apply He. intros k t Hk. left. by apply Ht'.
Qed.

(** A resource whose entry is old enough is reported. *)
Lemma entry_reported now eval w rule rs1 rs2 d seen cs first :
  let e := mkEvaluator (rs1 ++ rule :: rs2) d seen in
  NoDup (r_Name <$> rules e) → seen !! debounce_key w rule = Some first →
  r_Evaluate rule w eval = inl cs → (d ≤ time_Sub now first)%Z →
  ∀ c, c ∈ cs → c ∈ (Evaluate now eval (Some w) e).2.
Proof.
  intros e Hnd Hk Hr Hd c Hc. unfold Evaluate, e. simpl.
  assert (∀ seen0, seen0 !! debounce_key w rule = Some first →
            c ∈ (evaluate_rules now eval w d (rs1 ++ rule :: rs2) seen0).2) as H.
  2:{ specialize (H seen Hk). by destruct (evaluate_rules _ _ _ _ _ _). }
  clear Hk. unfold e in Hnd. simpl in Hnd. clear e. induction rs1 as [|r rs1 IH]; intros seen0 Hk; simpl in *.
  - unfold evaluate_rule at 1. rewrite Hr. rewrite bool_decide_eq_false_2 by (intros ->; set_solver). rewrite Hk.
    rewrite (proj2 (Z.leb_le _ _) Hd). destruct (evaluate_rules _ _ _ _ rs2 _) as [s2 c2]. simpl. set_solver.
  - apply NoDup_cons in Hnd as [Hnin Hnd].
    assert ((evaluate_rule now eval w d r seen0).1 !! debounce_key w rule = Some first) as Hk'.
    { assert (debounce_key w r ≠ debounce_key w rule) as Hne.
      { unfold debounce_key. intros E%string_append_inj_l%string_append_inj_l. apply Hnin. rewrite E.
        rewrite fmap_app. csimpl. set_solver. }
      unfold evaluate_rule. repeat case_match; simplify_eq/=; try done;
        rewrite ?lookup_delete_ne, ?lookup_insert_ne by done; done. }
    destruct (evaluate_rule now eval w d r seen0) as [s1 c1]. simpl in Hk'.
    specialize (IH Hnd s1 Hk'). destruct (evaluate_rules _ _ _ _ _ s1) as [s2 c2]. simpl in *. set_solver.
Qed.

(** An entry stays as long as its resource is not found present. *)
Lemma evaluate_rules_keep now eval w d rs seen k t :
  (∀ t', (k, t', false) ∉ observe now eval w rs) → seen !! k = Some t → (evaluate_rules now eval w d rs seen).1 !! k = Some t.
Proof.
  revert seen. induction rs as [|r rs IH]; intros seen Hno Hk; simpl; [done|].
  assert ((evaluate_rule now eval w d r seen).1 !! k = Some t) as Hk1.
  { unfold evaluate_rule. destruct (r_Evaluate r w eval) as [cs|] eqn:E; [|done]. case_bool_decide as Hcs.
    - simpl. apply lookup_delete_Some. split; [|done]. intros <-. apply (Hno now). unfold observe. csimpl.
      apply elem_of_app. left. unfold observe_rule. rewrite E, Hcs. simpl. left.
    - destruct (seen !! debounce_key w r) eqn:Hs; [done|]. simpl. rewrite lookup_insert_ne; [done|]. congruence. }
  destruct (evaluate_rule now eval w d r seen) as [s1 c1]. simpl in Hk1.
  assert ((evaluate_rules now eval w d rs s1).1 !! k = Some t) as H2.
  { apply IH; [|done]. intros t' Ht'. apply (Hno t'). unfold observe in *. csimpl. apply elem_of_app. by right. }
  by destruct (evaluate_rules now eval w d rs s1).
Qed.

(** The first evaluation that finds it missing makes the entry. *)
Lemma evaluate_rules_start now eval w d rs seen k :
  (k, now, true) ∈ observe now eval w rs → (∀ t', (k, t', false) ∉ observe now eval w rs) → seen !! k = None →
  (evaluate_rules now eval w d rs seen).1 !! k = Some now.
Proof.
  revert seen. induction rs as [|r rs IH]; intros seen Hin Hno Hk; [by apply elem_of_nil in Hin|].
  assert (∀ t', (k, t', false) ∉ observe now eval w rs) as Hno2.
  { intros t' Ht'. apply (Hno t'). unfold observe in *. csimpl. apply elem_of_app. by right. }
  unfold observe in Hin. csimpl in *. apply elem_of_app in Hin.
  assert ((evaluate_rule now eval w d r seen).1 !! k = Some now ∨
          (evaluate_rule now eval w d r seen).1 !! k = None ∧ (k, now, true) ∈ observe now eval w rs) as Hcase.
  { unfold evaluate_rule. unfold observe_rule in Hin. destruct (r_Evaluate r w eval) as [cs|] eqn:E; [|right; simpl; set_solver].
    case_bool_decide as Hcs; simpl.
    - right. split; [by apply lookup_delete_None; right|]. destruct Hin as [Hin%list_elem_of_singleton|]; [|done]. subst cs. simplify_eq.
    - destruct (decide (debounce_key w r = k)) as [<-|Hne]; [left; rewrite Hk; apply lookup_insert_eq|].
      right. split; [|destruct Hin as [Hin%list_elem_of_singleton|]; [simplify_eq|done]].
      destruct (seen !! debounce_key w r); simpl; [done|]. by rewrite lookup_insert_ne. }
  destruct (evaluate_rule now eval w d r seen) as [s1 c1]. simpl in Hcase |- *.
  assert ((evaluate_rules now eval w d rs s1).1 !! k = Some now) as H2.
  { destruct Hcase as [H1|[H1 Hin1]]; [by apply evaluate_rules_keep|by apply IH]. }
  by destruct (evaluate_rules now eval w d rs s1).
Qed.

Lemma eval_run_hist e hist ops :
  eval_run e hist ops = ((eval_run e [] ops).1, hist ++ (eval_run e [] ops).2)%list.
Proof.
  revert e hist. induction ops as [|[now eval w|σ now] ops IH]; intros e hist; simpl.
  - by rewrite (right_id_L [] (++)%list).
  - rewrite IH, (IH _ (observe _ _ _ _)). cbn [fst snd]. by rewrite (assoc_L (++)%list).
  - by rewrite IH.
Qed.

(** Through a run, too, unless a cleanup comes more than twice the duration
    after it. *)
Lemma eval_run_keep e ops k t :
  (0 < duration e)%Z → (2 * duration e ≤ int64_max)%Z → firstSeen e !! k = Some t →
  (∀ t', (k, t', false) ∉ (eval_run e [] ops).2) → (∀ σ t', OpCleanup σ t' ∈ ops → (t' - t ≤ 2 * duration e)%Z) →
  firstSeen (eval_run e [] ops).1 !! k = Some t.
Proof.
  intros Hd Hd2. revert e Hd Hd2. induction ops as [|[now eval w|σ now] ops IH]; intros e Hd Hd2 Hk Hno Hcl; cbn [eval_run] in *; [done|..].
  - rewrite eval_run_hist in *. cbn [fst snd] in *.
    assert (duration (Evaluate now eval (Some w) e).1 = duration e) as Hde by (unfold Evaluate; by destruct (evaluate_rules _ _ _ _ _ _)).
    apply IH; rewrite ?Hde; [done|done| |intros t' ?; apply (Hno t'); set_solver|intros σ t' ?; apply (Hcl σ t'); by right].
    pose proof (evaluate_rules_keep now eval w (duration e) (rules e) (firstSeen e) k t) as H.
    unfold Evaluate. destruct (evaluate_rules _ _ _ _ _ _). apply H; [intros t' ?; apply (Hno t'); set_solver|done].
  - apply IH; [done|done| |done|intros σ' t' ?; apply (Hcl σ' t'); by right]. simpl. rewrite sweep_lookup, Hk. simpl.
    specialize (Hcl σ now ltac:(left)). rewrite (proj2 (Z.ltb_ge _ _)); [done|].
    rewrite wrap64_id by (unfold int64_min, int64_max in *; lia). unfold time_Sub, int64_min, int64_max in *. lia.
Qed.

(** C35: over every run of the evaluator: when an evaluation finds a resource
    missing that no run of findings before it had found missing, and none since
    finds it present, then every evaluation that still finds it missing, from
    the debounce duration on, reports it, unless a cleanup came later than twice
    the duration after that first one ([Cleanup_silences_missing]). *)
Theorem Evaluate_reports rs d ops1 t0 eval0 w ops2 now eval rule cs :
  NoDup (r_Name <$> rs) → rule ∈ rs → (0 < d)%Z → (2 * d ≤ int64_max)%Z →
  let key := debounce_key w rule in
  let '(e1, hist1) := eval_run (mkEvaluator rs d ∅) [] ops1 in
  let '(e2, hist2) := eval_run e1 [] (OpEvaluate t0 eval0 w :: ops2) in
  (∀ t, ¬ missing_since hist1 key t) →
  (key, t0, true) ∈ observe t0 eval0 w rs → (∀ t, (key, t, false) ∉ hist2) →
  (∀ σ t, OpCleanup σ t ∈ ops2 → (t - t0 ≤ 2 * d)%Z) →
  r_Evaluate rule w eval = inl cs → (d ≤ now - t0)%Z →
  ∀ c, c ∈ cs → c ∈ (Evaluate now eval (Some w) e2).2.
Proof.
  intros Hnd Hin Hd Hd2 key. pose proof (eval_run_tracked (mkEvaluator rs d ∅) [] ops1) as Ht.
  destruct (eval_run_config (mkEvaluator rs d ∅) [] ops1) as [Hrs1 Hde1]. destruct (eval_run _ [] ops1) as [e1 hist1].
  destruct (eval_run_config e1 [] (OpEvaluate t0 eval0 w :: ops2)) as [Hrs2 Hde2].
  destruct (eval_run e1 [] _) as [e2 hist2] eqn:E2. cbn [rules duration firstSeen fst snd] in *.
  intros Hnew Hmiss Hno Hcl Hr Hnow c Hc. cbn [eval_run] in E2. remember (Evaluate t0 eval0 (Some w) e1).1 as e' eqn:He'.
  rewrite eval_run_hist in E2.  injection E2 as E2 Eh. rewrite Hrs1 in Eh. cbn [app] in Eh.
  assert (firstSeen e1 !! key = None) as Hn.
  { destruct (firstSeen e1 !! key) as [t|] eqn:Hk; [|done]. destruct (Hnew t). eapply Ht; [by intros k' t'|exact Hk]. }
  assert (firstSeen e' !! key = Some t0 ∧ duration e' = d) as [Hs Hde].
  { subst e'. unfold Evaluate. rewrite Hrs1, Hde1. pose proof (evaluate_rules_start t0 eval0 w d rs (firstSeen e1) key Hmiss) as H.
    split; [|by destruct (evaluate_rules t0 eval0 w d rs (firstSeen e1))]. ospecialize (H _ Hn).
    - intros t' Ht'. apply (Hno t'). rewrite <-Eh. apply elem_of_app. by left.
    - by destruct (evaluate_rules t0 eval0 w d rs (firstSeen e1)). }
  pose proof (eval_run_keep e' ops2 key t0) as Hk. rewrite Hde, E2 in Hk.
  specialize (Hk Hd Hd2 Hs). ospecialize (Hk _ Hcl); [intros t' Ht'; apply (Hno t'); rewrite <-Eh; apply elem_of_app; by right|].
  apply list_elem_of_split in Hin as (rs1 & rs2 & ->).
  assert (e2 = mkEvaluator (rs1 ++ rule :: rs2) d (firstSeen e2)) as He2.
  { destruct e2 as [rs' d' seen]. cbn [rules duration firstSeen] in *. congruence. }
  rewrite He2. apply (entry_reported now eval w rule rs1 rs2 d (firstSeen e2) cs t0); try done.
  unfold time_Sub, int64_min, int64_max in *. lia.
Qed.

(** The cleanup forgets resources that are still missing: once an entry is
    older than twice the debounce duration, an evaluation that would have
    reported the resource reports nothing if the cleanup runs just before. *)
Theorem Cleanup_silences_missing σ now eval w rule d first cs :
  let e := mkEvaluator [rule] d {[ debounce_key w rule := first ]} in
  (0 < d)%Z → (2 * d < now - first)%Z → (2 * d ≤ int64_max)%Z → (now - first ≤ int64_max)%Z →
  r_Evaluate rule w eval = inl cs → cs ≠ [] →
  (Evaluate now eval (Some w) e).2 = cs ∧
  (Evaluate now eval (Some w) (CleanupStaleEntries σ now e)).2 = [].
Proof.
  intros e Hd Hlt Hmax Hnow Hr Hcs.
  assert (time_Sub now first = now - first)%Z as Hsub by (unfold time_Sub, int64_min, int64_max in *; lia).
  unfold Evaluate, e. simpl. unfold evaluate_rule. rewrite Hr, (bool_decide_eq_false_2 (cs = [])) by done.
  split.
  - rewrite lookup_singleton_eq. simpl. rewrite Hsub, (proj2 (Z.leb_le _ _)) by lia. simpl. by rewrite (right_id_L [] (++)%list).
  - rewrite sweep_lookup, lookup_singleton_eq. simpl. rewrite wrap64_id by (unfold int64_min, int64_max in *; lia).
    rewrite Hsub, (proj2 (Z.ltb_lt _ _)) by lia. simpl. unfold time_Sub, int64_min, int64_max.
    rewrite (proj2 (Z.leb_gt _ _)) by lia. done.
Qed.
End execution.

(** ** The rules *)

Section rule_theorems.
Context {AM : Apimachinery}.

(** The constraints of the rules, as the report and the remediation use them. *)
Definition well_formed_missing (w : Unstructured) (c : Constraint) : Prop :=
  c_ConstraintType c = ConstraintTypeMissing ∧ c_Effect c = "missing" ∧ c_Namespace c = GetNamespace w ∧
  c_AffectedNamespaces c = [GetNamespace w] ∧
  (∃ kind, map_string (c_Details c) "expectedKind" = Some kind ∧ kind ≠ EmptyString) ∧
  (∃ reason, map_string (c_Details c) "reason" = Some reason ∧ reason ≠ EmptyString) ∧
  c_Severity c ∈ [SeverityCritical; SeverityWarning; SeverityInfo] ∧ c_Remediation c = [].

Lemma missing_constraint_well_formed w uid name sev summary kind av reason extra tags :
  kind ≠ EmptyString → reason ≠ EmptyString → sev ∈ [SeverityCritical; SeverityWarning; SeverityInfo] →
  well_formed_missing w (missing_constraint uid name (GetNamespace w) sev summary kind av reason extra tags).
Proof.
  intros Hk Hr Hs. split_and!; try done.
  - exists kind. split; [|done]. unfold map_string. simpl. by rewrite lookup_insert_eq.
  - exists reason. split; [|done]. unfold map_string. simpl.
    rewrite !lookup_insert_ne by done. by rewrite lookup_insert_eq.
Qed.

(** Each of the four rules reports at most one constraint for a workload,
    and that one is a missing-resource constraint of the workload's namespace
    that names the expected kind and the reason, with a declared severity. *)
Theorem rules_well_formed rule w eval cs :
  rule ∈ [NewIstioMTLSRule; NewCertIssuerRule; NewPrometheusMonitorRule; NewIstioRoutingRule] →
  r_Evaluate rule w eval = inl cs → (length cs ≤ 1)%nat ∧ Forall (well_formed_missing w) cs.
Proof.
  rewrite !elem_of_cons, elem_of_nil. intros [->|[->|[->|[->|[]]]]]; simpl; intros H.
  - revert H. unfold istioMTLS_Evaluate. repeat case_match; intros [= <-]; (split; [simpl; lia|]);
      repeat constructor; apply missing_constraint_well_formed; (done || set_solver).
  - revert H. unfold certIssuer_Evaluate. repeat case_match; intros [= <-]; (split; [simpl; lia|]);
      repeat constructor; apply missing_constraint_well_formed; (done || set_solver).
  - revert H. unfold prometheusMonitor_Evaluate. repeat case_match; intros [= <-]; (split; [simpl; lia|]);
      repeat constructor; apply missing_constraint_well_formed; (done || set_solver).
  - revert H. unfold istioRouting_Evaluate. repeat case_match; intros [= <-]; (split; [simpl; lia|]);
      repeat constructor; apply missing_constraint_well_formed; (done || set_solver).
Qed.

(** What an evaluation emits comes from one of the rules, on that workload. *)
Lemma Evaluate_from_rules now eval w e :
  rules (Evaluate now eval (Some w) e).1 = rules e ∧
  ∀ c, c ∈ (Evaluate now eval (Some w) e).2 → ∃ rule cs, rule ∈ rules e ∧ r_Evaluate rule w eval = inl cs ∧ c ∈ cs.
Proof.
  unfold Evaluate. destruct (evaluate_rules _ _ _ _ _ _) as [seen cs] eqn:E. split; [done|]. simpl. revert seen cs E.
  generalize (firstSeen e). induction (rules e) as [|r rs IH]; intros m seen cs; simpl; [intros [= <- <-]; set_solver|].
  destruct (evaluate_rule _ _ _ _ r m) as [s1 c1] eqn:E1. destruct (evaluate_rules _ _ _ _ rs s1) as [s2 c2] eqn:E2.
  intros [= <- <-] c [Hc|Hc]%elem_of_app.
  - exists r, c1. split; [left|]. split; [|done]. revert E1. unfold evaluate_rule.
    repeat case_match; intros; simplify_eq; set_solver.
  - destruct (IH _ _ _ E2 c Hc) as (r' & cs' & ? & ?). exists r', cs'. split; [by right|done].
Qed.

(** The Istio rule reports a workload exactly when its namespace has
    injection enabled, holds no PeerAuthentication, and is not covered by a
    mesh-wide one of istio-system (a list that cannot be read counts as none). *)
Theorem istioMTLS_spec w eval nsObj :
  GetNamespace w ≠ EmptyString → ec_GetNamespace eval (GetNamespace w) = inl nsObj →
  (∃ c, istioMTLS_Evaluate w eval = inl [c]) ↔
  injection_enabled (GetLabels nsObj) = true ∧
  ec_ListByGVR eval peerAuthenticationGVR (GetNamespace w) = inl [] ∧
  (GetNamespace w = "istio-system" ∨
   match ec_ListByGVR eval peerAuthenticationGVR "istio-system" with
   | inl l => hasMeshWidePA l = false
   | inr _ => True
   end).
Proof.
  intros Hns Hget. unfold istioMTLS_Evaluate. rewrite bool_decide_eq_false_2 by done. rewrite Hget.
  destruct (injection_enabled _); simpl; [|naive_solver].
  destruct (ec_ListByGVR eval peerAuthenticationGVR (GetNamespace w)) as [[|x l]|err]; [|naive_solver|naive_solver].
  case_bool_decide as Hsys; simpl; [naive_solver|].
  destruct (ec_ListByGVR eval peerAuthenticationGVR "istio-system") as [l|err]; [|naive_solver].
  destruct (hasMeshWidePA l); naive_solver.
Qed.
End rule_theorems.

(** ** Evaluation *)

Definition example_deployment : Unstructured :=
  mkUnstructured
    {[ "kind" := VStr "Deployment";
       "metadata" := VMap {[ "name" := VStr "web"; "namespace" := VStr "prod"; "uid" := VStr "w1" ]} ]}.

Definition injected_namespace : Unstructured :=
  mkUnstructured {[ "metadata" := VMap {[ "name" := VStr "prod"; "labels" := VMap {[ "istio-injection" := VStr "enabled" ]} ]} ]}.

Definition example_eval : RequirementEvalContext :=
  NewDynamicEvalContext (mkDynamicClient (fun _ _ => inl injected_namespace) (fun _ _ => inl [])).

Definition example_evaluator : Evaluator := mkEvaluator [NewIstioMTLSRule] defaultDebounceDuration ∅.
Definition first_ops : list eval_op := [OpEvaluate 0 example_eval example_deployment].

Lemma Evaluate_debounced_witness :
  ∃ c, c ∈ (Evaluate (150 * time_Second) example_eval (Some example_deployment) (eval_run example_evaluator [] first_ops).1).2 ∧
  ∃ rule cs t, rule ∈ [NewIstioMTLSRule] ∧ r_Evaluate rule example_deployment example_eval = inl cs ∧ c ∈ cs ∧
     missing_since (eval_run example_evaluator [] first_ops).2 (debounce_key example_deployment rule) t ∧
     (defaultDebounceDuration ≤ 150 * time_Second - t)%Z.
Proof.
  eexists. split; [left|].
  apply (Evaluate_debounced [NewIstioMTLSRule] defaultDebounceDuration first_ops); [reflexivity|]. left.
Defined.

Definition example_report : list Constraint :=
  match r_Evaluate NewIstioMTLSRule example_deployment example_eval with inl cs => cs | inr _ => [] end.

Lemma Evaluate_reports_witness :
  ∃ c, c ∈ example_report ∧
  c ∈ (Evaluate (150 * time_Second) example_eval (Some example_deployment)
         (eval_run example_evaluator [] (first_ops ++ [OpCleanup in_order (130 * time_Second)])).1).2.
Proof.
  exists (default (example_constraint EmptyString networkpolicies_gvr EmptyString EmptyString [] EmptyString EmptyString)
            (head example_report)).
  split; [vm_compute; left|].
  apply (Evaluate_reports [NewIstioMTLSRule] defaultDebounceDuration [] 0 example_eval example_deployment
           [OpCleanup in_order (130 * time_Second)] (150 * time_Second) example_eval NewIstioMTLSRule example_report).
  - apply NoDup_singleton.
  - left.
  - reflexivity.
  - vm_compute. discriminate.
  - intros t (b & a & E & _). by destruct b.
  - vm_compute. left.
  - intros t Ht. vm_compute in Ht. apply list_elem_of_singleton in Ht. discriminate.
  - intros σ t Ht. apply list_elem_of_singleton in Ht. injection Ht as -> ->. vm_compute. discriminate.
  - reflexivity.
  - vm_compute. discriminate.
  - vm_compute. left.
Defined.

Lemma Cleanup_silences_missing_witness :
  let e := mkEvaluator [NewIstioMTLSRule] defaultDebounceDuration {[ debounce_key example_deployment NewIstioMTLSRule := 0%Z ]} in
  (Evaluate (300 * time_Second) example_eval (Some example_deployment) (CleanupStaleEntries in_order (300 * time_Second) e)).2 = [].
Proof.
  apply (Cleanup_silences_missing in_order (300 * time_Second) example_eval example_deployment NewIstioMTLSRule
           defaultDebounceDuration 0 example_report); first [reflexivity|vm_compute; congruence|vm_compute; discriminate].
Defined.

Lemma rules_well_formed_witness : length example_report = 1%nat ∧ Forall (well_formed_missing example_deployment) example_report.
Proof.
  split; [reflexivity|].
  apply (rules_well_formed NewIstioMTLSRule example_deployment example_eval); [left|reflexivity].
Defined.

Lemma istioMTLS_spec_witness : ∃ c, istioMTLS_Evaluate example_deployment example_eval = inl [c].
Proof.
  apply (istioMTLS_spec example_deployment example_eval injected_namespace);
    [discriminate|reflexivity|split_and!; [reflexivity|reflexivity|right; reflexivity]].
Defined.
