(* ===== verification/Report.v ===== *)
(** * The report reconciler (internal/notifier/report_reconciler.go)

    Index changes mark namespaces as pending; a tick rebuilds the
    ConstraintReport (api/v1alpha1/types.go) of the pending namespaces that are
    out of their debounce window.  The answers of the API server, the instants
    read and the orders of unstable sorts are the fields of [ReconcileEnv]; an
    operation returns what it writes to the API server. *)

From S2P Require Import Prelude GoStd Types Apimachinery Util Indexer Channel Remediation EventBuilder Requirements.
From Stdlib Require Import Ascii SpecFloat.

Open Scope go_scope.

(** ** api/v1alpha1/types.go *)

Record ConstraintEntry := mkEntry {
  ce_Name : string;
  ce_Type : string;
  ce_Severity : string;
  ce_Message : string;
  ce_Source : string;
  ce_LastSeen : Time;
}.

Record ObjectReference := mkObjectReference {
  or_APIVersion : string;
  or_Kind : string;
  or_Name : string;
  or_Namespace : string;
}.

Record MachineConstraintEntry := mkMachineEntry {
  me_UID : string;
  me_Name : string;
  me_ConstraintType : string;
  me_Severity : string;
  me_Effect : string;
  me_SourceRef : ObjectReference;
  me_Remediation : RemediationInfo;
  me_Metrics : option (gmap string MetricDataPoint);
  me_Tags : list string;
  me_LastObserved : Time;
}.

Record MissingResourceEntry := mkMissing {
  mr_ExpectedKind : string;
  mr_ExpectedAPIVersion : string;
  mr_Reason : string;
  mr_Severity : string;
  mr_WorkloadKind : string;
  mr_WorkloadName : string;
  mr_Remediation : RemediationInfo;
}.

Record MachineReadableReport := mkMachineReport {
  mm_SchemaVersion : string;
  mm_GeneratedAt : Time;
  mm_DetailLevel : string;
  mm_Constraints : list MachineConstraintEntry;
  mm_MissingResources : list MissingResourceEntry;
  mm_Tags : list string;
}.

Record ConstraintReportStatus := mkStatus {
  st_ConstraintCount : Z;
  st_CriticalCount : Z;
  st_WarningCount : Z;
  st_InfoCount : Z;
  st_Constraints : list ConstraintEntry;
  st_MachineReadable : MachineReadableReport;
  st_LastUpdated : Time;
}.

(** ** Options and state *)

Record ReportReconcilerOptions := mkReportOptions {
  DebounceDuration : Duration;
  DefaultDetailLevel : DetailLevel;
  rro_DefaultContact : string;
}.

Definition DefaultReportReconcilerOptions : ReportReconcilerOptions :=
  mkReportOptions (10 * time_Second) DetailLevelSummary "your platform team".

Record ReportReconciler := mkReconciler {
  rr_opts : ReportReconcilerOptions;
  rr_builder : RemediationBuilder;
  rr_evaluator : option Evaluator;
  rr_dynamicClient : bool;         (**r a dynamic client is set *)
  lastReconcile : gmap string Time;
  pendingTriggers : gset string;
  clusterWideTriggered : bool;
}.

Definition NewReportReconciler (o : ReportReconcilerOptions) (evaluator : option Evaluator) (dynClient : bool)
    : ReportReconciler :=
  let d := if DebounceDuration o == 0%Z then (10 * time_Second)%Z else DebounceDuration o in
  let l := if DefaultDetailLevel o == EmptyString then DetailLevelSummary else DefaultDetailLevel o in
  mkReconciler (mkReportOptions d l (rro_DefaultContact o)) (NewRemediationBuilder (rro_DefaultContact o))
               evaluator dynClient ∅ ∅ false.

Definition set_triggers (p : gset string) (cw : bool) (rr : ReportReconciler) : ReportReconciler :=
  mkReconciler (rr_opts rr) (rr_builder rr) (rr_evaluator rr) (rr_dynamicClient rr) (lastReconcile rr) p cw.
Definition set_last (m : gmap string Time) (rr : ReportReconciler) : ReportReconciler :=
  mkReconciler (rr_opts rr) (rr_builder rr) (rr_evaluator rr) (rr_dynamicClient rr) m (pendingTriggers rr) (clusterWideTriggered rr).
Definition set_evaluator (e : option Evaluator) (rr : ReportReconciler) : ReportReconciler :=
  mkReconciler (rr_opts rr) (rr_builder rr) e (rr_dynamicClient rr) (lastReconcile rr) (pendingTriggers rr) (clusterWideTriggered rr).

(** ** Building a report *)

Definition severityOrder (severity : string) : Z :=
  switch severity [("Critical", 0%Z); ("Warning", 1%Z); ("Info", 2%Z)]%string 3%Z.

Definition scopedName (rr : ReportReconciler) (c : Constraint) (viewerNamespace : string) : string :=
  if DefaultDetailLevel (rr_opts rr) == DetailLevelSummary then
    if (c_Namespace c != EmptyString) && (c_Namespace c != viewerNamespace) then "cluster-policy"%string else c_Name c
  else c_Name c.

Definition scopedMessage (rr : ReportReconciler) (c : Constraint) (viewerNamespace : string) : string :=
  let own := if c_Summary c != EmptyString then c_Summary c else genericSummary (c_ConstraintType c) in
  if DefaultDetailLevel (rr_opts rr) == DetailLevelSummary then
    if (c_Namespace c != EmptyString) && (c_Namespace c != viewerNamespace)
    then genericSummary (c_ConstraintType c) else own
  else own.

Definition gvrToAPIVersion (gvr : GroupVersionResource) : string :=
  if g_Group gvr == EmptyString then g_Version gvr else g_Group gvr +:+ "/" +:+ g_Version gvr.

(** [string(b)] of a byte: the UTF-8 encoding of that code point. *)
Definition string_of_byte (n : nat) : string :=
  if (n <? 128)%nat then String (ascii_of_nat n) EmptyString
  else String (ascii_of_nat (192 + n / 64)) (String (ascii_of_nat (128 + n mod 64)) EmptyString).

(** [string(resource[0]-32) + resource[1:]], with the byte's wrap-around. *)
Definition lift_first (resource : string) : string :=
  match resource with
  | EmptyString => EmptyString
  | String c rest => string_of_byte ((nat_of_ascii c + 224) mod 256) +:+ rest
  end.

Definition gvrToKindName (gvr : GroupVersionResource) : string :=
  let resource := g_Resource gvr in
  switch resource
    [("networkpolicies", "NetworkPolicy"); ("resourcequotas", "ResourceQuota"); ("limitranges", "LimitRange");
     ("validatingwebhookconfigurations", "ValidatingWebhookConfiguration");
     ("mutatingwebhookconfigurations", "MutatingWebhookConfiguration");
     ("ciliumnetworkpolicies", "CiliumNetworkPolicy");
     ("ciliumclusterwidenetworkpolicies", "CiliumClusterwideNetworkPolicy");
     ("pods", "Pod"); ("deployments", "Deployment"); ("statefulsets", "StatefulSet")]%string
    (lift_first (if (1 <? String.length resource)%nat && strings_HasSuffix resource "s"
                 then String.substring 0 (String.length resource - 1) resource else resource)).

(** The same extraction as [EventBuilder.extractMetrics], into
    v1alpha1.ResourceMetric, which has the fields of [MetricDataPoint]. *)
Definition extractResourceMetrics (c : Constraint) : option (gmap string MetricDataPoint) :=
  match c_Details c with
  | None => None
  | Some d =>
      match d !! "resources"%string with
      | Some (VMap resources) =>
          Some (map_imap (fun name infoRaw => metric_of name <$> as_map infoRaw) resources : gmap string MetricDataPoint)
      | _ => None
      end
  end.

Definition buildMachineEntry (rr : ReportReconciler) (now : Time) (c : Constraint) (viewerNamespace : string)
    : MachineConstraintEntry :=
  {| me_UID := c_UID c;
     me_Name := scopedName rr c viewerNamespace;
     me_ConstraintType := c_ConstraintType c;
     me_Severity := c_Severity c;
     me_Effect := c_Effect c;
     me_SourceRef := mkObjectReference (gvrToAPIVersion (c_Source c)) (gvrToKindName (c_Source c)) (c_Name c) (c_Namespace c);
     me_Remediation := Build (rr_builder rr) c;
     me_Metrics := if c_ConstraintType c == ConstraintTypeResourceLimit then extractResourceMetrics c else None;
     me_Tags := c_Tags c;
     me_LastObserved := now |}.

Definition buildEntry (rr : ReportReconciler) (now : Time) (c : Constraint) (namespace : string) : ConstraintEntry :=
  mkEntry (scopedName rr c namespace) (c_ConstraintType c) (c_Severity c) (scopedMessage rr c namespace)
          (g_Resource (c_Source c)) now.

(** The counters of the loop of [buildReportStatus]. *)
Definition count_severity (sev : Severity) (cs : list Constraint) : Z :=
  foldl (fun n c => if c_Severity c == sev then (n + 1)%Z else n) 0%Z cs.

(** The tags collected by the loop: each once, in order of first occurrence. *)
Definition collect_tags (cs : list Constraint) : list string := unique_loop ∅ (mjoin (c_Tags <$> cs)).

Section reconcile.
Context {AM : Apimachinery}.

Definition constraintToMissingResourceEntry (c : Constraint) (workload : Unstructured) (rb : RemediationBuilder)
    : MissingResourceEntry :=
  {| mr_ExpectedKind := default EmptyString (map_string (c_Details c) "expectedKind");
     mr_ExpectedAPIVersion := default EmptyString (map_string (c_Details c) "expectedAPIVersion");
     mr_Reason := default EmptyString (map_string (c_Details c) "reason");
     mr_Severity := c_Severity c;
     mr_WorkloadKind := GetKind workload;
     mr_WorkloadName := GetName workload;
     mr_Remediation := Build rb c |}.

Definition workloadGVRs : list GroupVersionResource :=
  [mkGVR "apps" "v1" "deployments"; mkGVR "apps" "v1" "statefulsets"; mkGVR "apps" "v1" "daemonsets"].

Definition maxWorkloadsPerReconcile : Z := 100.

(** The answer to [Get] of the report. *)
Inductive GetAnswer :=
  | ReportFound (resourceVersion : string)
  | ReportNotFound
  | GetFailed (err : error).

Record ReconcileEnv := mkReconcileEnv {
  re_order : Shuffle;                                     (**r range over the index *)
  re_sort : Shuffle; re_msort : Shuffle; re_tsort : Shuffle;
  re_now : Time;                                          (**r [metav1.Now()] *)
  re_get : GetAnswer;
  re_write : option error;                                (**r the error of Create or Update *)
  re_workloads : GroupVersionResource -> Z -> list Unstructured + error;  (**r List with its limit *)
  re_eval : RequirementEvalContext;
  re_clock : Time;                                        (**r the evaluator's clock *)
}.

(** The loop over the workloads of one kind. *)
Fixpoint evaluate_workloads (env : ReconcileEnv) (rb : RemediationBuilder) (ws : list Unstructured) (e : Evaluator)
    : Evaluator * list MissingResourceEntry :=
  match ws with
  | [] => (e, [])
  | w :: ws' =>
      let '(e1, cs) := Evaluate (re_clock env) (re_eval env) (Some w) e in
      let '(e2, rest) := evaluate_workloads env rb ws' e1 in
      (e2, ((fun c => constraintToMissingResourceEntry c w rb) <$> cs) ++ rest)
  end.

Fixpoint evaluate_kinds (env : ReconcileEnv) (rb : RemediationBuilder) (gvrs : list GroupVersionResource) (e : Evaluator)
    : Evaluator * list MissingResourceEntry :=
  match gvrs with
  | [] => (e, [])
  | gvr :: gvrs' =>
      match re_workloads env gvr maxWorkloadsPerReconcile with
      | inr _ => evaluate_kinds env rb gvrs' e
      | inl items =>
          let '(e1, m1) := evaluate_workloads env rb items e in
          let '(e2, m2) := evaluate_kinds env rb gvrs' e1 in
          (e2, m1 ++ m2)
      end
  end.

Definition evaluateMissingResources (env : ReconcileEnv) (rr : ReportReconciler)
    : ReportReconciler * list MissingResourceEntry :=
  match rr_evaluator rr with
  | Some e =>
      if rr_dynamicClient rr
      then let '(e', missing) := evaluate_kinds env (rr_builder rr) workloadGVRs e in
           (set_evaluator (Some e') rr, missing)
      else (rr, [])
  | None => (rr, [])
  end.

Definition entry_less (a b : ConstraintEntry) : bool := (severityOrder (ce_Severity a) <? severityOrder (ce_Severity b))%Z.
Definition machine_less (a b : MachineConstraintEntry) : bool :=
  (severityOrder (me_Severity a) <? severityOrder (me_Severity b))%Z.

Definition buildReportStatus (env : ReconcileEnv) (constraints : list Constraint) (namespace : string)
    (rr : ReportReconciler) : ReportReconciler * ConstraintReportStatus :=
  let now := re_now env in
  let entries := (fun c => buildEntry rr now c namespace) <$> constraints in
  let machineEntries := (fun c => buildMachineEntry rr now c namespace) <$> constraints in
  let '(rr', missing) := evaluateMissingResources env rr in
  (rr',
   {| st_ConstraintCount := go_len constraints;
      st_CriticalCount := count_severity SeverityCritical constraints;
      st_WarningCount := count_severity SeverityWarning constraints;
      st_InfoCount := count_severity SeverityInfo constraints;
      st_Constraints := sort_slice entry_less (re_sort env) entries;
      st_MachineReadable :=
        {| mm_SchemaVersion := "1"; mm_GeneratedAt := now; mm_DetailLevel := DefaultDetailLevel (rr_opts rr);
           mm_Constraints := sort_slice machine_less (re_msort env) machineEntries;
           mm_MissingResources := missing;
           mm_Tags := sort_Strings (re_tsort env) (collect_tags constraints) |};
      st_LastUpdated := now |}).

Inductive ApiWrite :=
  | CreateReport (namespace : string) (status : ConstraintReportStatus)
  | UpdateReport (namespace resourceVersion : string) (status : ConstraintReportStatus).

Section index.
Context {Idx : Type} `{ConstraintQuery Idx}.

Definition ReconcileNamespace (env : ReconcileEnv) (idx : Idx) (namespace : string) (rr : ReportReconciler)
    : ReportReconciler * list ApiWrite * option error :=
  let constraints := query_ns (re_order env) idx namespace in
  let write rv :=
    let '(rr', status) := buildReportStatus env constraints namespace rr in
    if rv == EmptyString then (rr', [CreateReport namespace status], re_write env)
    else (rr', [UpdateReport namespace rv status], re_write env) in
  match re_get env with
  | GetFailed err => (rr, [], Some err)
  | ReportNotFound => write EmptyString
  | ReportFound rv => write rv
  end.

(** ** Triggers *)

Definition OnIndexChange (event : IndexEvent) (rr : ReportReconciler) : ReportReconciler :=
  let c := ie_Constraint event in
  let namespaces := c_AffectedNamespaces c ++ (if c_Namespace c != EmptyString then [c_Namespace c] else []) in
  if (c_Namespace c == EmptyString) && (namespaces == []) then set_triggers (pendingTriggers rr) true rr
  else set_triggers (pendingTriggers rr ∪ list_to_set namespaces) (clusterWideTriggered rr) rr.

(** What one namespace of a tick meets. *)
Record TriggerEnv := mkTriggerEnv {
  te_check : Time;                 (**r the instant of the debounce check *)
  te_reconcile : ReconcileEnv;
  te_index : Idx;
  te_done : Time;                  (**r the time recorded after success *)
}.

(** The loop of [processPendingTriggers], with what it writes. *)
Fixpoint trigger_loop (envs : string -> TriggerEnv) (triggers : list string) (rr : ReportReconciler)
    : ReportReconciler * list ApiWrite :=
  match triggers with
  | [] => (rr, [])
  | ns :: rest =>
      let env := envs ns in
      let last := default zero_time (lastReconcile rr !! ns) in
      if (time_Since (te_check env) last <? DebounceDuration (rr_opts rr))%Z
      then trigger_loop envs rest (set_triggers ({[ns]} ∪ pendingTriggers rr) (clusterWideTriggered rr) rr)
      else
        let '(rr1, writes, err) := ReconcileNamespace (te_reconcile env) (te_index env) ns rr in
        let rr2 := match err with
                   | Some _ => rr1
                   | None => set_last (<[ns := te_done env]> (lastReconcile rr1)) rr1
                   end in
        let '(rr3, rest_writes) := trigger_loop envs rest rr2 in
        (rr3, writes ++ rest_writes)
  end.

(** [nss] is the answer to listing the namespaces; [σ] the order of the range. *)
Definition processPendingTriggers (σ : Shuffle) (nss : list string + error) (envs : string -> TriggerEnv)
    (rr : ReportReconciler) : ReportReconciler * list ApiWrite :=
  let triggers := pendingTriggers rr in
  let clusterWide := clusterWideTriggered rr in
  let rr1 := set_triggers ∅ false rr in
  let triggers' :=
    if clusterWide && rr_dynamicClient rr1
    then match nss with inl names => triggers ∪ list_to_set names | inr _ => triggers end
    else triggers in
  trigger_loop envs (shuffle σ (elements triggers')) rr1.

(** What a tick of [Start] meets. *)
Record ReportTick := mkReportTick {
  rt_order : Shuffle; rt_namespaces : list string + error; rt_envs : string -> TriggerEnv }.

(** The loop of [Start], with what it writes; [None] is the panic of
    [time.NewTicker]. *)
Definition Start (wakes : list (Wake ReportTick)) (rr : ReportReconciler) : option (bool * (ReportReconciler * list ApiWrite)) :=
  with_ticker (DebounceDuration (rr_opts rr) ÷ 2)
    (fun t '(rr, writes) =>
       let '(rr', writes') := processPendingTriggers (rt_order t) (rt_namespaces t) (rt_envs t) rr in (rr', writes ++ writes'))
    wakes (rr, []).
End index.
End reconcile.

(** ** The content of a report *)

Lemma count_severity_filter sev (cs : list Constraint) :
  count_severity sev cs = go_len (filter (fun c => c_Severity c = sev) cs).
Proof.
  unfold count_severity. enough (∀ n, foldl (fun n c => if c_Severity c == sev then (n + 1)%Z else n) n cs =
    (n + go_len (filter (fun c => c_Severity c = sev) cs))%Z) as -> by lia.
  induction cs as [|c cs IH]; intros n; simpl; [unfold go_len; simpl; lia|].
  rewrite IH, filter_cons. case_bool_decide; [rewrite decide_True by done|rewrite decide_False by done];
    unfold go_len; simpl; lia.
Qed.

#[export] Instance entry_less_order : StrictWeakOrder entry_less := key_order (fun e => severityOrder (ce_Severity e)).
#[export] Instance machine_less_order : StrictWeakOrder machine_less := key_order (fun e => severityOrder (me_Severity e)).

Definition known_severity (s : Severity) : Prop := s = SeverityCritical ∨ s = SeverityWarning ∨ s = SeverityInfo.

(** The three counters partition the constraints of known severity. *)
Lemma count_severity_total (cs : list Constraint) :
  Forall (fun c => known_severity (c_Severity c)) cs →
  (count_severity SeverityCritical cs + count_severity SeverityWarning cs + count_severity SeverityInfo cs)%Z = go_len cs.
Proof.
  rewrite !count_severity_filter. unfold go_len. induction 1 as [|c cs Hc Hcs IH]; [done|].
  rewrite !filter_cons. destruct Hc as [-> |[-> | ->]]; simpl; lia.
Qed.

Lemma collect_tags_spec (cs : list Constraint) :
  NoDup (collect_tags cs) ∧ ∀ tag, tag ∈ collect_tags cs ↔ ∃ c, c ∈ cs ∧ tag ∈ c_Tags c.
Proof.
  split; [apply NoDup_unique_loop|]. intros tag. unfold collect_tags. rewrite elem_of_unique_loop, list_elem_of_join.
  setoid_rewrite list_elem_of_fmap. set_solver.
Qed.

Section report_lemmas.
Context {AM : Apimachinery}.

(** The parts of a status that do not depend on the evaluator. *)
Lemma buildReportStatus_eq env cs ns rr :
  let st := (buildReportStatus env cs ns rr).2 in
  let now := re_now env in
  st_ConstraintCount st = go_len cs ∧ st_CriticalCount st = count_severity SeverityCritical cs ∧
  st_WarningCount st = count_severity SeverityWarning cs ∧ st_InfoCount st = count_severity SeverityInfo cs ∧
  st_Constraints st = sort_slice entry_less (re_sort env) ((fun c => buildEntry rr now c ns) <$> cs) ∧
  mm_Constraints (st_MachineReadable st) =
    sort_slice machine_less (re_msort env) ((fun c => buildMachineEntry rr now c ns) <$> cs) ∧
  mm_Tags (st_MachineReadable st) = sort_Strings (re_tsort env) (collect_tags cs).
Proof. unfold buildReportStatus. by destruct (evaluateMissingResources env rr). Qed.

(** A report lists every constraint it is built from exactly once, in both
    sections, most severe first; its counters are the numbers of constraints of
    each severity and add up to the total when every severity is one of the
    three; its tags are the tags of the constraints, each once and sorted. *)
Theorem buildReportStatus_spec env cs ns rr :
  let st := (buildReportStatus env cs ns rr).2 in
  let now := re_now env in
  st_ConstraintCount st = go_len cs ∧
  st_CriticalCount st = go_len (filter (fun c => c_Severity c = SeverityCritical) cs) ∧
  st_WarningCount st = go_len (filter (fun c => c_Severity c = SeverityWarning) cs) ∧
  st_InfoCount st = go_len (filter (fun c => c_Severity c = SeverityInfo) cs) ∧
  (Forall (fun c => known_severity (c_Severity c)) cs →
   (st_CriticalCount st + st_WarningCount st + st_InfoCount st = st_ConstraintCount st)%Z) ∧
  st_Constraints st ≡ₚ ((fun c => buildEntry rr now c ns) <$> cs) ∧
  StronglySorted (not_after entry_less) (st_Constraints st) ∧
  mm_Constraints (st_MachineReadable st) ≡ₚ ((fun c => buildMachineEntry rr now c ns) <$> cs) ∧
  StronglySorted (not_after machine_less) (mm_Constraints (st_MachineReadable st)) ∧
  NoDup (mm_Tags (st_MachineReadable st)) ∧
  StronglySorted (not_after string_less) (mm_Tags (st_MachineReadable st)) ∧
  (∀ tag, tag ∈ mm_Tags (st_MachineReadable st) ↔ ∃ c, c ∈ cs ∧ tag ∈ c_Tags c).
Proof.
  cbv zeta. destruct (buildReportStatus_eq env cs ns rr) as (-> & -> & -> & -> & -> & -> & ->).
  destruct (collect_tags_spec cs) as [Hnd Htags]. unfold sort_Strings.
  rewrite <-!count_severity_filter. split_and!; try done.
  - apply count_severity_total.
  - apply sort_slice_perm.
  - apply sort_slice_sorted, _.
  - apply sort_slice_perm.
  - apply sort_slice_sorted, _.
  - by rewrite sort_slice_perm.
  - apply sort_slice_sorted, _.
  - intros tag. by rewrite sort_slice_perm.
Qed.

Context {Idx : Type} `{ConstraintQueryLaws Idx}.

Definition written_status (w : ApiWrite) : ConstraintReportStatus :=
  match w with CreateReport _ st => st | UpdateReport _ _ st => st end.
Definition written_namespace (w : ApiWrite) : string :=
  match w with CreateReport ns _ => ns | UpdateReport ns _ _ => ns end.

(** The error of a reconcile, from the API server's answers. *)
Definition reconcile_error (env : ReconcileEnv) : option error :=
  match re_get env with GetFailed err => Some err | _ => re_write env end.

Lemma ReconcileNamespace_error env (idx : Idx) ns rr : (ReconcileNamespace env idx ns rr).2 = reconcile_error env.
Proof.
  unfold ReconcileNamespace, reconcile_error. destruct (re_get env); [| |done];
    destruct (buildReportStatus _ _ _ _); by case_bool_decide.
Qed.

(** Reconciling does not touch the triggers, the timestamps or the options. *)
Lemma ReconcileNamespace_frame env (idx : Idx) ns rr :
  let rr' := (ReconcileNamespace env idx ns rr).1.1 in
  pendingTriggers rr' = pendingTriggers rr ∧ lastReconcile rr' = lastReconcile rr ∧ rr_opts rr' = rr_opts rr.
Proof.
  assert (∀ e, let rr' := (evaluateMissingResources e rr).1 in
    pendingTriggers rr' = pendingTriggers rr ∧ lastReconcile rr' = lastReconcile rr ∧ rr_opts rr' = rr_opts rr) as He.
  { intros e. unfold evaluateMissingResources. destruct (rr_evaluator rr), (rr_dynamicClient rr); try done.
    by destruct (evaluate_kinds _ _ _ _). }
  assert (∀ cs, (buildReportStatus env cs ns rr).1 = (evaluateMissingResources env rr).1) as Hb.
  { intros cs. unfold buildReportStatus. by destruct (evaluateMissingResources env rr). }
  unfold ReconcileNamespace. specialize (Hb (query_ns (re_order env) idx ns)). specialize (He env).
  rewrite <-Hb in He. destruct (re_get env); [| |done];
    destruct (buildReportStatus _ _ _ _); simpl in *; by repeat case_bool_decide.
Qed.

Lemma ReconcileNamespace_writes env (idx : Idx) ns rr w :
  w ∈ (ReconcileNamespace env idx ns rr).1.2 →
  written_namespace w = ns ∧ written_status w = (buildReportStatus env (query_ns (re_order env) idx ns) ns rr).2.
Proof.
  unfold ReconcileNamespace. destruct (re_get env); [| |set_solver];
    destruct (buildReportStatus _ _ _ _); case_bool_decide; simpl; intros ->%list_elem_of_singleton; done.
Qed.

Lemma ReconcileNamespace_one_write env (idx : Idx) ns rr :
  match re_get env with
  | GetFailed _ => (ReconcileNamespace env idx ns rr).1.2 = []
  | _ => ∃ w, (ReconcileNamespace env idx ns rr).1.2 = [w]
  end.
Proof.
  unfold ReconcileNamespace. destruct (re_get env); [| |done];
    destruct (buildReportStatus _ _ _ _); case_bool_decide; by eexists.
Qed.

Lemma report_covers env (idx : Idx) ns rr c :
  stored idx c → matchesNamespace c ns = true →
  let st := (buildReportStatus env (query_ns (re_order env) idx ns) ns rr).2 in
  buildEntry rr (re_now env) c ns ∈ st_Constraints st ∧
  buildMachineEntry rr (re_now env) c ns ∈ mm_Constraints (st_MachineReadable st).
Proof.
  intros Hc Hm st. subst st. destruct (buildReportStatus_eq env (query_ns (re_order env) idx ns) ns rr) as (_ & _ & _ & _ & -> & -> & _).
  pose proof (proj2 (query_ns_spec (re_order env) idx ns c) (conj Hc Hm)) as Hq.
  rewrite !sort_slice_perm. split; apply list_elem_of_fmap; eauto.
Qed.

Lemma report_covers_only env (idx : Idx) ns rr e :
  e ∈ mm_Constraints (st_MachineReadable (buildReportStatus env (query_ns (re_order env) idx ns) ns rr).2) →
  ∃ c, e = buildMachineEntry rr (re_now env) c ns ∧ stored idx c ∧ matchesNamespace c ns = true.
Proof.
  destruct (buildReportStatus_eq env (query_ns (re_order env) idx ns) ns rr) as (_ & _ & _ & _ & _ & -> & _).
  rewrite sort_slice_perm, list_elem_of_fmap. intros (c & -> & Hc). exists c. split; [done|]. by apply query_ns_spec in Hc.
Qed.

(** C33: reconciling a namespace writes nothing but its report: exactly one
    write unless the report cannot be read, a creation when there is none; the
    report covers exactly the stored constraints that apply to the namespace. *)
Theorem ReconcileNamespace_complete env (idx : Idx) ns rr :
  match re_get env with
  | GetFailed err => (ReconcileNamespace env idx ns rr).1.2 = [] ∧ (ReconcileNamespace env idx ns rr).2 = Some err
  | _ => ∃ w, (ReconcileNamespace env idx ns rr).1.2 = [w] ∧ (ReconcileNamespace env idx ns rr).2 = re_write env ∧
      written_namespace w = ns ∧
      (∀ c, stored idx c → matchesNamespace c ns = true →
         buildEntry rr (re_now env) c ns ∈ st_Constraints (written_status w) ∧
         buildMachineEntry rr (re_now env) c ns ∈ mm_Constraints (st_MachineReadable (written_status w))) ∧
      (∀ e, e ∈ mm_Constraints (st_MachineReadable (written_status w)) →
         ∃ c', e = buildMachineEntry rr (re_now env) c' ns ∧ stored idx c' ∧ matchesNamespace c' ns = true)
  end.
Proof.
  pose proof (ReconcileNamespace_error env idx ns rr) as Herr. unfold reconcile_error in Herr.
  pose proof (ReconcileNamespace_writes env idx ns rr) as Hw.
  pose proof (ReconcileNamespace_one_write env idx ns rr) as Hone.
  destruct (re_get env); [destruct Hone as [w Hone]..|by split];
    (exists w; destruct (Hw w) as [Hns Hst]; [rewrite Hone; left|]; split_and!; [done..| |]; rewrite Hst;
     [intros c Hc Hm; by apply report_covers|intros e He; by apply report_covers_only]).
Qed.
End report_lemmas.

(** ** Triggers *)

Section trigger_lemmas.
Context {AM : Apimachinery} {Idx : Type} `{ConstraintQueryLaws Idx}.
Implicit Types (envs : string -> TriggerEnv (Idx:=Idx)) (rr : ReportReconciler).

(** The namespace is in its debounce window when the tick checks it. *)
Definition debounced envs rr (ns : string) : Prop :=
  (time_Since (te_check (envs ns)) (default zero_time (lastReconcile rr !! ns)) < DebounceDuration (rr_opts rr))%Z.

#[export] Instance debounced_dec envs rr ns : Decision (debounced envs rr ns).
Proof. unfold debounced. apply _. Defined.

Definition succeeds envs (ns : string) : Prop := reconcile_error (te_reconcile (envs ns)) = None.

#[export] Instance succeeds_dec envs ns : Decision (succeeds envs ns).
Proof. unfold succeeds. apply _. Defined.

(** One round of the loop, on a namespace out of its window. *)
Lemma trigger_loop_reconcile envs ns rest rr :
  ¬ debounced envs rr ns →
  ∃ rr2 writes,
    trigger_loop envs (ns :: rest) rr = ((trigger_loop envs rest rr2).1, writes ++ (trigger_loop envs rest rr2).2) ∧
    pendingTriggers rr2 = pendingTriggers rr ∧ rr_opts rr2 = rr_opts rr ∧
    lastReconcile rr2 = (if decide (succeeds envs ns) then <[ns := te_done (envs ns)]> (lastReconcile rr) else lastReconcile rr) ∧
    (∀ w, w ∈ writes → written_namespace w = ns) ∧ (succeeds envs ns → ∃ w, w ∈ writes).
Proof.
  intros Hns. simpl. unfold debounced in Hns. destruct (time_Since _ _ <? _)%Z eqn:Hdb; [by apply Z.ltb_lt in Hdb|].
  pose proof (ReconcileNamespace_error (te_reconcile (envs ns)) (te_index (envs ns)) ns rr) as Herr.
  pose proof (ReconcileNamespace_frame (te_reconcile (envs ns)) (te_index (envs ns)) ns rr) as (Hfp & Hfl & Hfo).
  pose proof (ReconcileNamespace_writes (te_reconcile (envs ns)) (te_index (envs ns)) ns rr) as Hrw.
  pose proof (ReconcileNamespace_one_write (te_reconcile (envs ns)) (te_index (envs ns)) ns rr) as Hone.
  destruct (ReconcileNamespace _ _ _ _) as [[rr1 writes1] err]. simpl in *.
  exists (match err with Some _ => rr1 | None => set_last (<[ns := te_done (envs ns)]> (lastReconcile rr1)) rr1 end), writes1.
  split; [by destruct (trigger_loop envs rest _)|].
  destruct err as [e|].
  { assert (¬ succeeds envs ns) as Hs by (unfold succeeds; by rewrite <-Herr).
    rewrite decide_False by done. split_and!; [done..|by intros w [? _]%Hrw|done]. }
  rewrite decide_True by (unfold succeeds; by rewrite <-Herr). simpl. rewrite Hfl.
  split_and!; [done..|by intros w [? _]%Hrw|].
  intros _. unfold reconcile_error in Herr. destruct (re_get _); [..|done]; destruct Hone as [w ->]; exists w; left.
Qed.

(** The outcome of a loop over distinct namespaces, each of which only meets
    the state it started with. *)
Lemma trigger_loop_spec envs triggers rr :
  NoDup triggers →
  let '(rr', writes) := trigger_loop envs triggers rr in
  (∀ ns, ns ∈ pendingTriggers rr' ↔ ns ∈ pendingTriggers rr ∨ ns ∈ triggers ∧ debounced envs rr ns) ∧
  (∀ ns, lastReconcile rr' !! ns =
         if decide (ns ∈ triggers ∧ ¬ debounced envs rr ns ∧ succeeds envs ns) then Some (te_done (envs ns)) else lastReconcile rr !! ns) ∧
  (∀ w, w ∈ writes → written_namespace w ∈ triggers ∧ ¬ debounced envs rr (written_namespace w)) ∧
  (∀ ns, ns ∈ triggers → ¬ debounced envs rr ns → succeeds envs ns → ∃ w, w ∈ writes ∧ written_namespace w = ns).
Proof.
  revert rr. induction triggers as [|ns triggers IH]; intros rr Hnd.
  { simpl. split_and!; [set_solver|done|set_solver|set_solver]. }
  apply NoDup_cons in Hnd as [Hnin Hnd]. destruct (decide (debounced envs rr ns)) as [Hns|Hns].
  - simpl. rewrite (proj2 (Z.ltb_lt _ _) Hns).
    specialize (IH (set_triggers ({[ns]} ∪ pendingTriggers rr) (clusterWideTriggered rr) rr) Hnd).
    destruct (trigger_loop _ _ _) as [rr' writes]. destruct IH as (Hp & Hl & Hw & He).
    change (debounced envs (set_triggers _ _ rr)) with (debounced envs rr) in *. simpl in *. split_and!.
    + intros ns'. rewrite Hp, elem_of_union, elem_of_singleton, elem_of_cons. naive_solver.
    + intros ns'. rewrite Hl. apply decide_ext. rewrite elem_of_cons. naive_solver.
    + intros w Hin. destruct (Hw w Hin). split; [by right|done].
    + intros ns' [->|Hin]%elem_of_cons; [done|by apply He].
  - destruct (trigger_loop_reconcile envs ns triggers rr Hns) as (rr2 & writes & -> & H2p & H2o & H2l & Hw1 & He1).
    assert (∀ ns', ns' ∈ triggers → debounced envs rr2 ns' ↔ debounced envs rr ns') as Hdeb.
    { intros ns' Hin. unfold debounced. rewrite H2o, H2l. assert (ns ≠ ns') by set_solver.
      case_decide; [by rewrite lookup_insert_ne|done]. }
    specialize (IH rr2 Hnd). destruct (trigger_loop _ _ _) as [rr' rest]. destruct IH as (Hp & Hl & Hw & He). simpl.
    split_and!.
    + intros ns'. rewrite Hp, H2p, elem_of_cons. naive_solver.
    + intros ns'. rewrite Hl, H2l. destruct (decide (ns' = ns)) as [->|Hne].
      * rewrite decide_False by (by intros [? _]). destruct (decide (succeeds envs ns)) as [Hs|Hs].
        -- rewrite lookup_insert_eq, decide_True; [done|]. split_and!; [left|done|done].
        -- rewrite decide_False; [done|]. by intros (_ & _ & ?).
      * destruct (decide (ns' ∈ triggers ∧ _)) as [(Hin & Hd & Hs)|Hno].
        -- rewrite decide_True; [done|]. split_and!; [by right|by rewrite <-Hdeb|done].
        -- rewrite (decide_False (P := ns' ∈ ns :: triggers ∧ ¬ debounced envs rr ns' ∧ succeeds envs ns')); [destruct (decide (succeeds envs ns)); [by rewrite lookup_insert_ne|done]|].
           intros ([->|Hin]%elem_of_cons & Hd & Hs); [done|]. apply Hno. by rewrite Hdeb.
    + intros w [->%Hw1|[Hin Hd]%Hw]%elem_of_app; [split; [left|done]|]. rewrite Hdeb in Hd by done. split; [by right|done].
    + intros ns' [->|Hin]%elem_of_cons Hd Hs.
      * destruct (He1 Hs) as [w Hin]. exists w. split; [apply elem_of_app; by left|by apply Hw1].
      * destruct (He ns' Hin) as (w & ? & ?); [by rewrite Hdeb|done|]. exists w. split; [apply elem_of_app; by right|done].
Qed.

(** The namespaces a tick visits. *)
Definition visited (nss : list string + error) rr : gset string :=
  if clusterWideTriggered rr && rr_dynamicClient rr
  then match nss with inl names => pendingTriggers rr ∪ list_to_set names | inr _ => pendingTriggers rr end
  else pendingTriggers rr.

Lemma processPendingTriggers_loop σ nss envs rr :
  processPendingTriggers σ nss envs rr =
  trigger_loop envs (shuffle σ (elements (visited nss rr))) (set_triggers ∅ false rr).
Proof. done. Qed.

(** A tick writes the report of a namespace only when it is pending and
    its last successful reconcile is at least the debounce duration ago; such a
    namespace is written, and stamped on success; a namespace within the window
    is left pending and not written; what was not visited keeps its stamp.  This
    holds for every iteration order and every answer of the API server. *)
Theorem processPendingTriggers_debounces σ nss envs rr :
  let '(rr', writes) := processPendingTriggers σ nss envs rr in
  (∀ w, w ∈ writes → written_namespace w ∈ visited nss rr ∧ ¬ debounced envs rr (written_namespace w)) ∧
  (∀ ns, ns ∈ pendingTriggers rr' ↔ ns ∈ visited nss rr ∧ debounced envs rr ns) ∧
  (∀ ns, ns ∈ visited nss rr → ¬ debounced envs rr ns → succeeds envs ns →
         (∃ w, w ∈ writes ∧ written_namespace w = ns) ∧ lastReconcile rr' !! ns = Some (te_done (envs ns))) ∧
  (∀ ns, ns ∉ visited nss rr → lastReconcile rr' !! ns = lastReconcile rr !! ns).
Proof.
  rewrite processPendingTriggers_loop.
  pose proof (trigger_loop_spec envs (shuffle σ (elements (visited nss rr))) (set_triggers ∅ false rr)) as Hs.
  destruct (trigger_loop _ _ _) as [rr' writes].
  destruct Hs as (Hp & Hl & Hw & He); [rewrite shuffle_perm; apply NoDup_elements|].
  change (debounced envs (set_triggers ∅ false rr)) with (debounced envs rr) in *. simpl in *.
  assert (∀ ns, ns ∈ shuffle σ (elements (visited nss rr)) ↔ ns ∈ visited nss rr) as Hv.
  { intros ns. by rewrite shuffle_perm, elem_of_elements. }
  setoid_rewrite Hv in Hp. setoid_rewrite Hv in Hw. setoid_rewrite Hv in He.
  split_and!; [done|set_solver| |].
  - intros ns Hin Hd Hs. split; [by apply He|]. rewrite Hl, decide_True; [done|]. by rewrite Hv.
  - intros ns Hin. rewrite Hl, decide_False; [done|]. rewrite Hv. tauto.
Qed.

(** A namespace whose reconcile fails is not tried again: it is neither
    stamped nor left pending, so its report stays stale until the index changes
    once more. *)
Theorem processPendingTriggers_failure_dropped σ nss envs rr ns :
  ns ∈ visited nss rr → ¬ debounced envs rr ns → ¬ succeeds envs ns →
  let rr' := (processPendingTriggers σ nss envs rr).1 in
  (ns ∉ pendingTriggers rr') ∧ lastReconcile rr' !! ns = lastReconcile rr !! ns.
Proof.
  intros Hv Hd Hs. rewrite processPendingTriggers_loop.
  pose proof (trigger_loop_spec envs (shuffle σ (elements (visited nss rr))) (set_triggers ∅ false rr)) as Ht.
  destruct (trigger_loop _ _ _) as [rr' writes].
  destruct Ht as (Hp & Hl & _ & _); [rewrite shuffle_perm; apply NoDup_elements|].
  change (debounced envs (set_triggers ∅ false rr)) with (debounced envs rr) in *. simpl in *.
  split; [rewrite Hp; set_solver|]. rewrite Hl, decide_False; [done|tauto].
Qed.

(** The reconciler that [NewReportReconciler] makes runs unless its debounce
    duration is negative or a single nanosecond, of which the ticker would get
    zero; a debounce duration is only given by [main], as ten seconds. *)
Lemma Start_runs o evaluator dynClient wakes :
  (DebounceDuration o = 0 ∨ 2 ≤ DebounceDuration o)%Z →
  ∃ r, Start (Idx:=Idx) wakes (NewReportReconciler o evaluator dynClient) = Some r.
Proof.
  intros Hd. unfold Start. simpl. eexists. apply with_ticker_Some. case_bool_decide.
  - by vm_compute.
  - apply Z.quot_str_pos. lia.
Qed.

(** An index change marks every namespace the constraint applies to, or
    asks for a cluster-wide pass, for namespaced constraints and for
    cluster-scoped ones that list no affected namespaces. *)
Theorem OnIndexChange_covers event rr ns :
  let c := ie_Constraint event in
  (c_Namespace c ≠ EmptyString ∨ c_AffectedNamespaces c = []) → matchesNamespace c ns = true →
  let rr' := OnIndexChange event rr in
  ns ∈ pendingTriggers rr' ∨ clusterWideTriggered rr' = true.
Proof.
  intros c Hc. rewrite matchesNamespace_spec. unfold OnIndexChange. fold c. intros Hm.
  case_bool_decide as He; simpl.
  - destruct Hc as [?|Hc]; [done|]. rewrite Hc. simpl. by right.
  - left. simpl. apply elem_of_union_r, elem_of_list_to_set. set_solver.
Qed.
End trigger_lemmas.

(** ** Evaluation *)

Definition example_reconciler : ReportReconciler :=
  NewReportReconciler (mkReportOptions 0 EmptyString EmptyString) None false.

Definition example_env (get : GetAnswer) (werr : option error) (now : Time) : ReconcileEnv :=
  mkReconcileEnv in_order in_order reversed in_order now get werr (fun _ _ => inl []) example_eval now.

(** An instant past the range of a Duration. *)
Definition late : Time := 2000000000000 * time_Second.

Definition example_trigger (werr : option error) : string -> TriggerEnv :=
  fun _ => mkTriggerEnv late (example_env ReportNotFound werr late) example_index late.

Definition pending_reconciler : ReportReconciler := set_triggers {[ "dev"%string ]} false example_reconciler.

Lemma buildReportStatus_spec_witness :
  let cs := ByNamespace in_order example_index "dev" in
  let st := (buildReportStatus (example_env ReportNotFound None 0) cs "dev" example_reconciler).2 in
  ce_Severity <$> st_Constraints st = ["Warning"; "Info"]%string ∧
  (st_CriticalCount st + st_WarningCount st + st_InfoCount st = st_ConstraintCount st)%Z.
Proof.
  split; [vm_compute; reflexivity|].
  apply (buildReportStatus_spec (example_env ReportNotFound None 0) (ByNamespace in_order example_index "dev") "dev" example_reconciler).
  vm_compute. repeat constructor; (left; reflexivity) || (right; left; reflexivity) || (right; right; reflexivity).
Defined.

Definition example_writes : list ApiWrite :=
  (ReconcileNamespace (example_env ReportNotFound None 0) example_index "dev" example_reconciler).1.2.

Definition shared_policy : Constraint :=
  example_constraint "u3" networkpolicies_gvr "shared" "infra" ["dev"%string] ConstraintTypeNetworkEgress SeverityWarning.

Lemma ReconcileNamespace_complete_witness :
  ∃ w, example_writes = [w] ∧
  buildEntry example_reconciler 0 shared_policy "dev" ∈ st_Constraints (written_status w).
Proof.
  destruct (ReconcileNamespace_complete (example_env ReportNotFound None 0) example_index "dev" example_reconciler)
    as (w & Hw & _ & _ & Hc & _).
  exists w. split; [exact Hw|]. apply Hc; [exists "u3"%string; reflexivity|reflexivity].
Defined.

Lemma processPendingTriggers_failure_dropped_witness :
  pendingTriggers (processPendingTriggers in_order (inl []) (example_trigger (Some "conflict"%string)) pending_reconciler).1 = ∅ ∧
  "dev"%string ∉ pendingTriggers (processPendingTriggers in_order (inl []) (example_trigger (Some "conflict"%string)) pending_reconciler).1.
Proof.
  split; [vm_compute; reflexivity|].
  apply (processPendingTriggers_failure_dropped in_order (inl []) (example_trigger (Some "conflict"%string)) pending_reconciler "dev").
  - set_solver.
  - vm_compute. congruence.
  - discriminate.
Defined.

Lemma OnIndexChange_covers_witness :
  ("dev"%string ∈ pendingTriggers (OnIndexChange (mkIndexEvent "upsert" shared_policy) example_reconciler)) ∨
  clusterWideTriggered (OnIndexChange (mkIndexEvent "upsert" shared_policy) example_reconciler) = true.
Proof. apply OnIndexChange_covers; [left; discriminate|reflexivity]. Defined.

(** ** Where reports go stale or say too much *)

(** A cluster-scoped constraint that lists an affected namespace. *)
Definition scoped_cluster_policy : Constraint :=
  example_constraint "u7" (mkGVR "kyverno.io" "v1" "clusterpolicies") "require-labels" EmptyString ["prod"%string]
    ConstraintTypeAdmission SeverityCritical.

(** A cluster-scoped constraint that lists affected namespaces applies to
    every namespace in the index, but its change only triggers the listed ones:
    the reports of the others are not refreshed. *)
Theorem OnIndexChange_misses_namespace :
  let rr := OnIndexChange (mkIndexEvent "upsert" scoped_cluster_policy) example_reconciler in
  matchesNamespace scoped_cluster_policy "dev" = true ∧ ("dev"%string ∉ pendingTriggers rr) ∧ clusterWideTriggered rr = false.
Proof. split_and!; [reflexivity|vm_compute; set_solver|reflexivity]. Qed.

Section privacy.
Context {AM : Apimachinery} {Idx : Type} `{ConstraintQueryLaws Idx}.

(** At summary level the human-readable entry of a cross-namespace
    constraint does not depend on its name, namespace or summary text. *)
Theorem report_entry_noninterference rr now viewer c n1 ns1 s1 n2 ns2 s2 :
  DefaultDetailLevel (rr_opts rr) = DetailLevelSummary →
  ns1 ≠ EmptyString → ns2 ≠ EmptyString → ns1 ≠ viewer → ns2 ≠ viewer →
  buildEntry rr now (with_identity n1 ns1 s1 c) viewer = buildEntry rr now (with_identity n2 ns2 s2 c) viewer.
Proof.
  intros Hl He1 He2 Hv1 Hv2. unfold buildEntry, scopedName, scopedMessage. rewrite Hl. simpl.
  rewrite !(bool_decide_eq_false_2 (ns1 = _)), !(bool_decide_eq_false_2 (ns2 = _)) by done. done.
Qed.

(** The machine-readable section of the same report names the policy: every
    cross-namespace constraint is listed as [cluster-policy] but with a source
    reference that holds its name and its namespace. *)
Theorem report_leaks_policy env (idx : Idx) ns rr w c :
  DefaultDetailLevel (rr_opts rr) = DetailLevelSummary →
  w ∈ (ReconcileNamespace env idx ns rr).1.2 →
  stored idx c → matchesNamespace c ns = true → c_Namespace c ≠ EmptyString → c_Namespace c ≠ ns →
  ∃ e, e ∈ mm_Constraints (st_MachineReadable (written_status w)) ∧ me_Name e = "cluster-policy"%string ∧
       or_Name (me_SourceRef e) = c_Name c ∧ or_Namespace (me_SourceRef e) = c_Namespace c.
Proof.
  intros Hl Hw Hst Hm He Hne. exists (buildMachineEntry rr (re_now env) c ns).
  apply ReconcileNamespace_writes in Hw as [_ ->].
  destruct (buildReportStatus_eq env (query_ns (re_order env) idx ns) ns rr) as (_ & _ & _ & _ & _ & -> & _).
  split_and!; [| |done|done].
  - rewrite sort_slice_perm. apply list_elem_of_fmap. exists c. split; [done|]. by apply query_ns_spec.
  - simpl. unfold scopedName. rewrite Hl. simpl. by rewrite !(bool_decide_eq_false_2 (c_Namespace c = _)).
Qed.
End privacy.

Lemma report_entry_noninterference_witness :
  buildEntry example_reconciler 0 (with_identity "a" "prod" "x" shared_policy) "dev" =
  buildEntry example_reconciler 0 (with_identity "b" "stage" "y" shared_policy) "dev".
Proof. apply report_entry_noninterference; (reflexivity || discriminate). Defined.

Lemma report_leaks_policy_witness :
  ∃ w e, w ∈ example_writes ∧ e ∈ mm_Constraints (st_MachineReadable (written_status w)) ∧
         me_Name e = "cluster-policy"%string ∧ or_Name (me_SourceRef e) = "shared"%string ∧
         or_Namespace (me_SourceRef e) = "infra"%string.
Proof.
  eexists.
  destruct (report_leaks_policy (example_env ReportNotFound None 0) example_index "dev" example_reconciler _ shared_policy
    eq_refl ltac:(left) (ex_intro _ "u3"%string eq_refl) eq_refl ltac:(discriminate) ltac:(discriminate)) as (e & He).
  exists e. split; [left|exact He].
Defined.

Lemma processPendingTriggers_debounces_witness :
  lastReconcile (processPendingTriggers in_order (inl []) (example_trigger None) pending_reconciler).1 !! "dev"%string =
    Some (te_done (example_trigger None "dev"%string)).
Proof.
  pose proof (processPendingTriggers_debounces in_order (inl []) (example_trigger None) pending_reconciler) as Hp.
  destruct (processPendingTriggers in_order (inl []) (example_trigger None) pending_reconciler) as [rr' writes].
  destruct Hp as (_ & _ & Hs & _). apply Hs.
  - apply (bool_decide_unpack _). vm_compute. exact I.
  - apply (bool_decide_unpack _). vm_compute. exact I.
  - vm_compute. reflexivity.
Defined.
