(* ===== verification/WorkloadAnnotator.v ===== *)
(** * The workload annotator (internal/notifier/workload_annotator.go)

    Changes of the index queue updates of namespaces, or of the whole
    cluster, on a bounded channel; workers expand them into updates of the
    workloads and patch the workloads' annotations, at most once per debounce
    window.  [None] is a panic: a send on the channel after Start has closed
    it.  The answers of the API server and the readings of the clock of one
    update are its [AnnotatorEnv]; a patch is a returned effect. *)

From S2P Require Import Prelude GoStd Encoding Types Apimachinery Util Indexer Channel.
From Stdlib Require Import Ascii.

Open Scope go_scope.
#[local] Open Scope string_scope.

Definition nsWorkloadCacheTTL : Duration := 30 * time_Second.

Definition namespaceWorkloadKinds : list (string * GroupVersionResource) :=
  [("Deployment", mkGVR "apps" "v1" "deployments"); ("StatefulSet", mkGVR "apps" "v1" "statefulsets");
   ("DaemonSet", mkGVR "apps" "v1" "daemonsets")].

(** *** Annotation keys (internal/annotations/keys.go) *)

Definition WorkloadStatus : string := "nightjar.io/status".
Definition WorkloadLastEvaluated : string := "nightjar.io/last-evaluated".
Definition WorkloadConstraints : string := "nightjar.io/constraints".
Definition WorkloadMaxSeverity : string := "nightjar.io/max-severity".
Definition WorkloadCriticalCount : string := "nightjar.io/critical-count".
Definition WorkloadWarningCount : string := "nightjar.io/warning-count".
Definition WorkloadInfoCount : string := "nightjar.io/info-count".

(** *** State *)

Record workloadKey := mkKey { wk_Namespace : string; wk_Kind : string; wk_Name : string }.

#[export] Instance workloadKey_eq_dec : EqDecision workloadKey.
Proof. solve_decision. Defined.
#[export] Program Instance workloadKey_countable : Countable workloadKey :=
  inj_countable' (fun k => (wk_Namespace k, wk_Kind k, wk_Name k)) (fun t => mkKey t.1.1 t.1.2 t.2) _.
Next Obligation. by intros []. Qed.

Record pendingUpdate := mkPending { pu_key : workloadKey; pu_scheduled : Time }.

Record nsWorkloadCache := mkNsCache { nc_workloads : list workloadKey; nc_fetchedAt : Time }.

Record WorkloadAnnotatorOptions := mkAnnotatorOptions { DebounceDuration : Duration; Workers : Z }.

Definition DefaultWorkloadAnnotatorOptions : WorkloadAnnotatorOptions := mkAnnotatorOptions (30 * time_Second) 5.

Record WorkloadAnnotator := mkAnnotator {
  wa_opts : WorkloadAnnotatorOptions;
  wa_lastPatch : gmap workloadKey Time;
  wa_pending : Chan pendingUpdate;
  wa_nsCache : gmap string nsWorkloadCache;
}.

Definition set_pending (ch : Chan pendingUpdate) (wa : WorkloadAnnotator) : WorkloadAnnotator :=
  mkAnnotator (wa_opts wa) (wa_lastPatch wa) ch (wa_nsCache wa).

Definition NewWorkloadAnnotator (opts : WorkloadAnnotatorOptions) : WorkloadAnnotator :=
  mkAnnotator (mkAnnotatorOptions (if DebounceDuration opts == 0%Z then 30 * time_Second else DebounceDuration opts)%Z
                                  (if Workers opts == 0%Z then 5 else Workers opts)%Z)
              ∅ (make_chan 1000) ∅.

(** [Start] closes the queue when its context is done. *)
Definition Start_shutdown (wa : WorkloadAnnotator) : WorkloadAnnotator := set_pending (ch_close (wa_pending wa)) wa.

(** *** The queue *)

Definition clusterWideSentinel : string := String (ascii_of_nat 0) "cluster-wide".

(** [select { case wa.pending <- pendingUpdate{key, now}: default: }] *)
Definition enqueue (now : Time) (key : workloadKey) (wa : WorkloadAnnotator) : option WorkloadAnnotator :=
  match select_send false true (mkPending key now) (wa_pending wa) with
  | Sent ch => Some (set_pending ch wa)
  | PanicClosed => None
  | _ => Some wa
  end.

Definition queueNamespaceUpdate (now : Time) (namespace : string) : WorkloadAnnotator -> option WorkloadAnnotator :=
  enqueue now (mkKey namespace EmptyString EmptyString).

Definition queueClusterWideUpdate (now : Time) : WorkloadAnnotator -> option WorkloadAnnotator :=
  enqueue now (mkKey clusterWideSentinel EmptyString EmptyString).

(** The loop over [AffectedNamespaces], with its [seen] set. *)
Fixpoint affected_loop (now : Time) (seen : gset string) (affected : list string) (wa : WorkloadAnnotator)
    : option (gset string * WorkloadAnnotator) :=
  match affected with
  | [] => Some (seen, wa)
  | ns :: rest =>
      if bool_decide (ns ∈ seen) then affected_loop now seen rest wa
      else wa1 ← queueNamespaceUpdate now ns wa; affected_loop now ({[ns]} ∪ seen) rest wa1
  end.

Definition OnIndexChange (now : Time) (event : IndexEvent) (wa : WorkloadAnnotator) : option WorkloadAnnotator :=
  let c := ie_Constraint event in
  '(seen, wa1) ← affected_loop now ∅ (c_AffectedNamespaces c) wa;
  wa2 ← (if (c_Namespace c != EmptyString) && negb (bool_decide (c_Namespace c ∈ seen))
         then queueNamespaceUpdate now (c_Namespace c) wa1 else Some wa1);
  if (c_Namespace c == EmptyString) && (size seen == 0%nat) then queueClusterWideUpdate now wa2 else Some wa2.

Definition debounced (now : Time) (key : workloadKey) (wa : WorkloadAnnotator) : bool :=
  (time_Since now (default zero_time (wa_lastPatch wa !! key)) <? DebounceDuration (wa_opts wa))%Z.

Definition QueueWorkloadUpdate (now : Time) (namespace kind name : string) (wa : WorkloadAnnotator) : option WorkloadAnnotator :=
  let key := mkKey namespace kind name in
  if debounced now key wa then Some wa else enqueue now key wa.

(** *** One update *)

(** What the API server answers and the clock shows during one update. *)
Record AnnotatorEnv := mkAnnotatorEnv {
  ae_now : Time;                                                 (**r the first reading *)
  ae_fetched : Time;                                             (**r when a fetched list is cached *)
  ae_queued : nat -> Time;                                       (**r the readings of the queueing loops *)
  ae_evaluated : Time;                                           (**r when the annotations are built *)
  ae_patched : Time;                                             (**r after the patch *)
  ae_namespaces : list string + error;                           (**r the names of all namespaces *)
  ae_workloads : GroupVersionResource -> list string + error;    (**r the names in the update's namespace *)
  ae_patch : option error;                                       (**r the answer to the patch *)
  ae_order : Shuffle;
}.

Definition kind_workloads (env : AnnotatorEnv) (namespace : string) (wk : string * GroupVersionResource) : list workloadKey :=
  match ae_workloads env wk.2 with
  | inr _ => []
  | inl names => mkKey namespace wk.1 <$> names
  end.

Definition listNamespaceWorkloads (env : AnnotatorEnv) (namespace : string) (wa : WorkloadAnnotator)
    : WorkloadAnnotator * list workloadKey :=
  let fetch :=
    let result := mjoin (kind_workloads env namespace <$> namespaceWorkloadKinds) in
    (mkAnnotator (wa_opts wa) (wa_lastPatch wa) (wa_pending wa)
                 (<[namespace := mkNsCache result (ae_fetched env)]> (wa_nsCache wa)), result) in
  if namespace == EmptyString then (wa, [])
  else match wa_nsCache wa !! namespace with
  | Some cached => if (time_Since (ae_now env) (nc_fetchedAt cached) <? nsWorkloadCacheTTL)%Z
                   then (wa, nc_workloads cached) else fetch
  | None => fetch
  end.

Definition listAllNamespaces (env : AnnotatorEnv) : list string + error := ae_namespaces env.

(** The two queueing loops of [processUpdate]; [i] counts the clock readings. *)
Fixpoint namespaces_loop (env : AnnotatorEnv) (i : nat) (namespaces : list string) (wa : WorkloadAnnotator)
    : option WorkloadAnnotator :=
  match namespaces with
  | [] => Some wa
  | ns :: rest => wa1 ← queueNamespaceUpdate (ae_queued env i) ns wa; namespaces_loop env (S i) rest wa1
  end.
Fixpoint workloads_loop (env : AnnotatorEnv) (i : nat) (keys : list workloadKey) (wa : WorkloadAnnotator)
    : option WorkloadAnnotator :=
  match keys with
  | [] => Some wa
  | k :: rest =>
      wa1 ← QueueWorkloadUpdate (ae_queued env i) (wk_Namespace k) (wk_Kind k) (wk_Name k) wa;
      workloads_loop env (S i) rest wa1
  end.

(** *** Annotations *)

Record ConstraintSummary := mkConstraintSummary { cs_Type : string; cs_Severity : string; cs_Name : string; cs_Source : string }.

Definition summary_of (c : Constraint) : ConstraintSummary :=
  mkConstraintSummary (c_ConstraintType c) (c_Severity c) (c_Name c) (g_Resource (c_Source c)).

(** Its fields with their JSON names. *)
Definition summary_fields (s : ConstraintSummary) : list (string * string) :=
  [("type", cs_Type s); ("severity", cs_Severity s); ("name", cs_Name s); ("source", cs_Source s)].

(** [joinWithComma] *)
Fixpoint join_loop (result : string) (parts : list string) : string :=
  match parts with
  | [] => result
  | p :: rest => join_loop (result +:+ ", " +:+ p) rest
  end.
Definition joinWithComma (parts : list string) : string :=
  match parts with
  | [] => EmptyString
  | [p] => p
  | p :: rest => join_loop p rest
  end.

Definition buildStatusString (total critical warning : Z) : string :=
  if total == 0%Z then "No constraints"
  else
    let parts := ((if (0 <? critical)%Z then [fmt_d critical +:+ " critical"] else []) ++
                  (if (0 <? warning)%Z then [fmt_d warning +:+ " warning"] else []))%list in
    match parts with
    | [] => fmt_d total +:+ " constraints"
    | _ => fmt_d total +:+ " constraints (" +:+ joinWithComma parts +:+ ")"
    end.

(** The counters of [buildAnnotationPatch]. *)
Record Counts := mkCounts { n_critical : Z; n_warning : Z; n_info : Z; n_max : string }.

Definition count_one (k : Counts) (c : Constraint) : Counts :=
  switch (c_Severity c)
    [(SeverityCritical, mkCounts (n_critical k + 1) (n_warning k) (n_info k) "critical");
     (SeverityWarning, mkCounts (n_critical k) (n_warning k + 1) (n_info k)
                                (if n_max k != "critical" then "warning" else n_max k));
     (SeverityInfo, mkCounts (n_critical k) (n_warning k) (n_info k + 1)
                             (if n_max k == "none" then "info" else n_max k))] k.

Definition count_all (constraints : list Constraint) : Counts := foldl count_one (mkCounts 0 0 0 "none") constraints.

(** [metadata.annotations] of the patch; [None] is null. *)
Abbreviation AnnotationPatch := (gmap string (option string)) (only parsing).

Definition annotation_keys : list string :=
  [WorkloadStatus; WorkloadConstraints; WorkloadMaxSeverity; WorkloadCriticalCount; WorkloadWarningCount; WorkloadInfoCount;
   WorkloadLastEvaluated].

Definition buildAnnotationPatch (now : Time) (constraints : list Constraint) : AnnotationPatch :=
  if constraints == [] then list_to_map ((fun k => (k, None)) <$> annotation_keys)
  else
    let k := count_all constraints in
    {[ WorkloadStatus := Some (buildStatusString (go_len constraints) (n_critical k) (n_warning k));
       WorkloadConstraints := Some (json_objects ((fun c => summary_fields (summary_of c)) <$> constraints));
       WorkloadMaxSeverity := Some (n_max k);
       WorkloadCriticalCount := Some (fmt_d (n_critical k));
       WorkloadWarningCount := Some (fmt_d (n_warning k));
       WorkloadInfoCount := Some (fmt_d (n_info k));
       WorkloadLastEvaluated := Some (format_RFC3339 now) ]}.

Definition kindToGVR (kind : string) : GroupVersionResource + error :=
  switch kind
    [("Deployment", inl (mkGVR "apps" "v1" "deployments")); ("StatefulSet", inl (mkGVR "apps" "v1" "statefulsets"));
     ("DaemonSet", inl (mkGVR "apps" "v1" "daemonsets")); ("ReplicaSet", inl (mkGVR "apps" "v1" "replicasets"));
     ("Job", inl (mkGVR "batch" "v1" "jobs")); ("CronJob", inl (mkGVR "batch" "v1" "cronjobs"));
     ("Pod", inl (mkGVR EmptyString "v1" "pods"))]
    (inr ("unsupported workload kind: " +:+ kind)).

(** A merge patch sent to the API server, and whether it was accepted. *)
Record PatchCall := mkPatchCall {
  pc_GVR : GroupVersionResource; pc_key : workloadKey; pc_Patch : AnnotationPatch; pc_at : Time; pc_ok : bool }.

(** The calls it makes and its error. *)
Definition applyPatch (env : AnnotatorEnv) (key : workloadKey) (patch : AnnotationPatch) : list PatchCall * option error :=
  match kindToGVR (wk_Kind key) with
  | inr err => ([], Some err)
  | inl gvr => ([mkPatchCall gvr key patch (ae_evaluated env) (ae_patch env == None)], ae_patch env)
  end.

Section worker.
Context {Idx : Type} `{ConstraintQuery Idx}.

(** [processUpdate] up to the debounce check; [true] when the worker goes on
    to patch the workload. *)
Definition begin_update (env : AnnotatorEnv) (key : workloadKey) (wa : WorkloadAnnotator) : option (WorkloadAnnotator * bool) :=
  if wk_Namespace key == clusterWideSentinel then
    match listAllNamespaces env with
    | inr _ => Some (wa, false)
    | inl namespaces => wa1 ← namespaces_loop env 0 namespaces wa; Some (wa1, false)
    end
  else if (wk_Kind key == EmptyString) || (wk_Name key == EmptyString) then
    let '(wa1, workloads) := listNamespaceWorkloads env (wk_Namespace key) wa in
    wa2 ← workloads_loop env 0 workloads wa1; Some (wa2, false)
  else Some (wa, negb (debounced (ae_now env) key wa)).

(** The rest: build the annotations and patch, remember when. *)
Definition patch_update (env : AnnotatorEnv) (idx : Idx) (key : workloadKey) : list PatchCall * option error :=
  let constraints := query_ns (ae_order env) idx (wk_Namespace key) in
  applyPatch env key (buildAnnotationPatch (ae_evaluated env) constraints).
Definition stamp_update (now : Time) (key : workloadKey) (wa : WorkloadAnnotator) : WorkloadAnnotator :=
  mkAnnotator (wa_opts wa) (<[key := now]> (wa_lastPatch wa)) (wa_pending wa) (wa_nsCache wa).
Definition finish_update (env : AnnotatorEnv) (idx : Idx) (key : workloadKey) (wa : WorkloadAnnotator)
    : WorkloadAnnotator * list PatchCall :=
  match patch_update env idx key with
  | (calls, Some _) => (wa, calls)
  | (calls, None) => (stamp_update (ae_patched env) key wa, calls)
  end.

Definition processUpdate (env : AnnotatorEnv) (idx : Idx) (update : pendingUpdate) (wa : WorkloadAnnotator)
    : option (WorkloadAnnotator * list PatchCall) :=
  '(wa1, go) ← begin_update env (pu_key update) wa;
  Some (if go : bool then finish_update env idx (pu_key update) wa1 else (wa1, [])).

(** One round of [worker] while its context is live: it waits while the queue
    is empty. *)
Definition worker_round (env : AnnotatorEnv) (idx : Idx) (wa : WorkloadAnnotator) : option (WorkloadAnnotator * list PatchCall) :=
  match ch_buf (wa_pending wa) with
  | [] => Some (wa, [])
  | update :: _ => processUpdate env idx update (set_pending (ch_take 1 (wa_pending wa)) wa)
  end.

(** One round of [worker]: [done] says that the context is cancelled, [pick]
    which of the ready cases is taken; [true] when the worker returns, which it
    also does on a closed queue that is empty. *)
Definition worker (done pick : bool) (env : AnnotatorEnv) (idx : Idx) (wa : WorkloadAnnotator)
    : option (bool * WorkloadAnnotator * list PatchCall) :=
  match ch_buf (wa_pending wa) with
  | [] => Some (done || ch_closed (wa_pending wa), wa, [])
  | _ => if done && negb pick then Some (true, wa, [])
         else '(wa', calls) ← worker_round env idx wa; Some (false, wa', calls)
  end.
End worker.

(** ** What the queueing operations do to the queue *)

Definition keys_of (wa : WorkloadAnnotator) : list workloadKey := pu_key <$> ch_buf (wa_pending wa).
Definition is_open (wa : WorkloadAnnotator) : Prop := ch_closed (wa_pending wa) = false.

(** How many updates the queue still takes. *)
Definition room (wa : WorkloadAnnotator) : nat := Z.to_nat (ch_cap (wa_pending wa) - go_len (ch_buf (wa_pending wa))).

(** From [wa] to [wa'] the keys were offered to the queue in this order: the
    first ones were taken as long as there was room, nothing else changed. *)
Record offered (keys : list workloadKey) (wa wa' : WorkloadAnnotator) : Prop := {
  of_opts : wa_opts wa' = wa_opts wa;
  of_lastPatch : wa_lastPatch wa' = wa_lastPatch wa;
  of_nsCache : wa_nsCache wa' = wa_nsCache wa;
  of_open : is_open wa';
  of_cap : ch_cap (wa_pending wa') = ch_cap (wa_pending wa);
  of_keys : keys_of wa' = (keys_of wa ++ take (room wa) keys)%list;
}.

Lemma room_keys wa : room wa = Z.to_nat (ch_cap (wa_pending wa) - go_len (keys_of wa)).
Proof. unfold room, keys_of, go_len. by rewrite length_fmap. Qed.

Lemma offered_nil wa : is_open wa → offered [] wa wa.
Proof. intros Ho. split; try done. by rewrite take_nil, app_nil_r. Qed.

Lemma offered_app k1 k2 wa wa1 wa2 : offered k1 wa wa1 → offered k2 wa1 wa2 → offered (k1 ++ k2) wa wa2.
Proof.
  intros [A1 A2 A3 A4 A5 A6] [B1 B2 B3 B4 B5 B6]. split; try congruence.
  rewrite B6, A6, <-app_assoc, take_app. f_equal. f_equal. f_equal.
  rewrite !room_keys, A5, A6. unfold go_len. rewrite !length_app, length_take. rewrite room_keys. unfold go_len. lia.
Qed.

Lemma enqueue_offered now key wa : is_open wa → ∃ wa', enqueue now key wa = Some wa' ∧ offered [key] wa wa'.
Proof.
  intros Ho. unfold enqueue, select_send, send_ready, ch_send. unfold is_open in Ho. rewrite Ho. simpl.
  destruct (_ <? _)%Z eqn:Hlt; [apply Z.ltb_lt in Hlt|apply Z.ltb_ge in Hlt]; eexists; (split; [done|]); split; try done.
  - unfold keys_of, room. simpl. rewrite fmap_app. destruct (Z.to_nat _) as [|n] eqn:E; [lia|]. simpl. by rewrite take_nil.
  - unfold room. replace (Z.to_nat _) with 0%nat by lia. by rewrite app_nil_r.
Qed.

Lemma namespaces_loop_offered env i namespaces wa :
  is_open wa → ∃ wa', namespaces_loop env i namespaces wa = Some wa' ∧
                      offered ((fun ns => mkKey ns EmptyString EmptyString) <$> namespaces) wa wa'.
Proof.
  revert i wa. induction namespaces as [|ns l IH]; intros i wa Ho; simpl; [eexists; split; [done|by apply offered_nil]|].
  destruct (enqueue_offered (ae_queued env i) (mkKey ns EmptyString EmptyString) wa Ho) as (wa1 & H1 & O1).
  destruct (IH (S i) wa1 (of_open _ _ _ O1)) as (wa2 & H2 & O2). exists wa2.
  unfold queueNamespaceUpdate. rewrite H1. split; [done|]. by apply (offered_app [_] _ _ wa1).
Qed.

(** A workload update within its debounce window is not offered. *)
Fixpoint due (env : AnnotatorEnv) (i : nat) (keys : list workloadKey) (wa : WorkloadAnnotator) : list workloadKey :=
  match keys with
  | [] => []
  | k :: rest => if debounced (ae_queued env i) k wa then due env (S i) rest wa else k :: due env (S i) rest wa
  end.

Lemma debounced_ext now key wa wa' :
  wa_opts wa' = wa_opts wa → wa_lastPatch wa' = wa_lastPatch wa → debounced now key wa' = debounced now key wa.
Proof. unfold debounced. by intros -> ->. Qed.

Lemma due_ext env i keys wa wa' :
  wa_opts wa' = wa_opts wa → wa_lastPatch wa' = wa_lastPatch wa → due env i keys wa' = due env i keys wa.
Proof.
  intros Ho Hl. revert i. induction keys as [|k l IH]; intros i; simpl; [done|].
  by rewrite (debounced_ext _ _ _ _ Ho Hl), IH.
Qed.

Lemma due_sublist env i keys wa : due env i keys wa `sublist_of` keys.
Proof. revert i. induction keys as [|k l IH]; intros i; simpl; [constructor|]. case_match; by constructor. Qed.

Lemma workloads_loop_offered env i keys wa :
  is_open wa → ∃ wa', workloads_loop env i keys wa = Some wa' ∧ offered (due env i keys wa) wa wa'.
Proof.
  revert i wa. induction keys as [|k l IH]; intros i wa Ho; simpl; [eexists; split; [done|by apply offered_nil]|].
  unfold QueueWorkloadUpdate. replace (mkKey (wk_Namespace k) (wk_Kind k) (wk_Name k)) with k by (by destruct k).
  destruct (debounced (ae_queued env i) k wa); simpl; [by apply IH|].
  destruct (enqueue_offered (ae_queued env i) k wa Ho) as (wa1 & -> & O1). simpl.
  destruct (IH (S i) wa1 (of_open _ _ _ O1)) as (wa2 & H2 & O2). exists wa2. split; [done|].
  rewrite <-(due_ext env (S i) l wa wa1) by apply O1. by apply (offered_app [_] _ _ wa1).
Qed.

(** ** Changes of the index *)

(** The keys a change is to queue: its namespaces, each once, or the whole
    cluster when it names none. *)
Definition change_keys (c : Constraint) : list workloadKey :=
  let named := unique_loop ∅ (c_AffectedNamespaces c ++ (if c_Namespace c == EmptyString then [] else [c_Namespace c]))%list in
  (fun ns => mkKey ns EmptyString EmptyString) <$> (if named == [] then [clusterWideSentinel] else named).

Lemma unique_loop_app seen l1 l2 :
  unique_loop seen (l1 ++ l2) = (unique_loop seen l1 ++ unique_loop (list_to_set l1 ∪ seen) l2)%list.
Proof.
  revert seen. induction l1 as [|v l1 IH]; intros seen; simpl; [by rewrite (left_id_L ∅ _)|].
  case_bool_decide as Hv; rewrite IH.
  - assert (list_to_set l1 ∪ seen = {[v]} ∪ list_to_set l1 ∪ seen) as -> by set_solver. done.
  - assert (list_to_set l1 ∪ ({[v]} ∪ seen) = {[v]} ∪ list_to_set l1 ∪ seen) as -> by set_solver. done.
Qed.

Definition namespace_keys (l : list string) : list workloadKey := (fun ns => mkKey ns EmptyString EmptyString) <$> l.

Lemma affected_loop_offered now seen l wa :
  is_open wa → ∃ wa', affected_loop now seen l wa = Some (list_to_set l ∪ seen, wa') ∧
                      offered (namespace_keys (unique_loop seen l)) wa wa'.
Proof.
  revert seen wa. induction l as [|ns l IH]; intros seen wa Ho; simpl.
  { exists wa. rewrite (left_id_L ∅ _). split; [done|by apply offered_nil]. }
  case_bool_decide as Hv.
  - destruct (IH seen wa Ho) as (wa' & -> & O). exists wa'. split; [|done].
    assert (list_to_set l ∪ seen = {[ns]} ∪ list_to_set l ∪ seen) as -> by set_solver. done.
  - destruct (enqueue_offered now (mkKey ns EmptyString EmptyString) wa Ho) as (wa1 & H1 & O1).
    unfold queueNamespaceUpdate. rewrite H1. simpl. destruct (IH ({[ns]} ∪ seen) wa1 (of_open _ _ _ O1)) as (wa2 & -> & O2).
    exists wa2. assert (list_to_set l ∪ ({[ns]} ∪ seen) = {[ns]} ∪ list_to_set l ∪ seen) as -> by set_solver.
    split; [done|]. by apply (offered_app [_] _ _ wa1).
Qed.

Lemma OnIndexChange_offers now event wa :
  is_open wa → ∃ wa', OnIndexChange now event wa = Some wa' ∧ offered (change_keys (ie_Constraint event)) wa wa'.
Proof.
  intros Ho. unfold OnIndexChange, change_keys. set (c := ie_Constraint event).
  destruct (affected_loop_offered now ∅ (c_AffectedNamespaces c) wa Ho) as (wa1 & -> & O1). simpl mbind.
  rewrite (right_id_L ∅ (∪)), unique_loop_app, (right_id_L ∅ (∪)).
  assert ((size (list_to_set (c_AffectedNamespaces c) : gset string) == 0%nat) = (unique_loop ∅ (c_AffectedNamespaces c) == [])) as ->.
  { apply bool_decide_ext. destruct (c_AffectedNamespaces c) as [|a l] eqn:Ha; [done|].
    split; [|intros Hu; assert (a ∈ ([] : list string)) as Ha2%not_elem_of_nil by (rewrite <-Hu; apply elem_of_unique_loop; set_solver); done].
    rewrite size_empty_iff. set_solver. }
  destruct (bool_decide_reflect (c_Namespace c = EmptyString)) as [He|He]; simpl.
  - rewrite app_nil_r. case_bool_decide as Hu; simpl; [|by eexists].
    rewrite Hu in *. destruct (enqueue_offered now (mkKey clusterWideSentinel EmptyString EmptyString) wa1 (of_open _ _ _ O1)) as (wa2 & H2 & O2).
    exists wa2. split; [done|]. by apply (offered_app [] _ _ wa1).
  - case_bool_decide as Hin; simpl.
    + rewrite app_nil_r. exists wa1. split; [done|]. rewrite bool_decide_false; [done|].
      intros Hu. assert (c_Namespace c ∈ ([] : list string)) as []%not_elem_of_nil. rewrite <-Hu, elem_of_unique_loop. set_solver.
    + destruct (enqueue_offered now (mkKey (c_Namespace c) EmptyString EmptyString) wa1 (of_open _ _ _ O1)) as (wa2 & H2 & O2).
      unfold queueNamespaceUpdate. rewrite H2. exists wa2. split; [done|].
      rewrite bool_decide_false by (by destruct (unique_loop ∅ _)). rewrite fmap_app. by apply (offered_app _ _ _ wa1).
Qed.

(** While the annotator runs, a change of a constraint is never lost
    silently: it offers the queue every namespace the constraint names, each
    once and in order, or the whole cluster when it names none; then every
    namespace that the index reports the constraint for is covered, unless
    the constraint is cluster-scoped and names namespaces. *)
Theorem annotator_change_covers now event wa :
  is_open wa →
  let c := ie_Constraint event in
  (∃ wa', OnIndexChange now event wa = Some wa' ∧ offered (change_keys c) wa wa') ∧
  NoDup (change_keys c) ∧
  (c_Namespace c ≠ EmptyString ∨ c_AffectedNamespaces c = [] →
   ∀ ns, matchesNamespace c ns = true →
     mkKey ns EmptyString EmptyString ∈ change_keys c ∨ mkKey clusterWideSentinel EmptyString EmptyString ∈ change_keys c).
Proof.
  intros Ho c. split_and!; [by apply OnIndexChange_offers| |].
  - unfold change_keys. apply NoDup_fmap_2; [by intros x y [= ->]|]. case_bool_decide; [apply NoDup_singleton|apply NoDup_unique_loop].
  - intros Hsc ns Hm. unfold change_keys. case_bool_decide as Hu; [right; left|left].
    apply list_elem_of_fmap. exists ns. split; [done|]. rewrite elem_of_unique_loop. split; [|set_solver].
    apply matchesNamespace_spec in Hm. rewrite elem_of_app.
    destruct (bool_decide_reflect (c_Namespace c = EmptyString)) as [He|He]; [|set_solver].
    destruct Hsc as [|Ha]; [done|]. rewrite Ha in Hu. done.
Qed.

(** While the context is live a worker goes on, and its round is that of
    [worker_round]; once it is cancelled and the queue closed and empty, it
    returns. *)
Lemma worker_live {Idx} `{ConstraintQuery Idx} pick env (idx : Idx) wa :
  is_open wa → worker false pick env idx wa = ('(wa', calls) ← worker_round env idx wa; Some (false, wa', calls)).
Proof. intros Ho. unfold worker, worker_round. unfold is_open in Ho. rewrite Ho. by destruct (ch_buf (wa_pending wa)). Qed.

Lemma worker_returns {Idx} `{ConstraintQuery Idx} pick env (idx : Idx) wa :
  keys_of wa = [] → worker true pick env idx (Start_shutdown wa) = Some (true, Start_shutdown wa, []).
Proof. unfold keys_of, worker, Start_shutdown. simpl. intros Hk%fmap_nil_inv. by rewrite Hk. Qed.

(** ** The queue drains *)

(** What the API server promises: names are not empty, no namespace has the
    sentinel as its name, and there are at most [N] namespaces and [W]
    workloads in each. *)
Record env_ok (N W : nat) (env : AnnotatorEnv) : Prop := {
  eo_namespaces : forall l, ae_namespaces env = inl l -> (length l <= N)%nat ∧ clusterWideSentinel ∉ l;
  eo_names : forall gvr l, ae_workloads env gvr = inl l -> EmptyString ∉ l;
  eo_workloads : forall ns, (length (mjoin (kind_workloads env ns <$> namespaceWorkloadKinds)) <= W)%nat;
}.

Definition is_workload (k : workloadKey) : Prop :=
  wk_Namespace k ≠ clusterWideSentinel ∧ wk_Kind k ≠ EmptyString ∧ wk_Name k ≠ EmptyString.

(** The cache holds such lists. *)
Definition cache_ok (W : nat) (wa : WorkloadAnnotator) : Prop :=
  map_Forall (fun ns c => (length (nc_workloads c) <= W)%nat ∧ (ns ≠ clusterWideSentinel → Forall is_workload (nc_workloads c)))
             (wa_nsCache wa).

(** The number of rounds an update can still cause, itself included. *)
Definition weight (N W : nat) (k : workloadKey) : nat :=
  if wk_Namespace k == clusterWideSentinel then 1 + N * (1 + W)
  else if (wk_Kind k == EmptyString) || (wk_Name k == EmptyString) then 1 + W
  else 1.
Definition weights (N W : nat) (l : list workloadKey) : nat := sum_list_with (weight N W) l.

Lemma weights_app N W l1 l2 : weights N W (l1 ++ l2) = (weights N W l1 + weights N W l2)%nat.
Proof. apply sum_list_with_app. Qed.

Lemma weights_bound N W (b : nat) l : Forall (fun k => weight N W k ≤ b)%nat l → (weights N W l ≤ length l * b)%nat.
Proof. unfold weights. induction 1; simpl; lia. Qed.

Lemma weights_sublist N W l1 l2 : l1 `sublist_of` l2 → (weights N W l1 ≤ weights N W l2)%nat.
Proof. unfold weights. induction 1; simpl; lia. Qed.

Lemma offered_weights N W keys wa wa' :
  offered keys wa wa' → (weights N W (keys_of wa') ≤ weights N W (keys_of wa) + weights N W keys)%nat.
Proof.
  intros O. rewrite (of_keys _ _ _ O), weights_app.
  pose proof (weights_sublist N W _ _ (sublist_take keys (room wa))). lia.
Qed.

Lemma weight_workload N W k : is_workload k → weight N W k = 1%nat.
Proof. intros (H1 & H2 & H3). unfold weight. by rewrite !bool_decide_false. Qed.

Lemma listed_workloads N W env ns :
  env_ok N W env → ns ≠ clusterWideSentinel →
  Forall is_workload (mjoin (kind_workloads env ns <$> namespaceWorkloadKinds)).
Proof.
  intros He Hns. apply Forall_forall. intros k (l & Hk & (wk & -> & Hwk)%list_elem_of_fmap)%list_elem_of_join.
  unfold kind_workloads in Hk. destruct (ae_workloads env wk.2) as [names|] eqn:Hn; [|by apply not_elem_of_nil in Hk].
  apply list_elem_of_fmap in Hk as (name & -> & Hname). split; [done|]. split; simpl.
  - unfold namespaceWorkloadKinds in Hwk. rewrite !elem_of_cons, elem_of_nil in Hwk. by destruct Hwk as [->|[->|[->|[]]]].
  - intros ->. by apply (eo_names _ _ _ He _ _ Hn).
Qed.

Lemma listNamespaceWorkloads_ok N W env ns wa :
  env_ok N W env → cache_ok W wa → ns ≠ clusterWideSentinel →
  let '(wa', l) := listNamespaceWorkloads env ns wa in
  (length l ≤ W)%nat ∧ Forall is_workload l ∧ cache_ok W wa' ∧ wa_pending wa' = wa_pending wa.
Proof.
  intros He Hc Hns. unfold listNamespaceWorkloads. case_bool_decide; [split_and!; [simpl; lia|constructor|done..]|].
  assert (cache_ok W (mkAnnotator (wa_opts wa) (wa_lastPatch wa) (wa_pending wa)
    (<[ns := mkNsCache (mjoin (kind_workloads env ns <$> namespaceWorkloadKinds)) (ae_fetched env)]> (wa_nsCache wa)))).
  { apply map_Forall_insert_2; [|done]. split; [apply (eo_workloads _ _ _ He)|]. intros _. by eapply listed_workloads. }
  pose proof (eo_workloads _ _ _ He ns). pose proof (listed_workloads N W env ns He Hns).
  destruct (wa_nsCache wa !! ns) as [c|] eqn:Hl; [|done]. destruct (_ <? _)%Z; [|done].
  destruct (Hc _ _ Hl) as [Hlen Hwf]. split_and!; [done|by apply Hwf|done..].
Qed.

Section draining.
Context {Idx : Type} `{ConstraintQuery Idx}.

Lemma finish_update_frame env idx key wa :
  wa_pending (finish_update env idx key wa).1 = wa_pending wa ∧ wa_nsCache (finish_update env idx key wa).1 = wa_nsCache wa.
Proof. unfold finish_update. destruct (patch_update _ _ _) as [calls [err|]]; done. Qed.

(** The part of an update that queues does not cost more than its weight. *)
Lemma begin_update_weight N W env key wa :
  env_ok N W env → is_open wa → cache_ok W wa →
  ∃ wa' go, begin_update env key wa = Some (wa', go) ∧ is_open wa' ∧ cache_ok W wa' ∧
            (weights N W (keys_of wa') + 1 ≤ weights N W (keys_of wa) + weight N W key)%nat.
Proof.
  intros He Ho Hc. unfold begin_update, weight, listAllNamespaces.
  destruct (bool_decide_reflect (wk_Namespace key = clusterWideSentinel)) as [Hs|Hs].
  - destruct (ae_namespaces env) as [nss|err] eqn:Hn; [|eexists _, _; split_and!; [done..|lia]].
    destruct (eo_namespaces _ _ _ He _ Hn) as [Hlen Hnin].
    destruct (namespaces_loop_offered env 0 nss wa Ho) as (wa1 & -> & O). eexists _, _. split_and!; [done|apply O| |].
    + unfold cache_ok. by rewrite (of_nsCache _ _ _ O).
    + pose proof (offered_weights N W _ _ _ O).
      assert (weights N W ((fun ns => mkKey ns EmptyString EmptyString) <$> nss) ≤ length nss * (1 + W))%nat as Hb; [|nia].
      rewrite <-(length_fmap (fun ns => mkKey ns EmptyString EmptyString) nss). apply weights_bound, Forall_fmap, Forall_forall.
      intros ns Hns. unfold weight. simpl. rewrite bool_decide_false; [done|]. congruence.
  - destruct (_ || _); [|eexists _, _; split_and!; [done..|lia]].
    pose proof (listNamespaceWorkloads_ok N W env (wk_Namespace key) wa He Hc Hs) as Hl.
    destruct (listNamespaceWorkloads _ _ _) as [wa1 l]. destruct Hl as (Hlen & Hwf & Hc1 & Hp).
    destruct (workloads_loop_offered env 0 l wa1) as (wa2 & -> & O); [unfold is_open; by rewrite Hp|].
    eexists _, _. split_and!; [done|apply O| |]; [unfold cache_ok; by rewrite (of_nsCache _ _ _ O)|].
    pose proof (offered_weights N W _ _ _ O) as Hw. pose proof (weights_sublist N W _ _ (due_sublist env 0 l wa1)).
    assert (weights N W l ≤ length l * 1)%nat as Hb.
    { apply weights_bound. eapply Forall_impl; [exact Hwf|]. intros k Hk. simpl. by rewrite weight_workload. }
    unfold keys_of in *. rewrite Hp in Hw. lia.
Qed.

Lemma worker_round_weight N W env idx wa :
  env_ok N W env → is_open wa → cache_ok W wa → keys_of wa ≠ [] →
  ∃ wa' calls, worker_round env idx wa = Some (wa', calls) ∧ is_open wa' ∧ cache_ok W wa' ∧
               (weights N W (keys_of wa') + 1 ≤ weights N W (keys_of wa))%nat.
Proof.
  intros He Ho Hc Hne. unfold worker_round, processUpdate, keys_of in *. destruct (ch_buf (wa_pending wa)) as [|u l] eqn:Hb; [done|].
  destruct (begin_update_weight N W env (pu_key u) (set_pending (ch_take 1 (wa_pending wa)) wa)) as (wa1 & go & -> & Ho1 & Hc1 & Hw); [done..|].
  unfold keys_of in Hw. simpl in Hw. rewrite Hb in Hw. simpl in Hw. rewrite drop_0 in Hw. simpl.
  destruct (if go then finish_update env idx (pu_key u) wa1 else (wa1, [])) as [wa' calls] eqn:Hf.
  exists wa', calls. assert (wa_pending wa' = wa_pending wa1 ∧ wa_nsCache wa' = wa_nsCache wa1) as [Hp Hn].
  { destruct go; [|by simplify_eq]. pose proof (finish_update_frame env idx (pu_key u) wa1) as Hfr. by rewrite Hf in Hfr. }
  split_and!; [done|unfold is_open; by rewrite Hp|unfold cache_ok; by rewrite Hn|]. rewrite Hp. unfold weights in *. simpl in *. change (list_fmap pendingUpdate workloadKey pu_key l) with (pu_key <$> l). lia.
Qed.

(** The rounds of one worker, each in its own environment. *)
Fixpoint rounds (n : nat) (envs : nat -> AnnotatorEnv) (idx : Idx) (wa : WorkloadAnnotator)
    : option (WorkloadAnnotator * list PatchCall) :=
  match n with
  | O => Some (wa, [])
  | S n' => '(wa1, calls) ← worker_round (envs 0%nat) idx wa;
            '(wa2, calls2) ← rounds n' (fun i => envs (S i)) idx wa1;
            Some (wa2, (calls ++ calls2)%list)
  end.

(** C25: without further changes the queue drains.  Whatever the API server
    answers at each round, as long as it has at most [N] namespaces of at
    most [W] workloads, as many rounds as the weight of the queue end without
    a panic and with an empty queue: updates of the cluster expand into
    updates of namespaces, these into updates of workloads, and those into
    nothing. *)
Theorem worker_drains N W envs idx wa :
  (∀ i, env_ok N W (envs i)) → is_open wa → cache_ok W wa →
  ∃ wa' calls, rounds (weights N W (keys_of wa)) envs idx wa = Some (wa', calls) ∧ keys_of wa' = [].
Proof.
  intros He Ho Hc. assert (∃ n, n = weights N W (keys_of wa)) as [n Hn] by eauto. rewrite <-Hn.
  assert (weights N W (keys_of wa) ≤ n)%nat as Hle by lia. clear Hn. revert envs wa He Ho Hc Hle.
  induction n as [|n IH]; intros envs wa He Ho Hc Hle; simpl.
  - exists wa, []. split; [done|]. destruct (keys_of wa) as [|k l]; [done|]. exfalso.
    unfold weights in Hle. simpl in Hle. assert (1 ≤ weight N W k)%nat; [|lia]. unfold weight. repeat case_match; lia.
  - destruct (decide (keys_of wa = [])) as [Hk|Hk].
    + assert (worker_round (envs 0%nat) idx wa = Some (wa, [])) as ->.
      { unfold worker_round. unfold keys_of in Hk. apply fmap_nil_inv in Hk. by rewrite Hk. }
      simpl. destruct (IH (fun i => envs (S i)) wa) as (wa' & calls & -> & Hnil); [done..|rewrite Hk; unfold weights; simpl; lia|].
      by eexists _, _.
    + destruct (worker_round_weight N W (envs 0%nat) idx wa) as (wa1 & calls1 & -> & Ho1 & Hc1 & Hw); [done..|]. simpl.
      destruct (IH (fun i => envs (S i)) wa1) as (wa' & calls & -> & Hnil); [done..|lia|]. by eexists _, _.
Qed.
End draining.

(** ** Debouncing *)

(** The queueing operations leave options and patch times alone, also when
    updates are dropped. *)
Definition same_patches (wa wa' : WorkloadAnnotator) : Prop := wa_opts wa' = wa_opts wa ∧ wa_lastPatch wa' = wa_lastPatch wa.

#[export] Instance same_patches_preorder : PreOrder same_patches.
Proof. split; [done|]. intros x y z [H1 H2] [H3 H4]. split; congruence. Qed.

Lemma enqueue_patches now key wa wa' : enqueue now key wa = Some wa' → same_patches wa wa'.
Proof. unfold enqueue. case_match; intros; simplify_eq; done. Qed.

Lemma affected_loop_patches now seen l wa r : affected_loop now seen l wa = Some r → same_patches wa r.2.
Proof.
  revert seen wa. induction l as [|ns l IH]; intros seen wa; simpl; [by intros [= <-]|].
  case_bool_decide; [apply IH|]. intros (wa1 & H1%enqueue_patches & H2%IH)%bind_Some. by etrans.
Qed.

Lemma OnIndexChange_patches now event wa wa' : OnIndexChange now event wa = Some wa' → same_patches wa wa'.
Proof.
  unfold OnIndexChange. intros ([seen wa1] & H1%affected_loop_patches & (wa2 & H2 & H3)%bind_Some)%bind_Some. simpl in H1.
  transitivity wa1; [done|]. transitivity wa2.
  - clear H3. case_match; [exact (enqueue_patches _ _ _ _ H2)|by simplify_eq].
  - clear H2. case_match; [exact (enqueue_patches _ _ _ _ H3)|by simplify_eq].
Qed.

Lemma QueueWorkloadUpdate_patches now ns kind name wa wa' :
  QueueWorkloadUpdate now ns kind name wa = Some wa' → same_patches wa wa'.
Proof. unfold QueueWorkloadUpdate. case_match; [by intros [= <-]|apply enqueue_patches]. Qed.

Lemma namespaces_loop_patches env i l wa wa' : namespaces_loop env i l wa = Some wa' → same_patches wa wa'.
Proof.
  revert i wa. induction l as [|ns l IH]; intros i wa; simpl; [by intros [= <-]|].
  intros (wa1 & H1%enqueue_patches & H2%IH)%bind_Some. by etrans.
Qed.

Lemma workloads_loop_patches env i l wa wa' : workloads_loop env i l wa = Some wa' → same_patches wa wa'.
Proof.
  revert i wa. induction l as [|k l IH]; intros i wa; simpl; [by intros [= <-]|].
  intros (wa1 & H1%QueueWorkloadUpdate_patches & H2%IH)%bind_Some. by etrans.
Qed.

Lemma begin_update_patches env key wa wa' go :
  begin_update env key wa = Some (wa', go) →
  same_patches wa wa' ∧ (go = true → debounced (ae_now env) key wa = false).
Proof.
  unfold begin_update. case_bool_decide.
  - destruct (listAllNamespaces env); [|by intros [= <- <-]].
    intros (wa1 & H1%namespaces_loop_patches & [= <- <-])%bind_Some. done.
  - destruct (_ || _); [|intros [= <- <-]; split; [done|]; by destruct (debounced _ _ _)].
    assert (same_patches wa (listNamespaceWorkloads env (wk_Namespace key) wa).1) as Hs.
    { unfold listNamespaceWorkloads. repeat case_match; done. }
    destruct (listNamespaceWorkloads _ _ _) as [wa1 l]. intros (wa2 & H1%workloads_loop_patches & [= <- <-])%bind_Some.
    split; [by etrans|done].
Qed.

Section debounce.
Context {Idx : Type} `{ConstraintQuery Idx}.

(** A round makes at most one call, for a workload out of its window, and
    remembers the instant of an accepted one. *)
Lemma worker_round_calls env idx wa wa' calls :
  worker_round env idx wa = Some (wa', calls) →
  wa_opts wa' = wa_opts wa ∧
  (calls = [] ∧ wa_lastPatch wa' = wa_lastPatch wa ∨
   ∃ call, calls = [call] ∧ debounced (ae_now env) (pc_key call) wa = false ∧ pc_at call = ae_evaluated env ∧
     wa_lastPatch wa' = if pc_ok call then <[pc_key call := ae_patched env]> (wa_lastPatch wa) else wa_lastPatch wa).
Proof.
  unfold worker_round, processUpdate. destruct (ch_buf (wa_pending wa)) as [|u l]; [intros [= <- <-]; auto|].
  intros ([wa1 go] & [[Ho Hl] Hgo]%begin_update_patches & Hf)%bind_Some. simpl in *.
  destruct go; [|simplify_eq; auto]. specialize (Hgo eq_refl). rewrite (debounced_ext _ _ wa) in Hgo by done.
  unfold finish_update, patch_update, applyPatch in Hf. destruct (kindToGVR _) as [gvr|]; simpl in Hf; [|simplify_eq; auto].
  destruct (ae_patch env); simplify_eq/=; (split; [done|]); right; eexists; split_and!; try done. simpl. by rewrite Hl.
Qed.

(** A patch makes at most one call, which is accepted unless it has an error. *)
Lemma patch_update_calls env idx key :
  let '(calls, err) := patch_update env idx key in
  calls = [] ∨ ∃ call, calls = [call] ∧ pc_key call = key ∧ pc_at call = ae_evaluated env ∧ (pc_ok call = true ↔ err = None).
Proof.
  unfold patch_update, applyPatch. destruct (kindToGVR _) as [gvr|]; [|by left]. right. eexists. split; [done|]. simpl. by rewrite bool_decide_eq_true.
Qed.

Inductive annot_op :=
  | AChange (now : Time) (event : IndexEvent)
  | AQueue (now : Time) (namespace kind name : string)
  | AWork (env : AnnotatorEnv) (idx : Idx).

Definition annot_step (wa : WorkloadAnnotator) (op : annot_op) : option (WorkloadAnnotator * list PatchCall) :=
  match op with
  | AChange now event => wa' ← OnIndexChange now event wa; Some (wa', [])
  | AQueue now ns kind name => wa' ← QueueWorkloadUpdate now ns kind name wa; Some (wa', [])
  | AWork env idx => worker_round env idx wa
  end.

Fixpoint annot_run (wa : WorkloadAnnotator) (ops : list annot_op) : option (WorkloadAnnotator * list PatchCall) :=
  match ops with
  | [] => Some (wa, [])
  | op :: rest => '(wa1, calls) ← annot_step wa op; '(wa2, calls2) ← annot_run wa1 rest; Some (wa2, (calls ++ calls2)%list)
  end.

(** Within one update the clock does not go back. *)
Definition clock_ok (op : annot_op) : Prop :=
  match op with AWork env _ => (ae_now env ≤ ae_evaluated env ≤ ae_patched env)%Z | _ => True end.

(** The calls to come respect the window after every patch remembered. *)
Lemma annot_run_after D wa ops wa' calls :
  (0 ≤ D ≤ int64_max)%Z → DebounceDuration (wa_opts wa) = D → Forall clock_ok ops →
  annot_run wa ops = Some (wa', calls) →
  (∀ call s, call ∈ calls → wa_lastPatch wa !! pc_key call = Some s → (s + D ≤ pc_at call)%Z) ∧
  (∀ i j a b, (i < j)%nat → calls !! i = Some a → calls !! j = Some b → pc_key a = pc_key b → pc_ok a = true →
     (pc_at a + D ≤ pc_at b)%Z).
Proof.
  intros HD. revert wa calls. induction ops as [|op ops IH]; intros wa calls Ho Hclk; simpl.
  { intros [= <- <-]. split; [by intros ? ? ?%not_elem_of_nil|done]. }
  apply Forall_cons in Hclk as [Hc Hclk]. intros ([wa1 calls1] & H1 & ([wa2 calls2] & H2 & [= <- <-])%bind_Some)%bind_Some.
  assert (same_patches wa wa1 ∧ calls1 = [] ∨ ∃ env idx, op = AWork env idx) as [[[Ho1 Hl1] ->]|(env & idx & ->)].
  { destruct op as [now ev|now ns k n|env idx]; simpl in H1; [left..|right; eauto].
    - apply bind_Some in H1 as (w & ?%OnIndexChange_patches & [= <- <-]). done.
    - apply bind_Some in H1 as (w & ?%QueueWorkloadUpdate_patches & [= <- <-]). done. }
  { destruct (IH wa1 calls2) as [IH1 IH2]; [by rewrite Ho1|done|done|]. split; [|done]. rewrite <-Hl1. done. }
  simpl in H1, Hc. apply worker_round_calls in H1 as [Ho1 Hcase].
  destruct (IH wa1 calls2) as [IH1 IH2]; [by rewrite Ho1|done|done|].
  destruct Hcase as [[-> Hl1]|(call & -> & Hdeb & Hat & Hl1)]; [split; [by rewrite <-Hl1|done]|].
  assert (∀ s, wa_lastPatch wa !! pc_key call = Some s → (s + D ≤ pc_at call ∧ s ≤ ae_patched env)%Z) as Hcall.
  { intros s Hs. unfold debounced in Hdeb. rewrite Hs, Ho in Hdeb. simpl in Hdeb. apply Z.ltb_ge in Hdeb.
    pose proof (time_Since_lt (ae_now env) s D) as Hlt. unfold int64_min in Hlt. lia. }
  assert (∀ k s, wa_lastPatch wa !! k = Some s → ∃ s', wa_lastPatch wa1 !! k = Some s' ∧ (s ≤ s')%Z) as Hmono.
  { intros k s Hs. rewrite Hl1. destruct (pc_ok call); [|by exists s]. destruct (decide (k = pc_key call)) as [->|].
    - rewrite lookup_insert_eq. eexists. split; [done|]. by apply Hcall.
    - rewrite lookup_insert_ne by done. by exists s. }
  split.
  - intros d s [->|Hd]%elem_of_cons Hs; [by apply Hcall|]. destruct (Hmono _ _ Hs) as (s' & Hs' & ?).
    specialize (IH1 d s' Hd Hs'). lia.
  - intros [|i] [|j] a b Hij Ha Hb Hk Hok; simpl in *; try lia; [|eapply (IH2 i j); [lia|done..]]. injection Ha as <-.
    assert ((ae_patched env + D ≤ pc_at b)%Z); [|lia].
    apply IH1; [by eapply list_elem_of_lookup_2|]. rewrite Hl1, Hok, Hk. apply lookup_insert_eq.
Qed.

(** With rounds that do not overlap, two patches of one workload are at least the
    debounce duration apart, unless the API server refused the first one.
    [AnnotatorPool] has the general case. *)
Theorem one_worker_debounces opts ops wa calls i j a b :
  (0 ≤ DebounceDuration opts ≤ int64_max)%Z → Forall clock_ok ops →
  annot_run (NewWorkloadAnnotator opts) ops = Some (wa, calls) →
  (i < j)%nat → calls !! i = Some a → calls !! j = Some b → pc_key a = pc_key b → pc_ok a = true →
  (pc_at a + DebounceDuration (wa_opts (NewWorkloadAnnotator opts)) ≤ pc_at b)%Z.
Proof.
  intros HD Hc Hr Hij Ha Hb Hk Hok.
  eapply (annot_run_after (DebounceDuration (wa_opts (NewWorkloadAnnotator opts)))); [|done..].
  unfold NewWorkloadAnnotator. simpl. case_bool_decide; [|done]. unfold int64_max, time_Second. lia.
Qed.
End debounce.

(** ** Annotations *)

Lemma join_loop_append r p parts :
  join_loop (r +:+ p) parts = r +:+ join_loop p parts.
Proof. revert p. induction parts as [|q parts IH]; intros p; simpl; [done|]. by rewrite string_append_assoc, IH. Qed.

(** [joinWithComma] is [strings.Join] with a comma and a space. *)
Theorem joinWithComma_eq parts : joinWithComma parts = strings_Join parts ", ".
Proof.
  destruct parts as [|p parts]; [done|]. unfold strings_Join.
  transitivity (join_loop p parts); [by destruct parts|]. revert p.
  induction parts as [|q parts IH]; intros p; [done|]. cbn [join_loop String.concat].
  rewrite join_loop_append, (join_loop_append ", "). by rewrite IH.
Qed.

(** RFC 7386 on a flat map: null removes a member. *)
Definition merge_annotations (patch : gmap string (option string)) (ann : gmap string string) : gmap string string :=
  merge (fun p a => match p with Some v => v | None => a end) patch ann.

(** The highest severity, by the words of the annotation. *)
Definition highest (cs : list Constraint) : string :=
  if bool_decide (Exists (fun c => c_Severity c = SeverityCritical) cs) then "critical"
  else if bool_decide (Exists (fun c => c_Severity c = SeverityWarning) cs) then "warning"
  else if bool_decide (Exists (fun c => c_Severity c = SeverityInfo) cs) then "info"
  else "none".

Definition severity_count (sev : Severity) (cs : list Constraint) : Z := go_len (filter (fun c => c_Severity c = sev) cs).

Definition counted (cs : list Constraint) : Counts :=
  mkCounts (severity_count SeverityCritical cs) (severity_count SeverityWarning cs) (severity_count SeverityInfo cs) (highest cs).

Lemma counted_snoc cs c : count_one (counted cs) c = counted (cs ++ [c]).
Proof.
  assert (∀ sev, severity_count sev (cs ++ [c]) = (severity_count sev cs + if c_Severity c == sev then 1 else 0)%Z) as Hn.
  { intros sev. unfold severity_count, go_len. rewrite filter_app, length_app, filter_cons, filter_nil.
    repeat case_match; case_bool_decide; simpl; try done; lia. }
  assert (∀ sev, bool_decide (Exists (fun d => c_Severity d = sev) (cs ++ [c])) =
                 bool_decide (Exists (fun d => c_Severity d = sev) cs) || (c_Severity c == sev)) as Hx.
  { intros sev. rewrite <-bool_decide_or. apply bool_decide_ext. rewrite Exists_app, Exists_cons, Exists_nil. tauto. }
  unfold counted, highest. rewrite !Hn, !Hx. unfold count_one. cbn [switch].
  generalize (c_Severity c). clear. intros sev.
  destruct (decide (sev = SeverityCritical)) as [->|]; [|destruct (decide (sev = SeverityWarning)) as [->|];
    [|destruct (decide (sev = SeverityInfo)) as [->|]]];
    repeat case_bool_decide; simpl in *; try done; rewrite ?Z.add_0_r; repeat case_bool_decide; try done.
Qed.

Lemma count_all_counted cs : count_all cs = counted cs.
Proof.
  unfold count_all. induction cs as [|c cs IH] using rev_ind; [done|]. rewrite foldl_app, IH. apply counted_snoc.
Qed.

Lemma merge_annotations_lookup patch ann k :
  merge_annotations patch ann !! k = match patch !! k with Some v => v | None => ann !! k end.
Proof. unfold merge_annotations. rewrite lookup_merge. by destruct (patch !! k), (ann !! k). Qed.

(** The fields of a summary are valid UTF-8, as the names that the API server
    accepts are. *)
Definition summary_utf8 (s : ConstraintSummary) : bool :=
  forallb (fun kv : string * string => utf8_valid kv.2) (summary_fields s).

Lemma summary_utf8_clean s : summary_utf8 s = true → clean_members (summary_fields s) = summary_fields s.
Proof.
  destruct s as [t sev n src]. unfold summary_utf8, clean_members, summary_fields. simpl.
  rewrite !andb_true_iff. intros (Ht & Hs & Hn & Hsrc & _). unfold clean_member. simpl. by rewrite !utf8_clean_valid.
Qed.

(** C31: the patch of a workload with constraints sets the highest severity,
    the counters and a list of the constraints from which a JSON parser gets
    back their type, severity, name and source in order, as they are when they
    are valid UTF-8 and with the replacement character otherwise; without
    constraints it removes what an earlier patch set.  Other annotations are
    kept. *)
Theorem buildAnnotationPatch_spec now cs ann :
  let ann' := merge_annotations (buildAnnotationPatch now cs) ann in
  (∀ k, (k ∉ annotation_keys) → ann' !! k = ann !! k) ∧
  (cs = [] → ∀ k, k ∈ annotation_keys → ann' !! k = None) ∧
  (cs ≠ [] →
   ann' !! WorkloadMaxSeverity = Some (highest cs) ∧
   ann' !! WorkloadCriticalCount = Some (fmt_d (severity_count SeverityCritical cs)) ∧
   ann' !! WorkloadWarningCount = Some (fmt_d (severity_count SeverityWarning cs)) ∧
   ann' !! WorkloadInfoCount = Some (fmt_d (severity_count SeverityInfo cs)) ∧
   ∃ j, ann' !! WorkloadConstraints = Some j ∧
        json_objects_of 4 j = Some ((fun c => clean_members (summary_fields (summary_of c))) <$> cs) ∧
        (Forall (fun c => summary_utf8 (summary_of c) = true) cs →
         json_objects_of 4 j = Some ((fun c => summary_fields (summary_of c)) <$> cs))).
Proof.
  intros ann'. subst ann'. setoid_rewrite merge_annotations_lookup. unfold buildAnnotationPatch.
  split_and!.
  - intros k Hk. unfold annotation_keys in Hk. rewrite !not_elem_of_cons in Hk. destruct Hk as (K1 & K2 & K3 & K4 & K5 & K6 & K7 & _).
    case_bool_decide; simpl; [by rewrite !lookup_insert_ne, lookup_empty by done|by rewrite !lookup_insert_ne, lookup_singleton_ne by done].
  - intros -> k Hk. rewrite bool_decide_true by done.
    assert (list_to_map ((fun k => (k, None : option string)) <$> annotation_keys) !! k = (Some None : option (option string))) as ->; [|done].
    apply elem_of_list_to_map; [apply (bool_decide_unpack _); vm_compute; exact I|]. apply list_elem_of_fmap. by exists k.
  - intros Hne. rewrite bool_decide_false by done. rewrite count_all_counted. split_and!; [reflexivity..|].
    assert (∀ j, j = json_objects ((fun c => summary_fields (summary_of c)) <$> cs) →
      json_objects_of 4 j = Some ((fun c => clean_members (summary_fields (summary_of c))) <$> cs)) as Hread.
    { intros j ->. rewrite (json_objects_roundtrip 4); [by rewrite <-list_fmap_compose|]. by apply Forall_fmap, Forall_true. }
    eexists. split; [reflexivity|]. split; [by apply Hread|]. intros Hu. rewrite Hread by done. f_equal.
    apply list_fmap_ext. intros i c Hc. apply summary_utf8_clean. by eapply Forall_lookup_1 in Hu.
Qed.

(** ** What is lost *)

Section losses.
Context {Idx : Type} `{ConstraintQuery Idx}.

(** An update within the debounce window, and one whose patch fails, is
    dropped: nothing is queued in its place. *)
Theorem annotator_update_dropped env idx key t wa :
  is_workload key →
  (debounced (ae_now env) key wa = true → processUpdate env idx (mkPending key t) wa = Some (wa, [])) ∧
  (ae_patch env ≠ None → ∃ calls, processUpdate env idx (mkPending key t) wa = Some (wa, calls)).
Proof.
  intros (H1 & H2 & H3). unfold processUpdate, begin_update. simpl. rewrite !bool_decide_false by done. simpl.
  split; [intros ->; done|]. intros Hp. destruct (debounced _ _ _); simpl; [by eexists|].
  unfold finish_update, patch_update, applyPatch. destruct (kindToGVR _); simpl; [|by eexists].
  destruct (ae_patch env); [by eexists|done].
Qed.

(** A worker does not claim the workload it patches: another worker that gets
    an update of the same workload before the first has finished patches it
    as well. *)
Theorem annotator_workers_race env env' key wa wa1 :
  begin_update env key wa = Some (wa1, true) → ae_now env = ae_now env' →
  begin_update env' key wa1 = Some (wa1, true).
Proof.
  unfold begin_update. case_bool_decide; [destruct (listAllNamespaces env); [by intros (? & _ & ?)%bind_Some|done]|].
  destruct (_ || _) eqn:E; [destruct (listNamespaceWorkloads _ _ _); by intros (? & _ & ?)%bind_Some|].
  intros [= <- Hd] Hn. by rewrite <-Hn, Hd.
Qed.
End losses.

(** Start closes the queue while the index still reports changes: the next
    change panics. *)
Theorem annotator_shutdown_panic now event wa : OnIndexChange now event (Start_shutdown wa) = None.
Proof.
  assert (∀ key, enqueue now key (Start_shutdown wa) = None) as Hq by done.
  unfold OnIndexChange. destruct (c_AffectedNamespaces (ie_Constraint event)) as [|ns l]; simpl.
  - case_bool_decide as Hn; simpl; [by rewrite bool_decide_true; [apply Hq|]|]. by unfold queueNamespaceUpdate; rewrite Hq.
  - destruct (bool_decide_reflect (ns ∈ (∅ : gset string))) as [[]%not_elem_of_empty|_]. done.
Qed.

(** A listing that failed is cached: for its lifetime the namespace has no
    workloads, whatever the API server would answer. *)
Theorem listNamespaceWorkloads_caches_failure env env' ns wa :
  ns ≠ EmptyString → wa_nsCache wa !! ns = None → (∀ gvr, ∃ err, ae_workloads env gvr = inr err) →
  (ae_now env' - ae_fetched env < nsWorkloadCacheTTL)%Z →
  (listNamespaceWorkloads env' ns (listNamespaceWorkloads env ns wa).1).2 = [].
Proof.
  intros Hns Hc Hfail Httl.
  assert ((listNamespaceWorkloads env ns wa) =
          (mkAnnotator (wa_opts wa) (wa_lastPatch wa) (wa_pending wa) (<[ns := mkNsCache [] (ae_fetched env)]> (wa_nsCache wa)), [])) as ->.
  { unfold listNamespaceWorkloads. rewrite bool_decide_false, Hc by done.
    assert (∀ wk, kind_workloads env ns wk = []) as Hk by (intros wk; unfold kind_workloads; by destruct (Hfail wk.2) as [? ->]).
    simpl. by rewrite !Hk. }
  unfold listNamespaceWorkloads at 1. rewrite bool_decide_false by done. simpl. rewrite lookup_insert_eq. simpl.
  rewrite (proj2 (Z.ltb_lt _ _)); [done|]. apply time_Since_lt; [|done]. unfold nsWorkloadCacheTTL, int64_min, int64_max, time_Second. lia.
Qed.

(** ** Evaluation *)

Definition quota_constraint : Constraint :=
  example_constraint "q1" (mkGVR EmptyString "v1" "resourcequotas") "team-quota" "team-a" ["team-a"]
                     ConstraintTypeResourceLimit SeverityCritical.

(** A cluster of one namespace with one Deployment, at second [s]. *)
Definition example_env (s : Z) : AnnotatorEnv :=
  mkAnnotatorEnv (s * time_Second) (s * time_Second) (fun _ => s * time_Second)%Z (s * time_Second) (s * time_Second)
    (inl ["team-a"]) (fun gvr => if g_Resource gvr == "deployments" then inl ["api"] else inl []) None in_order.

Definition api_key : workloadKey := mkKey "team-a" "Deployment" "api".

Lemma example_env_ok s : env_ok 1 1 (example_env s).
Proof.
  split; simpl.
  - intros l [= <-]. split; [simpl; lia|]. apply (bool_decide_unpack _). vm_compute. exact I.
  - intros gvr l. case_bool_decide; intros [= <-]; apply (bool_decide_unpack _); vm_compute; exact I.
  - intros ns. simpl. lia.
Qed.

Definition idx_with (c : Constraint) : Indexer := (Upsert c (New false)).1.

(** A change at second 100, and another one ten seconds after the patch. *)
Definition example_ops : list (annot_op (Idx := Indexer)) :=
  [AChange (100 * time_Second) (mkIndexEvent "upsert" quota_constraint);
   AWork (example_env 100) (idx_with quota_constraint);
   AWork (example_env 100) (idx_with quota_constraint);
   AQueue (140 * time_Second) "team-a" "Deployment" "api";
   AWork (example_env 140) (New false)].

Definition example_result : WorkloadAnnotator * list PatchCall :=
  default (NewWorkloadAnnotator DefaultWorkloadAnnotatorOptions, [])
          (annot_run (NewWorkloadAnnotator DefaultWorkloadAnnotatorOptions) example_ops).

Lemma example_run_eq :
  annot_run (NewWorkloadAnnotator DefaultWorkloadAnnotatorOptions) example_ops = Some (example_result.1, example_result.2).
Proof. vm_compute. reflexivity. Qed.

Lemma one_worker_debounces_witness :
  length example_result.2 = 2%nat ∧
  ∃ a b, example_result.2 !! 0%nat = Some a ∧ example_result.2 !! 1%nat = Some b ∧ (pc_at a + 30 * time_Second ≤ pc_at b)%Z.
Proof.
  split; [vm_compute; reflexivity|].
  destruct (example_result.2 !! 0%nat) as [a|] eqn:Ha; [|vm_compute in Ha; discriminate].
  destruct (example_result.2 !! 1%nat) as [b|] eqn:Hb; [|vm_compute in Hb; discriminate].
  exists a, b. split; [reflexivity|]. split; [reflexivity|].
  refine (one_worker_debounces DefaultWorkloadAnnotatorOptions example_ops example_result.1 example_result.2 0 1 a b _ _ example_run_eq _ Ha Hb _ _).
  - vm_compute. split; discriminate.
  - repeat constructor; simpl; vm_compute; discriminate.
  - lia.
  - vm_compute in Ha, Hb. injection Ha as <-. injection Hb as <-. reflexivity.
  - vm_compute in Ha. injection Ha as <-. reflexivity.
Defined.

(** A change that comes ten seconds after the patch is never applied: the
    queue is empty again and the annotations still list the constraint that
    the index no longer has. *)
Theorem annotator_change_lost :
  let ops := [AChange (100 * time_Second) (mkIndexEvent "upsert" quota_constraint);
              AWork (example_env 100) (idx_with quota_constraint);
              AWork (example_env 100) (idx_with quota_constraint);
              AChange (110 * time_Second) (mkIndexEvent "delete" quota_constraint);
              AWork (example_env 110) (New false)] in
  ∃ wa call, annot_run (NewWorkloadAnnotator DefaultWorkloadAnnotatorOptions) ops = Some (wa, [call]) ∧
    keys_of wa = [] ∧ pc_key call = api_key ∧ pc_Patch call !! WorkloadCriticalCount = Some (Some "1").
Proof. eexists _, _. split_and!; vm_compute; reflexivity. Qed.

Definition queued_annotator : WorkloadAnnotator :=
  default (NewWorkloadAnnotator DefaultWorkloadAnnotatorOptions)
    (queueClusterWideUpdate 0 (NewWorkloadAnnotator DefaultWorkloadAnnotatorOptions)).

Lemma worker_drains_witness :
  weights 1 1 (keys_of queued_annotator) = 3%nat ∧
  ∃ wa' calls, rounds 3 (fun _ => example_env 100) (idx_with quota_constraint) queued_annotator = Some (wa', calls) ∧ keys_of wa' = [].
Proof.
  split; [vm_compute; reflexivity|].
  apply (worker_drains 1 1 (fun _ => example_env 100) (idx_with quota_constraint) queued_annotator).
  - intros _. apply example_env_ok.
  - vm_compute. reflexivity.
  - intros ns c Hc. vm_compute in Hc. discriminate.
Defined.

Lemma annotator_change_covers_witness :
  mkKey "team-a" EmptyString EmptyString ∈ change_keys quota_constraint ∨
  mkKey clusterWideSentinel EmptyString EmptyString ∈ change_keys quota_constraint.
Proof.
  apply (annotator_change_covers 0 (mkIndexEvent "upsert" quota_constraint) (NewWorkloadAnnotator DefaultWorkloadAnnotatorOptions)).
  - reflexivity.
  - left. discriminate.
  - vm_compute. reflexivity.
Defined.
