(* ===== verification/AnnotatorPool.v ===== *)
(** * The workers of the workload annotator (internal/notifier/workload_annotator.go)

    [Start] runs several workers on one queue.  Each of them checks the debounce
    window of a workload, patches it and remembers when, in three critical
    sections, so that the steps of different workers interleave.  What is shown
    is what the window is worth then. *)

From S2P Require Import Prelude GoStd Encoding Types Indexer Channel WorkloadAnnotator.
From Stdlib Require Import Ascii.

Open Scope go_scope.
#[local] Open Scope string_scope.

(** ** The pool *)

(** Where a worker is: waiting for an update, past the debounce check of a
    workload, or past the patch of it that the API server has accepted. *)
Inductive phase := Idle | Checked (key : workloadKey) | Accepted (key : workloadKey).

#[export] Instance phase_eq_dec : EqDecision phase.
Proof. solve_decision. Defined.

Record Pool := mkPool { pl_annotator : WorkloadAnnotator; pl_workers : list phase }.

(** [Start] up to the goroutines: one for each of the workers configured. *)
Definition start_workers (wa : WorkloadAnnotator) : Pool :=
  mkPool wa (replicate (Z.to_nat (Workers (wa_opts wa))) Idle).

Definition set_annotator (wa : WorkloadAnnotator) (p : Pool) : Pool := mkPool wa (pl_workers p).

(** The steps of worker [i]: it takes an update and runs [processUpdate] up to
    the debounce check; it reads the index and patches; it remembers the time. *)
Inductive worker_op :=
  | WBegin (i : nat) (env : AnnotatorEnv)
  | WPatch (i : nat) (env : AnnotatorEnv)
  | WStamp (i : nat) (now : Time).

Section pool.
Context {Idx : Type} `{ConstraintQuery Idx}.

(** A worker that is not where the step starts does not move. *)
Definition worker_step (op : worker_op) (idx : Idx) (p : Pool) : option (Pool * list PatchCall) :=
  let wa := pl_annotator p in
  match op with
  | WBegin i env =>
      match pl_workers p !! i, ch_buf (wa_pending wa) with
      | Some Idle, update :: _ =>
          '(wa1, go) ← begin_update env (pu_key update) (set_pending (ch_take 1 (wa_pending wa)) wa);
          Some (mkPool wa1 (if go : bool then <[i := Checked (pu_key update)]> (pl_workers p) else pl_workers p), [])
      | _, _ => Some (p, [])
      end
  | WPatch i env =>
      match pl_workers p !! i with
      | Some (Checked key) =>
          let '(calls, err) := patch_update env idx key in
          Some (mkPool wa (<[i := if err is Some _ then Idle else Accepted key]> (pl_workers p)), calls)
      | _ => Some (p, [])
      end
  | WStamp i now =>
      match pl_workers p !! i with
      | Some (Accepted key) => Some (mkPool (stamp_update now key wa) (<[i := Idle]> (pl_workers p)), [])
      | _ => Some (p, [])
      end
  end.

Inductive pool_op :=
  | PChange (now : Time) (event : IndexEvent)
  | PQueue (now : Time) (namespace kind name : string)
  | PWorker (op : worker_op) (idx : Idx).

Definition pool_step (p : Pool) (op : pool_op) : option (Pool * list PatchCall) :=
  match op with
  | PChange now event => wa ← OnIndexChange now event (pl_annotator p); Some (set_annotator wa p, [])
  | PQueue now ns kind name => wa ← QueueWorkloadUpdate now ns kind name (pl_annotator p); Some (set_annotator wa p, [])
  | PWorker op idx => worker_step op idx p
  end.

Fixpoint pool_run (p : Pool) (ops : list pool_op) : option (Pool * list PatchCall) :=
  match ops with
  | [] => Some (p, [])
  | op :: rest => '(p1, calls) ← pool_step p op; '(p2, calls2) ← pool_run p1 rest; Some (p2, (calls ++ calls2)%list)
  end.

(** The instant that the clock shows at a step of a worker. *)
Definition op_time (op : pool_op) : option Time :=
  match op with
  | PWorker (WBegin _ env) _ => Some (ae_now env)
  | PWorker (WPatch _ env) _ => Some (ae_evaluated env)
  | PWorker (WStamp _ now) _ => Some now
  | _ => None
  end.
End pool.

(** ** Counting workers *)

Definition in_phase (ph : phase) (l : list phase) : nat := length (filter (fun x => x = ph) l).

Lemma in_phase_insert ph l i old new :
  l !! i = Some old →
  (in_phase ph (<[i := new]> l) + (if decide (old = ph) then 1 else 0) = in_phase ph l + (if decide (new = ph) then 1 else 0))%nat.
Proof.
  unfold in_phase. revert i. induction l as [|x l IH]; intros [|i]; simpl; try done.
  - intros [= ->]. rewrite !filter_cons. repeat case_decide; simpl; lia.
  - intros Hi. specialize (IH i Hi). rewrite !filter_cons. destruct (decide (x = ph)); simpl; lia.
Qed.

Lemma in_phase_disjoint ph ph' l : ph ≠ ph' → (in_phase ph l + in_phase ph' l ≤ length l)%nat.
Proof.
  intros Hne. unfold in_phase. induction l as [|x l IH]; simpl; [lia|].
  rewrite !filter_cons. repeat case_decide; subst; simpl; try done; lia.
Qed.

(** ** The window *)

Ltac decide_phases :=
  repeat match goal with
  | H : context [decide ?P] |- _ => first [rewrite (decide_False (P := P)) in H by congruence | rewrite (decide_True (P := P)) in H by congruence]
  end.

Section window.
Context {Idx : Type} `{ConstraintQuery Idx}.
Implicit Types (p : Pool) (b : PatchCall).

(** An accepted patch of the workload before [T]. *)
Definition early (k : workloadKey) (T : Time) (b : PatchCall) : Prop := pc_key b = k ∧ pc_ok b = true ∧ (pc_at b < T)%Z.
#[export] Instance early_dec k T b : Decision (early k T b).
Proof. unfold early. apply _. Defined.

(** At most [n] early patches are still possible when the clock shows [now]:
    the instant has come; or a patch is remembered whose window covers it, and
    only workers past their check can patch; or each worker that has not had a
    patch accepted can have one. *)
Definition budget (D : Duration) (k : workloadKey) (T now : Time) p (n : nat) : Prop :=
  (T ≤ now)%Z ∨
  (∃ s, wa_lastPatch (pl_annotator p) !! k = Some s ∧ (T ≤ s + D)%Z) ∧ (in_phase (Checked k) (pl_workers p) ≤ n)%nat ∨
  (length (pl_workers p) ≤ n + in_phase (Accepted k) (pl_workers p))%nat.

Lemma budget_ext D k T now now' p p' n :
  (now ≤ now')%Z → wa_lastPatch (pl_annotator p') = wa_lastPatch (pl_annotator p) → pl_workers p' = pl_workers p →
  budget D k T now p n → budget D k T now' p' n.
Proof. intros Hn Hl Hw. unfold budget. rewrite Hl, Hw. intros [?|[?|?]]; [left; lia|by right; left|by do 2 right]. Qed.

Lemma budget_begin D k T now p n i env idx p' calls :
  (0 ≤ D ≤ int64_max)%Z → DebounceDuration (wa_opts (pl_annotator p)) = D → (now ≤ ae_now env)%Z →
  worker_step (WBegin i env) idx p = Some (p', calls) → budget D k T now p n →
  calls = [] ∧ DebounceDuration (wa_opts (pl_annotator p')) = D ∧ budget D k T (ae_now env) p' n.
Proof.
  intros HD Ho Hn. simpl. destruct (pl_workers p !! i) as [[| |]|] eqn:Hi; try (intros [= <- <-] Hb; split_and!; [done..|by eapply budget_ext]).
  destruct (ch_buf _) as [|u l]; [intros [= <- <-] Hb; split_and!; [done..|by eapply budget_ext]|].
  intros ([wa1 go] & [[Hopt Hl] Hgo]%begin_update_patches & [= <- <-])%bind_Some Hb. simpl in *.
  split_and!; [done|by rewrite Hopt|]. destruct go; [|by eapply budget_ext].
  specialize (Hgo eq_refl). pose proof (in_phase_insert (Accepted k) _ i _ (Checked (pu_key u)) Hi) as Ha.
  pose proof (in_phase_insert (Checked k) _ i _ (Checked (pu_key u)) Hi) as Hc.
  destruct (decide (pu_key u = k)) as [<-|Hne]; decide_phases.
  - destruct Hb as [?|[[(s & Hs & Hge) _]|Hb]]; [left; lia| |do 2 right; simpl; rewrite length_insert; lia].
    left. unfold debounced in Hgo. simpl in Hgo. rewrite Hs in Hgo. simpl in Hgo. apply Z.ltb_ge in Hgo.
    rewrite <-Ho in *. pose proof (time_Since_lt (ae_now env) s (DebounceDuration (wa_opts (pl_annotator p)))) as Hlt. unfold int64_min in Hlt. lia.
  - destruct Hb as [?|[[Hs Hle]|Hb]]; [left; lia|right; left|do 2 right]; simpl; rewrite ?Hl, ?length_insert; split_and?; try done; lia.
Qed.

Lemma budget_patch D k T now p n i env idx p' calls :
  (now ≤ ae_evaluated env)%Z → worker_step (WPatch i env) idx p = Some (p', calls) → budget D k T now p n →
  pl_annotator p' = pl_annotator p ∧
  ∃ n', (length (filter (early k T) calls) + n' ≤ n)%nat ∧ budget D k T (ae_evaluated env) p' n'.
Proof.
  intros Hn. simpl. destruct (pl_workers p !! i) as [[|key|]|] eqn:Hi; try (intros [= <- <-] Hb; split; [done|]; exists n; split; [done|by eapply budget_ext]).
  pose proof (patch_update_calls env idx key) as Hcalls. destruct (patch_update env idx key) as [cs err]. intros [= <- <-] Hb.
  split; [done|]. set (ph := if err is Some _ then _ else _).
  pose proof (in_phase_insert (Accepted k) _ i _ ph Hi) as Ha. pose proof (in_phase_insert (Checked k) _ i _ ph Hi) as Hc.
  pose proof (in_phase_disjoint (Checked k) (Accepted k) (pl_workers p) ltac:(done)) as Hd. rewrite (decide_False (P := Checked key = Accepted k)) in Ha by done.
  rewrite (decide_False (P := ph = Checked k)) in Hc by (unfold ph; by destruct err).
  destruct (decide (T ≤ ae_evaluated env)%Z) as [HT|HT].
  { exists n. split; [|by left]. assert (filter (early k T) cs = []) as ->; [|done].
    destruct Hcalls as [->|(c & -> & _ & Hat & _)]; [done|]. rewrite filter_cons_False, filter_nil; [done|]. unfold early. lia. }
  assert (∀ n', ((if decide (key = k) then if err is Some _ then 0 else 1 else 0) + n' ≤ n)%nat →
    budget D k T (ae_evaluated env) (mkPool (pl_annotator p) (<[i := ph]> (pl_workers p))) n' →
    ∃ n', (length (filter (early k T) cs) + n' ≤ n)%nat ∧ budget D k T (ae_evaluated env) (mkPool (pl_annotator p) (<[i := ph]> (pl_workers p))) n') as Hgo.
  { intros n' Hle Hbn. exists n'. split; [|done]. etrans; [|exact Hle]. apply Nat.add_le_mono_r.
    destruct Hcalls as [->|(c & -> & Hk & _ & Hok)]; [simpl; lia|]. rewrite filter_cons, filter_nil.
    destruct (decide (early k T c)) as [(Hk' & Ho & _)|_]; [|simpl; lia]. rewrite decide_True by congruence. rewrite Hok in Ho. by destruct err. }
  destruct (decide (key = k)) as [->|Hne]; [|apply (Hgo n); [done|]].
  - rewrite (decide_True (P := Checked k = Checked k)) in Hc by done.
    destruct err as [e|]; subst ph; cbn iota in *; [apply (Hgo n); [done|]|apply (Hgo (n - 1)%nat)].
    + destruct Hb as [?|[[Hs Hle]|Hb]]; [lia|right; left|do 2 right]; simpl; rewrite ?length_insert; split_and?; try done; repeat case_decide; try done; lia.
    + rewrite decide_True in Ha by done. destruct Hb as [?|[[Hs Hle]|Hb]]; lia.
    + rewrite decide_True in Ha by done. destruct Hb as [?|[[Hs Hle]|Hb]]; [lia|right; left|do 2 right]; simpl; rewrite ?length_insert; split_and?; try done; lia.
  - rewrite (decide_False (P := Checked key = Checked k)) in Hc by congruence.
    rewrite (decide_False (P := ph = Accepted k)) in Ha by (unfold ph; destruct err; congruence).
    destruct Hb as [?|[[Hs Hle]|Hb]]; [lia|right; left|do 2 right]; simpl; rewrite ?length_insert; split_and?; try done; lia.
Qed.

Lemma budget_stamp D k T now p n i t idx p' calls :
  (now ≤ t)%Z → (T ≤ now + D)%Z → worker_step (WStamp i t) idx p = Some (p', calls) → budget D k T now p n →
  calls = [] ∧ wa_opts (pl_annotator p') = wa_opts (pl_annotator p) ∧ budget D k T t p' n.
Proof.
  intros Hn HT. simpl. destruct (pl_workers p !! i) as [[| |key]|] eqn:Hi; try (intros [= <- <-] Hb; split_and!; [done..|by eapply budget_ext]).
  intros [= <- <-] Hb. split_and!; [done..|]. pose proof (in_phase_insert (Accepted k) _ i _ Idle Hi) as Ha.
  pose proof (in_phase_insert (Checked k) _ i _ Idle Hi) as Hc. pose proof (in_phase_disjoint (Checked k) (Accepted k) (pl_workers p) ltac:(done)) as Hd.
  destruct (decide (key = k)) as [<-|Hne]; decide_phases.
  - destruct Hb as [?|[[Hs Hle]|Hb]]; [left; lia|right; left..]; simpl; (split; [exists t; split; [apply lookup_insert_eq|lia]|lia]).
  - destruct Hb as [?|[[Hs Hle]|Hb]]; [left; lia|right; left|do 2 right]; simpl; rewrite ?length_insert, ?lookup_insert_ne by congruence;
      split_and?; try done; lia.
Qed.

(** One step, with what it uses of the budget. *)
Lemma budget_step D k T now p n op p' calls :
  (0 ≤ D ≤ int64_max)%Z → DebounceDuration (wa_opts (pl_annotator p)) = D → (now ≤ default now (op_time op))%Z → (T ≤ now + D)%Z →
  pool_step p op = Some (p', calls) → budget D k T now p n →
  ∃ n', (length (filter (early k T) calls) + n' ≤ n)%nat ∧ budget D k T (default now (op_time op)) p' n'.
Proof.
  intros HD Ho Hn HT. destruct op as [t event|t ns kind name|[i env|i env|i t] idx]; simpl in *.
  - intros (wa & [_ Hl]%OnIndexChange_patches & [= <- <-])%bind_Some Hb. exists n. split; [done|]. by eapply budget_ext.
  - intros (wa & [_ Hl]%QueueWorkloadUpdate_patches & [= <- <-])%bind_Some Hb. exists n. split; [done|]. by eapply budget_ext.
  - intros Hs Hb. destruct (budget_begin D k T now p n i env idx p' calls) as (-> & _ & ?); [done..|]. by exists n.
  - intros Hs Hb. by eapply budget_patch.
  - intros Hs Hb. destruct (budget_stamp D k T now p n i t idx p' calls) as (-> & _ & ?); [done..|]. by exists n.
Qed.

Lemma pool_step_keeps p op p' calls :
  pool_step p op = Some (p', calls) →
  wa_opts (pl_annotator p') = wa_opts (pl_annotator p) ∧ length (pl_workers p') = length (pl_workers p).
Proof.
  destruct op as [t event|t ns kind name|[i env|i env|i t] idx]; simpl.
  - by intros (wa & [? _]%OnIndexChange_patches & [= <- <-])%bind_Some.
  - by intros (wa & [? _]%QueueWorkloadUpdate_patches & [= <- <-])%bind_Some.
  - destruct (pl_workers p !! i) as [[| |]|]; try by intros [= <- <-]. destruct (ch_buf _); [by intros [= <- <-]|].
    intros ([wa1 go] & [[? _] _]%begin_update_patches & [= <- <-])%bind_Some. simpl. split; [done|]. destruct go; [apply length_insert|done].
  - destruct (pl_workers p !! i) as [[| |]|]; try by intros [= <- <-].
    destruct (patch_update _ _ _). intros [= <- <-]. split; [done|apply length_insert].
  - destruct (pl_workers p !! i) as [[| |]|]; try by intros [= <- <-]. intros [= <- <-]. split; [done|apply length_insert].
Qed.

Lemma pool_run_budget D k T ops : ∀ now p n p' calls,
  (0 ≤ D ≤ int64_max)%Z → DebounceDuration (wa_opts (pl_annotator p)) = D → (T ≤ now + D)%Z →
  StronglySorted Z.le (now :: omap op_time ops) →
  pool_run p ops = Some (p', calls) → budget D k T now p n → (length (filter (early k T) calls) ≤ n)%nat.
Proof.
  induction ops as [|op ops IH]; intros now p n p' calls HD Ho HT Hs; simpl; [intros [= <- <-]; simpl; lia|].
  intros ([p1 cs] & Hstep & ([p2 cs2] & Hr & [= <- <-])%bind_Some)%bind_Some Hb.
  assert ((now ≤ default now (op_time op))%Z ∧ StronglySorted Z.le (default now (op_time op) :: omap op_time ops)) as [Hn Hs'].
  { simpl in Hs. destruct (op_time op) as [t|]; simpl; [|split; [lia|done]].
    apply StronglySorted_inv in Hs as [Hs Hle]. split; [by inversion Hle|done]. }
  destruct (budget_step D k T now p n op p1 cs) as (n' & Hle & Hb'); [done..|].
  assert (length (filter (early k T) cs2) ≤ n')%nat as Hrest.
  { eapply IH; [done| |..|done|exact Hb']; [by rewrite (proj1 (pool_step_keeps _ _ _ _ Hstep))|lia|done]. }
  rewrite filter_app, length_app. lia.
Qed.

(** A step that patches is that of a worker past its check, at that instant. *)
Lemma pool_step_patch p op p' calls b :
  pool_step p op = Some (p', calls) → b ∈ calls → pc_ok b = true →
  calls = [b] ∧ op_time op = Some (pc_at b) ∧ (1 ≤ in_phase (Accepted (pc_key b)) (pl_workers p'))%nat.
Proof.
  destruct op as [t event|t ns kind name|[i env|i env|i t] idx]; simpl.
  - intros (? & _ & [= <- <-])%bind_Some Hin. by apply not_elem_of_nil in Hin.
  - intros (? & _ & [= <- <-])%bind_Some Hin. by apply not_elem_of_nil in Hin.
  - intros Hs Hin. assert (calls = []) as ->; [|by apply not_elem_of_nil in Hin]. revert Hs.
    destruct (pl_workers p !! i) as [[| |]|]; try by intros [= <- <-]. destruct (ch_buf _); [by intros [= <- <-]|].
    by intros ([wa1 go] & _ & [= <- <-])%bind_Some.
  - destruct (pl_workers p !! i) as [[|key|]|] eqn:Hi; try (intros [= <- <-] Hin; by apply not_elem_of_nil in Hin).
    pose proof (patch_update_calls env idx key) as Hcalls. destruct (patch_update env idx key) as [cs err]. intros [= <- <-] Hin Hok.
    destruct Hcalls as [->|(c & -> & Hk & Hat & Herr)]; [by apply not_elem_of_nil in Hin|].
    apply list_elem_of_singleton in Hin as ->. apply Herr in Hok as ->. rewrite Hat, Hk. split_and!; [done..|]. simpl.
    pose proof (in_phase_insert (Accepted key) _ i _ (Accepted key) Hi) as Ha. decide_phases. lia.
  - intros Hs Hin. assert (calls = []) as ->; [|by apply not_elem_of_nil in Hin]. revert Hs.
    destruct (pl_workers p !! i) as [[| |]|]; by intros [= <- <-].
Qed.

Lemma pool_run_window D ops : ∀ p p' calls i a,
  (0 ≤ D ≤ int64_max)%Z → DebounceDuration (wa_opts (pl_annotator p)) = D → StronglySorted Z.le (omap op_time ops) →
  pool_run p ops = Some (p', calls) → calls !! i = Some a → pc_ok a = true →
  (length (filter (early (pc_key a) (pc_at a + D)) (drop (S i) calls)) < length (pl_workers p))%nat.
Proof.
  induction ops as [|op ops IH]; intros p p' calls i a HD Ho Hs; simpl; [by intros [= <- <-]|].
  intros ([p1 cs] & Hstep & ([p2 cs2] & Hr & [= <- <-])%bind_Some)%bind_Some Hi Hok.
  destruct (pool_step_keeps _ _ _ _ Hstep) as [Hopt Hlen].
  assert (StronglySorted Z.le (omap op_time ops)) as Hs'.
  { simpl in Hs. destruct (op_time op); [by apply StronglySorted_inv in Hs as [? _]|done]. }
  apply lookup_app_Some in Hi as [Hi|[Hge Hi]].
  - destruct (pool_step_patch _ _ _ _ a Hstep) as (-> & Ht & Hin); [by eapply list_elem_of_lookup_2|done|].
    destruct i; [|done]. simpl in Hs |- *. rewrite Ht in Hs.
    pose proof (length_filter (fun x => x = Accepted (pc_key a)) (pl_workers p1)) as Hle. fold (in_phase (Accepted (pc_key a)) (pl_workers p1)) in Hle.
    assert (length (filter (early (pc_key a) (pc_at a + D)) cs2) ≤ length (pl_workers p) - 1)%nat as Hmax; [|rewrite <-Hlen in *; rewrite drop_0; lia].
    eapply (pool_run_budget D (pc_key a) (pc_at a + D) ops (pc_at a) p1); [done|by rewrite Hopt|lia|done|done|]. do 2 right. lia.
  - rewrite drop_app_ge by lia. replace (S i - length cs)%nat with (S (i - length cs)) by lia. rewrite <-Hlen.
    by apply (IH p1 p2 cs2 (i - length cs)%nat a HD); [rewrite Hopt|..].
Qed.

(** C26: within the debounce duration of a patch that the API server accepted,
    the pool has fewer than its number of workers further patches of the
    workload accepted, however the workers' checks, patches and stamps and the
    queueing interleave, as long as the clock does not go back.  A single
    worker leaves the whole window between them; with several, each can have
    passed its check before the first patch was remembered
    ([pool_workers_race]). *)
Theorem annotator_debounces opts ops p calls i a :
  (0 ≤ DebounceDuration opts ≤ int64_max)%Z → StronglySorted Z.le (omap op_time ops) →
  pool_run (start_workers (NewWorkloadAnnotator opts)) ops = Some (p, calls) →
  calls !! i = Some a → pc_ok a = true →
  let D := if (DebounceDuration opts =? 0)%Z then (30 * time_Second)%Z else DebounceDuration opts in
  let workers := if (Workers opts =? 0)%Z then 5%Z else Workers opts in
  (Z.of_nat (length (filter (early (pc_key a) (pc_at a + D)) (drop (S i) calls))) < workers)%Z.
Proof.
  intros HD Hs Hr Hi Hok D workers.
  assert (wa_opts (NewWorkloadAnnotator opts) = mkAnnotatorOptions D workers) as Hopt.
  { unfold NewWorkloadAnnotator. simpl. f_equal; unfold D, workers; case_bool_decide; case_match; try done; lia. }
  assert (0 ≤ D ≤ int64_max)%Z as HD' by (unfold D; case_match; [unfold int64_max, time_Second; lia|done]).
  pose proof (pool_run_window D ops (start_workers (NewWorkloadAnnotator opts)) p calls i a HD') as Hw.
  specialize (Hw (f_equal DebounceDuration Hopt) Hs Hr Hi Hok).
  unfold start_workers in Hw. cbn [pl_workers] in Hw. rewrite length_replicate, Hopt in Hw. cbn [Workers] in Hw. lia.
Qed.
End window.

(** ** Evaluation *)

Definition two_workers : WorkloadAnnotatorOptions := mkAnnotatorOptions (30 * time_Second) 2.

(** Two workers take an update of one workload each before either has patched
    it; a third update is queued after the window. *)
Definition race_ops : list (pool_op (Idx := Indexer)) :=
  let idx := idx_with quota_constraint in
  let queue := fun s => PQueue (s * time_Second) "team-a" "Deployment" "api" in
  [queue 100; queue 100; PWorker (WBegin 0 (example_env 100)) idx; PWorker (WBegin 1 (example_env 101)) idx;
   PWorker (WPatch 1 (example_env 102)) idx; PWorker (WPatch 0 (example_env 103)) idx;
   PWorker (WStamp 1 (104 * time_Second)) idx; PWorker (WStamp 0 (105 * time_Second)) idx;
   queue 110; PWorker (WBegin 0 (example_env 110)) idx;
   queue 140; PWorker (WBegin 0 (example_env 140)) idx; PWorker (WPatch 0 (example_env 140)) idx]%Z.

Definition race_result : Pool * list PatchCall :=
  default (start_workers (NewWorkloadAnnotator two_workers), []) (pool_run (start_workers (NewWorkloadAnnotator two_workers)) race_ops).

Lemma race_run_eq :
  pool_run (start_workers (NewWorkloadAnnotator two_workers)) race_ops = Some (race_result.1, race_result.2).
Proof. vm_compute. reflexivity. Qed.

(** The bound is reached: a second patch follows one second after the first. *)
Theorem pool_workers_race :
  (fun b => (pc_at b / time_Second)%Z) <$> race_result.2 = [102%Z; 103%Z; 140%Z].
Proof. vm_compute. reflexivity. Qed.

Lemma annotator_debounces_witness :
  ∃ a, race_result.2 !! 0%nat = Some a ∧ pc_key a = api_key ∧
    (Z.of_nat (length (filter (early (pc_key a) (pc_at a + 30 * time_Second)) (drop 1 race_result.2))) < 2)%Z.
Proof.
  destruct (race_result.2 !! 0%nat) as [a|] eqn:Ha; [|vm_compute in Ha; discriminate].
  exists a. split; [reflexivity|]. split; [vm_compute in Ha; injection Ha as <-; reflexivity|].
  refine (annotator_debounces two_workers race_ops race_result.1 race_result.2 0 a _ _ race_run_eq Ha _).
  - vm_compute. split; discriminate.
  - apply (bool_decide_unpack _). vm_compute. exact I.
  - vm_compute in Ha. injection Ha as <-. reflexivity.
Defined.
