(* ===== verification/McpHandlers.v ===== *)
(** * The MCP server (internal/mcp: types.go, handlers.go, server.go)

    The read-only tools and resources that agents query, and the stream of
    index changes.  A handler takes the decoded body of its request ([None]
    when it does not decode) and the detail level that the privacy resolver
    gives the caller; its result is the value it encodes, or the error message
    and status.  sigs.k8s.io/yaml is the parameter [parse_yaml].  The handlers
    that write no map in a significant order take the orders of the map
    iterations and of the unstable sort as arguments. *)

From S2P Require Import Prelude GoStd Encoding Types Apimachinery Util Indexer Channel.
From S2P Require Import Remediation EventBuilder Requirements Report.
From Stdlib Require Import Ascii SpecFloat.

Open Scope go_scope.
#[local] Open Scope string_scope.

Module Mcp.

(** ** Types (types.go) *)

Record QueryParams := mkQueryParams {
  qp_Namespace : string;
  qp_WorkloadName : string;
  qp_WorkloadLabels : gmap string string;
  qp_ConstraintType : string;
  qp_Severity : string;
  qp_IncludeRemediation : bool;
}.

Record ExplainParams := mkExplainParams { ep_ErrorMessage : string; ep_Namespace : string; ep_WorkloadName : string }.
Record CheckParams := mkCheckParams { cp_Manifest : string }.
Record RemediationParams := mkRemediationParams { rp_ConstraintName : string; rp_Namespace : string }.

Record RemediationStep := mkRemediationStep {
  st_Type : string; st_Description : string; st_Command : string; st_Patch : string; st_Template : string;
  st_URL : string; st_Contact : string; st_RequiresPrivilege : string; st_Automated : bool;
}.

Record RemediationResult := mkRemediationResult { rr_Summary : string; rr_Steps : list RemediationStep }.

Record ConstraintResult := mkConstraintResult {
  res_Name : string;
  res_Namespace : string;
  res_ConstraintType : string;
  res_Severity : string;
  res_SourceKind : string;
  res_SourceAPIVersion : string;
  res_Effect : string;
  res_AffectedWorkloads : list string;
  res_Remediation : option RemediationResult;
  res_Metrics : option (gmap string MetricDataPoint);   (**r MetricValue has the fields of [MetricDataPoint] *)
  res_Tags : list string;
  res_DetailLevel : string;
  res_LastObserved : string;
}.

Record QueryResult := mkQueryResult { qr_Namespace : string; qr_Constraints : list ConstraintResult; qr_Total : Z }.

Record ExplainResult := mkExplainResult {
  er_Explanation : string;
  er_MatchingConstraints : list ConstraintResult;
  er_Confidence : string;
  er_RemediationSteps : list RemediationStep;
}.

Record MissingResource := mkMissingResource {
  mr_ExpectedKind : string; mr_ExpectedAPIVersion : string; mr_Reason : string; mr_Severity : string;
  mr_ForWorkload : string; mr_Remediation : option RemediationResult;
}.

Record CheckResult := mkCheckResult {
  cr_WouldBlock : bool;
  cr_BlockingConstraints : list ConstraintResult;
  cr_MissingPrerequisites : list MissingResource;
  cr_Warnings : list string;
}.

Record NamespaceSummary := mkNamespaceSummary {
  ns_Namespace : string; ns_Total : Z; ns_CriticalCount : Z; ns_WarningCount : Z; ns_InfoCount : Z; ns_TopConstraint : string;
}.

Definition scopedConstraintName (c : Constraint) (level : DetailLevel) (viewerNamespace : string) : string :=
  if level == DetailLevelSummary
  then if (c_Namespace c == EmptyString) || (c_Namespace c != viewerNamespace) then "redacted" else c_Name c
  else c_Name c.

Definition canShowNamespace (c : Constraint) (level : DetailLevel) (viewerNamespace : string) : bool :=
  if level == DetailLevelSummary then c_Namespace c == viewerNamespace
  else if level == DetailLevelDetailed then (c_Namespace c == EmptyString) || (c_Namespace c == viewerNamespace)
  else true.

Definition gvrToKind (gvr : GroupVersionResource) : string :=
  let resource := g_Resource gvr in
  switch resource
    [("networkpolicies", "NetworkPolicy"); ("resourcequotas", "ResourceQuota"); ("limitranges", "LimitRange");
     ("validatingwebhookconfigurations", "ValidatingWebhookConfiguration");
     ("mutatingwebhookconfigurations", "MutatingWebhookConfiguration");
     ("ciliumnetworkpolicies", "CiliumNetworkPolicy");
     ("ciliumclusterwidenetworkpolicies", "CiliumClusterwideNetworkPolicy")]
    (lift_first (if (1 <? String.length resource)%nat && strings_HasSuffix resource "s"
                 then String.substring 0 (String.length resource - 1) resource else resource)).

Definition gvrToAPIVersion (gvr : GroupVersionResource) : string :=
  if g_Group gvr == EmptyString then g_Version gvr else g_Group gvr +:+ "/" +:+ g_Version gvr.

Definition guessUnit (resourceName : string) : string :=
  if (resourceName == "cpu") || strings_HasSuffix resourceName ".cpu" then "cores"
  else if (resourceName == "memory") || strings_HasSuffix resourceName ".memory" then "bytes"
  else if strings_Contains resourceName "storage" then "bytes"
  else "count".

Definition metric_value (name : string) (info : gmap string GoVal) : MetricDataPoint :=
  mkMetric (default EmptyString (v ← info !! "hard"; as_string v)) (default EmptyString (v ← info !! "used"; as_string v))
           (guessUnit name)
           match info !! "percent" with
           | Some (VInt z) => float64_of_int z
           | Some (VFloat f) => f
           | _ => float64_zero
           end.

Definition extractMetrics (c : Constraint) : option (gmap string MetricDataPoint) :=
  match c_Details c with
  | None => None
  | Some d => match d !! "resources" with
              | Some (VMap resources) =>
                  Some (map_imap (fun name infoRaw => metric_value name <$> as_map infoRaw) resources : gmap string MetricDataPoint)
              | _ => None
              end
  end.

Definition ToConstraintResult (now : Time) (c : Constraint) (level : DetailLevel) (viewerNamespace : string) : ConstraintResult :=
  {| res_Name := scopedConstraintName c level viewerNamespace;
     res_Namespace := if canShowNamespace c level viewerNamespace then c_Namespace c else EmptyString;
     res_ConstraintType := c_ConstraintType c; res_Severity := c_Severity c;
     res_SourceKind := gvrToKind (c_Source c); res_SourceAPIVersion := gvrToAPIVersion (c_Source c);
     res_Effect := c_Effect c; res_AffectedWorkloads := []; res_Remediation := None;
     res_Metrics := if c_ConstraintType c == ConstraintTypeResourceLimit
                    then (if (level == DetailLevelDetailed) || (level == DetailLevelFull) then extractMetrics c else None)
                    else None;
     res_Tags := c_Tags c; res_DetailLevel := level; res_LastObserved := format_RFC3339 now |}.

(** ** Handlers (handlers.go) *)

Inductive Response (A : Type) :=
  | Reply (data : A)
  | Failure (message : string) (status : Z).
Arguments Reply {A} _.
Arguments Failure {A} _ _.

Definition StatusBadRequest : Z := 400.
Definition StatusNotFound : Z := 404.
Definition StatusMethodNotAllowed : Z := 405.

Definition severityOrder (severity : string) : Z := switch severity [("Critical", 0%Z); ("Warning", 1%Z); ("Info", 2%Z)] 3%Z.

Definition genericSummary (ct : ConstraintType) : string :=
  switch ct
    [(ConstraintTypeNetworkIngress, "Inbound network traffic is restricted");
     (ConstraintTypeNetworkEgress, "Outbound network traffic is restricted");
     (ConstraintTypeAdmission, "An admission policy may reject resources");
     (ConstraintTypeResourceLimit, "Resource quotas or limits apply");
     (ConstraintTypeMeshPolicy, "Service mesh policies apply");
     (ConstraintTypeMissing, "A required resource may be missing")] "A policy constraint applies".

(** The loop that converts the steps of a remediation. *)
Definition to_step (step : Types.RemediationStep) : RemediationStep :=
  mkRemediationStep (rs_Type step) (rs_Description step) (rs_Command step) (rs_Patch step) (rs_Template step) (rs_URL step)
                    (rs_Contact step) (rs_RequiresPrivilege step)
                    ((rs_Type step == "kubectl") || (rs_Type step == "annotation")).

Definition to_remediation (r : RemediationInfo) : RemediationResult := mkRemediationResult (ri_Summary r) (to_step <$> ri_Steps r).

Definition toConstraintResultWithRemediation (rb : RemediationBuilder) (now : Time) (c : Constraint) (level : DetailLevel)
    (namespace : string) : ConstraintResult :=
  let result := ToConstraintResult now c level namespace in
  mkConstraintResult (res_Name result) (res_Namespace result) (res_ConstraintType result) (res_Severity result)
    (res_SourceKind result) (res_SourceAPIVersion result) (res_Effect result) (res_AffectedWorkloads result)
    (Some (to_remediation (Build rb c))) (res_Metrics result) (res_Tags result) (res_DetailLevel result) (res_LastObserved result).

(** types.go's own version, over a function that builds the remediation. *)
Definition ToConstraintResultWithRemediation (now : Time) (c : Constraint) (level : DetailLevel) (viewerNamespace : string)
    (remediationBuilder : Constraint -> RemediationInfo) : ConstraintResult :=
  let result := ToConstraintResult now c level viewerNamespace in
  let remediation := remediationBuilder c in
  let steps := (fun step => mkRemediationStep (rs_Type step) (rs_Description step) (rs_Command step) (rs_Patch step)
                              (rs_Template step) (rs_URL step) (rs_Contact step) (rs_RequiresPrivilege step)
                              ((rs_Type step == "kubectl") || (rs_Type step == "annotation"))) <$> ri_Steps remediation in
  mkConstraintResult (res_Name result) (res_Namespace result) (res_ConstraintType result) (res_Severity result)
    (res_SourceKind result) (res_SourceAPIVersion result) (res_Effect result) (res_AffectedWorkloads result)
    (Some (mkRemediationResult (ri_Summary remediation) steps)) (res_Metrics result) (res_Tags result) (res_DetailLevel result)
    (res_LastObserved result).

Definition filterConstraints (constraints : list Constraint) (params : QueryParams) : list Constraint :=
  omap (fun c =>
    if (qp_ConstraintType params != EmptyString) && (c_ConstraintType c != qp_ConstraintType params) then None
    else if (qp_Severity params != EmptyString) && (c_Severity c != qp_Severity params) then None
    else Some c) constraints.

Definition result_less (a b : ConstraintResult) : bool := (severityOrder (res_Severity a) <? severityOrder (res_Severity b))%Z.

(** *** matchErrorToConstraints *)

Definition networkPatterns : list string :=
  ["connection refused"; "connection timed out"; "network unreachable"; "no route to host"; "dial tcp"; "i/o timeout";
   "egress"; "ingress"].
Definition admissionPatterns : list string :=
  ["denied"; "rejected"; "forbidden"; "admission"; "webhook"; "not allowed"; "policy violation"; "constraint"].
Definition quotaPatterns : list string :=
  ["exceeded quota"; "resource quota"; "limit exceeded"; "insufficient"; "cpu"; "memory"; "storage"].

(** One group of patterns: the constraints kept once a pattern is found. *)
Definition pattern_matches (patterns : list string) (keep : Constraint -> bool) (errorLower : string) (constraints : list Constraint)
    : list Constraint :=
  if existsb (strings_Contains errorLower) patterns then filter (fun c => keep c = true) constraints else [].

Definition is_network (c : Constraint) : bool :=
  (c_ConstraintType c == ConstraintTypeNetworkIngress) || (c_ConstraintType c == ConstraintTypeNetworkEgress).
Definition is_admission (c : Constraint) : bool := c_ConstraintType c == ConstraintTypeAdmission.
Definition is_resource_limit (c : Constraint) : bool := c_ConstraintType c == ConstraintTypeResourceLimit.

Definition matchErrorToConstraints (errorMessage : string) (constraints : list Constraint) : list Constraint * string * string :=
  let errorLower := strings_ToLower errorMessage in
  match pattern_matches networkPatterns is_network errorLower constraints with
  | (_ :: _) as matches =>
      (matches, "high", "This error appears to be network-related. The following network policies may be blocking traffic.")
  | [] =>
  match pattern_matches admissionPatterns is_admission errorLower constraints with
  | (_ :: _) as matches =>
      (matches, "high", "This error appears to be from an admission controller. The following admission policies may be rejecting the request.")
  | [] =>
  match pattern_matches quotaPatterns is_resource_limit errorLower constraints with
  | (_ :: _) as matches =>
      (matches, "high", "This error appears to be quota-related. The following resource quotas may be limiting resources.")
  | [] =>
      (constraints, "low", "Could not determine the specific cause. Here are all constraints in the namespace that might be relevant.")
  end end end.

Section handlers.
Context {AM : Apimachinery}.

Definition query_constraints (σ : Shuffle) (idx : Indexer) (params : QueryParams) : list Constraint :=
  if size (qp_WorkloadLabels params) == 0%nat then ByNamespace σ idx (qp_Namespace params)
  else ByLabels σ idx (qp_Namespace params) (qp_WorkloadLabels params).

Definition HandleQuery (σ σs : Shuffle) (now : Time) (rb : RemediationBuilder) (idx : Indexer) (level : DetailLevel)
    (body : option QueryParams) : Response QueryResult :=
  match body with
  | None => Failure "Invalid request body" StatusBadRequest
  | Some params =>
      if qp_Namespace params == EmptyString then Failure "namespace is required" StatusBadRequest
      else
        let constraints := filterConstraints (query_constraints σ idx params) params in
        let results := (fun c => if qp_IncludeRemediation params
                                 then toConstraintResultWithRemediation rb now c level (qp_Namespace params)
                                 else ToConstraintResult now c level (qp_Namespace params)) <$> constraints in
        Reply (mkQueryResult (qp_Namespace params) (sort_slice result_less σs results) (go_len results))
  end.

Definition HandleExplain (σ : Shuffle) (now : Time) (rb : RemediationBuilder) (idx : Indexer) (level : DetailLevel)
    (body : option ExplainParams) : Response ExplainResult :=
  match body with
  | None => Failure "Invalid request body" StatusBadRequest
  | Some params =>
      if (ep_ErrorMessage params == EmptyString) || (ep_Namespace params == EmptyString)
      then Failure "error_message and namespace are required" StatusBadRequest
      else
        let '(matching, confidence, explanation) :=
          matchErrorToConstraints (ep_ErrorMessage params) (ByNamespace σ idx (ep_Namespace params)) in
        let results := (fun c => toConstraintResultWithRemediation rb now c level (ep_Namespace params)) <$> matching in
        Reply (mkExplainResult explanation results confidence
                 (mjoin ((fun r => match res_Remediation r with Some m => rr_Steps m | None => [] end) <$> results)))
  end.

(** [v, _ := m[key].(string)] of a map that may be nil. *)
Definition string_field (m : option (gmap string GoVal)) (key : string) : string := default EmptyString (map_string m key).

Definition manifest_metadata (manifest : gmap string GoVal) : option (gmap string GoVal) := v ← manifest !! "metadata"; as_map v.

Definition manifest_namespace (manifest : gmap string GoVal) : string :=
  let ns := string_field (manifest_metadata manifest) "namespace" in if ns == EmptyString then "default" else ns.

Definition manifest_labels (manifest : gmap string GoVal) : gmap string string :=
  match m ← manifest_metadata manifest; v ← m !! "labels"; as_map v with
  | Some labels => omap as_string labels
  | None => ∅
  end.

Definition details_string (c : Constraint) (key : string) : string := string_field (c_Details c) key.

(** [workload] and [rb] are never nil where it is called. *)
Definition constraintToMissingResource (c : Constraint) (workload : Unstructured) (rb : RemediationBuilder) : MissingResource :=
  let kind := GetKind workload in
  let name := GetName workload in
  let ns := GetNamespace workload in
  mkMissingResource (details_string c "expectedKind") (details_string c "expectedAPIVersion") (details_string c "reason")
    (c_Severity c)
    (if ns != EmptyString then ns +:+ "/" +:+ kind +:+ "/" +:+ name else kind +:+ "/" +:+ name)
    (Some (to_remediation (Build rb c))).

(** The loop over the constraints: the blocking ones and the warnings. *)
Definition is_blocking (c : Constraint) : bool :=
  (c_ConstraintType c == ConstraintTypeAdmission) && (c_Severity c == SeverityCritical).
Definition check_warning (now : Time) (level : DetailLevel) (namespace : string) (c : Constraint) : option string :=
  if is_blocking c then None
  else if c_Severity c == SeverityWarning
  then Some (res_Name (ToConstraintResult now c level namespace) +:+ ": " +:+ genericSummary (c_ConstraintType c))
  else None.

Definition HandleCheck (parse_yaml : string -> gmap string GoVal + error) (σ : Shuffle) (now : Time)
    (eval : RequirementEvalContext) (rb : RemediationBuilder) (idx : Indexer) (level : DetailLevel)
    (body : option CheckParams) (evaluator : option Evaluator) : option Evaluator * Response CheckResult :=
  match body with
  | None => (evaluator, Failure "Invalid request body" StatusBadRequest)
  | Some params =>
      if cp_Manifest params == EmptyString then (evaluator, Failure "manifest is required" StatusBadRequest)
      else match parse_yaml (cp_Manifest params) with
      | inr _ => (evaluator, Failure "Invalid YAML manifest" StatusBadRequest)
      | inl manifest =>
          let namespace := manifest_namespace manifest in
          let constraints := ByLabels σ idx namespace (manifest_labels manifest) in
          let blocking := (fun c => ToConstraintResult now c level namespace) <$> filter (fun c => is_blocking c = true) constraints in
          let warnings := omap (check_warning now level namespace) constraints in
          let workloadObj := mkUnstructured manifest in
          let '(evaluator', missing) :=
            match evaluator with
            | None => (None, [])
            | Some e => let '(e', cs) := Evaluate now eval (Some workloadObj) e in
                        (Some e', (fun mc => constraintToMissingResource mc workloadObj rb) <$> cs)
            end in
          (evaluator', Reply (mkCheckResult (blocking != []) blocking missing warnings))
      end
  end.

Definition HandleRemediation (σ : Shuffle) (rb : RemediationBuilder) (idx : Indexer) (body : option RemediationParams)
    : Response RemediationResult :=
  match body with
  | None => Failure "Invalid request body" StatusBadRequest
  | Some params =>
      if (rp_ConstraintName params == EmptyString) || (rp_Namespace params == EmptyString)
      then Failure "constraint_name and namespace are required" StatusBadRequest
      else match head (filter (fun c => c_Name c = rp_ConstraintName params) (ByNamespace σ idx (rp_Namespace params))) with
           | None => Failure "Constraint not found" StatusNotFound
           | Some target => Reply (to_remediation (Build rb target))
           end
  end.
End handlers.

(** *** Namespaces *)

(** [nsMap[ns] = append(nsMap[ns], c)] *)
Definition append_at (ns : string) (c : Constraint) (m : gmap string (list Constraint)) : gmap string (list Constraint) :=
  <[ns := (default [] (m !! ns) ++ [c])%list]> m.

Definition group_one (m : gmap string (list Constraint)) (c : Constraint) : gmap string (list Constraint) :=
  let m1 := foldl (fun m ns => append_at ns c m) m (c_AffectedNamespaces c) in
  if c_Namespace c != EmptyString then append_at (c_Namespace c) c m1 else m1.

Definition group_by_namespace (cs : list Constraint) : gmap string (list Constraint) := foldl group_one ∅ cs.

(** The deduplication by UID. *)
Fixpoint unique_uids (seen : gset UID) (cs : list Constraint) : list Constraint :=
  match cs with
  | [] => []
  | c :: rest => if bool_decide (c_UID c ∈ seen) then unique_uids seen rest
                 else c :: unique_uids ({[c_UID c]} ∪ seen) rest
  end.

(** One iteration of the loop that counts, with [topSeverity]. *)
Definition tally (acc : NamespaceSummary * Severity) (c : Constraint) : NamespaceSummary * Severity :=
  let '(s, top) := acc in
  let named (b : bool) := if b then c_Name c else ns_TopConstraint s in
  let sev (b : bool) := if b then c_Severity c else top in
  switch (c_Severity c)
    [(SeverityCritical, (let b := top == EmptyString in
       (mkNamespaceSummary (ns_Namespace s) (ns_Total s) (ns_CriticalCount s + 1) (ns_WarningCount s) (ns_InfoCount s) (named b), sev b)));
     (SeverityWarning, (let b := (top == EmptyString) || (top == SeverityInfo) in
       (mkNamespaceSummary (ns_Namespace s) (ns_Total s) (ns_CriticalCount s) (ns_WarningCount s + 1) (ns_InfoCount s) (named b), sev b)));
     (SeverityInfo, (let b := top == EmptyString in
       (mkNamespaceSummary (ns_Namespace s) (ns_Total s) (ns_CriticalCount s) (ns_WarningCount s) (ns_InfoCount s + 1) (named b), sev b)))]
    acc.

Definition namespace_summary (ns : string) (constraints : list Constraint) : NamespaceSummary :=
  let unique := unique_uids ∅ constraints in
  (foldl tally (mkNamespaceSummary ns (go_len unique) 0 0 0 EmptyString, EmptyString) unique).1.

Definition summary_less (a b : NamespaceSummary) : bool := string_less (ns_Namespace a) (ns_Namespace b).

Definition HandleListNamespaces (σ σm σs : Shuffle) (idx : Indexer) : Response (list NamespaceSummary) :=
  let nsMap := group_by_namespace (All σ idx) in
  Reply (sort_slice summary_less σs ((fun e : string * list Constraint => namespace_summary e.1 e.2) <$> range σm nsMap)).

(** [nsSet] of the health and capabilities resources. *)
Definition constraint_namespaces (cs : list Constraint) : gset string :=
  list_to_set (mjoin ((fun c => (c_AffectedNamespaces c ++ (if c_Namespace c != EmptyString then [c_Namespace c] else []))%list) <$> cs)).

Record AdapterHealth := mkAdapterHealth { ah_Enabled : bool; ah_WatchedResources : Z; ah_ErrorCount : Z; ah_Reason : string }.
Record MCPHealth := mkMCPHealth { mh_Enabled : bool; mh_Transport : string; mh_Port : Z }.
Record IndexerHealth := mkIndexerHealth { ih_TotalConstraints : Z; ih_NamespacesWithConstraints : Z }.
Record HealthResponse := mkHealthResponse {
  hs_Status : string; hs_Adapters : gmap string AdapterHealth; hs_MCP : MCPHealth; hs_Indexer : IndexerHealth; hs_LastScan : string }.

Definition HandleHealthResource (σ : Shuffle) (now : Time) (idx : Indexer) : Response HealthResponse :=
  let all := All σ idx in
  let watches n := mkAdapterHealth true n 0 EmptyString in
  Reply (mkHealthResponse "healthy"
           {[ "networkpolicy" := watches 1%Z; "resourcequota" := watches 1%Z; "limitrange" := watches 1%Z; "webhookconfig" := watches 2%Z;
              "generic" := watches 0%Z ]} (mkMCPHealth true "sse" 8090)
           (mkIndexerHealth (go_len all) (Z.of_nat (size (constraint_namespaces all)))) (format_RFC3339 now)).

(** [typeCount[t]++] *)
Definition count_types (cs : list Constraint) : gmap string Z :=
  foldl (fun m c => <[c_ConstraintType c := (default 0 (m !! c_ConstraintType c) + 1)%Z]> m) ∅ cs.

Record Capabilities := mkCapabilities {
  cap_version : string; cap_adapters : list string; cap_constraintTypes : gmap string Z; cap_totalConstraints : Z;
  cap_namespaceCount : Z; cap_hubbleEnabled : bool; cap_mcpEnabled : bool; cap_lastScan : string }.

Definition HandleCapabilitiesResource (σ : Shuffle) (now : Time) (idx : Indexer) : Response Capabilities :=
  let all := All σ idx in
  Reply (mkCapabilities "1" ["networkpolicy"; "resourcequota"; "limitrange"; "webhookconfig"; "generic"] (count_types all) (go_len all)
           (Z.of_nat (size (constraint_namespaces all))) false true (format_RFC3339 now)).

(** *** Resources *)

Record ReportEntry := mkReportEntry {
  re_name : string; re_type : string; re_severity : string; re_effect : string; re_source : string;
  re_remediation : option RemediationResult; re_tags : list string }.

Record McpReport := mkMcpReport {
  rep_namespace : string; rep_constraintCount : Z; rep_criticalCount : Z; rep_warningCount : Z; rep_infoCount : Z;
  rep_constraints : list ReportEntry; rep_schemaVersion : string; rep_detailLevel : string; rep_generatedAt : string }.

Definition report_entry (rb : RemediationBuilder) (now : Time) (level : DetailLevel) (namespace : string) (c : Constraint) : ReportEntry :=
  let result := toConstraintResultWithRemediation rb now c level namespace in
  mkReportEntry (res_Name result) (res_ConstraintType result) (res_Severity result) (res_Effect result) (res_SourceKind result)
                (res_Remediation result) (res_Tags result).

Definition buildReport (rb : RemediationBuilder) (now : Time) (constraints : list Constraint) (namespace : string) (level : DetailLevel)
    : McpReport :=
  mkMcpReport namespace (go_len constraints) (count_severity SeverityCritical constraints)
    (count_severity SeverityWarning constraints) (count_severity SeverityInfo constraints)
    (report_entry rb now level namespace <$> constraints) "1" level (format_RFC3339 now).

Definition HandleReportResource (σ : Shuffle) (now : Time) (rb : RemediationBuilder) (idx : Indexer) (level : DetailLevel)
    (urlPath : string) : Response McpReport :=
  let namespace := strings_TrimSuffix (strings_TrimPrefix urlPath "/resources/reports/") "/" in
  if namespace == EmptyString then Failure "Namespace is required" StatusBadRequest
  else Reply (buildReport rb now (ByNamespace σ idx namespace) namespace level).

Definition HandleConstraintResource (σ : Shuffle) (now : Time) (rb : RemediationBuilder) (idx : Indexer) (level : DetailLevel)
    (urlPath : string) : Response ConstraintResult :=
  match strings_SplitN2 (strings_TrimPrefix urlPath "/resources/constraints/") "/"%char with
  | [namespace; name] =>
      match head (filter (fun c => c_Name c = name) (ByNamespace σ idx namespace)) with
      | Some c => Reply (toConstraintResultWithRemediation rb now c level namespace)
      | None => Failure "Constraint not found" StatusNotFound
      end
  | _ => Failure "Namespace and constraint name are required" StatusBadRequest
  end.

(** ** Server (server.go) *)

(** [handleTool] and [handleResource]: the method guard around a handler. *)
Definition handleTool {A} (method : string) (handler : Response A) : Response A :=
  if method != "POST" then Failure "Method not allowed" StatusMethodNotAllowed else handler.
Definition handleResource {A} (method : string) (handler : Response A) : Response A :=
  if method != "GET" then Failure "Method not allowed" StatusMethodNotAllowed else handler.

(** The payload of a broadcast of an index change. *)
Record ChangeEvent := mkChangeEvent {
  ce_type : string; ce_constraintUID : string; ce_constraintName : string; ce_namespace : string;
  ce_constraintType : string; ce_severity : string }.

(** [sseClients] maps the ID of a client to its channel; the handler of the
    client holds the same channel, so the channels are a store of their own,
    [channels], under the ID they were made for. *)
Record Server := mkServer {
  channels : gmap string (Chan ChangeEvent);
  sseClients : gset string;
  clientIDCounter : Z;
}.

(** The part of the server that [NewServer] starts with and [handleSSE],
    [BroadcastEvent] and [OnIndexChange] change. *)
Definition no_clients : Server := mkServer ∅ ∅ 0.

(** [handleSSE] up to its loop: a new client. *)
Definition sse_connect (s : Server) : Server * string :=
  let n := (clientIDCounter s + 1)%Z in
  let clientID := "client-" +:+ fmt_d n in
  (mkServer (<[clientID := make_chan 100]> (channels s)) ({[clientID]} ∪ sseClients s) n, clientID).

(** The deferred clean-up of [handleSSE]; [close] panics on a closed channel:
    [None]. *)
Definition sse_disconnect (clientID : string) (s : Server) : option Server :=
  ch ← channels s !! clientID;
  if ch_closed ch then None
  else Some (mkServer (<[clientID := ch_close ch]> (channels s)) (sseClients s ∖ {[clientID]}) (clientIDCounter s)).

(** The loop of [handleSSE] takes an event from the client's channel. *)
Definition sse_read (clientID : string) (s : Server) : Server :=
  match channels s !! clientID with
  | None => s
  | Some ch => mkServer (<[clientID := ch_take 1 ch]> (channels s)) (sseClients s) (clientIDCounter s)
  end.

(** One client of [BroadcastEvent]; [None] is a send on a closed channel. *)
Definition broadcast_one (payload : ChangeEvent) (clientID : string) (s : Server) : option Server :=
  ch ← channels s !! clientID;
  match select_send false true payload ch with
  | Sent ch' => Some (mkServer (<[clientID := ch']> (channels s)) (sseClients s) (clientIDCounter s))
  | PanicClosed => None
  | _ => Some s
  end.

Fixpoint broadcast_loop (payload : ChangeEvent) (clients : list string) (s : Server) : option Server :=
  match clients with
  | [] => Some s
  | id :: rest => s' ← broadcast_one payload id s; broadcast_loop payload rest s'
  end.

(** [json.Marshal] of a map of strings does not fail.  Several broadcasts can
    run at once, since they hold the lock as readers; this is one that runs
    alone. *)
Definition BroadcastEvent (σ : Shuffle) (payload : ChangeEvent) (s : Server) : option Server :=
  broadcast_loop payload (shuffle σ (elements (sseClients s))) s.

Definition change_event (event : IndexEvent) : ChangeEvent :=
  let c := ie_Constraint event in
  mkChangeEvent (ie_Type event) (c_UID c) (c_Name c) (c_Namespace c) (c_ConstraintType c) (c_Severity c).

Definition OnIndexChange (σ : Shuffle) (event : IndexEvent) (s : Server) : option Server := BroadcastEvent σ (change_event event) s.

(** *** Options and endpoints *)

(** [R] stands for the request the resolver inspects. *)
Record ServerOptions (R : Type) := mkServerOptions {
  so_Port : Z; so_Transport : string; so_PrivacyResolver : option (R -> DetailLevel); so_DefaultContact : string }.
Arguments mkServerOptions {R} _ _ _ _.
Arguments so_Port {R} _.
Arguments so_Transport {R} _.
Arguments so_PrivacyResolver {R} _.
Arguments so_DefaultContact {R} _.

Definition DefaultServerOptions {R} : ServerOptions R := mkServerOptions 8090 "sse" None "your platform team".

(** The options as [NewServer] completes them. *)
Definition NewServer {R} (o : ServerOptions R) : ServerOptions R :=
  mkServerOptions (if (so_Port o =? 0)%Z then 8090 else so_Port o)
    (if so_Transport o == EmptyString then "sse" else so_Transport o)
    (Some (default (fun _ => DetailLevelSummary) (so_PrivacyResolver o))) (so_DefaultContact o).

(** The patterns that [Start] registers for the tools. *)
Definition tool_patterns : list string :=
  ["/tools/nightjar_query"; "/tools/nightjar_explain"; "/tools/nightjar_check"; "/tools/nightjar_list_namespaces";
   "/tools/nightjar_remediation"].

Record Tool := mkTool {
  t_name : string; t_description : string; t_properties : list (string * (string * string)); t_required : list string }.

Definition tools : list Tool :=
  [mkTool "nightjar_query" "Query constraints affecting a namespace or workload"
     [("namespace", ("string", "Namespace to query")); ("workload_name", ("string", "Optional workload name filter"));
      ("workload_labels", ("object", "Optional label selector"));
      ("constraint_type", ("string", "Optional constraint type filter")); ("severity", ("string", "Optional severity filter"));
      ("include_remediation", ("boolean", "Include remediation steps"))] ["namespace"];
   mkTool "nightjar_explain" "Explain which constraint caused a specific error"
     [("error_message", ("string", "Error message to analyze")); ("namespace", ("string", "Namespace context"));
      ("workload_name", ("string", "Optional workload name"))] ["error_message"; "namespace"];
   mkTool "nightjar_check" "Pre-check whether a manifest would be blocked"
     [("manifest", ("string", "YAML manifest to check"))] ["manifest"];
   mkTool "nightjar_list_namespaces" "List all namespaces with constraint summaries" [] [];
   mkTool "nightjar_remediation" "Get detailed remediation for a specific constraint"
     [("constraint_name", ("string", "Name of the constraint")); ("namespace", ("string", "Namespace of the constraint"))]
     ["constraint_name"; "namespace"]].

Definition handleToolsList (method : string) : Response (list Tool) := handleResource method (Reply tools).

Record ResourceEntry := mkResourceEntry { u_uri : string; u_name : string; u_description : string; u_mimeType : string }.

Definition handleResourcesList (method : string) : Response (list ResourceEntry) :=
  handleResource method (Reply
    [mkResourceEntry "nightjar://reports/{namespace}" "Constraint Report" "Full ConstraintReport for a namespace" "application/json";
     mkResourceEntry "nightjar://constraints/{namespace}/{name}" "Constraint Detail" "Single constraint details" "application/json";
     mkResourceEntry "nightjar://health" "Health Status" "Operational health of Nightjar" "application/json";
     mkResourceEntry "nightjar://capabilities" "Capabilities" "What this Nightjar instance can do" "application/json"]).
End Mcp.

(** ** The event stream *)

(** The server with the calls of [BroadcastEvent] that hold its lock as readers:
    the number of each and the clients it has still to visit.  The rest is
    recorded for the statements: for each broadcast its event and those that
    were running when it began; for each client the numbers of broadcasts
    between which it was connected; and what was dropped for which client. *)
Record stream := mkStream {
  st_server : Mcp.Server;
  st_running : gmap nat (list string);
  st_history : list (Mcp.ChangeEvent * gset nat);
  st_clients : gmap string (nat * option nat);
  st_dropped : list (nat * string);
}.

(** The channel of the client has no room. *)
Definition sse_full (s : Mcp.Server) (id : string) : bool :=
  match Mcp.channels s !! id with
  | Some ch => (ch_cap ch <=? go_len (ch_buf ch))%Z
  | None => false
  end.

(** A client connects or leaves while no broadcast holds the lock; a broadcast
    begins, visits its next client, or ends; [None] is a panic. *)
Inductive stream_step : stream -> option stream -> Prop :=
  | step_connect s h cl dr s' id :
      Mcp.sse_connect s = (s', id) →
      stream_step (mkStream s ∅ h cl dr) (Some (mkStream s' ∅ h (<[id := (length h, None)]> cl) dr))
  | step_disconnect s h cl dr id n :
      cl !! id = Some (n, None) →
      stream_step (mkStream s ∅ h cl dr)
        ((fun s' => mkStream s' ∅ h (<[id := (n, Some (length h))]> cl) dr) <$> Mcp.sse_disconnect id s)
  | step_read s r h cl dr id n :
      cl !! id = Some (n, None) →
      stream_step (mkStream s r h cl dr) (Some (mkStream (Mcp.sse_read id s) r h cl dr))
  | step_begin s r h cl dr σ event :
      stream_step (mkStream s r h cl dr)
        (Some (mkStream s (<[length h := shuffle σ (elements (Mcp.sseClients s))]> r) (h ++ [(Mcp.change_event event, dom r)])%list cl dr))
  | step_visit s r h cl dr n id rest payload o :
      r !! n = Some (id :: rest) → h !! n = Some (payload, o) →
      stream_step (mkStream s r h cl dr)
        ((fun s' => mkStream s' (<[n := rest]> r) h cl (if sse_full s id then (n, id) :: dr else dr)%list) <$> Mcp.broadcast_one payload id s)
  | step_end s r h cl dr n :
      r !! n = Some [] → stream_step (mkStream s r h cl dr) (Some (mkStream s (delete n r) h cl dr)).

Inductive stream_reachable : stream -> Prop :=
  | reach_start : stream_reachable (mkStream Mcp.no_clients ∅ [] ∅ [])
  | reach_step x y : stream_reachable x → stream_step x (Some y) → stream_reachable y.

(** The broadcasts that began while a client was connected. *)
Definition during (x : stream) (span : nat * option nat) (n : nat) : Prop :=
  (span.1 ≤ n < default (length (st_history x)) span.2)%nat.

(** A broadcast has still to visit the client. *)
Definition to_visit (x : stream) (n : nat) (id : string) : Prop := ∃ todo, st_running x !! n = Some todo ∧ id ∈ todo.

(** Broadcast [b] was running when [a] began. *)
Definition overlaps (h : list (Mcp.ChangeEvent * gset nat)) (a b : nat) : Prop := ∃ e o, h !! a = Some (e, o) ∧ b ∈ o.

(** [ns] are the numbers of the broadcasts that the client's channel got, in
    the order it got them. *)
Record client_ok (x : stream) (id : string) (span : nat * option nat) (ch : Chan Mcp.ChangeEvent) (ns : list nat) : Prop := {
  cl_cap : ch_cap ch = 100%Z;
  cl_buf : ch_ok ch;
  cl_closed : ch_closed ch = true ↔ is_Some span.2;
  cl_span : (span.1 ≤ default (length (st_history x)) span.2 ≤ length (st_history x))%nat;
  cl_sent : Forall2 (fun n e => fst <$> st_history x !! n = Some e) ns (ch_sent ch);
  cl_once : NoDup ns;
  cl_within n : n ∈ ns → during x span n;
  cl_complete n : during x span n → n ∈ ns ∨ (n, id) ∈ st_dropped x ∨ to_visit x n id;
  cl_pending n : to_visit x n id → n ∉ ns;
  cl_order i j a b : (i < j)%nat → ns !! i = Some a → ns !! j = Some b → (a < b)%nat ∨ overlaps (st_history x) a b;
}.

Record stream_inv (x : stream) : Prop := {
  si_live id : id ∈ Mcp.sseClients (st_server x) ↔ ∃ n, st_clients x !! id = Some (n, None);
  si_channels id : is_Some (Mcp.channels (st_server x) !! id) → is_Some (st_clients x !! id);
  si_ids id : is_Some (st_clients x !! id) → ∃ n, (1 ≤ n ≤ Mcp.clientIDCounter (st_server x))%Z ∧ id = "client-" +:+ fmt_d n;
  si_counter : (0 ≤ Mcp.clientIDCounter (st_server x))%Z;
  si_running n todo : st_running x !! n = Some todo →
    (n < length (st_history x))%nat ∧ NoDup todo ∧ ∀ id, id ∈ todo → id ∈ Mcp.sseClients (st_server x) ∧ ∃ c, st_clients x !! id = Some (c, None) ∧ (c ≤ n)%nat;
  si_overlaps n a : is_Some (st_running x !! n) → (n < a < length (st_history x))%nat → overlaps (st_history x) a n;
  si_client id span : st_clients x !! id = Some span →
    ∃ ch ns, Mcp.channels (st_server x) !! id = Some ch ∧ client_ok x id span ch ns;
}.

Lemma client_id_inj n m : "client-" +:+ fmt_d n = "client-" +:+ fmt_d m → n = m.
Proof. intros H%string_append_inj_l. by apply (inj pretty). Qed.

(** A client's part of the invariant depends on these fields only. *)
Lemma client_ok_ext x y id span ch ns :
  client_ok x id span ch ns → st_history y = st_history x → (∀ n, to_visit y n id ↔ to_visit x n id) →
  (∀ n, (n, id) ∈ st_dropped x → (n, id) ∈ st_dropped y) → client_ok y id span ch ns.
Proof.
  intros [? ? ? ? ? ? Hw Hc Hp ?] Hh Hv Hd. unfold during in *. split; unfold during; rewrite ?Hh; try done.
  - intros n Hn. destruct (Hc n Hn) as [?|[?|?]]; [by left|right; left; auto|right; right; by apply Hv].
  - intros n Hn%Hv. by apply Hp.
Qed.

Lemma stream_inv_connect s h cl dr s' id :
  stream_inv (mkStream s ∅ h cl dr) → Mcp.sse_connect s = (s', id) →
  stream_inv (mkStream s' ∅ h (<[id := (length h, None)]> cl) dr).
Proof.
  intros [Hl Hch Hid Hn Hr Ho Hc] [= <- <-]. simpl in *. set (new := "client-" +:+ _).
  assert (cl !! new = None) as Hnew.
  { apply eq_None_not_Some. intros (n & Hle & He%client_id_inj)%Hid. lia. }
  split; simpl.
  - intros j. rewrite elem_of_union, elem_of_singleton, Hl. setoid_rewrite lookup_insert_Some. naive_solver.
  - intros j [ch Hj]. apply lookup_insert_Some in Hj as [[<- _]|[? Hj]]; [rewrite lookup_insert_eq|rewrite lookup_insert_ne]; by eauto.
  - intros j [sp Hj]. apply lookup_insert_Some in Hj as [[<- _]|[? Hj]]; [eexists; split; [|done]; lia|].
    destruct (Hid j) as (n & ? & ->); [by eauto|]. exists n. split; [lia|done].
  - lia.
  - by intros n todo ?%lookup_empty_Some.
  - by intros n a [todo ?%lookup_empty_Some].
  - intros j sp Hj. apply lookup_insert_Some in Hj as [[<- <-]|[Hne Hj]].
    + exists (make_chan 100), []. rewrite lookup_insert_eq. split; [done|].
      split; unfold during, to_visit; simpl; try done; try by constructor.
      * by intros n ?%not_elem_of_nil.
      * lia.
      * intros n _. by apply not_elem_of_nil.
    + rewrite lookup_insert_ne by done. destruct (Hc j sp Hj) as (ch & ns & Hjch & Hok). exists ch, ns. split; [done|].
      by eapply client_ok_ext; [exact Hok|..].
Qed.

Lemma stream_inv_disconnect s h cl dr id n :
  stream_inv (mkStream s ∅ h cl dr) → cl !! id = Some (n, None) →
  ∃ s', Mcp.sse_disconnect id s = Some s' ∧ stream_inv (mkStream s' ∅ h (<[id := (n, Some (length h))]> cl) dr).
Proof.
  intros [Hl Hch Hid Hn Hr Ho Hc] Hin. simpl in *. unfold Mcp.sse_disconnect.
  destruct (Hc id _ Hin) as (ch & ns & Hcl & Hok). rewrite Hcl. simpl.
  assert (ch_closed ch = false) as ->. { apply not_true_iff_false. rewrite (cl_closed _ _ _ _ _ Hok). by intros [? ?]. }
  eexists. split; [done|]. split; simpl.
  - intros j. rewrite elem_of_difference, elem_of_singleton, Hl. setoid_rewrite lookup_insert_Some. naive_solver.
  - intros j [ch' Hj]. apply lookup_insert_Some in Hj as [[<- _]|[? Hj]]; [rewrite lookup_insert_eq|rewrite lookup_insert_ne]; by eauto.
  - intros j [sp Hj]. apply lookup_insert_Some in Hj as [[<- _]|[? Hj]]; eauto.
  - done.
  - by intros m todo ?%lookup_empty_Some.
  - by intros m a [todo ?%lookup_empty_Some].
  - intros j sp Hj. apply lookup_insert_Some in Hj as [[<- <-]|[Hne Hj]].
    + exists (ch_close ch), ns. rewrite lookup_insert_eq. split; [done|]. destruct Hok. unfold during in *. simpl in *. split; simpl; try done; try lia.
    + rewrite lookup_insert_ne by done. destruct (Hc j sp Hj) as (ch' & ns' & Hjch & Hok'). exists ch', ns'. split; [done|].
      by eapply client_ok_ext; [exact Hok'|..].
Qed.

Lemma stream_inv_read s r h cl dr id n :
  stream_inv (mkStream s r h cl dr) → cl !! id = Some (n, None) → stream_inv (mkStream (Mcp.sse_read id s) r h cl dr).
Proof.
  intros [Hl Hch Hid Hn Hr Ho Hc] Hin. simpl in *. destruct (Hc id _ Hin) as (ch & ns & Hcl & Hok).
  unfold Mcp.sse_read. rewrite Hcl. split; simpl; try done.
  - intros j [ch' Hj]. apply lookup_insert_Some in Hj as [[<- _]|[? Hj]]; eauto.
  - intros j sp Hj. destruct (decide (j = id)) as [->|Hne].
    + exists (ch_take 1 ch), ns. rewrite lookup_insert_eq. split; [done|]. simplify_eq. destruct Hok. split; simpl in *; try done.
      * by apply ch_ok_take.
      * by rewrite ch_sent_take.
    + rewrite lookup_insert_ne by done. destruct (Hc j sp Hj) as (ch' & ns' & Hjch & Hok'). exists ch', ns'. split; [done|].
      by eapply client_ok_ext; [exact Hok'|..].
Qed.

Lemma overlaps_app h l a b : overlaps h a b → overlaps (h ++ l)%list a b.
Proof. intros (e & o & Ha & Hb). exists e, o. split; [by apply lookup_app_l_Some|done]. Qed.

Lemma stream_inv_begin s r h cl dr σ payload :
  stream_inv (mkStream s r h cl dr) →
  stream_inv (mkStream s (<[length h := shuffle σ (elements (Mcp.sseClients s))]> r) (h ++ [(payload, dom r)])%list cl dr).
Proof.
  intros [Hl Hch Hid Hn Hr Ho Hc]. simpl in *.
  assert (∀ j, j ∈ shuffle σ (elements (Mcp.sseClients s)) ↔ j ∈ Mcp.sseClients s) as Hall by (intros j; by rewrite shuffle_perm, elem_of_elements).
  assert (r !! length h = None) as Hnone. { apply eq_None_not_Some. intros [todo (Hlt & _)%Hr]. lia. }
  split; simpl; try done.
  - intros n todo Hn'. rewrite length_app. simpl. apply lookup_insert_Some in Hn' as [[<- <-]|[Hne Hn']].
    + split_and!; [lia|rewrite shuffle_perm; apply NoDup_elements|]. intros j Hj%Hall. split; [done|].
      apply Hl in Hj as [c Hj]. exists c. split; [done|]. destruct (Hc j _ Hj) as (ch & ns & _ & Hok). apply (cl_span _ _ _ _ _ Hok).
    + destruct (Hr n todo Hn') as (? & ? & ?). split_and!; [lia|done..].
  - intros n a [todo Hn'] Ha. rewrite length_app in Ha. simpl in Ha. apply lookup_insert_Some in Hn' as [[<- _]|[Hne Hn']]; [lia|].
    destruct (decide (a = length h)) as [->|]; [|apply overlaps_app, Ho; [by eauto|lia]].
    exists payload, (dom r). rewrite list_lookup_middle by done. split; [done|]. by apply elem_of_dom_2 in Hn'.
  - intros j sp Hj. destruct (Hc j sp Hj) as (ch & ns & Hjch & Hok). exists ch, ns. split; [done|].
    assert (∀ n, to_visit (mkStream s (<[length h := shuffle σ (elements (Mcp.sseClients s))]> r) (h ++ [(payload, dom r)])%list cl dr) n j ↔
                 n = length h ∧ sp.2 = None ∨ to_visit (mkStream s r h cl dr) n j) as Hv.
    { intros n. unfold to_visit. simpl. split.
      - intros (todo & [[<- <-]|[Hne Hn']]%lookup_insert_Some & Hin); [left|right; by eauto].
        apply Hall, Hl in Hin as [c Hin]. by simplify_eq.
      - intros [[-> Hlive]|(todo & Hn' & Hin)].
        + eexists. rewrite lookup_insert_eq. split; [done|]. apply Hall, Hl. exists sp.1. rewrite <-Hlive. by destruct sp.
        + exists todo. split; [|done]. rewrite lookup_insert_ne; [done|congruence]. }
    destruct Hok as [? ? ? Hspan Hsent ? Hwithin Hcomp Hpend Hord]. unfold during in *. simpl in *. split; try done; unfold during; simpl; rewrite ?length_app; simpl.
    + destruct sp.2; simpl in *; lia.
    + eapply Forall2_impl; [exact Hsent|]. simpl. intros n e He. apply fmap_Some in He as (x & Hx & ->). by rewrite (lookup_app_l_Some _ _ _ _ Hx).
    + intros n Hin%Hwithin. destruct sp.2; simpl in *; lia.
    + intros n Hin. destruct (decide (n = length h ∧ sp.2 = None)) as [?|Hnot]; [right; right; apply Hv; by left|].
      destruct (Hcomp n) as [?|[?|?]]; [|by left|by right; left|right; right; apply Hv; by right].
      destruct sp as [c [d|]]; simpl in *; [lia|]. assert (n ≠ length h) by (intros ->; by apply Hnot). lia.
    + intros n [[-> Hlive]|Hn']%Hv; [|by apply Hpend]. intros Hin%Hwithin. rewrite Hlive in Hin. simpl in Hin. lia.
    + intros i k a b Hik Ha Hb. destruct (Hord i k a b Hik Ha Hb); [by left|right; by apply overlaps_app].
Qed.

Lemma stream_inv_end s r h cl dr n :
  stream_inv (mkStream s r h cl dr) → r !! n = Some [] → stream_inv (mkStream s (delete n r) h cl dr).
Proof.
  intros [Hl Hch Hid Hn Hr Ho Hc] Hrn. simpl in *. split; simpl; try done.
  - intros m todo [_ Hm]%lookup_delete_Some. by apply Hr.
  - intros m a [todo [_ Hm]%lookup_delete_Some]. apply Ho. by eauto.
  - intros j sp Hj. destruct (Hc j sp Hj) as (ch & ns & Hjch & Hok). exists ch, ns. split; [done|].
    eapply client_ok_ext; [exact Hok|done| |done]. intros m. unfold to_visit. simpl. split.
    + intros (todo & [_ Hm]%lookup_delete_Some & Hin). by eauto.
    + intros (todo & Hm & Hin). exists todo. split; [|done]. apply lookup_delete_Some. split; [|done].
      intros ->. rewrite Hrn in Hm. injection Hm as <-. by apply not_elem_of_nil in Hin.
Qed.

Lemma broadcast_one_eq payload id s ch :
  Mcp.channels s !! id = Some ch → ch_closed ch = false →
  Mcp.broadcast_one payload id s =
    Some (if sse_full s id then s
          else Mcp.mkServer (<[id := mkChan (ch_cap ch) (ch_buf ch ++ [payload]) false (ch_taken ch)]> (Mcp.channels s)) (Mcp.sseClients s) (Mcp.clientIDCounter s)).
Proof.
  intros Hch Ho. unfold Mcp.broadcast_one, sse_full, select_send, send_ready, ch_send. rewrite Hch. simpl. rewrite Ho. simpl.
  destruct (Z.ltb_spec (go_len (ch_buf ch)) (ch_cap ch)), (Z.leb_spec (ch_cap ch) (go_len (ch_buf ch))); (lia || done).
Qed.

(** What the visit of a client leaves to visit. *)
Lemma to_visit_visit s s' r h cl dr dr' n id rest m j :
  r !! n = Some (id :: rest) → NoDup (id :: rest) →
  to_visit (mkStream s' (<[n := rest]> r) h cl dr') m j ↔ to_visit (mkStream s r h cl dr) m j ∧ ¬ (m = n ∧ j = id).
Proof.
  intros Hrn [Hnin Hnd]%NoDup_cons. unfold to_visit. simpl. split.
  - intros (todo & [[<- <-]|[Hne Hm]]%lookup_insert_Some & Hin).
    + split; [exists (id :: rest); split; [done|by right]|]. intros [_ ->]. done.
    + split; [by eauto|]. intros [-> _]. done.
  - intros [(todo & Hm & Hin) Hne]. destruct (decide (n = m)) as [<-|].
    + exists rest. rewrite lookup_insert_eq. simplify_eq. split; [done|]. apply elem_of_cons in Hin as [->|?]; [|done]. by destruct Hne.
    + exists todo. by rewrite lookup_insert_ne.
Qed.

(** The client gets the event, unless its channel is full. *)
Lemma client_ok_visit s r h cl dr n id rest payload o c ch ns :
  r !! n = Some (id :: rest) → NoDup (id :: rest) → h !! n = Some (payload, o) → (c ≤ n)%nat →
  (∀ a, (n < a < length h)%nat → overlaps h a n) →
  client_ok (mkStream s r h cl dr) id (c, None) ch ns → ∀ s',
  (client_ok (mkStream s' (<[n := rest]> r) h cl ((n, id) :: dr)) id (c, None) ch ns) ∧
  (ch_closed ch = false → (ch_cap ch <=? go_len (ch_buf ch))%Z = false →
   client_ok (mkStream s' (<[n := rest]> r) h cl dr) id (c, None) (mkChan (ch_cap ch) (ch_buf ch ++ [payload]) false (ch_taken ch)) (ns ++ [n])).
Proof.
  intros Hrn Hnd Hh Hcn Hov [Hcap Hbuf Hcl Hspan Hsent Honce Hwithin Hcomp Hpend Hord] s'. unfold during in *. simpl in *.
  assert (n < length h)%nat as Hlt by (by eapply lookup_lt_Some).
  assert (n ∉ ns) as Hnew. { apply Hpend. exists (id :: rest). split; [done|left]. }
  split; [|intros Ho Hroom%Z.leb_gt]; split; unfold during; simpl; try done.
  - intros m Hm. destruct (decide (m = n)) as [->|]; [right; left; left|].
    destruct (Hcomp m Hm) as [?|[?|?]]; [by left|right; left; by right|right; right]. eapply to_visit_visit; [done..|]. split; [done|naive_solver].
  - intros m Hm. apply Hpend. eapply to_visit_visit in Hm as [Hm _]; done.
  - unfold ch_ok, go_len in *. simpl. rewrite length_app. simpl. lia.
  - unfold ch_sent in *. simpl. rewrite (assoc_L (++)). apply Forall2_app; [done|]. constructor; [by rewrite Hh|constructor].
  - apply NoDup_app. split_and!; [done|by intros x Hx ->%list_elem_of_singleton|apply NoDup_singleton].
  - intros m [Hm|Hm]%elem_of_app; [by apply Hwithin|]. apply list_elem_of_singleton in Hm as ->. lia.
  - intros m Hm. setoid_rewrite elem_of_app. destruct (decide (m = n)) as [->|]; [left; right; by apply list_elem_of_singleton|].
    destruct (Hcomp m Hm) as [?|[?|?]]; [by left; left|right; by left|right; right]. eapply to_visit_visit; [done..|]. split; [done|naive_solver].
  - intros m Hm. eapply to_visit_visit in Hm as [Hm Hne]; [|done..]. rewrite elem_of_app, list_elem_of_singleton.
    intros [?| ->]; [by eapply Hpend|by apply Hne].
  - intros i k a b Hik Ha Hb. apply lookup_app_Some in Hb as [Hb|[Hge Hb]].
    + rewrite lookup_app_l in Ha by (apply lookup_lt_Some in Hb; lia). by eapply Hord.
    + apply list_lookup_singleton_Some in Hb as [Hk <-].
      rewrite lookup_app_l in Ha by lia. apply list_elem_of_lookup_2 in Ha. assert (a ≠ n) by (by intros ->).
      destruct (decide (a < n)%nat); [by left|right; apply Hov]. apply Hwithin in Ha. lia.
Qed.

Lemma stream_inv_visit s r h cl dr n id rest payload o :
  stream_inv (mkStream s r h cl dr) → r !! n = Some (id :: rest) → h !! n = Some (payload, o) →
  ∃ s', Mcp.broadcast_one payload id s = Some s' ∧
    stream_inv (mkStream s' (<[n := rest]> r) h cl (if sse_full s id then (n, id) :: dr else dr)).
Proof.
  intros [Hl Hch Hid Hn Hr Ho Hc] Hrn Hh. simpl in *. destruct (Hr n _ Hrn) as (Hlt & Hnd & Htodo).
  destruct (Htodo id) as (Hlive & c & Hcl & Hcn); [left|]. destruct (Hc id _ Hcl) as (ch & ns & Hjch & Hok).
  assert (ch_closed ch = false) as Hopen. { apply not_true_iff_false. rewrite (cl_closed _ _ _ _ _ Hok). by intros [? ?]. }
  rewrite (broadcast_one_eq payload id s ch) by done. eexists. split; [done|].
  assert (∀ m todo, <[n := rest]> r !! m = Some todo → ∃ todo', r !! m = Some todo' ∧ (NoDup todo' → NoDup todo) ∧ ∀ j, j ∈ todo → j ∈ todo') as Hr'.
  { intros m todo [[<- <-]|[Hne Hm]]%lookup_insert_Some; [|by eauto]. exists (id :: rest). split_and!; [done|by intros [_ ?]%NoDup_cons|by right]. }
  pose proof (client_ok_visit s r h cl dr n id rest payload o c ch ns Hrn Hnd Hh Hcn (fun a => Ho n a (mk_is_Some _ _ Hrn)) Hok) as Hvisit.
  assert (Hfull : sse_full s id = (ch_cap ch <=? go_len (ch_buf ch))%Z) by (unfold sse_full; by rewrite Hjch).
  split; simpl.
  - by destruct (sse_full s id).
  - destruct (sse_full s id); simpl; [done|]. intros j [ch' Hj]. apply lookup_insert_Some in Hj as [[<- _]|[? Hj]]; eauto.
  - by destruct (sse_full s id).
  - by destruct (sse_full s id).
  - intros m todo Hm. destruct (Hr' m todo Hm) as (todo' & (? & ? & Hin)%Hr & Himp & Hsub). split_and!; [done|auto|].
    intros j Hj%Hsub%Hin. by destruct (sse_full s id).
  - intros m a [todo Hm]. destruct (Hr' m todo Hm) as (todo' & Hm' & _). by apply Ho; eauto.
  - intros j sp Hj. destruct (decide (j = id)) as [->|Hne].
    + assert (sp = (c, None)) as -> by congruence. rewrite Hfull. destruct (_ <=? _)%Z eqn:Hf; simpl.
      * exists ch, ns. split; [done|apply Hvisit].
      * eexists _, (ns ++ [n])%list. rewrite lookup_insert_eq. split; [done|by apply Hvisit].
    + destruct (Hc j sp Hj) as (ch' & ns' & Hj' & Hok'). exists ch', ns'. split.
      { destruct (sse_full s id); simpl; [done|by rewrite lookup_insert_ne]. }
      eapply client_ok_ext; [exact Hok'|done|..].
      * intros m. rewrite (to_visit_visit s _ r h cl dr _ n id rest) by done. naive_solver.
      * intros m Hm. simpl. destruct (sse_full s id); [by right|done].
Qed.

Lemma stream_step_inv x y : stream_inv x → stream_step x y → ∃ z, y = Some z ∧ stream_inv z.
Proof.
  intros Hx Hs. destruct Hs.
  - eexists. split; [done|]. by eapply stream_inv_connect.
  - destruct (stream_inv_disconnect s h cl dr id n) as (s' & -> & ?); [done..|]. by eexists.
  - eexists. split; [done|]. by eapply stream_inv_read.
  - eexists. split; [done|]. by apply stream_inv_begin.
  - destruct (stream_inv_visit s r h cl dr n id rest payload o) as (s' & -> & ?); [done..|]. by eexists.
  - eexists. split; [done|]. by apply stream_inv_end.
Qed.

Lemma stream_reachable_inv x : stream_reachable x → stream_inv x.
Proof.
  induction 1 as [|x y Hr IH Hs].
  - split; simpl; try done.
    + intros id. split; [by intros ?%not_elem_of_empty|by intros [? ?%lookup_empty_Some]].
    + by intros id [? ?%lookup_empty_Some].
    + by intros id [? ?%lookup_empty_Some].
    + by intros n a [? ?%lookup_empty_Some].
  - destruct (stream_step_inv _ _ IH Hs) as (z & [= ->] & ?). done.
Qed.

(** C27: however connections, disconnections, reads and broadcasts of index
    changes interleave, several broadcasts running at once, the event stream of
    the MCP server never sends on or closes a closed channel; a new client gets
    an ID no channel was made for; and what a client's channel has got, at most
    100 events of it unread, are the events of different broadcasts that began
    while it was connected: all of them, except those that are still to visit
    it or found its channel full; and of two broadcasts the later one comes
    after the earlier one, unless they overlapped. *)
Theorem sse_stream_safe x :
  stream_reachable x →
  (¬ stream_step x None) ∧
  Mcp.channels (st_server x) !! (Mcp.sse_connect (st_server x)).2 = None ∧
  ∀ id span, st_clients x !! id = Some span →
    (id ∈ Mcp.sseClients (st_server x) ↔ span.2 = None) ∧
    ∃ ch ns, Mcp.channels (st_server x) !! id = Some ch ∧ (go_len (ch_buf ch) ≤ 100)%Z ∧
      Forall2 (fun n e => fst <$> st_history x !! n = Some e) ns (ch_taken ch ++ ch_buf ch) ∧ NoDup ns ∧
      (∀ n, n ∈ ns → during x span n) ∧
      (∀ n, during x span n → n ∈ ns ∨ (n, id) ∈ st_dropped x ∨ to_visit x n id) ∧
      (∀ i j a b, (i < j)%nat → ns !! i = Some a → ns !! j = Some b → (a < b)%nat ∨ overlaps (st_history x) a b).
Proof.
  intros Hr%stream_reachable_inv. split_and!.
  - intros Hs. by destruct (stream_step_inv _ _ Hr Hs) as (z & ? & _).
  - simpl. apply eq_None_not_Some. intros Hch%(si_channels _ Hr)%(si_ids _ Hr).
    destruct Hch as (n & Hn & He%client_id_inj). lia.
  - intros id span Hid. split.
    { rewrite (si_live _ Hr). split; [intros [n Hn]; by simplify_eq|]. intros Hs. exists span.1. rewrite <-Hs. by destruct span. }
    destruct (si_client _ Hr id span Hid) as (ch & ns & Hch & Hok). exists ch, ns.
    pose proof (cl_buf _ _ _ _ _ Hok) as Hb. unfold ch_ok in Hb. rewrite (cl_cap _ _ _ _ _ Hok) in Hb.
    split_and!; [done|done|apply Hok..].
Qed.

Definition example_change : IndexEvent :=
  mkIndexEvent "upsert" (example_constraint "u1" networkpolicies_gvr "deny-all" "prod" [] ConstraintTypeNetworkIngress SeverityCritical).

Definition example_change2 : IndexEvent := mkIndexEvent "delete" (ie_Constraint example_change).

(** Two clients, and two changes whose broadcasts overlap: the first one visits
    client 1, the second one client 2 and client 1, then the first one client 2. *)
Definition example_broadcasts : list (string * Mcp.ChangeEvent) :=
  let e1 := Mcp.change_event example_change in
  let e2 := Mcp.change_event example_change2 in
  [("client-1", e1); ("client-2", e2); ("client-1", e2); ("client-2", e1)].

Definition two_clients : Mcp.Server := (Mcp.sse_connect (Mcp.sse_connect Mcp.no_clients).1).1.

Definition example_server (n : nat) : Mcp.Server :=
  foldl (fun s v => default s (Mcp.broadcast_one v.2 v.1 s)) two_clients (take n example_broadcasts).

Definition example_stream : stream :=
  mkStream (example_server 4) {[0%nat := []; 1%nat := []]}
    [(Mcp.change_event example_change, ∅); (Mcp.change_event example_change2, {[0%nat]})]
    {["client-2" := (0%nat, None); "client-1" := (0%nat, None)]} [].

Lemma reach_as x y y' : stream_reachable x → stream_step x (Some y) → y = y' → stream_reachable y'.
Proof. intros Hx Hs <-. by eapply reach_step. Qed.

Lemma reach_visit s r h cl dr n id rest payload o s' r' dr' :
  stream_reachable (mkStream s r h cl dr) → r !! n = Some (id :: rest) → h !! n = Some (payload, o) →
  Mcp.broadcast_one payload id s = Some s' → <[n := rest]> r = r' → (if sse_full s id then (n, id) :: dr else dr) = dr' →
  stream_reachable (mkStream s' r' h cl dr').
Proof. intros Hx Hr Hh Hs <- <-. eapply reach_step; [exact Hx|]. pose proof (step_visit s r h cl dr n id rest payload o Hr Hh) as Hv. by rewrite Hs in Hv. Qed.

Lemma example_stream_reachable : stream_reachable example_stream.
Proof.
  set (cl := {["client-2" := (0%nat, None); "client-1" := (0%nat, None)]} : gmap string (nat * option nat)).
  set (e1 := Mcp.change_event example_change). set (e2 := Mcp.change_event example_change2).
  assert (stream_reachable (mkStream two_clients ∅ [] cl [])) as H0.
  { eapply reach_as; [eapply reach_as; [apply reach_start|by apply step_connect|reflexivity]|by apply step_connect|reflexivity]. }
  assert (stream_reachable (mkStream two_clients {[0%nat := ["client-1"; "client-2"]]} [(e1, ∅)] cl [])) as H1.
  { eapply reach_as; [exact H0|apply (step_begin _ _ _ _ _ in_order example_change)|vm_compute; reflexivity]. }
  assert (stream_reachable (mkStream (example_server 1) {[0%nat := ["client-2"]]} [(e1, ∅)] cl [])) as H2.
  { eapply (reach_visit _ _ _ _ _ 0); [exact H1|vm_compute; reflexivity..]. }
  assert (stream_reachable (mkStream (example_server 1) {[0%nat := ["client-2"]; 1%nat := ["client-2"; "client-1"]]}
            [(e1, ∅); (e2, {[0%nat]})] cl [])) as H3.
  { eapply reach_as; [exact H2|apply (step_begin _ _ _ _ _ reversed example_change2)|vm_compute; reflexivity]. }
  assert (stream_reachable (mkStream (example_server 2) {[0%nat := ["client-2"]; 1%nat := ["client-1"]]}
            [(e1, ∅); (e2, {[0%nat]})] cl [])) as H4.
  { eapply (reach_visit _ _ _ _ _ 1); [exact H3|vm_compute; reflexivity..]. }
  assert (stream_reachable (mkStream (example_server 3) {[0%nat := ["client-2"]; 1%nat := []]}
            [(e1, ∅); (e2, {[0%nat]})] cl [])) as H5.
  { eapply (reach_visit _ _ _ _ _ 1); [exact H4|vm_compute; reflexivity..]. }
  eapply (reach_visit _ _ _ _ _ 0); [exact H5|vm_compute; reflexivity..].
Qed.

Lemma sse_stream_safe_witness :
  stream_reachable example_stream ∧
  (ch_buf <$> Mcp.channels (st_server example_stream) !! "client-1") = Some [Mcp.change_event example_change; Mcp.change_event example_change2] ∧
  (ch_buf <$> Mcp.channels (st_server example_stream) !! "client-2") = Some [Mcp.change_event example_change2; Mcp.change_event example_change] ∧
  ¬ stream_step example_stream None.
Proof.
  split_and!; [exact example_stream_reachable|vm_compute; reflexivity..|exact (proj1 (sse_stream_safe _ example_stream_reachable))].
Defined.

(** ** The tools *)

Section tools.
Context {AM : Apimachinery}.
Implicit Types (σ σs : Shuffle) (idx : Indexer).

(** What a query shows of a constraint. *)
Definition query_view (now : Time) (rb : RemediationBuilder) (level : DetailLevel) (p : Mcp.QueryParams) (c : Constraint)
    : Mcp.ConstraintResult :=
  if Mcp.qp_IncludeRemediation p then Mcp.toConstraintResultWithRemediation rb now c level (Mcp.qp_Namespace p)
  else Mcp.ToConstraintResult now c level (Mcp.qp_Namespace p).

(** The filters of a query. *)
Definition query_selects (p : Mcp.QueryParams) (c : Constraint) : Prop :=
  matchesNamespace c (Mcp.qp_Namespace p) = true ∧
  (Mcp.qp_WorkloadLabels p = ∅ ∨ MatchesLabelSelector (c_WorkloadSelector c) (Mcp.qp_WorkloadLabels p) = true) ∧
  (Mcp.qp_ConstraintType p = EmptyString ∨ c_ConstraintType c = Mcp.qp_ConstraintType p) ∧
  (Mcp.qp_Severity p = EmptyString ∨ c_Severity c = Mcp.qp_Severity p).

Lemma elem_of_ByNamespace σ idx ns c : c ∈ ByNamespace σ idx ns ↔ contains idx c ∧ matchesNamespace c ns = true.
Proof. apply elem_of_select. Qed.

Lemma elem_of_ByLabels σ idx ns lbls c :
  c ∈ ByLabels σ idx ns lbls ↔
  contains idx c ∧ matchesNamespace c ns = true ∧ MatchesLabelSelector (c_WorkloadSelector c) lbls = true.
Proof.
  unfold ByLabels. rewrite elem_of_select. unfold matchesLabels.
  destruct (matchesNamespace c ns), (MatchesLabelSelector _ _); naive_solver.
Qed.

Lemma elem_of_query σ idx p c :
  c ∈ Mcp.filterConstraints (Mcp.query_constraints σ idx p) p ↔ contains idx c ∧ query_selects p c.
Proof.
  unfold Mcp.filterConstraints, Mcp.query_constraints, query_selects. rewrite list_elem_of_omap. split.
  - intros (d & Hd & Hf).
    assert (d = c ∧ (Mcp.qp_ConstraintType p = EmptyString ∨ c_ConstraintType c = Mcp.qp_ConstraintType p) ∧
      (Mcp.qp_Severity p = EmptyString ∨ c_Severity c = Mcp.qp_Severity p)) as (-> & Ht & Hs).
    { repeat case_bool_decide; simplify_eq/=; naive_solver. }
    case_bool_decide as He.
    + apply elem_of_ByNamespace in Hd as []. apply map_size_empty_inv in He. naive_solver.
    + apply elem_of_ByLabels in Hd. naive_solver.
  - intros (Hc & Hns & Hl & Ht & Hs). exists c. split.
    + case_bool_decide as He; [by apply elem_of_ByNamespace|]. apply elem_of_ByLabels. split_and!; [done|done|].
      destruct Hl as [Hl|Hl]; [|done]. by rewrite Hl, map_size_empty in He.
    + repeat case_bool_decide; simplify_eq/=; naive_solver.
Qed.

(** C28: a query without a namespace is refused; any other one that names no
    workload answers with exactly the views of the stored constraints that apply
    to the namespace, whose workload selector the labels given satisfy and which
    have the type and severity asked for, critical before warning before info,
    and with their number.  The name of a workload, documented as a filter, has
    no effect ([query_workload_name_ignored]). *)
Theorem HandleQuery_spec σ σs now rb idx level p :
  Mcp.qp_WorkloadName p = EmptyString →
  match Mcp.HandleQuery σ σs now rb idx level (Some p) with
  | Mcp.Failure _ status => Mcp.qp_Namespace p = EmptyString ∧ status = Mcp.StatusBadRequest
  | Mcp.Reply r =>
      Mcp.qp_Namespace p ≠ EmptyString ∧ Mcp.qr_Total r = go_len (Mcp.qr_Constraints r) ∧
      StronglySorted no_less_severe (Mcp.res_Severity <$> Mcp.qr_Constraints r) ∧
      ∀ x, x ∈ Mcp.qr_Constraints r ↔ ∃ c, x = query_view now rb level p c ∧ contains idx c ∧ query_selects p c
  end.
Proof.
  intros _. unfold Mcp.HandleQuery. case_bool_decide as Hns; [done|]. split_and!; simpl; [done| | |].
  - unfold go_len. by rewrite sort_slice_perm.
  - eapply StronglySorted_fmap; [|apply (sort_slice_sorted Mcp.result_less)]. intros x y. apply ranked_no_less_severe.
  - intros x. rewrite sort_slice_perm, list_elem_of_fmap. by setoid_rewrite elem_of_query.
Qed.

(** A pre-check of a manifest that parses says that it would be blocked
    exactly when a stored critical admission constraint applies to the
    manifest's namespace, [default] when it has none, and its labels; it lists
    exactly those. *)
Theorem HandleCheck_blocks parse σ now eval rb idx level manifest m evaluator :
  manifest ≠ EmptyString → parse manifest = inl m →
  let ns := Mcp.manifest_namespace m in
  let blocks c := contains idx c ∧ matchesNamespace c ns = true ∧
    MatchesLabelSelector (c_WorkloadSelector c) (Mcp.manifest_labels m) = true ∧
    c_ConstraintType c = ConstraintTypeAdmission ∧ c_Severity c = SeverityCritical in
  ∃ r, (Mcp.HandleCheck parse σ now eval rb idx level (Some (Mcp.mkCheckParams manifest)) evaluator).2 = Mcp.Reply r ∧
    (Mcp.cr_WouldBlock r = true ↔ ∃ c, blocks c) ∧
    ∀ x, x ∈ Mcp.cr_BlockingConstraints r ↔ ∃ c, x = Mcp.ToConstraintResult now c level ns ∧ blocks c.
Proof.
  intros Hm Hp ns blocks. unfold Mcp.HandleCheck. cbn [Mcp.cp_Manifest]. rewrite bool_decide_eq_false_2 by done. rewrite Hp.
  cbv zeta. fold ns.
  set (bl := (fun c => Mcp.ToConstraintResult now c level ns) <$> filter (fun c => Mcp.is_blocking c = true) _).
  assert (∀ x, x ∈ bl ↔ ∃ c, x = Mcp.ToConstraintResult now c level ns ∧ blocks c) as Hbl.
  { intros x. unfold bl. rewrite list_elem_of_fmap. setoid_rewrite list_elem_of_filter. setoid_rewrite elem_of_ByLabels.
    unfold blocks, Mcp.is_blocking. setoid_rewrite andb_true_iff. setoid_rewrite bool_decide_eq_true. naive_solver. }
  destruct (match evaluator with Some _ => _ | None => _ end) as [e' missing]. eexists. split; [done|]. split; [|done].
  cbn [Mcp.cr_WouldBlock]. rewrite negb_true_iff, bool_decide_eq_false. split.
  - intros Hne. destruct bl as [|x bl']; [done|]. destruct (proj1 (Hbl x) ltac:(left)) as (c & _ & ?). eauto.
  - intros (c & Hc) He. rewrite He in Hbl. eapply not_elem_of_nil, (Hbl _). eauto.
Qed.

(** The message has a pattern of the constraint's kind. *)
Definition named_kind (errorMessage : string) (c : Constraint) : bool :=
  let found := existsb (strings_Contains (strings_ToLower errorMessage)) in
  (found Mcp.networkPatterns && Mcp.is_network c) || (found Mcp.admissionPatterns && Mcp.is_admission c) ||
  (found Mcp.quotaPatterns && Mcp.is_resource_limit c).

Lemma elem_of_pattern_matches patterns keep e cs c :
  c ∈ Mcp.pattern_matches patterns keep e cs ↔ c ∈ cs ∧ existsb (strings_Contains e) patterns && keep c = true.
Proof.
  unfold Mcp.pattern_matches. destruct (existsb _ _); simpl; [rewrite list_elem_of_filter; tauto|].
  rewrite elem_of_nil. naive_solver.
Qed.

Lemma matchErrorToConstraints_spec e cs ms confidence explanation :
  Mcp.matchErrorToConstraints e cs = (ms, confidence, explanation) →
  (confidence = "high" ∧ ms ≠ [] ∧ ∀ c, c ∈ ms → c ∈ cs ∧ named_kind e c = true) ∨
  (confidence = "low" ∧ ms = cs ∧ ∀ c, c ∈ cs → named_kind e c = false).
Proof.
  unfold Mcp.matchErrorToConstraints, named_kind. cbv zeta.
  pose proof (elem_of_pattern_matches Mcp.networkPatterns Mcp.is_network (strings_ToLower e) cs) as Hn.
  pose proof (elem_of_pattern_matches Mcp.admissionPatterns Mcp.is_admission (strings_ToLower e) cs) as Ha.
  pose proof (elem_of_pattern_matches Mcp.quotaPatterns Mcp.is_resource_limit (strings_ToLower e) cs) as Hq.
  destruct (Mcp.pattern_matches Mcp.networkPatterns _ _ _) as [|x l].
  2:{ intros [= <- <- <-]. left. split_and!; [done|done|]. intros c [? ->]%Hn. by rewrite !orb_true_l. }
  destruct (Mcp.pattern_matches Mcp.admissionPatterns _ _ _) as [|x l].
  2:{ intros [= <- <- <-]. left. split_and!; [done|done|]. intros c [? ->]%Ha. by rewrite orb_true_r. }
  destruct (Mcp.pattern_matches Mcp.quotaPatterns _ _ _) as [|x l].
  2:{ intros [= <- <- <-]. left. split_and!; [done|done|]. intros c [? ->]%Hq. by rewrite orb_true_r. }
  intros [= <- <- <-]. right. split_and!; [done|done|]. intros c Hc.
  specialize (Hn c). specialize (Ha c). specialize (Hq c). rewrite elem_of_nil in Hn, Ha, Hq.
  destruct (_ && _), (_ && _), (_ && _); naive_solver.
Qed.

(** An explanation lists only constraints that apply to the namespace,
    and lists some whenever one applies; its confidence is high exactly when a
    constraint of a kind that the message names applies, and then it lists only
    such constraints. *)
Theorem HandleExplain_sound σ now rb idx level p :
  Mcp.ep_ErrorMessage p ≠ EmptyString → Mcp.ep_Namespace p ≠ EmptyString →
  let applies c := contains idx c ∧ matchesNamespace c (Mcp.ep_Namespace p) = true in
  let named c := named_kind (Mcp.ep_ErrorMessage p) c = true in
  ∃ r, Mcp.HandleExplain σ now rb idx level (Some p) = Mcp.Reply r ∧
    (∀ x, x ∈ Mcp.er_MatchingConstraints r → ∃ c,
       x = Mcp.toConstraintResultWithRemediation rb now c level (Mcp.ep_Namespace p) ∧ applies c ∧
       (Mcp.er_Confidence r = "high" → named c)) ∧
    ((∃ c, applies c) → Mcp.er_MatchingConstraints r ≠ []) ∧
    (Mcp.er_Confidence r = "high" ↔ ∃ c, applies c ∧ named c).
Proof.
  intros He Hns applies named. unfold Mcp.HandleExplain. rewrite !bool_decide_eq_false_2 by done. cbn [orb].
  assert (∀ c, c ∈ ByNamespace σ idx (Mcp.ep_Namespace p) ↔ applies c) as Happ by (intros c; apply elem_of_ByNamespace).
  destruct (Mcp.matchErrorToConstraints _ _) as [[ms conf] expl] eqn:Hm. eexists. split; [done|].
  cbn [Mcp.er_MatchingConstraints Mcp.er_Confidence]. setoid_rewrite list_elem_of_fmap.
  apply matchErrorToConstraints_spec in Hm as [(-> & Hne & Hin)|(-> & -> & Hno)].
  - split_and!.
    + intros x (c & -> & [Hc%Happ Hn]%Hin). exists c. done.
    + intros _ ?%fmap_nil_inv. done.
    + split; [|done]. intros _. destruct ms as [|c ms]; [done|]. destruct (Hin c) as [Hc%Happ Hn]; [left|]. by exists c.
  - split_and!.
    + intros x (c & -> & Hc%Happ). by exists c.
    + intros (c & Hc%Happ) Hnil%fmap_nil_inv. rewrite Hnil in Hc. by apply not_elem_of_nil in Hc.
    + split; [done|]. intros (c & Hc%Happ & Hn). unfold named in Hn. by rewrite Hno in Hn.
Qed.
End tools.

(** ** The list of namespaces *)

Definition grouped (m : gmap string (list Constraint)) (ns : string) (c : Constraint) : Prop := ∃ l, m !! ns = Some l ∧ c ∈ l.

Lemma grouped_append k c m ns d : grouped (Mcp.append_at k c m) ns d ↔ grouped m ns d ∨ (k = ns ∧ d = c).
Proof.
  unfold grouped, Mcp.append_at. destruct (decide (k = ns)) as [->|Hne].
  - setoid_rewrite lookup_insert_eq. split.
    + intros (l & [= <-] & [Hd|Hd]%elem_of_app); [|apply list_elem_of_singleton in Hd; by right].
      destruct (m !! ns) as [l|]; [left; by exists l|by apply not_elem_of_nil in Hd].
    + intros H. eexists. split; [done|]. rewrite elem_of_app, list_elem_of_singleton.
      destruct H as [(l & -> & ?)|[_ ->]]; [by left|by right].
  - setoid_rewrite lookup_insert_ne; [|done]. naive_solver.
Qed.

Lemma grouped_affected c nss m ns d :
  grouped (foldl (fun m ns => Mcp.append_at ns c m) m nss) ns d ↔ grouped m ns d ∨ (ns ∈ nss ∧ d = c).
Proof.
  revert m. induction nss as [|k nss IH]; intros m; simpl; [set_solver|].
  rewrite IH, grouped_append, elem_of_cons. naive_solver.
Qed.

Lemma grouped_one m c ns d : grouped (Mcp.group_one m c) ns d ↔ grouped m ns d ∨ (mentions c ns ∧ d = c).
Proof.
  unfold Mcp.group_one, mentions. case_bool_decide as He; simpl; rewrite ?grouped_append, grouped_affected; [|naive_solver].
  split; [naive_solver|]. intros [?|[[?|[Hn ?]] ->]]; [naive_solver|naive_solver|congruence].
Qed.

Lemma grouped_by cs m ns d : grouped (foldl Mcp.group_one m cs) ns d ↔ grouped m ns d ∨ (d ∈ cs ∧ mentions d ns).
Proof.
  revert m. induction cs as [|c cs IH]; intros m; simpl; [set_solver|].
  rewrite IH, grouped_one, elem_of_cons. naive_solver.
Qed.

(** No group is empty. *)
Definition no_empty (m : gmap string (list Constraint)) : Prop := map_Forall (fun _ l => l ≠ []) m.

Lemma no_empty_append k c m : no_empty m → no_empty (Mcp.append_at k c m).
Proof. intros Hm. apply map_Forall_insert_2; [|done]. by intros [_ ?]%app_eq_nil. Qed.

Lemma no_empty_group cs m : no_empty m → no_empty (foldl Mcp.group_one m cs).
Proof.
  revert m. induction cs as [|c cs IH]; intros m Hm; simpl; [done|]. apply IH. unfold Mcp.group_one.
  assert (no_empty (foldl (fun m ns => Mcp.append_at ns c m) m (c_AffectedNamespaces c))) as Ha.
  { generalize (c_AffectedNamespaces c) as nss. intros nss. revert m Hm.
    induction nss as [|k nss IHn]; intros m Hm; simpl; [done|]. by apply IHn, no_empty_append. }
  destruct (negb _); [by apply no_empty_append|done].
Qed.

Lemma elem_of_unique_uids seen cs c : c ∈ Mcp.unique_uids seen cs → c ∈ cs ∧ (c_UID c ∉ seen).
Proof.
  revert seen. induction cs as [|d cs IH]; intros seen; simpl; [by intros ?%not_elem_of_nil|].
  case_bool_decide as Hd; [intros [? ?]%IH; split; [by right|done]|].
  intros [->|[? ?]%IH]%elem_of_cons; [by split; [left|]|]. split; [by right|set_solver].
Qed.

Lemma unique_uids_complete seen cs c :
  c ∈ cs → (c_UID c ∉ seen) → ∃ d, d ∈ Mcp.unique_uids seen cs ∧ c_UID d = c_UID c.
Proof.
  revert seen. induction cs as [|d cs IH]; intros seen Hc Hs; simpl; [by apply not_elem_of_nil in Hc|].
  apply elem_of_cons in Hc as [<-|Hc].
  - rewrite bool_decide_eq_false_2 by done. exists c. by split; [left|].
  - case_bool_decide; [by apply IH|]. destruct (decide (c_UID c = c_UID d)) as [He|He].
    { exists d. by split; [left|]. }
    destruct (IH ({[c_UID d]} ∪ seen)) as (e & ? & ?); [done|set_solver|]. exists e. by split; [right|].
Qed.

Lemma NoDup_unique_uids seen cs : NoDup (c_UID <$> Mcp.unique_uids seen cs).
Proof.
  revert seen. induction cs as [|c cs IH]; intros seen; simpl; [constructor|].
  case_bool_decide; [done|]. csimpl. constructor; [|done].
  intros (d & He & [_ Hd]%elem_of_unique_uids)%list_elem_of_fmap. rewrite He in Hd. set_solver.
Qed.

(** An iteration keeps the namespace and the total and counts the severity. *)
Lemma tally_one s top c :
  let s' := (Mcp.tally (s, top) c).1 in
  let n sev := if decide (c_Severity c = sev) then 1%Z else 0%Z in
  Mcp.ns_Namespace s' = Mcp.ns_Namespace s ∧ Mcp.ns_Total s' = Mcp.ns_Total s ∧
  Mcp.ns_CriticalCount s' = (Mcp.ns_CriticalCount s + n SeverityCritical)%Z ∧
  Mcp.ns_WarningCount s' = (Mcp.ns_WarningCount s + n SeverityWarning)%Z ∧
  Mcp.ns_InfoCount s' = (Mcp.ns_InfoCount s + n SeverityInfo)%Z.
Proof.
  unfold Mcp.tally, switch, SeverityCritical, SeverityWarning, SeverityInfo. cbv zeta.
  repeat case_bool_decide; repeat case_decide; try congruence; cbn; split_and!; try done; lia.
Qed.

Lemma tally_counts cs acc :
  let s' := (foldl Mcp.tally acc cs).1 in
  let n sev := go_len (filter (fun c => c_Severity c = sev) cs) in
  Mcp.ns_Namespace s' = Mcp.ns_Namespace acc.1 ∧ Mcp.ns_Total s' = Mcp.ns_Total acc.1 ∧
  Mcp.ns_CriticalCount s' = (Mcp.ns_CriticalCount acc.1 + n SeverityCritical)%Z ∧
  Mcp.ns_WarningCount s' = (Mcp.ns_WarningCount acc.1 + n SeverityWarning)%Z ∧
  Mcp.ns_InfoCount s' = (Mcp.ns_InfoCount acc.1 + n SeverityInfo)%Z.
Proof.
  revert acc. induction cs as [|c cs IH]; intros acc; simpl; [unfold go_len; simpl; split_and!; try done; lia|].
  destruct (IH (Mcp.tally acc c)) as (-> & -> & -> & -> & ->). destruct acc as [s top].
  destruct (tally_one s top c) as (-> & -> & -> & -> & ->).
  rewrite !filter_cons. unfold go_len. split_and!; try done; case_decide; simpl; lia.
Qed.

#[export] Instance summary_order : StrictWeakOrder Mcp.summary_less.
Proof. split; intros *; [apply (@less_asym _ string_less _)|apply (@less_trans_false _ string_less _)]. Qed.

Section namespaces.
Context (σ σm σs : Shuffle) (idx : Indexer).
Hypothesis Hkeyed : keyed (byUID idx).

Definition under (ns : string) : list Constraint := filter (fun c => mentions c ns) (All σ idx).

(** The deduplicated group of a namespace is the constraints that mention it. *)
Lemma unique_group ns l :
  Mcp.group_by_namespace (All σ idx) !! ns = Some l → Mcp.unique_uids ∅ l ≡ₚ under ns.
Proof.
  intros Hl. pose proof (fun d => grouped_by (All σ idx) ∅ ns d) as Hg.
  assert (∀ d, d ∈ l ↔ d ∈ under ns) as Hin.
  { intros d. unfold under. rewrite list_elem_of_filter. specialize (Hg d). unfold grouped in Hg.
    fold (Mcp.group_by_namespace (All σ idx)) in Hg. rewrite Hl in Hg. setoid_rewrite lookup_empty in Hg. naive_solver. }
  apply NoDup_Permutation.
  - by eapply NoDup_fmap_1, NoDup_unique_uids.
  - eapply NoDup_fmap_1 with (f := c_UID). eapply sublist_NoDup; [|apply fmap_sublist, sublist_filter].
    unfold All. rewrite range_values_keyed by done. apply NoDup_range_keys.
  - intros d. rewrite <-Hin. split; [by intros [? _]%elem_of_unique_uids|]. intros Hd.
    destruct (unique_uids_complete ∅ l d Hd) as (e & He & Hu); [set_solver|].
    pose proof (proj1 (elem_of_unique_uids _ _ _ He)) as Hel.
    apply Hin in Hd, Hel. apply list_elem_of_filter in Hd as [_ (u & Hu1)%elem_of_range_values], Hel as [_ (v & Hv)%elem_of_range_values].
    pose proof (Hkeyed _ _ Hu1). pose proof (Hkeyed _ _ Hv). congruence.
Qed.
End namespaces.

(** The list of namespaces is sorted and has each namespace once: exactly
    the ones that a stored constraint lives in or lists as affected.  Its counts
    are over those constraints, each counted once even when it both lives in
    the namespace and lists it. *)
Theorem HandleListNamespaces_spec σ σm σs idx :
  keyed (byUID idx) →
  ∃ l, Mcp.HandleListNamespaces σ σm σs idx = Mcp.Reply l ∧
    StronglySorted (not_after Mcp.summary_less) l ∧ NoDup (Mcp.ns_Namespace <$> l) ∧
    (∀ ns, ns ∈ Mcp.ns_Namespace <$> l ↔ ∃ c, contains idx c ∧ mentions c ns) ∧
    ∀ s, s ∈ l →
      let cs := under σ idx (Mcp.ns_Namespace s) in
      let n sev := go_len (filter (fun c => c_Severity c = sev) cs) in
      Mcp.ns_Total s = go_len cs ∧ Mcp.ns_CriticalCount s = n SeverityCritical ∧
      Mcp.ns_WarningCount s = n SeverityWarning ∧ Mcp.ns_InfoCount s = n SeverityInfo.
Proof.
  intros Hk. unfold Mcp.HandleListNamespaces. set (m := Mcp.group_by_namespace (All σ idx)).
  assert (∀ ns l, Mcp.ns_Namespace (Mcp.namespace_summary ns l) = ns) as Hname.
  { intros ns l. unfold Mcp.namespace_summary. exact (proj1 (tally_counts _ (_, _))). }
  assert (Mcp.ns_Namespace <$> ((fun e : string * list Constraint => Mcp.namespace_summary e.1 e.2) <$> range σm m) = (range σm m).*1) as Hkeys.
  { rewrite <-list_fmap_compose. apply list_fmap_ext. intros i [ns l] _. apply Hname. }
  eexists. split; [done|]. split_and!.
  - apply sort_slice_sorted, _.
  - rewrite sort_slice_perm, Hkeys. apply NoDup_range_keys.
  - intros ns. rewrite sort_slice_perm, Hkeys, list_elem_of_fmap. split.
    + intros ([k l] & -> & Hl%elem_of_range). simpl.
      assert (l ≠ []) as Hne by (apply (no_empty_group (All σ idx) ∅ (map_Forall_empty _) k l Hl)).
      destruct l as [|c l]; [done|]. exists c.
      destruct (proj1 (grouped_by (All σ idx) ∅ k c)) as [(? & ? & _)|[Hc Hm]]; [eexists; split; [exact Hl|left]|done|].
      split; [by apply elem_of_range_values in Hc|done].
    + intros (c & Hc & Hm). destruct (proj2 (grouped_by (All σ idx) ∅ ns c)) as (l & Hl & _).
      { right. split; [|done]. by apply elem_of_range_values. }
      exists (ns, l). split; [done|]. by apply elem_of_range.
  - intros s. rewrite sort_slice_perm. intros ([ns l] & -> & Hl%elem_of_range)%list_elem_of_fmap. cbn [fst snd]. rewrite Hname.
    pose proof (unique_group σ idx Hk ns l Hl) as Hp.
    destruct (tally_counts (Mcp.unique_uids ∅ l) (Mcp.mkNamespaceSummary ns (go_len (Mcp.unique_uids ∅ l)) 0 0 0 EmptyString, EmptyString))
      as (_ & Ht & Hc & Hw & Hi).
    unfold Mcp.namespace_summary. rewrite Ht, Hc, Hw, Hi. unfold go_len. cbn. by rewrite Hp.
Qed.

(** ** Privacy *)

(** At summary level, what a query or a pre-check shows of a constraint
    of another namespace does not depend on its name, namespace or summary. *)
Theorem mcp_summary_noninterference now viewer c n1 ns1 s1 n2 ns2 s2 :
  ns1 ≠ viewer → ns2 ≠ viewer →
  Mcp.ToConstraintResult now (with_identity n1 ns1 s1 c) DetailLevelSummary viewer =
    Mcp.ToConstraintResult now (with_identity n2 ns2 s2 c) DetailLevelSummary viewer ∧
  Mcp.check_warning now DetailLevelSummary viewer (with_identity n1 ns1 s1 c) =
    Mcp.check_warning now DetailLevelSummary viewer (with_identity n2 ns2 s2 c).
Proof.
  intros H1 H2.
  assert (∀ n ns s, ns ≠ viewer → Mcp.scopedConstraintName (with_identity n ns s c) DetailLevelSummary viewer = "redacted") as Hn.
  { intros n ns s H. unfold Mcp.scopedConstraintName. simpl. rewrite (bool_decide_eq_false_2 (ns = viewer)) by done.
    by rewrite orb_true_r. }
  assert (Mcp.ToConstraintResult now (with_identity n1 ns1 s1 c) DetailLevelSummary viewer =
          Mcp.ToConstraintResult now (with_identity n2 ns2 s2 c) DetailLevelSummary viewer) as Hr.
  { unfold Mcp.ToConstraintResult. rewrite !Hn by done. unfold Mcp.canShowNamespace. simpl.
    by rewrite (bool_decide_eq_false_2 (ns1 = viewer)), (bool_decide_eq_false_2 (ns2 = viewer)). }
  split; [done|]. unfold Mcp.check_warning. by rewrite Hr.
Qed.

(** With remediation the result names the policy at every level: the steps
    are not scoped. *)
Theorem mcp_remediation_leaks_policy rb now level viewer c :
  isNetworkPolicySource c = true → c_Remediation c = [] → c_Namespace c ≠ EmptyString →
  ∃ m step, Mcp.res_Remediation (Mcp.toConstraintResultWithRemediation rb now c level viewer) = Some m ∧
    step ∈ Mcp.rr_Steps m ∧
    strings_Contains (Mcp.st_Command step) (c_Name c) = true ∧ strings_Contains (Mcp.st_Command step) (c_Namespace c) = true.
Proof.
  intros Hsrc Hr Hns. unfold Mcp.toConstraintResultWithRemediation, Mcp.to_remediation, Build. cbn [Mcp.res_Remediation].
  rewrite Hr, Hsrc. unfold buildNetworkPolicyRemediation, namespaced_steps. rewrite (bool_decide_eq_false_2 (c_Namespace c = _)) by done.
  do 2 eexists. split; [done|]. split; [left|].
  exact (command_shows "kubectl get networkpolicy " (c_Name c) " -n " (c_Namespace c) " -o yaml").
Qed.

(** ** Copied helpers *)

(** C29: the helpers that the package repeats agree with the notifier's: the
    privacy scoping, the metrics and their units, the severity order, the API
    version, the kind of a resource (StatefulSet apart), and the two ways of
    attaching a remediation. *)
Theorem mcp_copies_agree :
  (∀ c level viewer, Mcp.scopedConstraintName c level viewer = EventBuilder.scopedConstraintName c level viewer) ∧
  (∀ c level viewer, Mcp.canShowNamespace c level viewer = EventBuilder.canShowNamespace c level viewer) ∧
  (∀ name, Mcp.guessUnit name = EventBuilder.guessUnit name) ∧
  (∀ c, Mcp.extractMetrics c = EventBuilder.extractMetrics c) ∧
  (∀ severity, Mcp.severityOrder severity = Report.severityOrder severity) ∧
  (∀ gvr, Mcp.gvrToAPIVersion gvr = Report.gvrToAPIVersion gvr) ∧
  (∀ gvr, g_Resource gvr ≠ "statefulsets" → Mcp.gvrToKind gvr = Report.gvrToKindName gvr) ∧
  (∀ rb now c level viewer, Mcp.toConstraintResultWithRemediation rb now c level viewer =
     Mcp.ToConstraintResultWithRemediation now c level viewer (Build rb)).
Proof.
  assert (∀ name, Mcp.guessUnit name = EventBuilder.guessUnit name) as Hu.
  { intros name. unfold Mcp.guessUnit, EventBuilder.guessUnit. destruct (_ || _); [done|]. destruct (_ || _); [done|].
    case_bool_decide as Hp; [by rewrite Hp|]. case_bool_decide as Hq; [by rewrite Hq|done]. }
  split_and!; try done.
  - intros c. unfold Mcp.extractMetrics, extractMetrics. destruct (c_Details c) as [d|]; [|done].
    destruct (d !! "resources") as [[]|]; try done. f_equal. apply map_imap_ext. intros k.
    apply option_fmap_ext. intros v. unfold Mcp.metric_value, metric_of. by rewrite Hu.
  - intros gvr Hne. unfold Mcp.gvrToKind, gvrToKindName, switch. cbv zeta.
    rewrite (bool_decide_eq_false_2 (g_Resource gvr = "statefulsets")) by done.
    repeat match goal with |- (if ?b then _ else _) = (if ?b then _ else _) => destruct b; [done|] end.
    case_bool_decide as Hp; [by rewrite Hp|]. case_bool_decide as Hd; [by rewrite Hd|done].
Qed.

(** The kinds of both copies are not those of the objects: a Kyverno
    [ClusterPolicy] is shown as [Clusterpolicie]. *)
Example source_kind_not_singular :
  Mcp.gvrToKind (mkGVR "kyverno.io" "v1" "clusterpolicies") = "Clusterpolicie" ∧
  Mcp.gvrToKind (mkGVR "apps" "v1" "statefulsets") = "Statefulset" ∧
  gvrToKindName (mkGVR "apps" "v1" "statefulsets") = "StatefulSet".
Proof. vm_compute. done. Qed.

(** ** Evaluation *)

Definition mcp_hook : Constraint :=
  example_constraint "h1" (mkGVR "admissionregistration.k8s.io" "v1" "validatingwebhookconfigurations") "guard" EmptyString ["dev"]
    ConstraintTypeAdmission SeverityCritical.
Definition mcp_quota : Constraint :=
  example_constraint "h2" (mkGVR EmptyString "v1" "resourcequotas") "compute" "dev" [] ConstraintTypeResourceLimit SeverityWarning.
Definition mcp_index : Indexer := (index_run (New false) [OpUpsert mcp_hook; OpUpsert mcp_quota]).1.

Definition names_of (r : Mcp.Response Mcp.QueryResult) : list string :=
  match r with Mcp.Reply q => Mcp.res_Name <$> Mcp.qr_Constraints q | Mcp.Failure m _ => [m] end.

Example example_query :
  names_of (Mcp.HandleQuery in_order reversed 0 example_builder mcp_index DetailLevelSummary
    (Some (Mcp.mkQueryParams "dev" EmptyString ∅ EmptyString EmptyString false))) = ["redacted"; "compute"] ∧
  names_of (Mcp.HandleQuery in_order in_order 0 example_builder mcp_index DetailLevelSummary
    (Some (Mcp.mkQueryParams EmptyString EmptyString ∅ EmptyString EmptyString false))) = ["namespace is required"].
Proof. vm_compute. done. Qed.

Lemma HandleQuery_spec_witness :
  ∃ r, Mcp.HandleQuery in_order reversed 0 example_builder mcp_index DetailLevelSummary
         (Some (Mcp.mkQueryParams "dev" EmptyString ∅ "ResourceLimit" EmptyString false)) = Mcp.Reply r ∧ Mcp.qr_Total r = 1%Z ∧
    query_view 0 example_builder DetailLevelSummary (Mcp.mkQueryParams "dev" EmptyString ∅ "ResourceLimit" EmptyString false) mcp_quota ∈
      Mcp.qr_Constraints r.
Proof.
  pose proof (HandleQuery_spec in_order reversed 0 example_builder mcp_index DetailLevelSummary
    (Mcp.mkQueryParams "dev" EmptyString ∅ "ResourceLimit" EmptyString false) eq_refl) as H.
  destruct (Mcp.HandleQuery _ _ _ _ _ _ _) as [r|m status] eqn:E; [|vm_compute in E; discriminate].
  exists r. split; [reflexivity|]. split; [vm_compute in E; injection E as <-; reflexivity|].
  apply H. exists mcp_quota. split; [reflexivity|]. split; [exists "h2"; vm_compute; reflexivity|].
  split; [reflexivity|]. split; [left; reflexivity|]. split; [right; reflexivity|left; reflexivity].
Defined.

Definition quota_error : string := "pods web is forbidden: exceeded quota: compute, requested: cpu=2".

(** A quota error is put down to the admission policies of the namespace:
    every quota error of the API server says [forbidden], which is one of the
    admission patterns, tried first. *)
Theorem explain_quota_misattributed :
  Mcp.matchErrorToConstraints quota_error [mcp_hook; mcp_quota] =
    ([mcp_hook], "high", "This error appears to be from an admission controller. The following admission policies may be rejecting the request.").
Proof. vm_compute. done. Qed.

(** The top constraint of a namespace is the first one when a warning comes
    before a critical constraint. *)
Theorem top_constraint_not_highest :
  let s := Mcp.namespace_summary "dev" [mcp_quota; mcp_hook] in
  Mcp.ns_CriticalCount s = 1%Z ∧ c_Severity mcp_hook = SeverityCritical ∧ Mcp.ns_TopConstraint s = c_Name mcp_quota.
Proof. vm_compute. done. Qed.

(** The tool describes [workload_name] as a filter; it changes nothing. *)
Theorem query_workload_name_ignored `{AM : Apimachinery} σ σs now rb idx level p name :
  Mcp.HandleQuery σ σs now rb idx level (Some p) =
  Mcp.HandleQuery σ σs now rb idx level
    (Some (Mcp.mkQueryParams (Mcp.qp_Namespace p) name (Mcp.qp_WorkloadLabels p) (Mcp.qp_ConstraintType p) (Mcp.qp_Severity p)
             (Mcp.qp_IncludeRemediation p))).
Proof. done. Qed.

(** [nightjar_remediation] takes no detail level: it gives the steps of any
    constraint that applies to the namespace, by its name. *)
Theorem remediation_unscoped `{AM : Apimachinery} rb :
  match Mcp.HandleRemediation in_order rb mcp_index (Some (Mcp.mkRemediationParams "guard" "dev")) with
  | Mcp.Reply r => r = Mcp.to_remediation (Build rb mcp_hook)
  | Mcp.Failure _ _ => False
  end.
Proof. reflexivity. Qed.

Lemma HandleExplain_sound_witness :
  ∃ r, Mcp.HandleExplain in_order 0 example_builder mcp_index DetailLevelSummary
         (Some (Mcp.mkExplainParams quota_error "dev" EmptyString)) = Mcp.Reply r ∧ Mcp.er_Confidence r = "high".
Proof.
  destruct (HandleExplain_sound in_order 0 example_builder mcp_index DetailLevelSummary
    (Mcp.mkExplainParams quota_error "dev" EmptyString) ltac:(discriminate) ltac:(discriminate)) as (r & Hr & _ & _ & Hc).
  exists r. split; [exact Hr|]. apply Hc. exists mcp_hook. split; [split; [exists "h1"; reflexivity|reflexivity]|reflexivity].
Defined.

Definition example_manifest : gmap string GoVal :=
  {[ "kind" := VStr "Deployment"; "metadata" := VMap {[ "name" := VStr "web"; "namespace" := VStr "dev" ]} ]}.

Lemma HandleCheck_blocks_witness :
  ∃ r, (Mcp.HandleCheck (fun _ => inl example_manifest) in_order 0 example_eval example_builder mcp_index DetailLevelSummary
          (Some (Mcp.mkCheckParams "m")) None).2 = Mcp.Reply r ∧ Mcp.cr_WouldBlock r = true.
Proof.
  destruct (HandleCheck_blocks (fun _ => inl example_manifest) in_order 0 example_eval example_builder mcp_index DetailLevelSummary
    "m" example_manifest None ltac:(discriminate) eq_refl) as (r & Hr & Hb & _).
  exists r. split; [exact Hr|]. apply Hb. exists mcp_hook. split; [exists "h1"; reflexivity|]. repeat split; vm_compute; reflexivity.
Defined.

Lemma HandleListNamespaces_spec_witness :
  ∃ l, Mcp.HandleListNamespaces in_order in_order in_order mcp_index = Mcp.Reply l ∧ "dev" ∈ Mcp.ns_Namespace <$> l.
Proof.
  destruct (HandleListNamespaces_spec in_order in_order in_order mcp_index) as (l & Hl & _ & _ & Hn & _).
  { apply index_run_keyed, keyed_empty. }
  exists l. split; [exact Hl|]. apply Hn. exists mcp_quota. split; [exists "h2"; reflexivity|]. right. split; [reflexivity|discriminate].
Defined.

Lemma mcp_summary_noninterference_witness :
  Mcp.ToConstraintResult 0 (with_identity "a" "prod" "x" mcp_quota) DetailLevelSummary "dev" =
  Mcp.ToConstraintResult 0 (with_identity "b" EmptyString "y" mcp_quota) DetailLevelSummary "dev".
Proof. apply (mcp_summary_noninterference 0 "dev" mcp_quota "a" "prod" "x" "b" EmptyString "y"); discriminate. Defined.

Lemma mcp_remediation_leaks_policy_witness :
  ∃ m step, Mcp.res_Remediation (Mcp.toConstraintResultWithRemediation example_builder 0 example_policy DetailLevelSummary "dev") = Some m ∧
    step ∈ Mcp.rr_Steps m ∧ strings_Contains (Mcp.st_Command step) "deny-all" = true ∧ strings_Contains (Mcp.st_Command step) "prod" = true.
Proof. apply (mcp_remediation_leaks_policy example_builder 0 DetailLevelSummary "dev" example_policy); [reflexivity|reflexivity|discriminate]. Defined.

(** Every advertised tool is served, and each parameter it says it requires is
    one it describes. *)
Example advertised_tools_served :
  ((fun t => "/tools/" +:+ Mcp.t_name t) <$> Mcp.tools) = Mcp.tool_patterns ∧
  Forall (fun t => Forall (fun r => r ∈ (Mcp.t_properties t).*1) (Mcp.t_required t)) Mcp.tools.
Proof. split; [reflexivity|]. apply (bool_decide_unpack _). vm_compute. exact I. Qed.
