(* ===== verification/Api.v ===== *)
(** * The HTTP API of the controller (internal/api)

    The handlers that [ExtraHandlers] puts beside the metrics: capabilities,
    constraints and health.  A handler takes the method and, where it reads
    one, the raw query of the request; its result is the value it encodes or
    the message and status it fails with.  A nil indexer is [None]. *)

From S2P Require Import Prelude GoStd Encoding Types Indexer EventBuilder.

Open Scope go_scope.
#[local] Open Scope string_scope.

Module Api.

Record AdapterInfo := mkAdapterInfo {
  ai_Name : string; ai_Enabled : bool; ai_WatchedResources : list string; ai_ConstraintCount : Z; ai_ErrorCount : Z;
  ai_Reason : string }.

Record HubbleStatus := mkHubbleStatus { hb_Enabled : bool; hb_Connected : bool; hb_Address : string }.
Record MCPStatus := mkMCPStatus { mcp_Enabled : bool; mcp_Transport : string; mcp_Port : Z }.

Record CapabilitiesResponse := mkCapabilitiesResponse {
  caps_Version : string;
  caps_Adapters : list AdapterInfo;
  caps_ConstraintTypes : gmap string Z;
  caps_TotalConstraints : Z;
  caps_NamespaceCount : Z;
  caps_WatchedResources : Z;
  caps_HubbleStatus : option HubbleStatus;
  caps_MCPStatus : option MCPStatus;
  caps_LastScanTime : string;
  caps_UpSince : string;
}.

Record CapabilitiesHandler := mkCapabilitiesHandler {
  ch_adapters : list AdapterInfo;
  ch_hubbleStatus : option HubbleStatus;
  ch_mcpStatus : option MCPStatus;
  ch_startTime : Time;
  ch_lastScanTime : Time;
}.

Definition NewCapabilitiesHandler (now : Time) (adapters : list AdapterInfo) (hubble : option HubbleStatus) (mcp : option MCPStatus)
    : CapabilitiesHandler := mkCapabilitiesHandler adapters hubble mcp now zero_time.

Definition SetLastScanTime (t : Time) (h : CapabilitiesHandler) : CapabilitiesHandler :=
  mkCapabilitiesHandler (ch_adapters h) (ch_hubbleStatus h) (ch_mcpStatus h) (ch_startTime h) t.

Definition resourceToAdapterName (resource : string) : string :=
  switch resource
    [("networkpolicies", "networkpolicy"); ("resourcequotas", "resourcequota"); ("limitranges", "limitrange");
     ("validatingwebhookconfigurations", "webhookconfig"); ("mutatingwebhookconfigurations", "webhookconfig");
     ("ciliumnetworkpolicies", "cilium"); ("ciliumclusterwidenetworkpolicies", "cilium");
     ("constrainttemplates", "gatekeeper"); ("constraints", "gatekeeper");
     ("clusterpolicies", "kyverno"); ("policies", "kyverno")] "generic".

(** [counts[key(c)]++] over the constraints. *)
Definition count_by (key : Constraint -> string) (cs : list Constraint) : gmap string Z :=
  foldl (fun m c => <[key c := (default 0 (m !! key c) + 1)%Z]> m) ∅ cs.

(** [nsSet] *)
Definition add_namespaces (nsSet : gset string) (c : Constraint) : gset string :=
  let nsSet' := foldl (fun s ns => {[ns]} ∪ s) nsSet (c_AffectedNamespaces c) in
  if c_Namespace c != EmptyString then {[c_Namespace c]} ∪ nsSet' else nsSet'.

Definition adapter_source (c : Constraint) : string := resourceToAdapterName (g_Resource (c_Source c)).

Definition with_count (counts : gmap string Z) (a : AdapterInfo) : AdapterInfo :=
  mkAdapterInfo (ai_Name a) (ai_Enabled a) (ai_WatchedResources a) (default 0%Z (counts !! ai_Name a)) (ai_ErrorCount a) (ai_Reason a).

Definition buildResponse (σ : Shuffle) (now : Time) (idx : Indexer) (h : CapabilitiesHandler) : CapabilitiesResponse :=
  let allConstraints := All σ idx in
  let adapterCounts := count_by adapter_source allConstraints in
  let lastScan := if (ch_lastScanTime h =? zero_time)%Z then now else ch_lastScanTime h in
  mkCapabilitiesResponse "1" (with_count adapterCounts <$> ch_adapters h) (count_by c_ConstraintType allConstraints)
    (go_len allConstraints) (Z.of_nat (size (foldl add_namespaces ∅ allConstraints)))
    (foldl (fun n a => (n + go_len (ai_WatchedResources a))%Z) 0%Z (ch_adapters h)) (ch_hubbleStatus h) (ch_mcpStatus h)
    (format_RFC3339 lastScan) (format_RFC3339 (ch_startTime h)).

Inductive Response (A : Type) :=
  | Reply (data : A)
  | Failure (message : string) (status : Z)
  | Panic.
Arguments Reply {A} _.
Arguments Failure {A} _ _.
Arguments Panic {A}.

Definition method_not_allowed {A} : Response A := Failure "Method not allowed" 405.

(** [ServeHTTP] of the capabilities; [All] of a nil indexer panics. *)
Definition capabilities_ServeHTTP (σ : Shuffle) (now : Time) (idx : option Indexer) (h : CapabilitiesHandler) (method : string)
    : Response CapabilitiesResponse :=
  if method != "GET" then method_not_allowed
  else match idx with
       | None => Panic
       | Some i => Reply (buildResponse σ now i h)
       end.

Definition DefaultAdapters : list AdapterInfo :=
  [mkAdapterInfo "networkpolicy" true ["networkpolicies"] 0 0 EmptyString;
   mkAdapterInfo "resourcequota" true ["resourcequotas"] 0 0 EmptyString;
   mkAdapterInfo "limitrange" true ["limitranges"] 0 0 EmptyString;
   mkAdapterInfo "webhookconfig" true ["validatingwebhookconfigurations"; "mutatingwebhookconfigurations"] 0 0 EmptyString;
   mkAdapterInfo "generic" true [] 0 0 EmptyString].

Record HealthResponse := mkHealthResponse { hr_Status : string; hr_Indexer : string; hr_Timestamp : string }.

Definition health_ServeHTTP (now : Time) (idx : option Indexer) (method : string) : Response HealthResponse :=
  if method != "GET" then method_not_allowed
  else let '(status, indexerStatus) := match idx with None => ("unhealthy", "not initialized") | Some _ => ("healthy", "ready") end in
       Reply (mkHealthResponse status indexerStatus (format_RFC3339 now)).

(** [c.RawObject = nil] *)
Definition strip (c : Constraint) : Constraint :=
  {| c_UID := c_UID c; c_Source := c_Source c; c_Name := c_Name c; c_Namespace := c_Namespace c;
     c_AffectedNamespaces := c_AffectedNamespaces c; c_NamespaceSelector := c_NamespaceSelector c;
     c_WorkloadSelector := c_WorkloadSelector c; c_ResourceTargets := c_ResourceTargets c;
     c_ConstraintType := c_ConstraintType c; c_Effect := c_Effect c; c_Severity := c_Severity c;
     c_Details := c_Details c; c_Summary := c_Summary c; c_RemediationHint := c_RemediationHint c;
     c_Remediation := c_Remediation c; c_Tags := c_Tags c; c_RawObject := None |}.

(** The constraints of ConstraintsResponse. *)
Definition constraints_ServeHTTP (σ : Shuffle) (idx : option Indexer) (method rawQuery : string) : Response (list Constraint) :=
  if method != "GET" then method_not_allowed
  else match idx with
       | None => Reply []
       | Some i =>
           let namespace := query_Get rawQuery "namespace" in
           let constraints := if namespace != EmptyString then ByNamespace σ i namespace else All σ i in
           Reply (strip <$> constraints)
       end.

(** The paths of [ExtraHandlers] (and of [RegisterHandlers]). *)
Inductive Endpoint := EpCapabilities | EpConstraints | EpHealth.

Definition ExtraHandlers : gmap string Endpoint :=
  {[ "/api/v1/capabilities" := EpCapabilities; "/api/v1/constraints" := EpConstraints; "/api/v1/health" := EpHealth;
     "/health" := EpHealth ]}.
End Api.

(** ** Counting *)

Lemma count_by_lookup (key : Constraint -> string) (cs : list Constraint) (m : gmap string Z) k :
  default 0%Z (foldl (fun m c => <[key c := (default 0 (m !! key c) + 1)%Z]> m) m cs !! k) =
  (default 0 (m !! k) + go_len (filter (fun c => key c = k) cs))%Z.
Proof.
  revert m. induction cs as [|c cs IH]; intros m; simpl; [unfold go_len; simpl; lia|].
  rewrite IH, filter_cons. destruct (decide (key c = k)) as [->|Hne].
  - rewrite lookup_insert_eq. unfold go_len. simpl. lia.
  - by rewrite lookup_insert_ne.
Qed.

Lemma count_by_spec key cs k :
  default 0%Z (Api.count_by key cs !! k) = go_len (filter (fun c => key c = k) cs).
Proof. unfold Api.count_by. by rewrite count_by_lookup, lookup_empty. Qed.

Lemma elem_of_fold_singletons (nss : list string) (s : gset string) ns :
  ns ∈ foldl (fun s ns => {[ns]} ∪ s) s nss ↔ ns ∈ s ∨ ns ∈ nss.
Proof. revert s. induction nss as [|k nss IH]; intros s; simpl; [set_solver|]. rewrite IH. set_solver. Qed.

Lemma elem_of_add_namespaces s c ns : ns ∈ Api.add_namespaces s c ↔ ns ∈ s ∨ mentions c ns.
Proof.
  unfold Api.add_namespaces, mentions. case_bool_decide as He; simpl; rewrite ?elem_of_union, elem_of_fold_singletons.
  - split; [tauto|]. intros [?|[?|[<- ?]]]; tauto.
  - rewrite elem_of_singleton. split; [|naive_solver]. intros [->|[?|?]]; tauto.
Qed.

Lemma elem_of_namespaces cs s ns :
  ns ∈ foldl Api.add_namespaces s cs ↔ ns ∈ s ∨ ∃ c, c ∈ cs ∧ mentions c ns.
Proof.
  revert s. induction cs as [|c cs IH]; intros s; simpl; [set_solver|].
  rewrite IH, elem_of_add_namespaces. setoid_rewrite elem_of_cons. naive_solver.
Qed.

(** ** The capabilities *)

(** The capabilities count every stored constraint: the total and the
    numbers by type are those of the index, the namespaces are the ones that
    constraints live in or list, and the number given for an adapter is that of
    the constraints whose source resource is taken to be the adapter's. *)
Theorem buildResponse_counts σ now idx h :
  let r := Api.buildResponse σ now idx h in
  let n (key : Constraint -> string) k := go_len (filter (fun c => key c = k) (All σ idx)) in
  Api.caps_TotalConstraints r = Count idx ∧
  (∀ ct, default 0%Z (Api.caps_ConstraintTypes r !! ct) = n c_ConstraintType ct) ∧
  (∃ nss : gset string, Api.caps_NamespaceCount r = Z.of_nat (size nss) ∧
     ∀ ns, ns ∈ nss ↔ ∃ c, contains idx c ∧ mentions c ns) ∧
  Api.ai_Name <$> Api.caps_Adapters r = Api.ai_Name <$> Api.ch_adapters h ∧
  (∀ a, a ∈ Api.caps_Adapters r → Api.ai_ConstraintCount a = n Api.adapter_source (Api.ai_Name a)).
Proof.
  cbv zeta. split_and!.
  - simpl. unfold go_len, All, Count, range_values. by rewrite length_fmap, length_range.
  - intros ct. apply count_by_spec.
  - eexists. split; [done|]. intros ns. rewrite elem_of_namespaces. unfold All. setoid_rewrite elem_of_range_values.
    unfold contains. set_solver.
  - simpl. rewrite <-list_fmap_compose. done.
  - intros a (b & -> & _)%list_elem_of_fmap. apply count_by_spec.
Qed.

(** ** The constraints *)

(** The constraints endpoint answers every GET: with the constraints that
    apply to the namespace asked for, or with all of them when none is given,
    each without its raw object, and with none while there is no index. *)
Theorem constraints_ServeHTTP_spec σ idx raw :
  ∃ cs, Api.constraints_ServeHTTP σ idx "GET" raw = Api.Reply cs ∧
  ∀ d, d ∈ cs ↔ ∃ i c, idx = Some i ∧ d = Api.strip c ∧ contains i c ∧
                       (query_Get raw "namespace" = EmptyString ∨ matchesNamespace c (query_Get raw "namespace") = true).
Proof.
  unfold Api.constraints_ServeHTTP. rewrite bool_decide_eq_true_2 by done. cbn [negb].
  destruct idx as [i|]; eexists; (split; [done|]); intros d; [|rewrite elem_of_nil; naive_solver].
  rewrite list_elem_of_fmap. case_bool_decide as He; simpl.
  - unfold All. setoid_rewrite elem_of_range_values. unfold contains. naive_solver.
  - unfold ByNamespace. setoid_rewrite elem_of_select. naive_solver.
Qed.

(** Gatekeeper's constraints are counted as generic ones, since their resource
    is named after the constraint kind; and the default adapters leave out
    Kyverno and Gatekeeper, so Kyverno's constraints are in no adapter's count. *)
Example adapter_counts_incomplete :
  Api.resourceToAdapterName "k8srequiredlabelss" = "generic" ∧
  Api.resourceToAdapterName "clusterpolicies" = "kyverno" ∧ ("kyverno" ∉ Api.ai_Name <$> Api.DefaultAdapters).
Proof. split_and!; [reflexivity|reflexivity|]. apply (bool_decide_unpack _). vm_compute. exact I. Qed.

(** Only the capabilities fail without an index. *)
Example nil_indexer :
  Api.capabilities_ServeHTTP in_order 0 None (Api.NewCapabilitiesHandler 0 Api.DefaultAdapters None None) "GET" = Api.Panic ∧
  Api.constraints_ServeHTTP in_order None "GET" EmptyString = Api.Reply [].
Proof. done. Qed.

Example example_constraints_endpoint :
  Api.constraints_ServeHTTP in_order (Some example_index) "GET" "namespace=dev" =
    Api.Reply (Api.strip <$> ByNamespace in_order example_index "dev") ∧
  Api.ai_ConstraintCount <$> Api.caps_Adapters (Api.buildResponse in_order 0 example_index
    (Api.NewCapabilitiesHandler 0 Api.DefaultAdapters None None)) = [2; 1; 0; 0; 0]%Z.
Proof. split; vm_compute; reflexivity. Qed.
