(* ===== verification/Admission.v ===== *)
(** * The admission webhook (cmd/webhook/admission.go)

    The webhook answers the reviews of the API server with the warnings of the
    constraints that the controller's API lists for the namespace.  The
    deserializer of apimachinery and [json.Unmarshal] of the labels are
    parameters ([decode], [labels_of]); the HTTP client is a function from a
    URL to its outcome, and [controller] is the outcome when it reaches
    [Api.constraints_ServeHTTP]. *)

From S2P Require Import Prelude GoStd Encoding Types Indexer Api.
From Stdlib Require Import Ascii.

Open Scope go_scope.
#[local] Open Scope string_scope.

Module Admission.

(** The fields of admissionv1.AdmissionRequest that are read; [Object.Raw] nil
    is [None]. *)
Record AdmissionRequest := mkAdmissionRequest {
  aq_UID : string; aq_KindGroup : string; aq_Kind : string; aq_Namespace : string; aq_Object : option string }.

(** The response of an admissionv1.AdmissionReview; [ar_Message] is that of
    its [Result]. *)
Record AdmissionResponse := mkAdmissionResponse {
  ar_UID : string; ar_Allowed : bool; ar_Warnings : list string; ar_Message : string }.

(** ConstraintQuerier: a failed query, a timeout included, is its error. *)
Class ConstraintQuerier (C : Type) := Query : C -> string -> option (gmap string string) -> list Constraint + error.

Definition extractLabels (labels_of : string -> option (gmap string string)) (req : AdmissionRequest) : option (gmap string string) :=
  raw ← aq_Object req; labels_of raw.

Definition constraintApplies (req : AdmissionRequest) (c : Constraint) : bool :=
  if (0 <? length (c_ResourceTargets c))%nat then
    let reqGroup := aq_KindGroup req in
    let reqResource := strings_ToLower (aq_Kind req) +:+ "s" in
    existsb (fun target =>
      let groupMatches := (length (rt_APIGroups target) =? 0)%nat || existsb (fun g => (g == "*") || (g == reqGroup)) (rt_APIGroups target) in
      if groupMatches then existsb (fun r => (r == "*") || (r == reqResource)) (rt_Resources target) else false)
      (c_ResourceTargets c)
  else true.

Definition formatWarning (c : Constraint) : string :=
  let severityPrefix := if c_Severity c == SeverityCritical then "[CRITICAL]" else "[WARNING]" in
  severityPrefix +:+ " " +:+ c_Summary c +:+ " - " +:+ c_RemediationHint c.

Definition buildWarnings (req : AdmissionRequest) (constraints : list Constraint) : list string :=
  omap (fun c =>
    if (c_Severity c != SeverityWarning) && (c_Severity c != SeverityCritical) then None
    else if negb (constraintApplies req c) then None
    else Some (formatWarning c)) constraints.

Definition processRequest {C} `{ConstraintQuerier C} (labels_of : string -> option (gmap string string)) (client : C)
    (req : option AdmissionRequest) : AdmissionResponse :=
  match req with
  | None => mkAdmissionResponse EmptyString true [] EmptyString
  | Some req =>
      match Query client (aq_Namespace req) (extractLabels labels_of req) with
      | inr _ => mkAdmissionResponse (aq_UID req) true [] EmptyString
      | inl constraints => mkAdmissionResponse (aq_UID req) true (buildWarnings req constraints) EmptyString
      end
  end.

Inductive HttpReply :=
  | HttpError (message : string) (status : Z)
  | SentReview (response : AdmissionResponse).

(** [marshals]: whether [json.Marshal] of the review succeeds. *)
Definition sendResponse (marshals : bool) (response : AdmissionResponse) : HttpReply :=
  if marshals then SentReview response else HttpError "Failed to marshal response" 500.

Definition maxBodySize : Z := Z.shiftl 1 20.

(** [io.LimitReader(r, n)] read to its end. *)
Fixpoint limit_read (n : Z) (s : string) : string :=
  match s with
  | EmptyString => EmptyString
  | String c s' => if (n <=? 0)%Z then EmptyString else String c (limit_read (n - 1) s')
  end.

(** [decode body] is the review's request, nil when it has none. *)
Definition Handle {C} `{ConstraintQuerier C} (decode : string -> option (option AdmissionRequest))
    (labels_of : string -> option (gmap string string)) (marshals : AdmissionResponse -> bool) (client : C)
    (method contentType : string) (body : string + error) : HttpReply :=
  if method != "POST" then HttpError "Method not allowed" 405
  else if negb (strings_HasPrefix contentType "application/json") then HttpError "Content-Type must be application/json" 415
  else match body with
  | inr _ => HttpError "Failed to read body" 400
  | inl bytes =>
      let response :=
        match decode (limit_read maxBodySize bytes) with
        | None => mkAdmissionResponse EmptyString true [] "Failed to decode request, allowing by default"
        | Some req => processRequest labels_of client req
        end in
      sendResponse (marshals response) response
  end.

(** *** The client of the controller *)

Inductive HttpOutcome :=
  | InvalidRequest (err : error)
  | NoAnswer (err : error)
  | Answer (status : Z) (body : string) (decoded : list Constraint + error).

Record ConstraintClient := mkConstraintClient { cc_baseURL : string; cc_Do : string -> HttpOutcome }.

Definition query_url (c : ConstraintClient) (namespace : string) : string :=
  cc_baseURL c +:+ "/api/v1/constraints?namespace=" +:+ url_QueryEscape namespace.

#[global] Instance client_Query : ConstraintQuerier ConstraintClient := fun c namespace labels =>
  match cc_Do c (query_url c namespace) with
  | InvalidRequest err => inr ("failed to create request: " +:+ err)
  | NoAnswer err => inr ("failed to query controller: " +:+ err)
  | Answer status body decoded =>
      if (status =? 200)%Z then
        match decoded with
        | inl constraints => inl constraints
        | inr err => inr ("failed to decode response: " +:+ err)
        end
      else inr ("controller returned status " +:+ fmt_d status +:+ ": " +:+ body)
  end.
End Admission.

(** The outcome of a GET that reaches the controller; [wire] is what a
    constraint is after encoding and decoding it as JSON. *)
Definition controller (σ : Shuffle) (idx : option Indexer) (wire : Constraint -> Constraint) (url : string) : Admission.HttpOutcome :=
  match Api.constraints_ServeHTTP σ idx "GET" (url_RawQuery url) with
  | Api.Reply cs => Admission.Answer 200 EmptyString (inl (wire <$> cs))
  | Api.Failure message status => Admission.Answer status message (inr "invalid character")
  | Api.Panic => Admission.NoAnswer "EOF"
  end.

(** What encoding/json keeps of a constraint, among the rest: the strings and
    the targets, which are exported fields of plain types. *)
Definition wire_ok (wire : Constraint -> Constraint) : Prop :=
  ∀ c, c_Severity (wire c) = c_Severity c ∧ c_Summary (wire c) = c_Summary c ∧
       c_RemediationHint (wire c) = c_RemediationHint c ∧ c_ResourceTargets (wire c) = c_ResourceTargets c.

(** ** The handler *)

Section handler.
Context {C : Type} `{Admission.ConstraintQuerier C}.
Context (decode : string -> option (option Admission.AdmissionRequest)) (labels_of : string -> option (gmap string string)).
Context (marshals : Admission.AdmissionResponse -> bool).

(** C23: the webhook never rejects.  Whatever the request, the constraints and
    the failures of the query: it sends a review exactly for a POST of JSON whose
    body it can read and whose response marshals; that review allows the request
    and has the UID of the request it decoded, or no UID when nothing was
    decoded.  Otherwise it answers the HTTP error of the first of these that
    fails: 405 for the method, 415 for the content type, 400 for the body, 500
    for the response. *)
Theorem Handle_never_rejects client method contentType body :
  match Admission.Handle decode labels_of marshals client method contentType body with
  | Admission.SentReview r =>
      method = "POST" ∧ strings_HasPrefix contentType "application/json" = true ∧ marshals r = true ∧
      Admission.ar_Allowed r = true ∧
      ∃ bytes, body = inl bytes ∧
        Admission.ar_UID r = match decode (Admission.limit_read Admission.maxBodySize bytes) with
                             | Some (Some req) => Admission.aq_UID req
                             | _ => EmptyString
                             end
  | Admission.HttpError _ status =>
      if method != "POST" then status = 405%Z
      else if negb (strings_HasPrefix contentType "application/json") then status = 415%Z
      else match body with
           | inr _ => status = 400%Z
           | inl _ => status = 500%Z ∧ ∃ r, marshals r = false ∧
               Admission.Handle decode labels_of (fun _ => true) client method contentType body = Admission.SentReview r
           end
  end.
Proof.
  unfold Admission.Handle, Admission.sendResponse. destruct (method != "POST") eqn:Hmeth; [done|].
  destruct (strings_HasPrefix _ _) eqn:Hp; cbn [negb]; [|done].
  destruct body as [bytes|err]; [|done].
  set (r := match decode _ with Some _ => _ | None => _ end). destruct (marshals r) eqn:Hm; [|split; [done|by exists r]].
  apply negb_false_iff, bool_decide_eq_true in Hmeth. split_and!; try done; [|exists bytes; split; [done|]];
    unfold r; destruct (decode _) as [[req|]|]; simpl; try done; by destruct (Admission.Query _ _ _).
Qed.
End handler.

(** ** Which constraints warn *)

Lemma constraintApplies_spec req c :
  Admission.constraintApplies req c = true ↔
  c_ResourceTargets c = [] ∨
  ∃ t r, t ∈ c_ResourceTargets c ∧ r ∈ rt_Resources t ∧
    (rt_APIGroups t = [] ∨ "*" ∈ rt_APIGroups t ∨ Admission.aq_KindGroup req ∈ rt_APIGroups t) ∧
    (r = "*" ∨ r = strings_ToLower (Admission.aq_Kind req) +:+ "s").
Proof.
  unfold Admission.constraintApplies. destruct (c_ResourceTargets c) as [|t0 ts] eqn:Ht; [naive_solver|].
  cbn [length Nat.ltb Nat.leb]. rewrite existsb_exists.
  assert (∀ t, (length (rt_APIGroups t) =? 0)%nat ||
      existsb (fun g => (g == "*") || (g == Admission.aq_KindGroup req)) (rt_APIGroups t) = true ↔
      (rt_APIGroups t = [] ∨ "*" ∈ rt_APIGroups t ∨ Admission.aq_KindGroup req ∈ rt_APIGroups t)) as Hg.
  { intros t. rewrite orb_true_iff, Nat.eqb_eq, length_zero_iff_nil, existsb_exists.
    setoid_rewrite <-list_elem_of_In. setoid_rewrite orb_true_iff. setoid_rewrite bool_decide_eq_true. naive_solver. }
  setoid_rewrite <-list_elem_of_In. split.
  - intros (t & Hin & Hm). right. destruct (_ || _) eqn:He; [|done]. apply Hg in He.
    apply existsb_exists in Hm as (r & Hr%list_elem_of_In & Hrr). rewrite orb_true_iff, !bool_decide_eq_true in Hrr. eauto 10.
  - intros [|(t & r & Hin & Hr & Hgr & Hrr)]; [done|]. exists t. split; [done|]. apply Hg in Hgr. rewrite Hgr.
    apply existsb_exists. exists r. split; [by apply list_elem_of_In|]. rewrite orb_true_iff, !bool_decide_eq_true. done.
Qed.

Lemma elem_of_buildWarnings req cs w :
  w ∈ Admission.buildWarnings req cs ↔
  ∃ c, c ∈ cs ∧ (c_Severity c = SeverityWarning ∨ c_Severity c = SeverityCritical) ∧
       Admission.constraintApplies req c = true ∧ w = Admission.formatWarning c.
Proof.
  unfold Admission.buildWarnings. rewrite list_elem_of_omap. split.
  - intros (c & Hc & Hf). exists c. split; [done|].
    destruct (Admission.constraintApplies req c); repeat case_bool_decide; simplify_eq/=; naive_solver.
  - intros (c & Hc & Hs & Ha & ->). exists c. split; [done|]. rewrite Ha.
    repeat case_bool_decide; simplify_eq/=; naive_solver.
Qed.

(** ** The webhook and the controller *)

Section end_to_end.
Context (σ : Shuffle) (idx : Indexer) (wire : Constraint -> Constraint) (base : string).
Context (labels_of : string -> option (gmap string string)).
Hypothesis Hwire : wire_ok wire.
Hypothesis Hbase : avoids "#"%char base && avoids "?"%char base = true.

Definition webhook_client : Admission.ConstraintClient := Admission.mkConstraintClient base (controller σ (Some idx) wire).

Lemma query_url_namespace ns : query_Get (url_RawQuery (Admission.query_url webhook_client ns)) "namespace" = ns.
Proof.
  apply andb_true_iff in Hbase as [Hh Hq]. unfold Admission.query_url.
  rewrite <-(query_Get_escaped (base +:+ "/api/v1/constraints") "namespace" ns) at 2;
    [|by rewrite avoids_append, Hh|by rewrite avoids_append, Hq|done|reflexivity].
  by rewrite string_append_assoc.
Qed.

(** What the controller answers to the webhook's query. *)
Lemma webhook_query ns labels :
  Admission.Query webhook_client ns labels =
  inl ((fun c => wire (Api.strip c)) <$> (if ns == EmptyString then All σ idx else ByNamespace σ idx ns)).
Proof.
  unfold Admission.Query, Admission.client_Query, webhook_client, controller. cbn [Admission.cc_Do].
  unfold Api.constraints_ServeHTTP. rewrite bool_decide_eq_true_2 by done. cbn [negb]. fold webhook_client.
  rewrite query_url_namespace. cbn [Z.eqb Pos.eqb]. rewrite <-list_fmap_compose. f_equal. by case_bool_decide.
Qed.

Lemma wire_shown c req :
  Admission.constraintApplies req (wire (Api.strip c)) = Admission.constraintApplies req c ∧
  Admission.formatWarning (wire (Api.strip c)) = Admission.formatWarning c ∧ c_Severity (wire (Api.strip c)) = c_Severity c.
Proof.
  destruct (Hwire (Api.strip c)) as (H1 & H2 & H3 & H4). unfold Admission.constraintApplies, Admission.formatWarning.
  by rewrite H1, H2, H3, H4.
Qed.

(** C17: with the controller reachable, a request in a namespace gets exactly
    the warnings of the stored constraints that apply to the namespace, are
    warnings or critical and target the object's kind, and a cluster-scoped
    request those of every namespace.  A constraint targets a kind when it names
    no targets, or one of the kind's API group, or of any, with the resource [*]
    or the kind in lower case and an s, which the code takes for the plural; for
    kinds whose plural is another, see [plural_kind_missed]. *)
Theorem admission_warnings_exact req :
  let r := Admission.processRequest labels_of webhook_client (Some req) in
  Admission.ar_UID r = Admission.aq_UID req ∧
  ∀ w, w ∈ Admission.ar_Warnings r ↔
    ∃ c, contains idx c ∧ (Admission.aq_Namespace req = EmptyString ∨ matchesNamespace c (Admission.aq_Namespace req) = true) ∧
         (c_Severity c = SeverityWarning ∨ c_Severity c = SeverityCritical) ∧
         (c_ResourceTargets c = [] ∨
          ∃ t resource, t ∈ c_ResourceTargets c ∧ resource ∈ rt_Resources t ∧
            (rt_APIGroups t = [] ∨ "*" ∈ rt_APIGroups t ∨ Admission.aq_KindGroup req ∈ rt_APIGroups t) ∧
            (resource = "*" ∨ resource = strings_ToLower (Admission.aq_Kind req) +:+ "s")) ∧
         w = (if bool_decide (c_Severity c = "Critical") then "[CRITICAL] " else "[WARNING] ") +:+
             c_Summary c +:+ " - " +:+ c_RemediationHint c.
Proof.
  cbv zeta. unfold Admission.processRequest. rewrite webhook_query. split; [done|]. intros w. cbn [Admission.ar_Warnings].
  rewrite elem_of_buildWarnings.
  assert (∀ c, c ∈ (if Admission.aq_Namespace req == EmptyString then All σ idx else ByNamespace σ idx (Admission.aq_Namespace req)) ↔
    contains idx c ∧ (Admission.aq_Namespace req = EmptyString ∨ matchesNamespace c (Admission.aq_Namespace req) = true)) as Hin.
  { intros c. case_bool_decide; [|unfold ByNamespace; rewrite elem_of_select; naive_solver].
    unfold All. rewrite elem_of_range_values. unfold contains. naive_solver. }
  assert (∀ c, Admission.formatWarning c = (if bool_decide (c_Severity c = "Critical") then "[CRITICAL] " else "[WARNING] ") +:+
                 c_Summary c +:+ " - " +:+ c_RemediationHint c) as Htext.
  { intros c. unfold Admission.formatWarning, SeverityCritical. by repeat case_bool_decide. }
  setoid_rewrite list_elem_of_fmap. split.
  - intros (d & (c & -> & [Hc Hns]%Hin) & Hs & Ha & ->). destruct (wire_shown c req) as (He1 & He2 & He3).
    rewrite He1 in Ha. rewrite He3 in Hs. rewrite He2. apply constraintApplies_spec in Ha. exists c. by rewrite <-Htext.
  - intros (c & Hc & Hns & Hs & Ha & ->). destruct (wire_shown c req) as (He1 & He2 & He3).
    exists (wire (Api.strip c)). rewrite He1, He2, He3, Htext. split_and!; try done; [|by rewrite constraintApplies_spec].
    exists c. split; [done|]. by apply Hin.
Qed.
End end_to_end.

(** ** Evaluation *)

Definition pod_request : Admission.AdmissionRequest :=
  Admission.mkAdmissionRequest "r1" EmptyString "Pod" "dev" (Some "{}").

Lemma admission_warnings_exact_witness :
  "[WARNING] summary text - " ∈ Admission.ar_Warnings
    (Admission.processRequest (fun _ => None) (webhook_client in_order example_index (fun c => c) "http://nightjar-controller:8080")
       (Some pod_request)).
Proof.
  apply (admission_warnings_exact in_order example_index (fun c => c) "http://nightjar-controller:8080" (fun _ => None)
           (fun c => conj eq_refl (conj eq_refl (conj eq_refl eq_refl))) eq_refl pod_request).
  eexists. split; [exists "u3"; reflexivity|]. split; [right; reflexivity|]. split; [left; reflexivity|].
  split; [left; reflexivity|]. reflexivity.
Defined.

Definition np_target (resource : string) : Constraint :=
  {| c_UID := "t1"; c_Source := mkGVR "admissionregistration.k8s.io" "v1" "validatingwebhookconfigurations"; c_Name := "guard";
     c_Namespace := EmptyString; c_AffectedNamespaces := []; c_NamespaceSelector := None; c_WorkloadSelector := None;
     c_ResourceTargets := [mkTarget ["networking.k8s.io"] [resource]]; c_ConstraintType := ConstraintTypeAdmission;
     c_Effect := "deny"; c_Severity := SeverityCritical; c_Details := None; c_Summary := "guarded"; c_RemediationHint := "ask";
     c_Remediation := []; c_Tags := []; c_RawObject := None |}.

(** The plural of the kind is the kind and an [s]: a constraint on network
    policies never warns on one, and one on pods does. *)
Theorem plural_kind_missed :
  let request kind := Admission.mkAdmissionRequest "r" "networking.k8s.io" kind "dev" None in
  Admission.buildWarnings (request "NetworkPolicy") [np_target "networkpolicies"] = [] ∧
  Admission.buildWarnings (request "Ingress") [np_target "ingresses"] = [] ∧
  Admission.buildWarnings (request "IngressClass") [np_target "ingressclasss"] = ["[CRITICAL] guarded - ask"].
Proof. vm_compute. done. Qed.

(** The labels of the object do not reach the controller: the warnings are the
    same for every labels. *)
Theorem admission_labels_ignored client ns labels labels' :
  Admission.client_Query client ns labels = Admission.client_Query client ns labels'.
Proof. done. Qed.

(** A body past the limit is cut, and a review that no longer decodes is
    answered without the UID of its request. *)
Theorem undecoded_without_uid {C} `{Admission.ConstraintQuerier C} decode labels_of (client : C) bytes :
  decode (Admission.limit_read Admission.maxBodySize bytes) = None →
  Admission.Handle decode labels_of (fun _ => true) client "POST" "application/json" (inl bytes) =
  Admission.SentReview (Admission.mkAdmissionResponse EmptyString true [] "Failed to decode request, allowing by default").
Proof. intros Hd. unfold Admission.Handle. rewrite Hd. done. Qed.

Example limit_read_cuts : Admission.limit_read 3 "abcdef" = "abc".
Proof. reflexivity. Qed.
