(* ===== verification/ServiceMap.v ===== *)
(** * The service map (internal/servicemap)

    Services and their endpoints, as two watches report them, with indexes by
    port, by cluster IP and by endpoint.  The infos that the Go maps point to are
    never written after they are made, so they are values here.  A map that is
    nil is absent; [labels.SelectorFromSet(set).Matches] is the parameter
    [selector_matches]. *)

From S2P Require Import Prelude GoStd Encoding.
From Stdlib Require Import Ascii.

Open Scope go_scope.
#[local] Open Scope string_scope.

Module Smap.

Record ServiceInfo := mkServiceInfo {
  sv_Name : string; sv_Namespace : string; sv_Port : Z; sv_PortName : string; sv_Protocol : string; sv_ClusterIP : string }.

Record serviceEntry := mkServiceEntry {
  se_Name : string; se_Namespace : string; se_ClusterIP : string; se_Selector : option (gmap string string);
  se_Ports : list ServiceInfo }.

Record ServiceMap := mkServiceMap {
  services : gmap string (gmap string serviceEntry);
  ipToService : gmap string ServiceInfo;
  portToServices : gmap string (gmap Z (list ServiceInfo));
  endpointToService : gmap string ServiceInfo;
}.

Definition New : ServiceMap := mkServiceMap ∅ ∅ ∅ ∅.

(** The fields read of corev1.Service and corev1.Endpoints. *)
Record ServicePort := mkServicePort { sp_Name : string; sp_Protocol : string; sp_Port : Z }.
Record Service := mkService {
  svc_Namespace : string; svc_Name : string; svc_ClusterIP : string; svc_Selector : gmap string string; svc_Ports : list ServicePort }.
Record Subset := mkSubset { ss_Addresses : list string; ss_Ports : list ServicePort }.
Record Endpoints := mkEndpoints { ep_Namespace : string; ep_Name : string; ep_Subsets : list Subset }.

Definition formatIPPort (ip : string) (port : Z) : string := ip +:+ ":" +:+ fmt_d port.

(** [ClusterIP != "" && ClusterIP != "None"] *)
Definition usable_ip (ip : string) : bool := (ip != EmptyString) && (ip != "None").

(** *** Services *)

(** One iteration of removeServiceFromIndexes. *)
Definition remove_port (entry : serviceEntry) (sm : ServiceMap) (port : ServiceInfo) : ServiceMap :=
  let ns := se_Namespace entry in
  let byPort := default ∅ (portToServices sm !! ns) in
  let byPort' :=
    match byPort !! sv_Port port with
    | None => byPort
    | Some portList =>
        match filter (fun s => sv_Name s ≠ se_Name entry) portList with
        | [] => delete (sv_Port port) byPort
        | (_ :: _) as filtered => <[sv_Port port := filtered]> byPort
        end
    end in
  mkServiceMap (services sm)
    (if usable_ip (se_ClusterIP entry) then delete (formatIPPort (se_ClusterIP entry) (sv_Port port)) (ipToService sm) else ipToService sm)
    (match portToServices sm !! ns with None => portToServices sm | Some _ => <[ns := byPort']> (portToServices sm) end)
    (endpointToService sm).

Definition removeServiceFromIndexes (entry : serviceEntry) (sm : ServiceMap) : ServiceMap :=
  foldl (remove_port entry) sm (se_Ports entry).

Definition port_info (svc : Service) (port : ServicePort) : ServiceInfo :=
  mkServiceInfo (svc_Name svc) (svc_Namespace svc) (sp_Port port) (sp_Name port) (sp_Protocol port) (svc_ClusterIP svc).

Definition entry_of (svc : Service) : serviceEntry :=
  mkServiceEntry (svc_Name svc) (svc_Namespace svc) (svc_ClusterIP svc)
    (if (0 <? size (svc_Selector svc))%nat then Some (svc_Selector svc) else None) (port_info svc <$> svc_Ports svc).

(** One iteration of the loop over the ports of a service. *)
Definition index_port (svc : Service) (sm : ServiceMap) (port : ServicePort) : ServiceMap :=
  let info := port_info svc port in
  let byPort := default ∅ (portToServices sm !! svc_Namespace svc) in
  mkServiceMap (services sm)
    (if usable_ip (svc_ClusterIP svc)
     then <[formatIPPort (svc_ClusterIP svc) (sp_Port port) := info]> (ipToService sm) else ipToService sm)
    (<[svc_Namespace svc := <[sp_Port port := (default [] (byPort !! sp_Port port) ++ [info])%list]> byPort]> (portToServices sm))
    (endpointToService sm).

Definition set_services (m : gmap string (gmap string serviceEntry)) (sm : ServiceMap) : ServiceMap :=
  mkServiceMap m (ipToService sm) (portToServices sm) (endpointToService sm).

Definition upsertService (svc : Service) (sm : ServiceMap) : ServiceMap :=
  let ns := svc_Namespace svc in
  let name := svc_Name svc in
  let inNs := default ∅ (services sm !! ns) in
  let sm1 := mkServiceMap (<[ns := inNs]> (services sm)) (ipToService sm)
               (<[ns := default ∅ (portToServices sm !! ns)]> (portToServices sm)) (endpointToService sm) in
  let sm2 := match inNs !! name with Some old => removeServiceFromIndexes old sm1 | None => sm1 end in
  let sm3 := foldl (index_port svc) sm2 (svc_Ports svc) in
  set_services (<[ns := <[name := entry_of svc]> inNs]> (services sm3)) sm3.

Definition deleteService (namespace name : string) (sm : ServiceMap) : ServiceMap :=
  match services sm !! namespace with
  | None => sm
  | Some inNs =>
      match inNs !! name with
      | None => sm
      | Some entry =>
          let sm1 := removeServiceFromIndexes entry sm in
          set_services (<[namespace := delete name inNs]> (services sm1)) sm1
      end
  end.

(** *** Endpoints *)

Definition set_endpoints (m : gmap string ServiceInfo) (sm : ServiceMap) : ServiceMap :=
  mkServiceMap (services sm) (ipToService sm) (portToServices sm) m.

(** The loops over addresses, endpoint ports and service ports. *)
Definition add_endpoint (svc : serviceEntry) (m : gmap string ServiceInfo) (ip : string) (port : ServicePort) : gmap string ServiceInfo :=
  foldl (fun m info => if (sv_PortName info == sp_Name port) || (sv_Port info =? sp_Port port)%Z
                       then <[formatIPPort ip (sp_Port port) := info]> m else m) m (se_Ports svc).

Definition add_subset (svc : serviceEntry) (m : gmap string ServiceInfo) (subset : Subset) : gmap string ServiceInfo :=
  foldl (fun m ip => foldl (fun m port => add_endpoint svc m ip port) m (ss_Ports subset)) m (ss_Addresses subset).

Definition upsertEndpoints (ep : Endpoints) (sm : ServiceMap) : ServiceMap :=
  match inNs ← services sm !! ep_Namespace ep; inNs !! ep_Name ep with
  | None => sm
  | Some svc => set_endpoints (foldl (add_subset svc) (endpointToService sm) (ep_Subsets ep)) sm
  end.

(** [σ] is the order of the range; the keys found are deleted after it. *)
Definition deleteEndpoints (σ : Shuffle) (namespace name : string) (sm : ServiceMap) : ServiceMap :=
  let toDelete := (filter (fun kv : string * ServiceInfo => sv_Namespace kv.2 = namespace ∧ sv_Name kv.2 = name)
                     (range σ (endpointToService sm))).*1 in
  set_endpoints (foldl (fun m key => delete key m) (endpointToService sm) toDelete) sm.

(** *** Watches *)

Inductive WatchType := Added | Modified | Deleted | OtherType.

(** The object of an event; any other type is skipped. *)
Inductive WatchObject := ObjService (svc : Service) | ObjEndpoints (ep : Endpoints) | ObjOther.

(** The body of the loops of doWatchServices and doWatchEndpoints. *)
Definition service_event (t : WatchType) (obj : WatchObject) (sm : ServiceMap) : ServiceMap :=
  match obj with
  | ObjService svc =>
      match t with
      | Added | Modified => upsertService svc sm
      | Deleted => deleteService (svc_Namespace svc) (svc_Name svc) sm
      | OtherType => sm
      end
  | _ => sm
  end.

Definition endpoints_event (σ : Shuffle) (t : WatchType) (obj : WatchObject) (sm : ServiceMap) : ServiceMap :=
  match obj with
  | ObjEndpoints ep =>
      match t with
      | Added | Modified => upsertEndpoints ep sm
      | Deleted => deleteEndpoints σ (ep_Namespace ep) (ep_Name ep) sm
      | OtherType => sm
      end
  | _ => sm
  end.

(** One call of doWatchServices or doWatchEndpoints: the watch is refused,
    with the context cancelled by then or not, or it delivers events until the
    context ends it or the server closes it.  The call returns an error in all
    cases but the last. *)
Inductive Attempt (E : Type) := Refused (cancelled : bool) | Delivered (events : list E) (cancelled : bool).
Arguments Refused {E} _.
Arguments Delivered {E} _ _.

Definition doWatch {E} (handle : E -> ServiceMap -> ServiceMap) (a : Attempt E) (sm : ServiceMap) : ServiceMap :=
  match a with
  | Refused _ => sm
  | Delivered events _ => foldl (fun sm e => handle e sm) sm events
  end.

(** The loop around it, with its waits; [true] when it has returned. *)
Fixpoint watch {E} (handle : E -> ServiceMap -> ServiceMap) (attempts : list (Attempt E)) (sm : ServiceMap)
    : bool * list Duration * ServiceMap :=
  match attempts with
  | [] => (false, [], sm)
  | a :: rest =>
      let sm' := doWatch handle a sm in
      match a with
      | Refused true | Delivered _ true => (true, [], sm')
      | Refused false => let '(returned, waits, sm2) := watch handle rest sm' in (returned, (5 * time_Second)%Z :: waits, sm2)
      | Delivered _ false => watch handle rest sm'
      end
  end.

Definition watchServices : list (Attempt (WatchType * WatchObject)) -> ServiceMap -> bool * list Duration * ServiceMap :=
  watch (fun e => service_event e.1 e.2).

Definition watchEndpoints : list (Attempt (Shuffle * WatchType * WatchObject)) -> ServiceMap -> bool * list Duration * ServiceMap :=
  watch (fun e => endpoints_event e.1.1 e.1.2 e.2).

(** *** Queries *)

Definition ResolvePort (sm : ServiceMap) (ip : string) (port : Z) : option ServiceInfo :=
  let key := formatIPPort ip port in
  match ipToService sm !! key with
  | Some info => Some info
  | None => endpointToService sm !! key
  end.

Definition ResolvePortInNamespace (sm : ServiceMap) (namespace : string) (port : Z) : list ServiceInfo :=
  match portToServices sm !! namespace with
  | None => []
  | Some byPort => default [] (byPort !! port)
  end.

Definition ServicesForPod (selector_matches : gmap string string -> gmap string string -> bool) (σ : Shuffle) (sm : ServiceMap)
    (namespace : string) (podLabels : gmap string string) : list ServiceInfo :=
  match services sm !! namespace with
  | None => []
  | Some inNs =>
      mjoin ((fun entry => match se_Selector entry with
                           | Some selector => if selector_matches selector podLabels then se_Ports entry else []
                           | None => []
                           end) <$> range_values σ inNs)
  end.

Definition GetService (sm : ServiceMap) (namespace name : string) : option (list ServiceInfo) :=
  inNs ← services sm !! namespace; se_Ports <$> inNs !! name.

Definition ServiceCount (σ : Shuffle) (sm : ServiceMap) : Z :=
  foldl (fun count nsServices => (count + Z.of_nat (size nsServices))%Z) 0%Z (range_values σ (services sm)).
End Smap.

(** ** Keys *)

Lemma pretty_N_char_colon x : (pretty_N_char x != ":"%char) = true.
Proof. unfold pretty_N_char. by repeat case_match. Qed.

Lemma pretty_N_go_avoids x s : avoids ":"%char s = true → avoids ":"%char (pretty_N_go x s) = true.
Proof.
  revert s. induction (N.lt_wf_0 x) as [x _ IH]; intros s Hs. assert (x = 0 ∨ 0 < x)%N as [->|Hx] by lia; [done|].
  rewrite pretty_N_go_step by done. apply IH; [by apply N.div_lt|]. cbn [avoids]. by rewrite pretty_N_char_colon, Hs.
Qed.

Lemma fmt_d_avoids z : avoids ":"%char (fmt_d z) = true.
Proof.
  assert (∀ n : N, avoids ":"%char (pretty n) = true) as HN.
  { intros n. unfold pretty, pretty_N. case_decide; [done|]. by apply pretty_N_go_avoids. }
  unfold fmt_d. destruct z as [|p|p]; [done|apply HN|]. unfold pretty, pretty_Z. cbn [String.append avoids]. apply HN.
Qed.

Lemma append_colon_inj s t d e :
  avoids ":"%char d = true → avoids ":"%char e = true → s +:+ String ":"%char d = t +:+ String ":"%char e → s = t ∧ d = e.
Proof.
  assert (∀ u d e, avoids ":"%char d = true → d ≠ u +:+ String ":"%char e) as Hno.
  { intros u d' e' Hd ->. by rewrite avoids_append, andb_false_r in Hd. }
  intros Hd He. revert t. induction s as [|c s IH]; intros [|c' t]; cbn [String.append].
  - by intros [= ->].
  - intros [= _ H]. by apply Hno in H.
  - intros [= _ H]. symmetry in H. by apply Hno in H.
  - intros [= -> H]. by apply IH in H as [-> ->].
Qed.

(** No two addresses share a key, IPv6 addresses included. *)
Lemma formatIPPort_inj ip port ip' port' :
  Smap.formatIPPort ip port = Smap.formatIPPort ip' port' → ip = ip' ∧ port = port'.
Proof.
  unfold Smap.formatIPPort. intros [-> Hd]%append_colon_inj; try apply fmt_d_avoids. split; [done|]. by apply (inj pretty).
Qed.

(** ** The specification: the services that exist *)

Inductive sm_op :=
  | OpService (t : Smap.WatchType) (obj : Smap.WatchObject)
  | OpEndpoints (σ : Shuffle) (t : Smap.WatchType) (obj : Smap.WatchObject).

Definition sm_step (sm : Smap.ServiceMap) (op : sm_op) : Smap.ServiceMap :=
  match op with
  | OpService t obj => Smap.service_event t obj sm
  | OpEndpoints σ t obj => Smap.endpoints_event σ t obj sm
  end.

Definition sm_run (ops : list sm_op) : Smap.ServiceMap := foldl sm_step Smap.New ops.

Abbreviation live_services := (gmap (string * string) Smap.Service).

Definition live_step (live : live_services) (op : sm_op) : live_services :=
  match op with
  | OpService t (Smap.ObjService svc) =>
      let key := (Smap.svc_Namespace svc, Smap.svc_Name svc) in
      match t with
      | Smap.Added | Smap.Modified => <[key := svc]> live
      | Smap.Deleted => delete key live
      | Smap.OtherType => live
      end
  | _ => live
  end.

Definition live (ops : list sm_op) : live_services := foldl live_step ∅ ops.

Definition infos (svc : Smap.Service) : list Smap.ServiceInfo := Smap.port_info svc <$> Smap.svc_Ports svc.

Definition sm_keyed (l : live_services) : Prop :=
  ∀ k svc, l !! k = Some svc → k = (Smap.svc_Namespace svc, Smap.svc_Name svc).

(** ** Adding and removing the entries of one service *)

Section indexes.
Import Smap.

Abbreviation at_port := ResolvePortInNamespace.

Lemma at_port_index svc sm q ns p :
  at_port (index_port svc sm q) ns p =
  (at_port sm ns p ++ (if decide (ns = svc_Namespace svc ∧ p = sp_Port q) then [port_info svc q] else []))%list.
Proof.
  unfold ResolvePortInNamespace, index_port. cbn [portToServices]. destruct (decide (ns = svc_Namespace svc)) as [->|Hne].
  - rewrite lookup_insert_eq. destruct (decide (p = sp_Port q)) as [->|Hp].
    + rewrite lookup_insert_eq, decide_True by done. cbn. by destruct (portToServices sm !! svc_Namespace svc).
    + rewrite lookup_insert_ne by done. rewrite decide_False, app_nil_r by naive_solver.
      by destruct (portToServices sm !! svc_Namespace svc).
  - rewrite lookup_insert_ne by done. by rewrite decide_False, app_nil_r by naive_solver.
Qed.

Lemma at_port_remove e sm q ns p :
  at_port (remove_port e sm q) ns p =
  if decide (ns = se_Namespace e ∧ p = sv_Port q) then filter (fun s => sv_Name s ≠ se_Name e) (at_port sm ns p) else at_port sm ns p.
Proof.
  unfold ResolvePortInNamespace, remove_port. cbn [portToServices].
  destruct (portToServices sm !! se_Namespace e) as [byPort|] eqn:Hb.
  2:{ case_decide as Hd; [|done]. destruct Hd as [-> ->]. by rewrite Hb. }
  destruct (decide (ns = se_Namespace e)) as [->|Hne]; [|rewrite lookup_insert_ne by done; by rewrite decide_False by naive_solver].
  rewrite lookup_insert_eq, Hb. cbn [default id].
  destruct (byPort !! sv_Port q) as [l|] eqn:Hl.
  2:{ case_decide as Hd; [|done]. destruct Hd as [_ ->]. by rewrite Hl. }
  destruct (decide (p = sv_Port q)) as [->|Hp].
  - rewrite decide_True, Hl by done. cbn [default id]. destruct (filter _ l) as [|x l'];
      [by rewrite lookup_delete_eq|by rewrite lookup_insert_eq].
  - rewrite decide_False by naive_solver. destruct (filter _ l) as [|x l'];
      [by rewrite lookup_delete_ne|by rewrite lookup_insert_ne].
Qed.

Lemma elem_of_index svc sm ports ns p s :
  s ∈ at_port (foldl (index_port svc) sm ports) ns p ↔
  s ∈ at_port sm ns p ∨ (ns = svc_Namespace svc ∧ s ∈ port_info svc <$> ports ∧ sv_Port s = p).
Proof.
  revert sm. induction ports as [|q ports IH]; intros sm; simpl; [set_solver|].
  rewrite IH, at_port_index, elem_of_app, elem_of_cons. case_decide as Hd.
  - destruct Hd as [-> ->]. rewrite list_elem_of_singleton. naive_solver.
  - rewrite elem_of_nil. split; [naive_solver|]. intros [?|(-> & [->|?] & <-)]; naive_solver.
Qed.

Lemma elem_of_remove e sm ports ns p s :
  s ∈ at_port (foldl (remove_port e) sm ports) ns p ↔
  s ∈ at_port sm ns p ∧ ¬ (ns = se_Namespace e ∧ sv_Name s = se_Name e ∧ ∃ q, q ∈ ports ∧ sv_Port q = p).
Proof.
  revert sm. induction ports as [|q ports IH]; intros sm; simpl; [set_solver|].
  rewrite IH, at_port_remove. setoid_rewrite elem_of_cons. case_decide as Hd.
  - destruct Hd as [-> ->]. rewrite list_elem_of_filter. naive_solver.
  - naive_solver.
Qed.

(** The cluster-IP index. *)
Lemma ip_index svc sm ports key s :
  ipToService (foldl (index_port svc) sm ports) !! key = Some s →
  ipToService sm !! key = Some s ∨
  (usable_ip (svc_ClusterIP svc) = true ∧ s ∈ port_info svc <$> ports ∧ key = formatIPPort (svc_ClusterIP svc) (sv_Port s)).
Proof.
  revert sm. induction ports as [|q ports IH]; intros sm; simpl; [by left|]. intros [H|(Hu & Hs & ->)]%IH; [|set_solver].
  cbn [index_port ipToService] in H. destruct (usable_ip _) eqn:Hu; [|by left].
  apply lookup_insert_Some in H as [[<- <-]|[_ ?]]; [right|by left]. split_and!; [done|left|done].
Qed.

Lemma ip_index_kept svc sm ports key :
  (∀ q, q ∈ ports → key ≠ formatIPPort (svc_ClusterIP svc) (sp_Port q)) →
  ipToService (foldl (index_port svc) sm ports) !! key = ipToService sm !! key.
Proof.
  revert sm. induction ports as [|q ports IH]; intros sm Hk; simpl; [done|].
  rewrite IH by (intros; apply Hk; by right). cbn [index_port ipToService]. destruct (usable_ip _); [|done].
  rewrite lookup_insert_ne; [done|]. intros He. eapply Hk; [left|done].
Qed.

Lemma ip_index_new svc sm ports q :
  usable_ip (svc_ClusterIP svc) = true → q ∈ ports →
  ∃ s, ipToService (foldl (index_port svc) sm ports) !! formatIPPort (svc_ClusterIP svc) (sp_Port q) = Some s ∧
       s ∈ port_info svc <$> ports ∧ sv_Port s = sp_Port q.
Proof.
  intros Hu Hq. revert sm. induction ports as [|q' ports IH] using rev_ind; intros sm; [by apply not_elem_of_nil in Hq|].
  rewrite foldl_app. cbn [foldl index_port ipToService]. rewrite Hu, fmap_app.
  destruct (decide (sp_Port q' = sp_Port q)) as [He|Hne].
  - rewrite He, lookup_insert_eq. eexists. split; [done|]. split; [set_solver|done].
  - rewrite lookup_insert_ne by (intros [_ ?]%formatIPPort_inj; congruence).
    destruct (IH ltac:(set_solver) sm) as (s & -> & ? & ?). exists s. set_solver.
Qed.

Lemma ip_remove e sm ports key :
  ipToService (foldl (remove_port e) sm ports) !! key =
  if decide (usable_ip (se_ClusterIP e) = true ∧ Exists (fun q => key = formatIPPort (se_ClusterIP e) (sv_Port q)) ports)
  then None else ipToService sm !! key.
Proof.
  revert sm. induction ports as [|q ports IH]; intros sm; simpl.
  { rewrite decide_False; [done|]. by rewrite Exists_nil; intros []. }
  rewrite IH. cbn [remove_port ipToService]. destruct (usable_ip _); [|rewrite !decide_False by naive_solver; done].
  rewrite lookup_delete. repeat case_decide; rewrite ?Exists_cons in *; naive_solver.
Qed.
End indexes.

(** ** The invariant *)

Section invariant.
Import Smap.
Implicit Types (sm : ServiceMap) (l : live_services) (svc : Service).

(** The two indexes against the services that exist. *)
Definition index_inv sm l : Prop :=
  (∀ ns p s, s ∈ ResolvePortInNamespace sm ns p ↔ ∃ name svc, l !! (ns, name) = Some svc ∧ s ∈ infos svc ∧ sv_Port s = p) ∧
  (∀ key s, ipToService sm !! key = Some s → ∃ k svc,
     l !! k = Some svc ∧ usable_ip (svc_ClusterIP svc) = true ∧ s ∈ infos svc ∧ key = formatIPPort (svc_ClusterIP svc) (sv_Port s)).

(** Cluster IPs are unique, as the API server allocates them. *)
Definition ips_unique l : Prop :=
  ∀ k svc k' svc', l !! k = Some svc → l !! k' = Some svc' → usable_ip (svc_ClusterIP svc) = true →
    svc_ClusterIP svc = svc_ClusterIP svc' → k = k'.

Definition ip_complete sm l : Prop :=
  ∀ k svc q, l !! k = Some svc → usable_ip (svc_ClusterIP svc) = true → q ∈ svc_Ports svc →
    ∃ s, ipToService sm !! formatIPPort (svc_ClusterIP svc) (sp_Port q) = Some s ∧ s ∈ infos svc ∧ sv_Port s = sp_Port q.

Definition services_inv sm l : Prop :=
  ∀ ns name, (services sm !! ns) ≫= (.!! name) = entry_of <$> l !! (ns, name).

Lemma elem_of_infos svc s : s ∈ infos svc → sv_Name s = svc_Name svc ∧ sv_Namespace s = svc_Namespace svc ∧ sv_ClusterIP s = svc_ClusterIP svc.
Proof. by intros (q & -> & _)%list_elem_of_fmap. Qed.

Lemma services_remove e sm ports : services (foldl (remove_port e) sm ports) = services sm.
Proof. revert sm. induction ports as [|q ports IH]; intros sm; simpl; [done|]. by rewrite IH. Qed.
Lemma services_index svc sm ports : services (foldl (index_port svc) sm ports) = services sm.
Proof. revert sm. induction ports as [|q ports IH]; intros sm; simpl; [done|]. by rewrite IH. Qed.

Lemma remove_inv sm l k old :
  sm_keyed l → index_inv sm l → l !! k = Some old → index_inv (removeServiceFromIndexes (entry_of old) sm) (delete k l).
Proof.
  intros Hk [Hp Hip] Hold. pose proof (Hk _ _ Hold) as ->. unfold removeServiceFromIndexes. split.
  - intros ns p s. rewrite elem_of_remove, Hp. cbn [se_Namespace se_Name se_Ports entry_of]. fold (infos old). split.
    + intros [(name & svc & Hl & Hs & <-) Hno]. exists name, svc. split; [|done]. rewrite lookup_delete_ne; [done|].
      intros [= <- <-]. simplify_eq. apply Hno. split_and!; [done|by apply elem_of_infos|by exists s].
    + intros (name & svc & [Hne Hl]%lookup_delete_Some & Hs & <-). split; [by exists name, svc|].
      intros (-> & Hn & _). apply Hne. pose proof (Hk _ _ Hl) as He. destruct (elem_of_infos _ _ Hs) as [Hname _].
      f_equal. injection He as _ ->. congruence.
  - intros key s. rewrite ip_remove. cbn [se_ClusterIP se_Ports entry_of]. fold (infos old). case_decide as Hd; [done|].
    intros (k' & svc & Hl & Hu & Hs & ->)%Hip. exists k', svc. split; [|done]. rewrite lookup_delete_ne; [done|]. intros <-.
    simplify_eq. apply Hd. split; [done|]. apply Exists_exists. by exists s.
Qed.

Lemma add_inv sm l svc :
  let k := (svc_Namespace svc, svc_Name svc) in
  index_inv sm l → l !! k = None → index_inv (foldl (index_port svc) sm (svc_Ports svc)) (<[k := svc]> l).
Proof.
  intros k [Hp Hip] Hn. split.
  - intros ns p s. rewrite elem_of_index, Hp. fold (infos svc). split.
    + intros [(name & svc' & Hl & ?)|(-> & Hs & Hport)].
      * exists name, svc'. rewrite lookup_insert_ne by (intros He; subst k; congruence). done.
      * exists (svc_Name svc), svc. subst k. by rewrite lookup_insert_eq.
    + intros (name & svc' & [[[= <- _] <-]|[_ Hl]]%lookup_insert_Some & Hs & Hport); [by right|left; by exists name, svc'].
  - intros key s [(k' & svc' & Hl & ?)%Hip|(Hu & Hs & ->)]%ip_index.
    + exists k', svc'. rewrite lookup_insert_ne by congruence. done.
    + exists k, svc. rewrite lookup_insert_eq. done.
Qed.

Lemma remove_complete sm l k old :
  ips_unique l → ip_complete sm l → l !! k = Some old → ip_complete (removeServiceFromIndexes (entry_of old) sm) (delete k l).
Proof.
  intros Hu Hc Hold k' svc q [Hne Hl]%lookup_delete_Some Hus Hq. unfold removeServiceFromIndexes. rewrite ip_remove.
  rewrite decide_False; [by eapply Hc|]. intros [_ (s & _ & [He _]%formatIPPort_inj)%Exists_exists].
  apply Hne. symmetry. eapply (Hu k' svc k old); done.
Qed.

Lemma add_complete sm l svc :
  let k := (svc_Namespace svc, svc_Name svc) in
  ips_unique (<[k := svc]> l) → ip_complete sm l → l !! k = None →
  ip_complete (foldl (index_port svc) sm (svc_Ports svc)) (<[k := svc]> l).
Proof.
  intros k Hu Hc Hn k' svc' q [[<- <-]|[Hne Hl]]%lookup_insert_Some Hus Hq.
  - destruct (ip_index_new svc sm (svc_Ports svc) q Hus Hq) as (s & ? & ? & ?). by exists s.
  - rewrite ip_index_kept; [by eapply Hc|]. intros q' _ [He _]%formatIPPort_inj. apply Hne. symmetry.
    apply (Hu k' svc' k svc); [by rewrite lookup_insert_ne|by rewrite lookup_insert_eq|done|done].
Qed.

(** The state after [upsertService] has made its maps. *)
Lemma at_port_made sm ns ns' p (m : gmap string (gmap string serviceEntry)) :
  ResolvePortInNamespace (mkServiceMap m (ipToService sm) (<[ns := default ∅ (portToServices sm !! ns)]> (portToServices sm))
    (endpointToService sm)) ns' p = ResolvePortInNamespace sm ns' p.
Proof.
  unfold ResolvePortInNamespace. cbn. destruct (decide (ns' = ns)) as [->|Hne]; [|by rewrite lookup_insert_ne].
  rewrite lookup_insert_eq. by destruct (portToServices sm !! ns).
Qed.

Lemma upsert_step sm l svc :
  sm_keyed l → services_inv sm l → index_inv sm l →
  let sm' := upsertService svc sm in
  let l' := <[(svc_Namespace svc, svc_Name svc) := svc]> l in
  sm_keyed l' ∧ services_inv sm' l' ∧ index_inv sm' l' ∧ (ips_unique l → ips_unique l' → ip_complete sm l → ip_complete sm' l').
Proof.
  intros Hk Hs Hi sm' l'. subst sm'. unfold upsertService. set (k := (svc_Namespace svc, svc_Name svc)).
  set (inNs := default ∅ (services sm !! svc_Namespace svc)). set (sm1 := mkServiceMap _ _ _ _).
  assert (inNs !! svc_Name svc = entry_of <$> l !! k) as Hold.
  { subst k. rewrite <-Hs. subst inNs. by destruct (services sm !! svc_Namespace svc). }
  assert (index_inv sm1 l) as Hi1 by (destruct Hi as [Hp Hip]; split; [intros; unfold sm1; rewrite at_port_made; apply Hp|done]).
  set (sm2 := match inNs !! _ with Some _ => _ | None => _ end).
  assert (index_inv sm2 (delete k l) ∧ services sm2 = services sm1 ∧ (ips_unique l → ip_complete sm l → ip_complete sm2 (delete k l)))
    as (Hi2 & Hs2 & Hc2).
  { subst sm2. rewrite Hold. destruct (l !! k) as [old|] eqn:Hl; cbn [fmap option_fmap option_map].
    - split_and!; [by apply remove_inv|apply services_remove|]. intros Hu Hc. by apply remove_complete.
    - rewrite delete_id by done. split_and!; [done|done|]. intros _ Hc. exact Hc. }
  replace l' with (<[k := svc]> (delete k l)) by apply insert_delete_eq. split_and!.
  - intros k' svc' [[<- <-]|[_ [_ Hl]%lookup_delete_Some]]%lookup_insert_Some; [done|by apply Hk].
  - intros ns name. cbn [set_services services]. rewrite services_index, Hs2. unfold sm1. cbn [services].
    destruct (decide (ns = svc_Namespace svc)) as [->|Hne].
    + rewrite !lookup_insert_eq. cbn [mbind option_bind]. destruct (decide (name = svc_Name svc)) as [->|Hn].
      * subst k. by rewrite !lookup_insert_eq.
      * rewrite lookup_insert_ne by done. subst k. rewrite lookup_insert_ne, lookup_delete_ne by congruence.
        rewrite <-Hs. subst inNs. by destruct (services sm !! svc_Namespace svc).
    + rewrite !lookup_insert_ne by done. subst k. rewrite lookup_insert_ne, lookup_delete_ne by congruence. apply Hs.
  - apply (add_inv sm2 (delete k l) svc Hi2), lookup_delete_eq.
  - intros Hu Hu' Hc. apply (add_complete sm2 (delete k l) svc); [exact Hu'|by apply Hc2|apply lookup_delete_eq].
Qed.

Lemma delete_step sm l ns name :
  sm_keyed l → services_inv sm l → index_inv sm l →
  let sm' := deleteService ns name sm in
  let l' := delete (ns, name) l in
  sm_keyed l' ∧ services_inv sm' l' ∧ index_inv sm' l' ∧ (ips_unique l → ip_complete sm l → ip_complete sm' l').
Proof.
  intros Hk Hs Hi sm' l'. assert (sm_keyed l') as Hk' by (intros k svc [_ ?]%lookup_delete_Some; by apply Hk). split; [done|].
  pose proof (Hs ns name) as Hold. subst sm'. unfold deleteService.
  assert (l !! (ns, name) = None → l' = l) as Hsame by apply delete_id.
  destruct (services sm !! ns) as [inNs|] eqn:Hns; cbn [mbind option_bind] in Hold.
  2:{ destruct (l !! (ns, name)); [done|]. by rewrite Hsame. }
  rewrite Hold. destruct (l !! (ns, name)) as [old|] eqn:Hl; cbn [fmap option_fmap option_map]; [|by rewrite Hsame].
  split_and!.
  - intros ns' name'. cbn [set_services services]. unfold removeServiceFromIndexes. rewrite services_remove. subst l'.
    destruct (decide (ns' = ns)) as [->|Hne].
    + rewrite lookup_insert_eq. cbn [mbind option_bind]. destruct (decide (name' = name)) as [->|Hn]; [by rewrite !lookup_delete_eq|].
      rewrite !lookup_delete_ne by congruence. rewrite <-Hs, Hns. done.
    + rewrite lookup_insert_ne, lookup_delete_ne by congruence. apply Hs.
  - by apply remove_inv.
  - intros Hu Hc. by apply remove_complete.
Qed.
End invariant.

Definition sm_inv (sm : Smap.ServiceMap) (l : live_services) : Prop := sm_keyed l ∧ services_inv sm l ∧ index_inv sm l.

Lemma sm_step_inv sm l op :
  sm_inv sm l →
  sm_inv (sm_step sm op) (live_step l op) ∧
  (ips_unique l → ips_unique (live_step l op) → ip_complete sm l → ip_complete (sm_step sm op) (live_step l op)).
Proof.
  intros (Hk & Hs & Hi). destruct op as [t [svc|ep|]|σ t [svc|ep|]]; try done.
  - destruct t; simpl.
    + destruct (upsert_step sm l svc Hk Hs Hi) as (? & ? & ? & ?). done.
    + destruct (upsert_step sm l svc Hk Hs Hi) as (? & ? & ? & ?). done.
    + destruct (delete_step sm l (Smap.svc_Namespace svc) (Smap.svc_Name svc) Hk Hs Hi) as (? & ? & ? & ?).
      split; [done|]. auto.
    + done.
  - destruct t; simpl; try done; unfold Smap.upsertEndpoints; by destruct (_ ≫= _).
Qed.

Lemma sm_run_snoc ops op : sm_run (ops ++ [op]) = sm_step (sm_run ops) op.
Proof. unfold sm_run. by rewrite foldl_app. Qed.
Lemma live_snoc ops op : live (ops ++ [op]) = live_step (live ops) op.
Proof. unfold live. by rewrite foldl_app. Qed.

Lemma sm_run_inv ops : sm_inv (sm_run ops) (live ops).
Proof.
  induction ops as [|op ops IH] using rev_ind; [|rewrite sm_run_snoc, live_snoc; by apply sm_step_inv].
  unfold sm_run, live. cbn [foldl]. split_and!; [by intros k svc ?%lookup_empty_Some|by intros ns name|].
  split; [|intros key s Hs; cbn in Hs; by rewrite lookup_empty in Hs].
  intros ns p s. cbn. rewrite elem_of_nil. setoid_rewrite lookup_empty. naive_solver.
Qed.

Lemma sm_run_complete ops : (∀ n, ips_unique (live (take n ops))) → ip_complete (sm_run ops) (live ops).
Proof.
  induction ops as [|op ops IH] using rev_ind; intros Hu; [intros k svc q Hl; cbn in Hl; by rewrite lookup_empty in Hl|].
  pose proof (Hu (length ops)) as Hu1. rewrite take_app_length in Hu1.
  pose proof (Hu (length (ops ++ [op]))) as Hu2. rewrite firstn_all, live_snoc in Hu2.
  rewrite sm_run_snoc, live_snoc. apply (proj2 (sm_step_inv _ _ op (sm_run_inv ops))); [done|done|].
  apply IH. intros n. destruct (decide (n ≤ length ops)%nat) as [Hn|Hn].
  - specialize (Hu n). by rewrite take_app_le in Hu.
  - rewrite take_ge by lia. done.
Qed.

(** ** What the map answers *)

Lemma usable_ip_spec ip : Smap.usable_ip ip = true ↔ ip ≠ EmptyString ∧ ip ≠ "None".
Proof. unfold Smap.usable_ip. by rewrite andb_true_iff, !negb_true_iff, !bool_decide_eq_false. Qed.

(** C30: after any sequence of watch events, the service map is the set of
    services that exist: [GetService] gives the ports of a service as it was
    last seen, the port index lists exactly the ports of the namespace's
    services with that number, and the cluster-IP index has under an address and
    port only a port with that number of a service that exists with that
    address.  While no two services that exist have the same cluster IP, as the
    API server allocates them, it has an entry for every port of every service
    with a cluster IP, and the entry is that service's. *)
Theorem servicemap_refines ops :
  let sm := sm_run ops in
  (∀ ns name, Smap.GetService sm ns name = infos <$> live ops !! (ns, name)) ∧
  (∀ ns p s, s ∈ Smap.ResolvePortInNamespace sm ns p ↔
     ∃ name svc, live ops !! (ns, name) = Some svc ∧ s ∈ infos svc ∧ Smap.sv_Port s = p) ∧
  (∀ key s, Smap.ipToService sm !! key = Some s → ∃ k svc, live ops !! k = Some svc ∧ s ∈ infos svc ∧
     Smap.svc_ClusterIP svc ≠ EmptyString ∧ Smap.svc_ClusterIP svc ≠ "None" ∧
     key = Smap.formatIPPort (Smap.svc_ClusterIP svc) (Smap.sv_Port s)) ∧
  ((∀ n, ips_unique (live (take n ops))) → ∀ k svc q, live ops !! k = Some svc →
     Smap.svc_ClusterIP svc ≠ EmptyString → Smap.svc_ClusterIP svc ≠ "None" → q ∈ Smap.svc_Ports svc →
     ∃ s, Smap.ipToService sm !! Smap.formatIPPort (Smap.svc_ClusterIP svc) (Smap.sp_Port q) = Some s ∧
          s ∈ infos svc ∧ Smap.sv_Port s = Smap.sp_Port q).
Proof.
  destruct (sm_run_inv ops) as (Hk & Hs & Hp & Hi). split_and!; [|done| |].
  - intros ns name. specialize (Hs ns name). unfold Smap.GetService.
    destruct (Smap.services (sm_run ops) !! ns) as [inNs|]; simpl in *.
    + rewrite Hs. by destruct (live ops !! (ns, name)).
    + by destruct (live ops !! (ns, name)).
  - intros key s Hl. destruct (Hi key s Hl) as (k & svc & ? & [H1 H2]%usable_ip_spec & ? & ?). by exists k, svc.
  - intros Hu k svc q Hl H1 H2 Hq. exact (sm_run_complete ops Hu k svc q Hl (proj2 (usable_ip_spec _) (conj H1 H2)) Hq).
Qed.

(** While no two services that exist have the same cluster IP, the address
    of every port of a service resolves to that service and port. *)
Theorem ResolvePort_live ops k svc q :
  (∀ n, ips_unique (live (take n ops))) →
  live ops !! k = Some svc → Smap.usable_ip (Smap.svc_ClusterIP svc) = true → q ∈ Smap.svc_Ports svc →
  ∃ s, Smap.ResolvePort (sm_run ops) (Smap.svc_ClusterIP svc) (Smap.sp_Port q) = Some s ∧
       Smap.sv_Name s = Smap.svc_Name svc ∧ Smap.sv_Namespace s = Smap.svc_Namespace svc ∧
       Smap.sv_Port s = Smap.sp_Port q.
Proof.
  intros Hu Hl Hus Hq. destruct (sm_run_complete ops Hu k svc q Hl Hus Hq) as (s & Hs & Hin & Hp).
  exists s. unfold Smap.ResolvePort. rewrite Hs. destruct (elem_of_infos _ _ Hin) as (? & ? & _). done.
Qed.

(** [ServicesForPod] lists exactly the ports of the namespace's services
    with a selector that the pod's labels satisfy.  The hypothesis is what
    apimachinery documents of [labels.SelectorFromSet]. *)
Theorem ServicesForPod_spec (matches : gmap string string -> gmap string string -> bool) σ ops ns pod s :
  (∀ selector labels, matches selector labels = true ↔ selector ⊆ labels) →
  s ∈ Smap.ServicesForPod matches σ (sm_run ops) ns pod ↔
  ∃ name svc, live ops !! (ns, name) = Some svc ∧ Smap.svc_Selector svc ≠ ∅ ∧
    Smap.svc_Selector svc ⊆ pod ∧ s ∈ infos svc.
Proof.
  intros Hm. destruct (sm_run_inv ops) as (_ & Hs & _). unfold Smap.ServicesForPod.
  assert (∀ name, (Smap.services (sm_run ops) !! ns) ≫= (.!! name) = Smap.entry_of <$> live ops !! (ns, name)) as Hns
    by (intros; apply Hs).
  destruct (Smap.services (sm_run ops) !! ns) as [inNs|]; simpl in Hns.
  2:{ rewrite elem_of_nil. split; [done|]. intros (name & svc & Hl & _). specialize (Hns name). by rewrite Hl in Hns. }
  rewrite list_elem_of_join.
  assert (∀ svc : Smap.Service, s ∈ match Smap.se_Selector (Smap.entry_of svc) with
      | Some selector => if matches selector pod then Smap.se_Ports (Smap.entry_of svc) else [] | None => [] end ↔
      Smap.svc_Selector svc ≠ ∅ ∧ Smap.svc_Selector svc ⊆ pod ∧ s ∈ infos svc) as He.
  { intros svc. cbn [Smap.entry_of Smap.se_Selector Smap.se_Ports]. fold (infos svc).
    rewrite <-(map_size_non_empty_iff (Smap.svc_Selector svc)), <-Hm.
    destruct (size (Smap.svc_Selector svc)) as [|n]; cbn; [rewrite elem_of_nil; naive_solver|].
    destruct (matches _ pod); [naive_solver|]. rewrite elem_of_nil. naive_solver. }
  split.
  - intros (l & Hin & (e & -> & (name & Hl)%elem_of_range_values)%list_elem_of_fmap). rewrite Hns in Hl. destruct (live ops !! (ns, name)) as [svc|] eqn:Hsvc; [|done].
    injection Hl as <-. exists name, svc. split; [done|]. exact (proj1 (He svc) Hin).
  - intros (name & svc & Hl & Hsel). eexists. split; [exact (proj2 (He svc) Hsel)|].
    apply list_elem_of_fmap. eexists. split; [done|]. apply elem_of_range_values. exists name. by rewrite Hns, Hl.
Qed.

(** ** Evaluation *)

Import Smap.

Definition web_service : Service :=
  mkService "dev" "web" "10.0.0.7" {[ "app" := "web" ]} [mkServicePort "http" "TCP" 80; mkServicePort "dns" "UDP" 53].
Definition web_endpoints (ips : list string) : Endpoints := mkEndpoints "dev" "web" [mkSubset ips [mkServicePort "http" "TCP" 8080]].

Definition web_up : list sm_op := [OpService Added (ObjService web_service)].

Lemma web_unique n : ips_unique (live (take n web_up)).
Proof.
  assert (∀ k svc, live (take n web_up) !! k = Some svc → k = ("dev", "web")) as Hk.
  { intros k svc. destruct n as [|n]; cbn; [by intros ?%lookup_empty_Some|].
    rewrite take_nil. cbn. by intros [[<- _]|[_ ?%lookup_empty_Some]]%lookup_insert_Some. }
  intros k svc k' svc' H1%Hk H2%Hk _ _. congruence.
Qed.

Lemma servicemap_refines_witness :
  ∃ s, ipToService (sm_run web_up) !! formatIPPort "10.0.0.7" 53 = Some s ∧ s ∈ infos web_service ∧ sv_Port s = 53%Z.
Proof.
  destruct (servicemap_refines web_up) as (_ & _ & _ & Hc).
  apply (Hc web_unique ("dev", "web") web_service (mkServicePort "dns" "UDP" 53));
    [reflexivity|discriminate|discriminate|right; left].
Defined.

Lemma ResolvePort_live_witness :
  ∃ s, ResolvePort (sm_run web_up) "10.0.0.7" 53 = Some s ∧ sv_Name s = "web".
Proof.
  destruct (ResolvePort_live web_up ("dev", "web") web_service (mkServicePort "dns" "UDP" 53) web_unique) as (s & Hs & Hn & _);
    [reflexivity|reflexivity|right; left|]. exists s. split; [exact Hs|exact Hn].
Defined.

Lemma ServicesForPod_spec_witness :
  port_info web_service (mkServicePort "http" "TCP" 80) ∈
    ServicesForPod (fun selector labels => bool_decide (selector ⊆ labels)) in_order (sm_run web_up) "dev" {[ "app" := "web" ]}.
Proof.
  apply (ServicesForPod_spec (fun selector labels => bool_decide (selector ⊆ labels)) in_order web_up "dev" {[ "app" := "web" ]}).
  { intros selector labels. apply bool_decide_eq_true. }
  exists "web", web_service. split_and!; [reflexivity|discriminate|reflexivity|left].
Defined.

(** A pod that is no longer an endpoint still resolves to the service, also
    after the service is gone; its address may be another pod's by then. *)
Theorem endpoint_addresses_stale :
  let ops := (web_up ++ [OpEndpoints in_order Added (ObjEndpoints (web_endpoints ["10.1.0.1"; "10.1.0.2"]));
                         OpEndpoints in_order Modified (ObjEndpoints (web_endpoints ["10.1.0.1"]));
                         OpService Deleted (ObjService web_service)])%list in
  live ops = ∅ ∧ sv_Name <$> ResolvePort (sm_run ops) "10.1.0.2" 8080 = Some "web".
Proof. split; vm_compute; reflexivity. Qed.

(** The events of the attempts of a watch, as operations on the map. *)
Definition service_ops (attempts : list (Attempt (WatchType * WatchObject))) : list sm_op :=
  mjoin ((fun a => match a with Refused _ => [] | Delivered events _ => (fun e => OpService e.1 e.2) <$> events end) <$> attempts).

Definition is_refused {E} (a : Attempt E) : bool := match a with Refused _ => true | Delivered _ _ => false end.

(** Up to its return the watcher of the services applies the events of its
    watches in order, and waits five seconds after each refusal. *)
Theorem watchServices_run attempts sm :
  Forall (fun a => match a with Refused b | Delivered _ b => b = false end) attempts →
  watchServices attempts sm =
  (false, replicate (length (filter (fun a => is_refused a = true) attempts)) (5 * time_Second)%Z,
   foldl sm_step sm (service_ops attempts)).
Proof.
  unfold watchServices. revert sm. induction attempts as [|a attempts IH]; intros sm Hf; [done|].
  apply Forall_cons in Hf as [Ha Hf]. unfold service_ops in *. rewrite fmap_cons. cbn [watch mjoin list_join].
  rewrite foldl_app.
  destruct a as [b|events b]; subst b; cbn [doWatch]; rewrite IH by done; [done|].
  f_equal. by rewrite foldl_fmap.
Qed.

(** A service that is deleted while the watch is down stays in the map: the
    next watch reports the services that exist, not those that are gone. *)
Theorem missed_deletion_stale :
  let sm := (watchServices [Delivered [(Added, ObjService web_service)] false; Refused false; Delivered [] false] New).2 in
  GetService sm "dev" "web" = Some (infos web_service).
Proof. vm_compute. reflexivity. Qed.

(** The endpoints of a service that are reported before it are dropped. *)
Theorem early_endpoints_dropped :
  let ops := [OpEndpoints in_order Added (ObjEndpoints (web_endpoints ["10.1.0.1"])); OpService Added (ObjService web_service)] in
  ResolvePort (sm_run ops) "10.1.0.1" 8080 = None.
Proof. vm_compute. reflexivity. Qed.

Example example_services :
  length <$> GetService (sm_run web_up) "dev" "web" = Some 2%nat ∧ ServiceCount in_order (sm_run web_up) = 1%Z ∧
  length (ResolvePortInNamespace (sm_run web_up) "dev" 80) = 1%nat.
Proof. vm_compute. done. Qed.
