(* ===== verification/Certificates.v ===== *)
(** * The certificates of the webhook (internal/webhook/cert.go)

    Cryptography is symbolic: a key is the number that the random source drew
    for it, and a certificate is its fields with the key that signed it; PEM
    blocks are values that only decode as what they encode.  The answers of the
    API server, the draws and the times are arguments; an operation returns
    what it wrote with its error, [None] for nil.  The choice of TLS
    certificates of cmd/webhook/server.go is at the end of the module. *)

From S2P Require Import Prelude GoStd Types Channel.

Open Scope go_scope.
#[local] Open Scope string_scope.

Module Certs.

Definition CertValidityDuration : Duration := 365 * 24 * time_Hour.
Definition CertRotationThreshold : Duration := 30 * 24 * time_Hour.
Definition DefaultSecretName : string := "nightjar-webhook-tls".
Definition DefaultWebhookConfigName : string := "nightjar-webhook".

Definition CertModeSelfSigned : string := "self-signed".
Definition CertModeCertManager : string := "cert-manager".

Record CertManagerConfig := mkCertConfig {
  cfg_Mode : string; cfg_Namespace : string; cfg_ServiceName : string; cfg_SecretName : string; cfg_WebhookConfigName : string }.

Definition DefaultCertManagerConfig (namespace : string) : CertManagerConfig :=
  mkCertConfig CertModeSelfSigned namespace "nightjar-webhook" DefaultSecretName DefaultWebhookConfigName.

(** *** Symbolic certificates *)

Record Certificate := mkCertificate {
  ct_SerialNumber : Z; ct_CommonName : string; ct_NotBefore : Time; ct_NotAfter : Time; ct_KeyUsage : list string;
  ct_ExtKeyUsage : list string; ct_IsCA : bool; ct_DNSNames : list string; ct_PublicKey : Z; ct_Issuer : string; ct_SignedBy : Z }.

(** What a byte slice holds; [PemOther] is neither kind of block. *)
Inductive Bytes := PemCert (c : Certificate) | PemKey (key : Z) | PemOther (s : string).

Definition no_bytes : Bytes := PemOther EmptyString.
Definition len0 (b : Bytes) : bool := match b with PemOther EmptyString => true | _ => false end.
#[global] Instance Certificate_eq_dec : EqDecision Certificate.
Proof. solve_decision. Defined.
#[global] Instance Bytes_eq_dec : EqDecision Bytes.
Proof. solve_decision. Defined.

(** [pem.Decode] and [x509.ParseCertificate], or [ParsePKCS1PrivateKey]. *)
Definition parse_cert (b : Bytes) : option Certificate := match b with PemCert c => Some c | _ => None end.
Definition parse_key (b : Bytes) : option Z := match b with PemKey k => Some k | _ => None end.

(** The random draws, the two times and the outcome of [CreateCertificate]. *)
Record Draw := mkDraw { dr_key : Z + error; dr_serial : Z + error; dr_before : Time; dr_after : Time; dr_create : option error }.

Definition generateCA (d : Draw) : Bytes * Bytes + error :=
  match dr_key d with
  | inr err => inr ("failed to generate CA key: " +:+ err)
  | inl key =>
      match dr_serial d with
      | inr err => inr ("failed to generate serial number: " +:+ err)
      | inl serial =>
          match dr_create d with
          | Some err => inr ("failed to create CA certificate: " +:+ err)
          | None =>
              inl (PemCert (mkCertificate serial "Nightjar Webhook CA" (time_Add (dr_before d) (- time_Hour))
                              (time_Add (dr_after d) CertValidityDuration) ["CertSign"; "CRLSign"] [] true [] key "Nightjar Webhook CA" key),
                   PemKey key)
          end
      end
  end.

Definition dns_names (cfg : CertManagerConfig) : list string :=
  [cfg_ServiceName cfg; cfg_ServiceName cfg +:+ "." +:+ cfg_Namespace cfg; cfg_ServiceName cfg +:+ "." +:+ cfg_Namespace cfg +:+ ".svc";
   cfg_ServiceName cfg +:+ "." +:+ cfg_Namespace cfg +:+ ".svc.cluster.local"].

(** [CreateCertificate] refuses a key that is not the parent's. *)
Definition generateServerCert (cfg : CertManagerConfig) (d : Draw) (caCertPEM caKeyPEM : Bytes) : Bytes * Bytes + error :=
  match caCertPEM with
  | PemOther _ => inr "failed to decode CA certificate PEM"
  | PemKey _ => inr "failed to parse CA certificate: x509: malformed certificate"
  | PemCert caCert =>
      match caKeyPEM with
      | PemOther _ => inr "failed to decode CA key PEM"
      | PemCert _ => inr "failed to parse CA key: x509: malformed private key"
      | PemKey caKey =>
          match dr_key d with
          | inr err => inr ("failed to generate server key: " +:+ err)
          | inl serverKey =>
              match dr_serial d with
              | inr err => inr ("failed to generate serial number: " +:+ err)
              | inl serial =>
                  match (if (ct_PublicKey caCert =? caKey)%Z then dr_create d else Some "provided PrivateKey doesn't match parent's PublicKey") with
                  | Some err => inr ("failed to create server certificate: " +:+ err)
                  | None =>
                      inl (PemCert (mkCertificate serial (cfg_ServiceName cfg) (time_Add (dr_before d) (- time_Hour))
                                      (time_Add (dr_after d) CertValidityDuration) ["DigitalSignature"; "KeyEncipherment"] ["ServerAuth"]
                                      false (dns_names cfg) serverKey (ct_CommonName caCert) caKey),
                           PemKey serverKey)
                  end
              end
          end
      end
  end.

(** *** The manager *)

Record CertManager := mkCertManager { cm_config : CertManagerConfig; caCert : Bytes; serverCert : Bytes; serverKey : Bytes }.

Definition NewCertManager (config : CertManagerConfig) : CertManager := mkCertManager config no_bytes no_bytes no_bytes.

Abbreviation SecretData := (gmap string Bytes) (only parsing).

(** [secret.Data[key]] *)
Definition data_at (data : SecretData) (key : string) : Bytes := default no_bytes (data !! key).

(** The answer to a get. *)
Inductive GetAnswer (A : Type) := Found (a : A) | NotFound | GetError (err : error).
Arguments Found {A} _.
Arguments NotFound {A}.
Arguments GetError {A} _.

Inductive CertWrite := CreateSecret (data : SecretData) | UpdateSecret (data : SecretData) | UpdateBundles (bundles : list Bytes).

Definition areCertsValid (now : Time) (data : SecretData) : bool :=
  let certPEM := data_at data "tls.crt" in
  if len0 certPEM then false
  else match parse_cert certPEM with
       | None => false
       | Some cert => if time_Before (ct_NotAfter cert) (time_Add now CertRotationThreshold) then false else true
       end.

Definition new_secret (ca cert key : Bytes) : SecretData := {[ "ca.crt" := ca; "tls.crt" := cert; "tls.key" := key ]}.

Definition ensureSelfSignedCerts (now : Time) (secret : GetAnswer SecretData) (dca dserver : Draw) (write : option error) (m : CertManager)
    : CertManager * list CertWrite * option error :=
  let generate (exists_ : bool) :=
    match generateCA dca with
    | inr err => (m, [], Some ("failed to generate CA: " +:+ err))
    | inl (ca, caKey) =>
        match generateServerCert (cm_config m) dserver ca caKey with
        | inr err => (m, [], Some ("failed to generate server certificate: " +:+ err))
        | inl (cert, key) =>
            let newSecret := new_secret ca cert key in
            let w := if exists_ then UpdateSecret newSecret else CreateSecret newSecret in
            match write with
            | Some err => (m, [w], Some ((if exists_ then "failed to update secret: " else "failed to create secret: ") +:+ err))
            | None => (mkCertManager (cm_config m) ca cert key, [w], None)
            end
        end
    end in
  match secret with
  | Found data =>
      if areCertsValid now data
      then (mkCertManager (cm_config m) (data_at data "ca.crt") (data_at data "tls.crt") (data_at data "tls.key"), [], None)
      else generate true
  | NotFound => generate false
  | GetError err => (m, [], Some ("failed to get secret: " +:+ err))
  end.

Definition ensureCertManagerCerts (secret : GetAnswer SecretData) (m : CertManager) : CertManager * list CertWrite * option error :=
  match secret with
  | NotFound => (m, [], Some ("cert-manager secret " +:+ cfg_Namespace (cm_config m) +:+ "/" +:+ cfg_SecretName (cm_config m) +:+
                              " not found; ensure Certificate resource is created"))
  | GetError err => (m, [], Some ("failed to get secret: " +:+ err))
  | Found data =>
      let m' := mkCertManager (cm_config m) (data_at data "ca.crt") (data_at data "tls.crt") (data_at data "tls.key") in
      if len0 (serverCert m') || len0 (serverKey m') then (m', [], Some "cert-manager secret missing tls.crt or tls.key")
      else (m', [], None)
  end.

Definition EnsureCertificates (now : Time) (secret : GetAnswer SecretData) (dca dserver : Draw) (write : option error) (m : CertManager)
    : CertManager * list CertWrite * option error :=
  if cfg_Mode (cm_config m) == CertModeSelfSigned then ensureSelfSignedCerts now secret dca dserver write m
  else if cfg_Mode (cm_config m) == CertModeCertManager then ensureCertManagerCerts secret m
  else (m, [], Some ("unknown cert mode: " +:+ cfg_Mode (cm_config m))).

(** The configuration is its webhooks' CA bundles. *)
Definition UpdateWebhookCABundle (config : GetAnswer (list Bytes)) (write : option error) (m : CertManager)
    : list CertWrite * option error :=
  if len0 (caCert m) then ([], Some "no CA certificate available")
  else match config with
       | NotFound => ([], None)
       | GetError err => ([], Some ("failed to get webhook configuration: " +:+ err))
       | Found bundles =>
           let updated := existsb (fun b => b != caCert m) bundles in
           if negb updated then ([], None)
           else let bundles' := (fun b => if b != caCert m then caCert m else b) <$> bundles in
                ([UpdateBundles bundles'], (fun err => "failed to update webhook configuration: " +:+ err) <$> write)
       end.

Definition NeedsRotation (now : Time) (secret : GetAnswer SecretData) : bool * option error :=
  match secret with
  | NotFound => (true, None)
  | GetError err => (false, Some ("failed to get secret: " +:+ err))
  | Found data => (negb (areCertsValid now data), None)
  end.

(** What the API server and the random source answer during a tick. *)
Record TickEnv := mkTickEnv {
  tk_now : Time; tk_check : GetAnswer (gmap string Bytes); tk_secret : GetAnswer (gmap string Bytes); tk_ca : Draw; tk_server : Draw;
  tk_secret_write : option error; tk_config : GetAnswer (list Bytes); tk_config_write : option error }.

(** One tick of the watcher of [StartRotationWatcher]. *)
Definition rotation_tick (env : TickEnv) (m : CertManager) : CertManager * list CertWrite :=
  match NeedsRotation (tk_now env) (tk_check env) with
  | (true, None) =>
      match EnsureCertificates (tk_now env) (tk_secret env) (tk_ca env) (tk_server env) (tk_secret_write env) m with
      | (m', ws, Some _) => (m', ws)
      | (m', ws, None) => (m', (ws ++ (UpdateWebhookCABundle (tk_config env) (tk_config_write env) m').1)%list)
      end
  | _ => (m, [])
  end.

(** The watcher runs only in self-signed mode. *)
Definition StartRotationWatcher (m : CertManager) : bool := cfg_Mode (cm_config m) == CertModeSelfSigned.

(** Its goroutine, with what it writes; [None] is the panic of [time.NewTicker]. *)
Definition rotation_watcher (interval : Duration) (wakes : list (Wake TickEnv)) (m : CertManager)
    : option (bool * (CertManager * list CertWrite)) :=
  if StartRotationWatcher m
  then with_ticker interval (fun env st => let '(m', ws) := rotation_tick env st.1 in (m', (st.2 ++ ws)%list)) wakes (m, [])
  else Some (true, (m, [])).

Definition GetCertificates (m : CertManager) : Bytes * Bytes * Bytes := (caCert m, serverCert m, serverKey m).
Definition GetCABundle (m : CertManager) : Bytes := caCert m.

(** *** The webhook configuration *)

Record RuleWithOperations := mkRule { ru_Operations : list string; ru_APIGroups : list string; ru_APIVersions : list string; ru_Resources : list string }.

Record ValidatingWebhook := mkWebhook {
  wh_Name : string; wh_ServiceNamespace : string; wh_ServiceName : string; wh_Path : string; wh_Port : Z; wh_CABundle : Bytes;
  wh_Rules : list RuleWithOperations; wh_FailurePolicy : string; wh_SideEffects : string; wh_AdmissionReviewVersions : list string;
  wh_MatchPolicy : string; wh_TimeoutSeconds : Z }.

Record WebhookConfiguration := mkWebhookConfiguration {
  wc_Name : string; wc_Labels : gmap string string; wc_Webhooks : list ValidatingWebhook }.

Definition CreateWebhookConfiguration (namespace serviceName webhookName : string) (caBundle : Bytes) : WebhookConfiguration :=
  mkWebhookConfiguration webhookName {[ "app.kubernetes.io/name" := "nightjar"; "app.kubernetes.io/component" := "webhook" ]}
    [mkWebhook "constraint-warning.nightjar.io" namespace serviceName "/validate" 443 caBundle
       [mkRule ["CREATE"; "UPDATE"] ["*"] ["*"] ["pods"; "deployments"; "services"; "configmaps"]]
       "Ignore" "None" ["v1"] "Equivalent" 5].

(** *** cmd/webhook/server.go *)

Record ServerConfig := mkServerConfig { sc_TLSCertFile : string; sc_TLSKeyFile : string; sc_CertManager : option CertManager }.

Inductive TLSConfig := TLSFiles | TLSDynamic (m : CertManager).

Definition getTLSConfig (c : ServerConfig) : TLSConfig + error :=
  if (sc_TLSCertFile c != EmptyString) && (sc_TLSKeyFile c != EmptyString) then inl TLSFiles
  else match sc_CertManager c with
       | Some m => inl (TLSDynamic m)
       | None => inr "no TLS configuration provided"
       end.

(** [GetCertificate] of the dynamic configuration; [tls.X509KeyPair] checks
    that the key is the certificate's. *)
Definition GetCertificate (m : CertManager) : Certificate + error :=
  if len0 (serverCert m) || len0 (serverKey m) then inr "CertManager has no certificates"
  else match parse_cert (serverCert m), parse_key (serverKey m) with
       | Some cert, Some key =>
           if (ct_PublicKey cert =? key)%Z then inl cert
           else inr "failed to load certificate: tls: private key does not match public key"
       | _, _ => inr "failed to load certificate: tls: failed to find any PEM data"
       end.
End Certs.

(** ** What a successful call leaves *)

Import Certs.

(** The secret after the writes of a call. *)
Definition secret_after (secret : option (gmap string Bytes)) (ws : list CertWrite) : option (gmap string Bytes) :=
  foldl (fun s w => match w with CreateSecret d | UpdateSecret d => Some d | UpdateBundles _ => s end) secret ws.

Definition secret_answer (s : option (gmap string Bytes)) : GetAnswer (gmap string Bytes) :=
  match s with Some d => Found d | None => NotFound end.

(** The manager holds what the secret does. *)
Definition holds (data : gmap string Bytes) (m : CertManager) : Prop :=
  caCert m = data_at data "ca.crt" ∧ serverCert m = data_at data "tls.crt" ∧ serverKey m = data_at data "tls.key".

(** The certificates form a chain: the server's is signed by the CA's key, has
    the key beside it and the name of the service. *)
Definition chain (cfg : CertManagerConfig) (data : gmap string Bytes) : Prop :=
  ∃ ca cert, data_at data "ca.crt" = PemCert ca ∧ data_at data "tls.crt" = PemCert cert ∧
    data_at data "tls.key" = PemKey (ct_PublicKey cert) ∧ ct_SignedBy cert = ct_PublicKey ca ∧ ct_IsCA ca = true ∧
    cfg_ServiceName cfg +:+ "." +:+ cfg_Namespace cfg +:+ ".svc" ∈ ct_DNSNames cert.

Lemma areCertsValid_spec now data :
  areCertsValid now data = true ↔
  ∃ cert, data_at data "tls.crt" = PemCert cert ∧ (now + CertRotationThreshold ≤ ct_NotAfter cert)%Z.
Proof.
  unfold areCertsValid, time_Before, time_Add. destruct (data_at data "tls.crt") as [c|k|s]; simpl.
  - destruct (_ <? _)%Z eqn:Hlt; go_bool; split; [done|intros (? & [= <-] & ?); lia|intros _; by exists c|done].
  - naive_solver.
  - destruct s; naive_solver.
Qed.

Lemma holds_new ca cert key cfg : holds (new_secret ca cert key) (mkCertManager cfg ca cert key).
Proof. by split_and!. Qed.

Lemma generated_chain cfg dca dserver ca caKey cert key :
  generateCA dca = inl (ca, caKey) → generateServerCert cfg dserver ca caKey = inl (cert, key) →
  chain cfg (new_secret ca cert key) ∧
  ∃ c, cert = PemCert c ∧ ct_NotAfter c = (dr_after dserver + CertValidityDuration)%Z.
Proof.
  unfold generateCA, generateServerCert, time_Add. intros H1 H2. repeat case_match; simplify_eq/=.
  split; [|by eexists]. do 2 eexists. split_and!; [reflexivity..|]. set_solver.
Qed.

(** All or nothing: what [EnsureCertificates_spec] states. *)
Lemma ensure_outcome now secret dca dserver write m :
  cfg_Mode (cm_config m) = CertModeSelfSigned → (now ≤ dr_after dserver)%Z →
  match EnsureCertificates now (secret_answer secret) dca dserver write m with
  | (m', _, Some _) => m' = m
  | (m', ws, None) => ∃ data,
      secret_after secret ws = Some data ∧ holds data m' ∧ areCertsValid now data = true ∧
      (ws ≠ [] → chain (cm_config m) data)
  end.
Proof.
  intros Hmode Hnow. unfold EnsureCertificates. rewrite Hmode, bool_decide_eq_true_2 by done. unfold ensureSelfSignedCerts.
  assert (∀ ca caKey cert key, generateCA dca = inl (ca, caKey) → generateServerCert (cm_config m) dserver ca caKey = inl (cert, key) →
    areCertsValid now (new_secret ca cert key) = true ∧ chain (cm_config m) (new_secret ca cert key)) as Hgen.
  { intros ca caKey cert key H1 H2. destruct (generated_chain _ _ _ _ _ _ _ H1 H2) as [Hc (c & -> & Hc')]. split; [|done].
    apply areCertsValid_spec. exists c. split; [done|]. rewrite Hc'. unfold CertValidityDuration, CertRotationThreshold, time_Hour, time_Minute, time_Second. lia. }
  destruct secret as [data|]; simpl.
  - destruct (areCertsValid now data) eqn:Hv; [by exists data|].
    destruct (generateCA dca) as [[ca caKey]|]; [|done].
    destruct (generateServerCert _ _ _ _) as [[cert key]|] eqn:Hs; [|done]. destruct write; [done|].
    destruct (Hgen _ _ _ _ eq_refl Hs). eexists. split_and!; [done|apply holds_new|done|done].
  - destruct (generateCA dca) as [[ca caKey]|]; [|done].
    destruct (generateServerCert _ _ _ _) as [[cert key]|] eqn:Hs; [|done]. destruct write; [done|].
    destruct (Hgen _ _ _ _ eq_refl Hs). eexists. split_and!; [done|apply holds_new|done|done].
Qed.

(** In self-signed mode [EnsureCertificates] is all or nothing: on an
    error the manager keeps its certificates; otherwise it holds exactly what
    the secret now holds, with at least thirty days left, and what it generated
    is a chain for the service's name. *)
Theorem EnsureCertificates_spec now secret dca dserver write m :
  cfg_Mode (cm_config m) = CertModeSelfSigned → (now ≤ dr_after dserver)%Z →
  match EnsureCertificates now (secret_answer secret) dca dserver write m with
  | (m', _, Some _) => m' = m
  | (m', ws, None) => ∃ data,
      secret_after secret ws = Some data ∧ holds data m' ∧ areCertsValid now data = true ∧
      (ws ≠ [] → chain (cm_config m) data)
  end.
Proof. apply ensure_outcome. Qed.

(** ** One replica and its cluster *)

Record Cluster := mkCluster { cl_secret : option (gmap string Bytes); cl_bundles : list Bytes }.

Definition bundles_after (bundles : list Bytes) (ws : list CertWrite) : list Bytes :=
  foldl (fun b w => match w with UpdateBundles b' => b' | _ => b end) bundles ws.

(** What goes wrong with the calls of a moment: the get of [NeedsRotation], the
    get and the write of [EnsureCertificates], those of [UpdateWebhookCABundle]. *)
Record Faults := mkFaults {
  f_check : option error; f_secret : option error; f_secret_write : option error; f_config : option error;
  f_config_write : option error }.
Definition no_faults : Faults := mkFaults None None None None None.

Definition answer {A} (fault : option error) (a : GetAnswer A) : GetAnswer A :=
  match fault with Some err => GetError err | None => a end.

(** A failed write leaves its object as it was. *)
Definition write_ok (f : Faults) (w : CertWrite) : bool :=
  match match w with UpdateBundles _ => f_config_write f | _ => f_secret_write f end with None => true | Some _ => false end.
Definition apply_writes (f : Faults) (ws : list CertWrite) (cl : Cluster) : Cluster :=
  let done := List.filter (write_ok f) ws in
  mkCluster (secret_after (cl_secret cl) done) (bundles_after (cl_bundles cl) done).

(** A moment: its time, what the random source draws, and the faults. *)
Record Moment := mkMoment { mo_now : Time; mo_ca : Draw; mo_server : Draw; mo_faults : Faults }.

Definition draw_ok (d : Draw) : Prop := (∃ k, dr_key d = inl k) ∧ (∃ n, dr_serial d = inl n) ∧ dr_create d = None.
Definition moment_ok (mo : Moment) : Prop := draw_ok (mo_ca mo) ∧ draw_ok (mo_server mo) ∧ (mo_now mo ≤ dr_after (mo_server mo))%Z.

(** Nothing keeps the moment from renewing the secret. *)
Definition renews (mo : Moment) : Prop :=
  draw_ok (mo_ca mo) ∧ draw_ok (mo_server mo) ∧
  f_check (mo_faults mo) = None ∧ f_secret (mo_faults mo) = None ∧ f_secret_write (mo_faults mo) = None.

(** The webhook configuration can be read and written, and the clock does not
    go back within the moment. *)
Definition bundles_reachable (mo : Moment) : Prop :=
  f_config (mo_faults mo) = None ∧ f_config_write (mo_faults mo) = None ∧ (mo_now mo ≤ dr_after (mo_server mo))%Z.

(** The watcher never panics with the interval of [startServer], a day; it leaves
    the configuration, and in cert-manager mode everything. *)
Lemma rotation_tick_config env m : cm_config (rotation_tick env m).1 = cm_config m.
Proof.
  unfold rotation_tick, EnsureCertificates, ensureSelfSignedCerts, ensureCertManagerCerts.
  repeat (case_match; simplify_eq/=); done.
Qed.

Lemma rotation_watcher_spec wakes m :
  ∃ returned st, rotation_watcher (24 * time_Hour) wakes m = Some (returned, st) ∧ cm_config st.1 = cm_config m ∧
    (cfg_Mode (cm_config m) ≠ CertModeSelfSigned → st = (m, [])).
Proof.
  unfold rotation_watcher, StartRotationWatcher. case_bool_decide as E.
  - rewrite with_ticker_Some by done. destruct (ticker_loop _ _ _) as [r st] eqn:Hl. exists r, st.
    split; [done|]. split; [|done]. change st with (r, st).2. rewrite <-Hl.
    apply (ticker_loop_invariant (fun st => cm_config st.1 = cm_config m)); [|done].
    intros env [m' ws] Hm. pose proof (rotation_tick_config env m') as Ht. simpl in *. rewrite Hm in Ht. by destruct (rotation_tick env m').
  - by eexists _, _.
Qed.

(** [startServer] up to the watcher; [None] when it ends with an error. *)
Definition startup (cfg : CertManagerConfig) (mo : Moment) (cl : Cluster) : option (CertManager * Cluster) :=
  let f := mo_faults mo in
  match EnsureCertificates (mo_now mo) (answer (f_secret f) (secret_answer (cl_secret cl))) (mo_ca mo) (mo_server mo) (f_secret_write f)
          (NewCertManager cfg) with
  | (_, _, Some _) => None
  | (m, ws, None) =>
      let cl' := apply_writes f ws cl in
      Some (m, apply_writes f (UpdateWebhookCABundle (answer (f_config f) (Found (cl_bundles cl'))) (f_config_write f) m).1 cl')
  end.

(** A tick of the watcher. *)
Definition tick (st : CertManager * Cluster) (mo : Moment) : CertManager * Cluster :=
  let '(m, cl) := st in
  let f := mo_faults mo in
  let secret := secret_answer (cl_secret cl) in
  let '(m', ws) := rotation_tick (mkTickEnv (mo_now mo) (answer (f_check f) secret) (answer (f_secret f) secret) (mo_ca mo) (mo_server mo)
                     (f_secret_write f) (answer (f_config f) (Found (cl_bundles cl))) (f_config_write f)) m in
  (m', apply_writes f ws cl).

Definition trusts (bundle : Bytes) (cert : Certificate) : Prop :=
  ∃ ca, bundle = PemCert ca ∧ ct_SignedBy cert = ct_PublicKey ca.

(** What is kept: the replica holds the secret's chain and every webhook has its
    CA. *)
Definition serving (cfg : CertManagerConfig) (st : CertManager * Cluster) : Prop :=
  let '(m, cl) := st in
  cm_config m = cfg ∧
  ∃ data, cl_secret cl = Some data ∧ holds data m ∧ chain cfg data ∧ Forall (fun b => b = caCert m) (cl_bundles cl).

(** Until when the certificate that is held is valid. *)
Definition expiry (m : CertManager) : Time := match serverCert m with PemCert c => ct_NotAfter c | _ => 0 end.

Lemma bundles_updated bundles m :
  len0 (caCert m) = false → Forall (fun b => b = caCert m) (bundles_after bundles (UpdateWebhookCABundle (Found bundles) None m).1).
Proof.
  intros H. unfold UpdateWebhookCABundle. rewrite H. destruct (existsb _ bundles) eqn:He; simpl.
  - apply Forall_fmap, Forall_true. intros b. simpl. by case_bool_decide.
  - apply Forall_forall. intros b Hb. destruct (decide (b = caCert m)) as [|Hne]; [done|]. exfalso.
    apply not_true_iff_false in He. apply He, existsb_exists. exists b. rewrite <-list_elem_of_In. by rewrite bool_decide_eq_false_2.
Qed.

Lemma apply_writes_app f ws1 ws2 cl : apply_writes f (ws1 ++ ws2) cl = apply_writes f ws2 (apply_writes f ws1 cl).
Proof. unfold apply_writes, secret_after, bundles_after. cbn [cl_secret cl_bundles]. by rewrite List.filter_app, !foldl_app. Qed.

(** The writes of [EnsureCertificates] leave the bundles alone; after an error
    nothing of them is kept, otherwise everything. *)
Lemma ensure_writes now secret dca dserver f m cl :
  let '(_, ws, err) := EnsureCertificates now secret dca dserver (f_secret_write f) m in
  apply_writes f ws cl = match err with
                         | Some _ => cl
                         | None => mkCluster (secret_after (cl_secret cl) ws) (cl_bundles cl)
                         end.
Proof.
  destruct cl. unfold EnsureCertificates, ensureSelfSignedCerts, ensureCertManagerCerts, apply_writes, write_ok.
  by repeat (case_match; simplify_eq/=).
Qed.

Lemma EnsureCertificates_ok mo secret m :
  cfg_Mode (cm_config m) = CertModeSelfSigned → draw_ok (mo_ca mo) → draw_ok (mo_server mo) →
  (EnsureCertificates (mo_now mo) (secret_answer secret) (mo_ca mo) (mo_server mo) None m).2 = None.
Proof.
  intros Hmode (Hk1 & Hs1 & Hc1) (Hk2 & Hs2 & Hc2). destruct Hk1 as [k1 Hk1], Hs1 as [s1 Hs1], Hk2 as [k2 Hk2], Hs2 as [s2 Hs2].
  unfold EnsureCertificates, ensureSelfSignedCerts, generateCA, generateServerCert. rewrite Hmode, bool_decide_eq_true_2 by done.
  rewrite Hk1, Hs1, Hc1. cbn [ct_PublicKey]. rewrite Hk2, Hs2, Hc2, Z.eqb_refl.
  destruct secret as [data|]; cbn [secret_answer]; [destruct (areCertsValid _ data)|]; done.
Qed.

Lemma chain_ca cfg data m : chain cfg data → holds data m → len0 (caCert m) = false.
Proof. intros (ca & cert & Hca & _) (-> & _). by rewrite Hca. Qed.

Lemma holds_valid cfg data m now :
  chain cfg data → holds data m → (areCertsValid now data = true ↔ (now + CertRotationThreshold ≤ expiry m)%Z).
Proof.
  intros (ca & cert & _ & Hcert & _) (_ & Hm & _). rewrite areCertsValid_spec. unfold expiry. rewrite Hm, Hcert.
  split; [by intros (c & [= <-] & ?)|by exists cert].
Qed.

(** [EnsureCertificates] and the update of the bundles, from a secret that is
    missing or no longer valid: either nothing changes, or all of it does. *)
Lemma renewal mo secret m cl :
  let f := mo_faults mo in
  cfg_Mode (cm_config m) = CertModeSelfSigned → bundles_reachable mo → cl_secret cl = secret →
  areCertsValid (mo_now mo) <$> secret ≠ Some true →
  let '(m', ws, err) := EnsureCertificates (mo_now mo) (answer (f_secret f) (secret_answer secret)) (mo_ca mo) (mo_server mo) (f_secret_write f) m in
  match err with
  | Some _ => m' = m ∧ apply_writes f ws cl = cl ∧ ¬ renews mo
  | None =>
      let st := (m', apply_writes f (ws ++ (UpdateWebhookCABundle (Found (cl_bundles cl)) (f_config_write f) m').1) cl) in
      serving (cm_config m) st ∧ (mo_now mo + CertRotationThreshold ≤ expiry m')%Z ∧ cl_bundles (apply_writes f ws cl) = cl_bundles cl
  end.
Proof.
  intros f Hmode (_ & Hcw & Hnow) Hsec Hinv. pose proof (ensure_writes (mo_now mo) (answer (f_secret f) (secret_answer secret)) (mo_ca mo) (mo_server mo) f m cl) as Hw.
  destruct (f_secret f) as [err|] eqn:Hfs; cbn [answer] in *.
  { unfold EnsureCertificates, ensureSelfSignedCerts in *. rewrite Hmode, bool_decide_eq_true_2 in * by done.
    split_and!; [done|done|]. intros (_ & _ & _ & Hf & _). unfold f in Hfs. congruence. }
  pose proof (ensure_outcome (mo_now mo) secret (mo_ca mo) (mo_server mo) (f_secret_write f) m Hmode Hnow) as Ho.
  pose proof (EnsureCertificates_ok mo secret m Hmode) as Hok.
  assert (cm_config (EnsureCertificates (mo_now mo) (secret_answer secret) (mo_ca mo) (mo_server mo) (f_secret_write f) m).1.1 = cm_config m) as Hcfg.
  { unfold EnsureCertificates, ensureSelfSignedCerts, ensureCertManagerCerts. by repeat (case_match; simplify_eq/=). }
  destruct (EnsureCertificates (mo_now mo) (secret_answer secret) (mo_ca mo) (mo_server mo) (f_secret_write f) m) as [[m' ws] [err|]] eqn:He.
  - split_and!; [done|done|]. intros (Hd1 & Hd2 & _ & _ & Hf). fold f in Hf. rewrite Hf in He. rewrite He in Hok. by specialize (Hok Hd1 Hd2).
  - destruct Ho as (data & Hd & Hh & Hv & Hc). assert (chain (cm_config m) data) as Hch.
    { apply Hc. intros ->. simpl in Hd. subst secret. rewrite Hd in Hinv. simpl in Hinv. congruence. }
    cbn zeta. assert (∀ bs, List.filter (write_ok f) (UpdateWebhookCABundle (Found bs) (f_config_write f) m').1 =
                            (UpdateWebhookCABundle (Found bs) None m').1) as Hbw.
    { intros bs. unfold UpdateWebhookCABundle. repeat case_match; try done. simpl. unfold write_ok, f. by rewrite Hcw. }
    unfold apply_writes in *. rewrite List.filter_app, Hbw. injection Hw as Hw1 Hw2.
    assert (secret_after (cl_secret cl) (List.filter (write_ok f) ws ++ (UpdateWebhookCABundle (Found (cl_bundles cl)) None m').1) = Some data) as Hs.
    { unfold secret_after in *. rewrite foldl_app, Hw1, Hsec. rewrite Hd. unfold UpdateWebhookCABundle. by repeat case_match. }
    split_and!; [|by eapply holds_valid|done]. unfold serving. cbn [cl_secret cl_bundles]. split; [done|].
    exists data. split_and!; [done..|]. unfold bundles_after in *. rewrite foldl_app, Hw2. apply bundles_updated. by eapply chain_ca.
Qed.

(** While the secret is valid a tick does nothing, whatever the bundles are. *)
Lemma tick_idle mo m cl data :
  cl_secret cl = Some data → areCertsValid (mo_now mo) data = true → tick (m, cl) mo = (m, cl).
Proof.
  intros Hs Hv. unfold tick, rotation_tick, NeedsRotation. cbn [tk_now tk_check]. rewrite Hs. destruct cl.
  destruct (f_check _); cbn [answer secret_answer]; [done|]. by rewrite Hv.
Qed.

Lemma tick_serving cfg mo st :
  cfg_Mode cfg = CertModeSelfSigned → bundles_reachable mo → serving cfg st →
  serving cfg (tick st mo) ∧ (expiry st.1 ≤ expiry (tick st mo).1)%Z ∧
  (renews mo → (mo_now mo + CertRotationThreshold ≤ expiry (tick st mo).1)%Z).
Proof.
  destruct st as [m cl]. intros Hmode Hr (Hcfg & data & Hsec & Hh & Hc & Hb). subst cfg.
  pose proof (holds_valid _ _ _ (mo_now mo) Hc Hh) as Hval. pose proof (conj Hr Hmode) as [(Hfc & _) _].
  assert (serving (cm_config m) (m, apply_writes (mo_faults mo) [] cl)) as Hsame by (split; [done|]; by exists data).
  unfold tick, rotation_tick. cbn [tk_now tk_check tk_secret tk_ca tk_server tk_secret_write tk_config tk_config_write].
  unfold NeedsRotation. destruct (f_check (mo_faults mo)) as [err|] eqn:Hf.
  { split_and!; [done|done|]. intros (_ & _ & ? & _). congruence. }
  rewrite Hsec. cbn [secret_answer answer]. destruct (areCertsValid (mo_now mo) data) eqn:Hv; cbn [negb].
  { split_and!; [done|done|]. intros _. by apply Hval. }
  pose proof (renewal mo (Some data) m cl Hmode Hr Hsec ltac:(simpl; congruence)) as Hn. cbn [secret_answer] in Hn.
  destruct (EnsureCertificates _ _ _ _ _ _) as [[m' ws] [err|]].
  - destruct Hn as (-> & Hw & Hno). rewrite Hw. split_and!; [split; [done|by exists data]|done|done].
  - cbn zeta in Hn. rewrite Hfc. cbn [answer]. destruct Hn as (Hs & He & _). split_and!; [done| |done].
    assert (¬ (mo_now mo + CertRotationThreshold ≤ expiry m)%Z) by (by intros ?%Hval). cbn [fst]. lia.
Qed.

Lemma startup_serving cfg mo bundles :
  cfg_Mode cfg = CertModeSelfSigned → bundles_reachable mo →
  match startup cfg mo (mkCluster None bundles) with
  | None => ¬ renews mo
  | Some st => serving cfg st ∧ (mo_now mo + CertRotationThreshold ≤ expiry st.1)%Z
  end.
Proof.
  intros Hmode Hr. pose proof (renewal mo None (NewCertManager cfg) (mkCluster None bundles) Hmode Hr eq_refl ltac:(done)) as Hn.
  pose proof Hr as (Hfc & _). unfold startup. cbn [cl_secret secret_answer]. cbn zeta in Hn. cbn [secret_answer] in Hn.
  destruct (EnsureCertificates _ _ _ _ _ _) as [[m' ws] [err|]]; [by destruct Hn as (_ & _ & ?)|].
  destruct Hn as (Hs & He & Hb). rewrite Hfc. cbn [answer]. rewrite Hb. cbn [cl_bundles] in *.
  rewrite apply_writes_app in Hs. done.
Qed.

(** C24: a single replica starts on a cluster without a secret and then ticks;
    draws of the random source, gets and writes of the secret may fail at any
    time, only the calls on the webhook configuration succeed.  If the start
    fails, one of these failed.  Otherwise, after every tick, the replica presents
    a certificate for the service's name that every webhook's CA bundle trusts,
    and that outlives every check so far at which nothing failed by thirty days.
    During a rotation a handshake may see half of it ([rotation_torn_read]), and a
    bundle whose update fails stays stale ([failed_bundle_update_stale]). *)
Theorem rotation_keeps_serving cfg bundles mo mos :
  cfg_Mode cfg = CertModeSelfSigned → Forall bundles_reachable (mo :: mos) →
  match startup cfg mo (mkCluster None bundles) with
  | None => ¬ renews mo
  | Some st =>
      let '(m, cl) := foldl tick st mos in
      ∃ cert, GetCertificate m = inl cert ∧
        cfg_ServiceName cfg +:+ "." +:+ cfg_Namespace cfg +:+ ".svc" ∈ ct_DNSNames cert ∧
        Forall (fun b => trusts b cert) (cl_bundles cl) ∧
        ∀ mo', mo' = mo ∨ mo' ∈ mos ∧ renews mo' → (mo_now mo' + CertRotationThreshold ≤ ct_NotAfter cert)%Z
  end.
Proof.
  intros Hmode [Hok Hoks]%Forall_cons. pose proof (startup_serving cfg mo bundles Hmode Hok) as Hst.
  destruct (startup _ _ _) as [st|]; [|done]. destruct Hst as [Hs He].
  assert (serving cfg (foldl tick st mos) ∧
    ∀ mo', mo' = mo ∨ mo' ∈ mos ∧ renews mo' → (mo_now mo' + CertRotationThreshold ≤ expiry (foldl tick st mos).1)%Z) as [Hend Hexp].
  { clear Hok. induction mos as [|mo1 mos IH] using rev_ind; [split; [done|]; intros mo' [->|[[]%elem_of_nil _]]; done|].
    apply Forall_app in Hoks as [Hoks [Hok1 _]%Forall_cons]. destruct (IH Hoks) as [Hs1 He1]. rewrite foldl_app. simpl.
    destruct (tick_serving cfg mo1 _ Hmode Hok1 Hs1) as (Hs2 & Hmono & Hnew). split; [done|].
    intros mo' [Hmo|[[Hin|Hin%list_elem_of_singleton]%elem_of_app Hr]]; [|..|subst; by apply Hnew].
    - specialize (He1 mo' (or_introl Hmo)). lia.
    - specialize (He1 mo' (or_intror (conj Hin Hr))). lia. }
  destruct (foldl tick st mos) as [m cl]. destruct Hend as (Hcfg & data & Hsec & (Hca & Hcert & Hkey) & Hc & Hb).
  destruct Hc as (ca & cert & Hca' & Hcert' & Hkey' & Hsig & _ & Hdns). exists cert. split_and!.
  - unfold GetCertificate. rewrite Hcert, Hcert', Hkey, Hkey'. simpl. by rewrite Z.eqb_refl.
  - done.
  - eapply Forall_impl; [exact Hb|]. intros b ->. exists ca. by rewrite Hca, Hca'.
  - unfold expiry in Hexp. cbn [fst] in Hexp. by rewrite Hcert, Hcert' in Hexp.
Qed.

(** ** Evaluation *)

Definition example_draw (key : Z) (now : Time) : Draw := mkDraw (inl key) (inl 7%Z) now now None.
Definition example_moment (now key : Z) : Moment := mkMoment now (example_draw key now) (example_draw (key + 1) now) no_faults.
Definition example_cfg : CertManagerConfig := DefaultCertManagerConfig "nightjar-system".
Definition day : Duration := 24 * time_Hour.

Lemma example_moment_ok now key : moment_ok (example_moment now key).
Proof. unfold moment_ok, draw_ok. split_and!; (by eexists) || done. Qed.

Lemma EnsureCertificates_spec_witness :
  ∃ m ws, EnsureCertificates 0 NotFound (example_draw 1 0) (example_draw 2 0) None (NewCertManager example_cfg) = (m, ws, None) ∧
    ∃ data, secret_after None ws = Some data ∧ chain example_cfg data.
Proof.
  pose proof (EnsureCertificates_spec 0 None (example_draw 1 0) (example_draw 2 0) None (NewCertManager example_cfg) eq_refl ltac:(done)) as H.
  do 2 eexists. split; [reflexivity|]. destruct H as (data & Hd & _ & _ & Hc). exists data. split; [exact Hd|]. apply Hc. discriminate.
Defined.

(** A moment at which the secret cannot be written. *)
Definition failing_moment (now key : Z) : Moment :=
  mkMoment now (example_draw key now) (example_draw (key + 1) now) (mkFaults None None (Some "conflict") None None).

Lemma rotation_keeps_serving_witness :
  ∃ st, startup example_cfg (example_moment 0 1) (mkCluster None [no_bytes]) = Some st ∧
    ∃ cert, GetCertificate (foldl tick st [example_moment day 3; failing_moment (340 * day) 5; example_moment (341 * day) 7]).1 = inl cert ∧
            (341 * day + CertRotationThreshold ≤ ct_NotAfter cert)%Z.
Proof.
  pose proof (rotation_keeps_serving example_cfg [no_bytes] (example_moment 0 1)
                [example_moment day 3; failing_moment (340 * day) 5; example_moment (341 * day) 7] eq_refl) as H.
  specialize (H ltac:(repeat (apply Forall_cons_2; [split; [reflexivity|split; [reflexivity|vm_compute; discriminate]]|]); apply Forall_nil_2)).
  destruct (startup _ _ _) as [st|] eqn:E; [|vm_compute in E; discriminate]. exists st. split; [reflexivity|].
  destruct (foldl tick st _) as [m cl]. destruct H as (cert & Hg & _ & _ & Hexp). exists cert. split; [exact Hg|].
  apply (Hexp (example_moment (341 * day) 7)). right. split; [right; right; left|].
  pose proof (example_moment_ok (341 * day) 7) as (H1 & H2 & _). split; [exact H1|]. split; [exact H2|]. split; [reflexivity|]. split; reflexivity.
Defined.

(** The certificate that a replica presents is trusted by the bundles. *)
Definition presents_trusted (m : CertManager) (cl : Cluster) : bool :=
  match GetCertificate m with
  | inl cert => forallb (fun b => match parse_cert b with Some ca => (ct_SignedBy cert =? ct_PublicKey ca)%Z | None => false end) (cl_bundles cl)
  | inr _ => false
  end.

(** With two replicas, the chart's default, the one that does not rotate keeps
    the old certificate: its watcher looks at the secret, which is valid, and
    not at what it presents, which the bundle no longer trusts. *)
Theorem second_replica_untrusted :
  let start mo cl := default (NewCertManager example_cfg, cl) (startup example_cfg mo cl) in
  let '(a, cl1) := start (example_moment 0 1) (mkCluster None [no_bytes]) in
  let '(b, cl2) := start (example_moment 1 3) cl1 in
  let '(a', cl3) := tick (a, cl2) (example_moment (340 * day) 5) in
  let '(b', cl4) := tick (b, cl3) (example_moment (340 * day + 1) 7) in
  presents_trusted a cl2 = true ∧ presents_trusted b cl2 = true ∧
  presents_trusted a' cl4 = true ∧ presents_trusted b' cl4 = false ∧
  (NeedsRotation (364 * day) (secret_answer (cl_secret cl4))).1 = false.
Proof. vm_compute. done. Qed.

(** A rotation whose update of the webhook configuration fails leaves the old CA
    in the bundle; the secret is valid again, so that no later tick looks at the
    bundle before the next rotation. *)
Theorem failed_bundle_update_stale :
  let '(m, cl) := default (NewCertManager example_cfg, mkCluster None [no_bytes]) (startup example_cfg (example_moment 0 1) (mkCluster None [no_bytes])) in
  let st := tick (m, cl) (mkMoment (340 * day) (example_draw 3 (340 * day)) (example_draw 4 (340 * day))
                            (mkFaults None None None None (Some "conflict"))) in
  presents_trusted m cl = true ∧ presents_trusted st.1 st.2 = false ∧
  ∀ mos, Forall (fun mo => mo_now mo ≤ 650 * day)%Z mos → foldl tick st mos = st.
Proof.
  destruct (default _ _) as [m cl] eqn:E. cbv zeta.
  destruct (tick (m, cl) _) as [m1 cl1] eqn:E1. vm_compute in E. injection E as <- <-. vm_compute in E1. injection E1 as <- <-.
  split; [vm_compute; reflexivity|]. split; [vm_compute; reflexivity|]. intros mos.
  induction 1 as [|mo mos Hmo _ IH]; [reflexivity|]. cbn [foldl]. erewrite tick_idle; [exact IH|reflexivity|].
  apply areCertsValid_spec. eexists. split; [reflexivity|]. etrans; [apply Zplus_le_compat_r; exact Hmo|]. vm_compute. discriminate.
Qed.

(** A secret without its CA is taken as valid, and the bundle cannot be set. *)
Theorem secret_without_ca_accepted cert key now m write config :
  cfg_Mode (cm_config m) = CertModeSelfSigned → (now + CertRotationThreshold ≤ ct_NotAfter cert)%Z →
  ∃ m' ws, EnsureCertificates now (Found {[ "tls.crt" := PemCert cert; "tls.key" := key ]}) (example_draw 1 now) (example_draw 2 now) write m
    = (m', ws, None) ∧ UpdateWebhookCABundle config write m' = ([], Some "no CA certificate available").
Proof.
  intros Hmode Hv. unfold EnsureCertificates, ensureSelfSignedCerts. rewrite Hmode, bool_decide_eq_true_2 by done.
  rewrite (proj2 (areCertsValid_spec now _)) by by eexists. by do 2 eexists.
Qed.

(** In cert-manager mode an incomplete secret is an error, but replaces the
    certificates that were there. *)
Theorem cert_manager_error_overwrites data m :
  cfg_Mode (cm_config m) = CertModeCertManager → len0 (data_at data "tls.crt") = true →
  ∃ m' err, EnsureCertificates 0 (Found data) (example_draw 1 0) (example_draw 2 0) None m = (m', [], Some err) ∧
    len0 (serverCert m') = true.
Proof.
  intros Hmode Hl. unfold EnsureCertificates, ensureCertManagerCerts. rewrite Hmode, bool_decide_eq_false_2, bool_decide_eq_true_2 by done.
  cbn [serverCert serverKey]. rewrite Hl. cbn [orb]. do 2 eexists. done.
Qed.

(** The configuration always fails open. *)
Example webhook_fails_open ns svc name ca :
  Forall (fun w => wh_FailurePolicy w = "Ignore" ∧ (wh_TimeoutSeconds w ≤ 30)%Z) (wc_Webhooks (CreateWebhookConfiguration ns svc name ca)).
Proof. by repeat constructor. Qed.

Example tls_choice :
  getTLSConfig (mkServerConfig EmptyString EmptyString None) = inr "no TLS configuration provided" ∧
  getTLSConfig (mkServerConfig "tls.crt" "tls.key" (Some (NewCertManager example_cfg))) = inl TLSFiles ∧
  GetCertificate (NewCertManager example_cfg) = inr "CertManager has no certificates".
Proof. done. Qed.

(** The three fields are assigned one after the other and read without a lock:
    between the new certificate and the new key a handshake fails. *)
Theorem rotation_torn_read cfg ca cert key ca' cert' key' :
  GetCertificate (mkCertManager cfg ca (PemCert cert) key) = inl cert →
  GetCertificate (mkCertManager cfg ca' (PemCert cert') key') = inl cert' →
  ct_PublicKey cert ≠ ct_PublicKey cert' →
  GetCertificate (mkCertManager cfg ca' (PemCert cert') key) =
    inr "failed to load certificate: tls: private key does not match public key".
Proof.
  unfold GetCertificate. cbn. intros H1 H2 Hne. destruct key as [c|k|s]; [done| |by destruct s]. cbn in *.
  destruct (ct_PublicKey cert =? k)%Z eqn:He; [|done]. apply Z.eqb_eq in He as <-.
  destruct (Z.eqb_spec (ct_PublicKey cert') (ct_PublicKey cert)); [congruence|done].
Qed.
