(* ===== verification/Servers.v ===== *)
(** * HTTP servers and the webhook's process

    The routes that internal/mcp/server.go and cmd/webhook/server.go register,
    what a request to them is answered, how the servers end, and the start of
    the webhook (cmd/webhook/main.go).

    [net/http] is the standard library: a [ServeMux] takes the pattern that is
    the whole path, or else the longest pattern ending in a slash that starts
    it; the path of a registered subtree without its slash is redirected.
    Paths are taken as [ServeMux] cleans them.  What the JSON library decodes
    of a body is the parameter [Bodies]. *)

From S2P Require Import Prelude GoStd Encoding Types Apimachinery Util Indexer Remediation EventBuilder Requirements McpHandlers Admission Certificates.
Import Certs.
From Stdlib Require Import Ascii.

Open Scope go_scope.
#[local] Open Scope string_scope.

Module Http.

(** ** net/http *)

Inductive Routed (H : Type) := RouteTo (h : H) | RedirectTo (path : string) | NoRoute.
Arguments RouteTo {H} _.
Arguments RedirectTo {H} _.
Arguments NoRoute {H}.

Abbreviation Mux H := (list (string * H)) (only parsing).

Definition is_subtree (pattern : string) : bool := strings_HasSuffix pattern "/".

(** The longest subtree pattern that starts the path. *)
Definition better {H} (best : option (string * H)) (e : string * H) : option (string * H) :=
  match best with
  | Some (p, _) => if (String.length p <? String.length e.1)%nat then Some e else best
  | None => Some e
  end.

Definition subtree {H} (m : Mux H) (path : string) : option (string * H) :=
  foldl better None (filter (fun e => is_subtree e.1 && strings_HasPrefix path e.1 = true) m).

Definition mux {H} (m : Mux H) (path : string) : Routed H :=
  match find (fun e => e.1 == path) m with
  | Some (_, h) => RouteTo h
  | None =>
      match subtree m path with
      | Some (_, h) => RouteTo h
      | None => if existsb (fun e => e.1 == path +:+ "/") m then RedirectTo (path +:+ "/") else NoRoute
      end
  end.

(** [Server.Start] waits for the end of the context, then shuts the server
    down, or for the error of [ListenAndServe], [http.ErrServerClosed] apart. *)
Inductive Ended := ContextDone (shutdown : option error) | ListenFailed (err : error).

Definition await (e : Ended) : option error :=
  match e with ContextDone err => err | ListenFailed err => Some err end.

(** ** internal/mcp/server.go *)

Inductive Endpoint :=
  | EQuery | EExplain | ECheck | EListNamespaces | ERemediation
  | EReports | EConstraints | EHealth | ECapabilities
  | ESSE | EToolsList | EResourcesList.

(** The patterns that [Start] registers. *)
Definition mcp_mux : Mux Endpoint :=
  [("/tools/nightjar_query", EQuery); ("/tools/nightjar_explain", EExplain); ("/tools/nightjar_check", ECheck);
   ("/tools/nightjar_list_namespaces", EListNamespaces); ("/tools/nightjar_remediation", ERemediation);
   ("/resources/reports/", EReports); ("/resources/constraints/", EConstraints); ("/resources/health", EHealth);
   ("/resources/capabilities", ECapabilities); ("/sse", ESSE); ("/mcp/tools", EToolsList); ("/mcp/resources", EResourcesList)].

(** What [json.NewDecoder(r.Body).Decode] makes of a body. *)
Record Bodies := mkBodies {
  bo_query : string -> option Mcp.QueryParams;
  bo_explain : string -> option Mcp.ExplainParams;
  bo_check : string -> option Mcp.CheckParams;
  bo_remediation : string -> option Mcp.RemediationParams;
}.

Record Request := mkRequest { rq_Method : string; rq_Path : string; rq_Body : string }.

(** What a request meets: map and sort orders, the clock, the privacy level. *)
Record McpEnv := mkMcpEnv {
  me_order : Shuffle; me_maps : Shuffle; me_sort : Shuffle; me_now : Time; me_level : DetailLevel;
  me_eval : RequirementEvalContext; me_yaml : string -> gmap string GoVal + error; me_bodies : Bodies }.

Inductive McpAnswer :=
  | AQuery (r : Mcp.Response Mcp.QueryResult)
  | AExplain (r : Mcp.Response Mcp.ExplainResult)
  | ACheck (r : Mcp.Response Mcp.CheckResult)
  | ANamespaces (r : Mcp.Response (list Mcp.NamespaceSummary))
  | ARemediation (r : Mcp.Response Mcp.RemediationResult)
  | AReport (r : Mcp.Response Mcp.McpReport)
  | AConstraint (r : Mcp.Response Mcp.ConstraintResult)
  | AHealth (r : Mcp.Response Mcp.HealthResponse)
  | ACapabilities (r : Mcp.Response Mcp.Capabilities)
  | AStream                                        (**r the event stream *)
  | ATools (r : Mcp.Response (list Mcp.Tool))
  | AResources (r : Mcp.Response (list Mcp.ResourceEntry))
  | ARedirect (path : string)
  | ANotFound.

Section mcp.
Context {AM : Apimachinery}.

(** The evaluator is that of the pre-check, which the other handlers ignore. *)
Definition mcp_serve (env : McpEnv) (rb : RemediationBuilder) (idx : Indexer) (evaluator : option Evaluator) (r : Request)
    : option Evaluator * McpAnswer :=
  let post {A} (h : Mcp.Response A) := Mcp.handleTool (rq_Method r) h in
  let get {A} (h : Mcp.Response A) := Mcp.handleResource (rq_Method r) h in
  let σ := me_order env in
  let now := me_now env in
  let level := me_level env in
  match mux mcp_mux (rq_Path r) with
  | NoRoute => (evaluator, ANotFound)
  | RedirectTo p => (evaluator, ARedirect p)
  | RouteTo EQuery => (evaluator, AQuery (post (Mcp.HandleQuery σ (me_sort env) now rb idx level (bo_query (me_bodies env) (rq_Body r)))))
  | RouteTo EExplain => (evaluator, AExplain (post (Mcp.HandleExplain σ now rb idx level (bo_explain (me_bodies env) (rq_Body r)))))
  | RouteTo ECheck =>
      if rq_Method r != "POST" then (evaluator, ACheck (post (Mcp.Failure EmptyString 0)))
      else let '(e, resp) := Mcp.HandleCheck (me_yaml env) σ now (me_eval env) rb idx level (bo_check (me_bodies env) (rq_Body r)) evaluator in
           (e, ACheck (post resp))
  | RouteTo EListNamespaces => (evaluator, ANamespaces (post (Mcp.HandleListNamespaces σ (me_maps env) (me_sort env) idx)))
  | RouteTo ERemediation => (evaluator, ARemediation (post (Mcp.HandleRemediation σ rb idx (bo_remediation (me_bodies env) (rq_Body r)))))
  | RouteTo EReports => (evaluator, AReport (get (Mcp.HandleReportResource σ now rb idx level (rq_Path r))))
  | RouteTo EConstraints => (evaluator, AConstraint (get (Mcp.HandleConstraintResource σ now rb idx level (rq_Path r))))
  | RouteTo EHealth => (evaluator, AHealth (get (Mcp.HandleHealthResource σ now idx)))
  | RouteTo ECapabilities => (evaluator, ACapabilities (get (Mcp.HandleCapabilitiesResource σ now idx)))
  | RouteTo ESSE => (evaluator, AStream)
  | RouteTo EToolsList => (evaluator, ATools (Mcp.handleToolsList (rq_Method r)))
  | RouteTo EResourcesList => (evaluator, AResources (Mcp.handleResourcesList (rq_Method r)))
  end.
End mcp.

(** ** cmd/webhook/server.go *)

Inductive WebhookEndpoint := EValidate | EHealthz | EReadyz.

Definition webhook_mux : Mux WebhookEndpoint := [("/validate", EValidate); ("/healthz", EHealthz); ("/readyz", EReadyz)].

Definition handleHealth : Z * string := (200%Z, "ok").
Definition handleReady : Z * string := (200%Z, "ok").

(** [Start]: without a TLS configuration it fails, otherwise it serves until
    it ends; [None] as a result is a nil error. *)
Definition Server_Start (config : Certs.ServerConfig) (ended : Ended) : option Certs.TLSConfig * option error :=
  match Certs.getTLSConfig config with
  | inr err => (None, Some ("failed to configure TLS: " +:+ err))
  | inl tls => (Some tls, await ended)
  end.

(** ** cmd/webhook/main.go *)

Record runConfig := mkRunConfig {
  rc_TLSCertFile : string; rc_TLSKeyFile : string; rc_Addr : string; rc_ControllerURL : string; rc_Namespace : string;
  rc_SelfSignedMode : bool }.

(** The defaults of the flags. *)
Definition default_runConfig : runConfig :=
  mkRunConfig EmptyString EmptyString ":8443" "http://nightjar-controller.nightjar-system.svc:8080" "nightjar-system" true.

(** What the API server, the random source and the clock answer at the start. *)
Record StartEnv := mkStartEnv {
  st_now : Time; st_secret : Certs.GetAnswer (gmap string Certs.Bytes); st_ca : Certs.Draw; st_server : Certs.Draw;
  st_secret_write : option error; st_config : Certs.GetAnswer (list Certs.Bytes); st_config_write : option error;
  st_ended : Ended }.

(** What the process has come to: the certificates it serves with, what it
    wrote to the cluster, whether the rotation watcher runs, and the error. *)
Record Started := mkStarted {
  sr_tls : option Certs.TLSConfig; sr_writes : list Certs.CertWrite; sr_watcher : bool; sr_err : option error }.

Definition startServer (cfg : runConfig) (env : StartEnv) : Started :=
  let serve (m : option Certs.CertManager) (ws : list Certs.CertWrite) (watcher : bool) :=
    let '(tls, err) := Server_Start (Certs.mkServerConfig (rc_TLSCertFile cfg) (rc_TLSKeyFile cfg) m) (st_ended env) in
    mkStarted tls ws watcher err in
  if rc_SelfSignedMode cfg then
    let m0 := Certs.NewCertManager (Certs.DefaultCertManagerConfig (rc_Namespace cfg)) in
    match Certs.EnsureCertificates (st_now env) (st_secret env) (st_ca env) (st_server env) (st_secret_write env) m0 with
    | (_, ws, Some err) => mkStarted None ws false (Some ("failed to ensure certificates: " +:+ err))
    | (m, ws, None) =>
        let ws' := (ws ++ (Certs.UpdateWebhookCABundle (st_config env) (st_config_write env) m).1)%list in
        serve (Some m) ws' (Certs.StartRotationWatcher m)
    end
  else serve None [] false.

(** [run]: the configuration and the clients of the API server come first. *)
Definition run (cfg : runConfig) (inCluster newClient : option error) (env : StartEnv) : Started :=
  match inCluster, newClient with
  | Some err, _ => mkStarted None [] false (Some ("failed to get in-cluster config: " +:+ err))
  | None, Some err => mkStarted None [] false (Some ("failed to create Kubernetes client: " +:+ err))
  | None, None => startServer cfg env
  end.

(** [NewConstraintClient]: [do] is the HTTP client with its timeout. *)
Definition NewConstraintClient (baseURL : string) (do : string -> Admission.HttpOutcome) : Admission.ConstraintClient :=
  Admission.mkConstraintClient baseURL do.

(** A request to the webhook: the probes answer every method. *)
Inductive WebhookAnswer := WReview (r : Admission.HttpReply) | WStatus (code : Z) (body : string).

Definition webhook_serve (decode : string -> option (option Admission.AdmissionRequest))
    (labels_of : string -> option (gmap string string)) (marshals : Admission.AdmissionResponse -> bool)
    (client : Admission.ConstraintClient) (method path contentType : string) (body : string + error) : WebhookAnswer :=
  match mux webhook_mux path with
  | RouteTo EValidate => WReview (Admission.Handle decode labels_of marshals client method contentType body)
  | RouteTo EHealthz => WStatus handleHealth.1 handleHealth.2
  | RouteTo EReadyz => WStatus handleReady.1 handleReady.2
  | _ => WStatus 404 "404 page not found"
  end.
End Http.

(** ** The MCP server *)

(** The endpoint behind the name of a tool. *)
Definition tool_endpoint (name : string) : option Http.Endpoint :=
  match find (fun e => e.1 == name)
          [("nightjar_query", Http.EQuery); ("nightjar_explain", Http.EExplain); ("nightjar_check", Http.ECheck);
           ("nightjar_list_namespaces", Http.EListNamespaces); ("nightjar_remediation", Http.ERemediation)] with
  | Some e => Some e.2
  | None => None
  end.

(** Every tool that [/mcp/tools] lists is served under its name, by a handler
    of its own. *)
Theorem mcp_tools_served t :
  t ∈ Mcp.tools → ∃ e, tool_endpoint (Mcp.t_name t) = Some e ∧ Http.mux Http.mcp_mux ("/tools/" +:+ Mcp.t_name t) = Http.RouteTo e.
Proof.
  intros Ht. unfold Mcp.tools in Ht. rewrite !elem_of_cons, elem_of_nil in Ht.
  destruct Ht as [->|[->|[->|[->|[->|[]]]]]]; eexists; (split; [reflexivity|vm_compute; reflexivity]).
Qed.

Lemma TrimPrefix_append p s : strings_TrimPrefix (p +:+ s) p = s.
Proof.
  unfold strings_TrimPrefix, strings_HasPrefix. rewrite prefix_append, string_length_append.
  replace (_ + _ - _)%nat with (String.length s) by lia. apply substring_append.
Qed.

(** A subtree of the mux: the patterns that are the whole path come first. *)
Lemma mcp_route_reports s : s ≠ EmptyString → Http.mux Http.mcp_mux ("/resources/reports/" +:+ s) = Http.RouteTo Http.EReports.
Proof.
  intros Hs. unfold Http.mux. assert (find (fun e => e.1 == "/resources/reports/" +:+ s) Http.mcp_mux = None) as ->;
    [|destruct s; [done|vm_compute; reflexivity]].
  unfold Http.mcp_mux. cbn [find fst].
  repeat (rewrite bool_decide_eq_false_2; [|cbn; intros E; (discriminate E || (injection E; intros E'; by apply Hs))]). done.
Qed.

Section reports.
Context {AM : Apimachinery}.

(** A GET of the report of a namespace is answered with the report of
    exactly the constraints that the index holds for it; another method is
    refused, and nothing of the server changes. *)
Theorem mcp_report_served env rb idx evaluator method ns body :
  ns ≠ EmptyString → strings_HasSuffix ns "/" = false →
  Http.mcp_serve env rb idx evaluator (Http.mkRequest method ("/resources/reports/" +:+ ns) body) =
  (evaluator, Http.AReport (if decide (method = "GET")
     then Mcp.Reply (Mcp.buildReport rb (Http.me_now env) (ByNamespace (Http.me_order env) idx ns) ns (Http.me_level env))
     else Mcp.Failure "Method not allowed" 405)).
Proof.
  intros Hne Hsuf. unfold Http.mcp_serve. cbn [Http.rq_Path Http.rq_Method]. rewrite mcp_route_reports by done.
  unfold Mcp.handleResource, Mcp.HandleReportResource. rewrite TrimPrefix_append. unfold strings_TrimSuffix. rewrite Hsuf.
  rewrite (bool_decide_eq_false_2 (ns = EmptyString)) by done. case_decide as Hm; [by rewrite bool_decide_eq_true_2|by rewrite bool_decide_eq_false_2].
Qed.
End reports.

(** ** The start of the webhook *)

(** Both files are given. *)
Definition tls_files (certFile keyFile : string) : Prop := certFile ≠ EmptyString ∧ keyFile ≠ EmptyString.

#[export] Instance tls_files_dec c k : Decision (tls_files c k).
Proof. unfold tls_files. apply _. Defined.

Lemma Server_Start_spec config ended :
  Http.Server_Start config ended =
  if decide (tls_files (sc_TLSCertFile config) (sc_TLSKeyFile config)) then (Some TLSFiles, Http.await ended)
  else match sc_CertManager config with
       | Some m => (Some (TLSDynamic m), Http.await ended)
       | None => (None, Some "failed to configure TLS: no TLS configuration provided")
       end.
Proof.
  unfold Http.Server_Start, getTLSConfig, tls_files. destruct (decide _) as [[H1 H2]|Hn].
  - by rewrite !bool_decide_eq_false_2.
  - assert ((sc_TLSCertFile config != EmptyString) && (sc_TLSKeyFile config != EmptyString) = false) as ->; [|by destruct (sc_CertManager config)].
    repeat case_bool_decide; naive_solver.
Qed.

(** The webhook serves exactly when it has certificates: in self-signed
    mode when they could be ensured, whatever becomes of the CA bundle, and
    otherwise when both files are given; only in the first case it watches
    their rotation, and without files it presents what it has ensured. *)
Theorem startServer_serves cfg env :
  let r := Http.startServer cfg env in
  let files := tls_files (Http.rc_TLSCertFile cfg) (Http.rc_TLSKeyFile cfg) in
  let '(m, _, err) := EnsureCertificates (Http.st_now env) (Http.st_secret env) (Http.st_ca env) (Http.st_server env)
                        (Http.st_secret_write env) (NewCertManager (DefaultCertManagerConfig (Http.rc_Namespace cfg))) in
  if Http.rc_SelfSignedMode cfg
  then match err with
       | Some e => Http.sr_tls r = None ∧ Http.sr_watcher r = false ∧ Http.sr_err r = Some ("failed to ensure certificates: " +:+ e)
       | None => Http.sr_tls r = Some (if decide files then TLSFiles else TLSDynamic m) ∧
                 Http.sr_watcher r = StartRotationWatcher m ∧ Http.sr_err r = Http.await (Http.st_ended env)
       end
  else Http.sr_writes r = [] ∧ Http.sr_watcher r = false ∧
       if decide files then Http.sr_tls r = Some TLSFiles ∧ Http.sr_err r = Http.await (Http.st_ended env)
       else Http.sr_tls r = None ∧ Http.sr_err r = Some "failed to configure TLS: no TLS configuration provided".
Proof.
  cbv zeta. unfold Http.startServer. destruct (EnsureCertificates _ _ _ _ _ _) as [[m ws] [e|]];
    (destruct (Http.rc_SelfSignedMode cfg); [try done|]); rewrite Server_Start_spec; cbn [sc_TLSCertFile sc_TLSKeyFile sc_CertManager];
    case_decide; done.
Qed.

(** Without files, [startServer] is the [startup] that [rotation_keeps_serving]
    starts from, whatever fails. *)
Lemma startServer_startup cfg mo cl ended :
  Http.rc_SelfSignedMode cfg = true → ¬ tls_files (Http.rc_TLSCertFile cfg) (Http.rc_TLSKeyFile cfg) →
  let f := mo_faults mo in
  let r := Http.startServer cfg (Http.mkStartEnv (mo_now mo) (answer (f_secret f) (secret_answer (cl_secret cl))) (mo_ca mo) (mo_server mo)
             (f_secret_write f) (answer (f_config f) (Found (cl_bundles cl))) (f_config_write f) ended) in
  startup (DefaultCertManagerConfig (Http.rc_Namespace cfg)) mo cl =
  match Http.sr_tls r with Some (TLSDynamic m) => Some (m, apply_writes f (Http.sr_writes r) cl) | _ => None end.
Proof.
  intros Hs Hf f r. subst r. unfold Http.startServer, startup. rewrite Hs. fold f.
  cbn [Http.st_now Http.st_secret Http.st_ca Http.st_server Http.st_secret_write Http.st_config Http.st_config_write Http.st_ended].
  pose proof (ensure_writes (mo_now mo) (answer (f_secret f) (secret_answer (cl_secret cl))) (mo_ca mo) (mo_server mo) f
    (NewCertManager (DefaultCertManagerConfig (Http.rc_Namespace cfg))) cl) as Hw.
  destruct (EnsureCertificates _ _ _ _ _ _) as [[m ws] [e|]]; [done|]. rewrite Server_Start_spec.
  cbn [sc_TLSCertFile sc_TLSKeyFile sc_CertManager]. rewrite decide_False by done. cbn [Http.sr_tls Http.sr_writes].
  rewrite apply_writes_app, Hw. done.
Qed.

(** With files and the default of the self-signed flag, the webhook serves
    the certificate of the files but puts the CA that it has generated into the
    webhook configuration, which does not trust it. *)
Theorem files_with_self_signed_bundle cfg mo bundles ended :
  Http.rc_SelfSignedMode cfg = true → tls_files (Http.rc_TLSCertFile cfg) (Http.rc_TLSKeyFile cfg) → moment_ok mo →
  let r := Http.startServer cfg (Http.mkStartEnv (mo_now mo) NotFound (mo_ca mo) (mo_server mo) None (Found bundles) None ended) in
  Http.sr_tls r = Some TLSFiles ∧
  ∃ ca, dr_key (mo_ca mo) = inl (ct_PublicKey ca) ∧ Forall (fun b => b = PemCert ca) (bundles_after bundles (Http.sr_writes r)).
Proof.
  intros Hs Hf (Hca & Hsrv & _) r. subst r. destruct Hca as ([k1 Hk1] & [n1 Hn1] & Hc1), Hsrv as ([k2 Hk2] & [n2 Hn2] & Hc2).
  unfold Http.startServer. rewrite Hs. unfold EnsureCertificates. cbn [cm_config NewCertManager]. rewrite bool_decide_eq_true_2 by done.
  cbn [Http.st_now Http.st_secret Http.st_ca Http.st_server Http.st_secret_write Http.st_config Http.st_config_write Http.st_ended].
  unfold ensureSelfSignedCerts, generateCA, generateServerCert. rewrite Hk1, Hn1, Hc1. cbn [ct_PublicKey]. rewrite Hk2, Hn2, Hc2, Z.eqb_refl.
  rewrite Server_Start_spec. cbn [sc_TLSCertFile sc_TLSKeyFile sc_CertManager]. rewrite decide_True by done. cbn [Http.sr_tls Http.sr_writes].
  split; [done|]. set (m := mkCertManager _ _ _ _). destruct (caCert m) as [ca| |] eqn:Hm; [|done|done]. exists ca. injection Hm as <-.
  split; [done|]. unfold bundles_after. rewrite foldl_app. exact (bundles_updated bundles m eq_refl).
Qed.

(** ** Evaluation *)

Definition example_mcp_env : Http.McpEnv :=
  Http.mkMcpEnv in_order in_order in_order 0 DetailLevelSummary example_eval (fun _ => inr "invalid")
    (Http.mkBodies (fun _ => None) (fun _ => None) (fun _ => None) (fun _ => None)).

Lemma mcp_report_served_witness :
  ∃ r, Http.mcp_serve example_mcp_env example_builder example_index None (Http.mkRequest "GET" "/resources/reports/dev" EmptyString) =
       (None, Http.AReport (Mcp.Reply r)) ∧ Mcp.rep_constraintCount r = 2%Z.
Proof.
  eexists. split; [|].
  - apply (mcp_report_served example_mcp_env example_builder example_index None "GET" "dev" EmptyString); [discriminate|reflexivity].
  - vm_compute. reflexivity.
Defined.

Lemma mcp_unknown_path : (Http.mcp_serve example_mcp_env example_builder example_index None (Http.mkRequest "GET" "/resources/report" EmptyString)).2 = Http.ANotFound.
Proof. vm_compute. reflexivity. Qed.

Lemma mcp_redirects : (Http.mcp_serve example_mcp_env example_builder example_index None (Http.mkRequest "GET" "/resources/reports" EmptyString)).2 = Http.ARedirect "/resources/reports/".
Proof. vm_compute. reflexivity. Qed.

Lemma files_with_self_signed_bundle_witness :
  let cfg := Http.mkRunConfig "/certs/tls.crt" "/certs/tls.key" ":8443" EmptyString "nightjar-system" true in
  Http.sr_tls (Http.startServer cfg (Http.mkStartEnv 0 NotFound (example_draw 1 0) (example_draw 2 0) None (Found [no_bytes]) None (Http.ContextDone None)))
    = Some TLSFiles.
Proof.
  apply (files_with_self_signed_bundle (Http.mkRunConfig "/certs/tls.crt" "/certs/tls.key" ":8443" EmptyString "nightjar-system" true)
           (example_moment 0 1) [no_bytes] (Http.ContextDone None)).
  - reflexivity.
  - split; discriminate.
  - apply example_moment_ok.
Defined.
