(* ===== verification/NativeAdapters.v ===== *)
(** * The adapters of the Kubernetes built-in resources

    internal/adapters/networkpolicy, resourcequota, limitrange and
    webhookconfig, a module each.  An adapter turns an object, decoded from
    JSON, into constraints; its two results are the pair of [Parse].

    resource.Quantity of k8s.io/apimachinery is the parameter [Quantities]. *)

From S2P Require Import Prelude GoStd Types Apimachinery Util EventBuilder.
From Stdlib Require Import Ascii SpecFloat.

Open Scope go_scope.
#[local] Open Scope string_scope.

(** ** Native NetworkPolicy objects (networkpolicy/adapter.go) *)

Module NetworkPolicy.
Section adapter.
Context {AM : Apimachinery}.

Definition gvr : GroupVersionResource := networkpolicies_gvr.

Definition extractPolicyTypes (spec : gmap string GoVal) : list string :=
  SafeNestedStringSlice (Some spec) ["policyTypes"].

Definition containsPolicyType (policyTypes : list string) (target : string) : bool :=
  existsb (fun t => t == target) policyTypes.

Definition extractLabelSelector (spec : gmap string GoVal) (field : string) : option LabelSelector :=
  SafeNestedLabelSelector (Some spec) [field].

(** [buildIngressSummary] and [buildEgressSummary]. *)
Definition build_summary (direction name : string) (rules : option (list GoVal)) : string :=
  match default [] rules with
  | [] => "NetworkPolicy " +:+ fmt_q name +:+ " denies all " +:+ direction +:+ " traffic"
  | l => "NetworkPolicy " +:+ fmt_q name +:+ " restricts " +:+ direction +:+ " to " +:+ fmt_d (go_len l) +:+ " rule(s)"
  end.
Definition buildIngressSummary (name : string) (spec : gmap string GoVal) : string :=
  build_summary "ingress" name (SafeNestedSlice (Some spec) ["ingress"]).
Definition buildEgressSummary (name : string) (spec : gmap string GoVal) : string :=
  build_summary "egress" name (SafeNestedSlice (Some spec) ["egress"]).

Definition port_string (portMap : gmap string GoVal) : string :=
  match portMap !! "port" with
  | Some (VInt64 v) => fmt_d v
  | Some (VFloat v) => fmt_d (float64_to_int v)
  | Some (VStr v) => v
  | _ => EmptyString
  end.

Definition extractPorts (rule : gmap string GoVal) : list string :=
  omap (fun portRaw =>
    match as_map portRaw with
    | None => None
    | Some portMap =>
        let p := SafeStringFromMap (Some portMap) "protocol" in
        let protocol := if p == EmptyString then "TCP" else p in
        let portStr := port_string portMap in
        if portStr != EmptyString then Some (portStr +:+ "/" +:+ protocol) else None
    end) (default [] (SafeNestedSlice (Some rule) ["ports"])).

Definition extractCIDRsFromRule (rule : gmap string GoVal) (direction : string) : list string :=
  omap (fun peerRaw =>
    match as_map peerRaw with
    | None => None
    | Some peer =>
        match SafeNestedMap (Some peer) ["ipBlock"] with
        | None => None
        | Some ipBlockMap =>
            let cidr := SafeStringFromMap (Some ipBlockMap) "cidr" in
            if cidr != EmptyString then Some cidr else None
        end
    end) (default [] (SafeNestedSlice (Some rule) [direction])).

Definition uniqueStrings (s : list string) : list string := unique_loop ∅ s.

(** [extractIngressDetails] and [extractEgressDetails]. *)
Definition extract_details (rules : option (list GoVal)) (direction : string) : gmap string GoVal :=
  match rules with
  | None => {[ "ruleCount" := VInt 0; "deniesAll" := VBool true ]}
  | Some l =>
      let maps := omap as_map l in
      let ports := mjoin (extractPorts <$> maps) in
      let cidrs := mjoin ((fun r => extractCIDRsFromRule r direction) <$> maps) in
      let details := {[ "ruleCount" := VInt (go_len l) ]} in
      let details := if ports != [] then <["allowedPorts" := VStrs (uniqueStrings ports)]> details else details in
      if cidrs != [] then <["allowedCIDRs" := VStrs (uniqueStrings cidrs)]> details else details
  end.
Definition extractIngressDetails (spec : gmap string GoVal) : gmap string GoVal :=
  extract_details (SafeNestedSlice (Some spec) ["ingress"]) "from".
Definition extractEgressDetails (spec : gmap string GoVal) : gmap string GoVal :=
  extract_details (SafeNestedSlice (Some spec) ["egress"]) "to".

Definition policy_constraint (obj : Unstructured) (sel : option LabelSelector) (ct : ConstraintType) (summary : string)
    (details : gmap string GoVal) : Constraint :=
  let name := GetName obj in
  let namespace := GetNamespace obj in
  {| c_UID := GetUID obj; c_Source := gvr; c_Name := name; c_Namespace := namespace;
     c_AffectedNamespaces := [namespace]; c_NamespaceSelector := None; c_WorkloadSelector := sel;
     c_ResourceTargets := []; c_ConstraintType := ct; c_Effect := "restrict"; c_Severity := SeverityWarning;
     c_Details := Some details; c_Summary := summary;
     c_RemediationHint := "Review NetworkPolicy " +:+ namespace +:+ "/" +:+ name +:+ " or contact your platform team";
     c_Remediation := []; c_Tags := []; c_RawObject := Some obj |}.

Definition Parse (obj : Unstructured) : list Constraint * option error :=
  let name := GetName obj in
  match SafeNestedMap (Some (Object obj)) ["spec"] with
  | None => ([], Some ("networkpolicy " +:+ GetNamespace obj +:+ "/" +:+ name +:+ ": missing spec"))
  | Some spec =>
      let policyTypes := extractPolicyTypes spec in
      let podSelector := extractLabelSelector spec "podSelector" in
      let ingress :=
        if containsPolicyType policyTypes "Ingress" || (policyTypes == [])
        then [policy_constraint obj podSelector ConstraintTypeNetworkIngress (buildIngressSummary name spec) (extractIngressDetails spec)]
        else [] in
      let egress :=
        if containsPolicyType policyTypes "Egress"
        then [policy_constraint obj podSelector ConstraintTypeNetworkEgress (buildEgressSummary name spec) (extractEgressDetails spec)]
        else [] in
      ((ingress ++ egress)%list, None)
  end.

Definition New : Adapter := mkAdapter "networkpolicy" [gvr] Parse.
End adapter.
End NetworkPolicy.

(** ** LimitRange objects (limitrange/adapter.go) *)

Module LimitRange.
Definition gvr : GroupVersionResource := mkGVR EmptyString "v1" "limitranges".

Definition formatResourceName (name : string) : string := switch name [("cpu", "CPU"); ("memory", "Memory")] name.

Definition as_str_map (v : option GoVal) : option (gmap string string) :=
  match v with Some (VStrMap m) => Some m | _ => None end.

(** The phrase for one resource with a minimum or a maximum. *)
Definition range_phrase (minVals maxVals : gmap string string) (r : string) : option string :=
  let minStr := default EmptyString (minVals !! r) in
  let maxStr := default EmptyString (maxVals !! r) in
  let resourceName := formatResourceName r in
  if (minStr != EmptyString) && (maxStr != EmptyString) then Some (resourceName +:+ " " +:+ minStr +:+ "-" +:+ maxStr)
  else if maxStr != EmptyString then Some (resourceName +:+ " max " +:+ maxStr)
  else if minStr != EmptyString then Some (resourceName +:+ " min " +:+ minStr)
  else None.

Definition buildLimitSummary (limitType : string) (details : gmap string GoVal) : string :=
  let minVals := as_str_map (details !! "min") in
  let maxVals := as_str_map (details !! "max") in
  let ranges := match minVals, maxVals with
                | None, None => []
                | _, _ =>
                    let mn := default ∅ minVals in
                    let mx := default ∅ maxVals in
                    omap (range_phrase mn mx) (sorted_keys (mn ∪ mx))
                end in
  let parts1 := if ranges != [] then [strings_Join ranges ", "] else [] in
  let parts2 := match as_str_map (details !! "default") with
                | Some defaultVals =>
                    if size defaultVals == 0%nat then []
                    else ["defaults: " +:+ strings_Join
                            ((fun r => formatResourceName r +:+ "=" +:+ default EmptyString (defaultVals !! r))
                             <$> sorted_keys defaultVals) ", "]
                | None => []
                end in
  match (parts1 ++ parts2)%list with
  | [] => limitType +:+ " limits defined"
  | parts => limitType +:+ " limits: " +:+ strings_Join parts "; "
  end.

Section adapter.
Context {AM : Apimachinery}.

Definition extractResourceMap (limitMap : gmap string GoVal) (field : string) : gmap string string :=
  match SafeNestedMap (Some limitMap) [field] with
  | None => ∅
  | Some resourceMap => omap as_string resourceMap
  end.

(** [if vals := extractResourceMap(limitMap, field); len(vals) > 0 { details[field] = vals }] *)
Definition add_resource_map (limitMap : gmap string GoVal) (field : string) (details : gmap string GoVal) : gmap string GoVal :=
  let vals := extractResourceMap limitMap field in
  if size vals == 0%nat then details else <[field := VStrMap vals]> details.

Definition limit_constraint (obj : Unstructured) (i : nat) (limitMap : gmap string GoVal) : Constraint :=
  let t := SafeStringFromMap (Some limitMap) "type" in
  let limitType := if t == EmptyString then "Container" else t in
  let details := add_resource_map limitMap "maxLimitRequestRatio" (add_resource_map limitMap "min"
                   (add_resource_map limitMap "max" (add_resource_map limitMap "defaultRequest"
                   (add_resource_map limitMap "default" {[ "type" := VStr limitType ]})))) in
  {| c_UID := GetUID obj +:+ "-" +:+ fmt_d (Z.of_nat i); c_Source := gvr;
     c_Name := GetName obj +:+ "-" +:+ strings_ToLower limitType +:+ "-" +:+ fmt_d (Z.of_nat i);
     c_Namespace := GetNamespace obj; c_AffectedNamespaces := [GetNamespace obj];
     c_NamespaceSelector := None; c_WorkloadSelector := None; c_ResourceTargets := [];
     c_ConstraintType := ConstraintTypeResourceLimit; c_Effect := "limit"; c_Severity := SeverityInfo;
     c_Details := Some details; c_Summary := buildLimitSummary limitType details;
     c_RemediationHint := "Ensure your " +:+ strings_ToLower limitType +:+ "s specify resource requests/limits within these bounds";
     c_Remediation := []; c_Tags := []; c_RawObject := Some obj |}.

(** The loop over [spec.limits]. *)
Fixpoint limit_loop (obj : Unstructured) (i : nat) (limits : list GoVal) : list Constraint :=
  match limits with
  | [] => []
  | limitRaw :: rest =>
      match as_map limitRaw with
      | None => limit_loop obj (S i) rest
      | Some limitMap => limit_constraint obj i limitMap :: limit_loop obj (S i) rest
      end
  end.

Definition Parse (obj : Unstructured) : list Constraint * option error :=
  match SafeNestedMap (Some (Object obj)) ["spec"] with
  | None => ([], Some ("limitrange " +:+ GetNamespace obj +:+ "/" +:+ GetName obj +:+ ": missing spec"))
  | Some spec => (limit_loop obj 0 (default [] (SafeNestedSlice (Some spec) ["limits"])), None)
  end.

Definition New : Adapter := mkAdapter "limitrange" [gvr] Parse.
End adapter.
End LimitRange.

(** ** Webhook configurations (webhookconfig/adapter.go) *)

Module WebhookConfig.
Definition validatingGVR : GroupVersionResource :=
  mkGVR "admissionregistration.k8s.io" "v1" "validatingwebhookconfigurations".
Definition mutatingGVR : GroupVersionResource :=
  mkGVR "admissionregistration.k8s.io" "v1" "mutatingwebhookconfigurations".

Definition buildWebhookSummary (webhookType webhookName : string) (operations resources : list string) : string :=
  let parts := ((if operations != [] then [strings_Join operations ","] else []) ++
                (if resources != [] then ["on " +:+ strings_Join resources ", "] else []))%list in
  match parts with
  | [] => webhookType +:+ " webhook " +:+ fmt_q webhookName
  | _ => webhookType +:+ " webhook " +:+ fmt_q webhookName +:+ " intercepts " +:+ strings_Join parts " "
  end.

(** The set is a map to [true]; its keys are sorted. *)
Definition setToSortedSlice (s : gset string) : list string := sort_Strings in_order (elements s).

Section adapter.
Context {AM : Apimachinery}.

Definition shouldSkipWebhook (webhookMap : gmap string GoVal) (webhookName : string) : bool :=
  if strings_Contains (strings_ToLower webhookName) "nightjar" then true
  else match SafeNestedMap (Some webhookMap) ["clientConfig"] with
       | None => false
       | Some clientConfig =>
           match SafeNestedMap (Some clientConfig) ["service"] with
           | None => false
           | Some service => strings_Contains (strings_ToLower (SafeStringFromMap (Some service) "name")) "nightjar"
           end
       end.

Definition parseRules (rules : list GoVal) : list string * list string * list ResourceTarget :=
  let maps := omap as_map rules in
  let operationSet : gset string := list_to_set (mjoin ((fun m => SafeNestedStringSlice (Some m) ["operations"]) <$> maps)) in
  let resourceSet : gset string := list_to_set (mjoin ((fun m => SafeNestedStringSlice (Some m) ["resources"]) <$> maps)) in
  let targets := omap (fun m =>
    let apiGroups := SafeNestedStringSlice (Some m) ["apiGroups"] in
    let resources := SafeNestedStringSlice (Some m) ["resources"] in
    if (apiGroups != []) && (resources != []) then Some (mkTarget apiGroups resources) else None) maps in
  (setToSortedSlice operationSet, setToSortedSlice resourceSet, targets).

Definition webhook_constraint (obj : Unstructured) (i : nat) (webhookMap : gmap string GoVal) : Constraint :=
  let webhookName := SafeStringFromMap (Some webhookMap) "name" in
  let validating := GetKind obj == "ValidatingWebhookConfiguration" in
  let sourceGVR := if validating then validatingGVR else mutatingGVR in
  let webhookType := if validating then "Validating" else "Mutating" in
  let fp := SafeStringFromMap (Some webhookMap) "failurePolicy" in
  let failurePolicy := if fp == EmptyString then "Fail" else fp in
  let '(operations, resources, resourceTargets) := parseRules (default [] (SafeNestedSlice (Some webhookMap) ["rules"])) in
  let details := {[ "webhookName" := VStr webhookName; "webhookType" := VStr webhookType; "failurePolicy" := VStr failurePolicy ]} in
  let details := if operations != [] then <["operations" := VStrs operations]> details else details in
  let details := if resources != [] then <["resources" := VStrs resources]> details else details in
  {| c_UID := GetUID obj +:+ "-" +:+ fmt_d (Z.of_nat i); c_Source := sourceGVR;
     c_Name := GetName obj +:+ "-" +:+ webhookName; c_Namespace := EmptyString; c_AffectedNamespaces := [];
     c_NamespaceSelector := SafeNestedLabelSelector (Some webhookMap) ["namespaceSelector"];
     c_WorkloadSelector := None; c_ResourceTargets := resourceTargets;
     c_ConstraintType := ConstraintTypeAdmission; c_Effect := "intercept";
     c_Severity := if failurePolicy == "Fail" then SeverityWarning else SeverityInfo;
     c_Details := Some details; c_Summary := buildWebhookSummary webhookType webhookName operations resources;
     c_RemediationHint := "Check webhook " +:+ fmt_q webhookName +:+ " logs if requests are being rejected";
     c_Remediation := []; c_Tags := []; c_RawObject := Some obj |}.

(** The loop over [webhooks]. *)
Fixpoint webhook_loop (obj : Unstructured) (i : nat) (webhooks : list GoVal) : list Constraint :=
  match webhooks with
  | [] => []
  | webhookRaw :: rest =>
      match as_map webhookRaw with
      | None => webhook_loop obj (S i) rest
      | Some webhookMap =>
          if shouldSkipWebhook webhookMap (SafeStringFromMap (Some webhookMap) "name")
          then webhook_loop obj (S i) rest
          else webhook_constraint obj i webhookMap :: webhook_loop obj (S i) rest
      end
  end.

Definition Parse (obj : Unstructured) : list Constraint * option error :=
  (webhook_loop obj 0 (default [] (SafeNestedSlice (Some (Object obj)) ["webhooks"])), None).

Definition New : Adapter := mkAdapter "webhookconfig" [validatingGVR; mutatingGVR] Parse.
End adapter.
End WebhookConfig.

(** ** ResourceQuota objects (resourcequota/adapter.go) *)

(** resource.Quantity *)
Class Quantities := {
  Quantity : Type;
  ParseQuantity : string -> Quantity + error;
  IsZero : Quantity -> bool;
  MilliValue : Quantity -> Z;
  Value : Quantity -> Z;
}.

Module ResourceQuota.
Definition gvr : GroupVersionResource := mkGVR EmptyString "v1" "resourcequotas".

Definition isCPUResource (name : string) : bool := (name == "cpu") || strings_HasSuffix name ".cpu".
Definition isMemoryResource (name : string) : bool := (name == "memory") || strings_HasSuffix name ".memory".

Definition formatResourceName (name : string) : string :=
  switch name [("cpu", "CPU"); ("memory", "Memory"); ("pods", "Pods"); ("services", "Services"); ("secrets", "Secrets");
               ("configmaps", "ConfigMaps"); ("persistentvolumeclaims", "PVCs")] name.

(** The [%v] of the values the adapter stores; a missing value prints as nil. *)
Definition fmt_v (v : option GoVal) : string :=
  match v with Some (VStr s) => s | Some (VInt z) => fmt_d z | _ => "<nil>" end.

Definition summary_part (resources : gmap string (gmap string GoVal)) (name : string) : string :=
  let info := default ∅ (resources !! name) in
  let hard := fmt_v (info !! "hard") in
  match info !! "used" with
  | Some used =>
      match info !! "percent" with
      | Some percent => formatResourceName name +:+ ": " +:+ fmt_v (Some used) +:+ "/" +:+ hard +:+ " (" +:+ fmt_v (Some percent) +:+ "%)"
      | None => formatResourceName name +:+ ": " +:+ fmt_v (Some used) +:+ "/" +:+ hard
      end
  | None => formatResourceName name +:+ ": limit " +:+ hard
  end.

Definition buildSummary (resources : gmap string (gmap string GoVal)) : string :=
  strings_Join (summary_part resources <$> sorted_keys resources) "; ".

Section adapter.
Context {AM : Apimachinery} `{QT : Quantities}.

Definition hundred : float64 := float64_of_int 100.

(** The usage in percent of a non-zero hard limit. *)
Definition usage_percent (resourceName : string) (usedQty hardQty : Quantity) : float64 :=
  if isCPUResource resourceName
  then float64_mul (float64_div (float64_of_int (MilliValue usedQty)) (float64_of_int (MilliValue hardQty))) hundred
  else if isMemoryResource resourceName
  then float64_mul (float64_div (float64_of_int (Value usedQty)) (float64_of_int (Value hardQty))) hundred
  else float64_mul (float64_div (float64_of_int (Value usedQty)) (float64_of_int (Value hardQty))) hundred.

(** The body of the loop for a resource with a readable hard limit: its info
    and its percentage, when it has one. *)
Definition resource_info (used : option (gmap string GoVal)) (resourceName hardStr : string) (hardQty : Quantity)
    : gmap string GoVal * option float64 :=
  let info := {[ "hard" := VStr hardStr ]} in
  match u ← used; v ← u !! resourceName; as_string v with
  | None => (info, None)
  | Some usedStr =>
      match ParseQuantity usedStr with
      | inr _ => (info, None)
      | inl usedQty =>
          let info := <["used" := VStr usedStr]> info in
          if IsZero hardQty then (info, None)
          else let percent := usage_percent resourceName usedQty hardQty in
               (<["percent" := VInt (float64_to_int percent)]> info, Some percent)
      end
  end.

(** The loop over the sorted resource names. *)
Fixpoint resource_loop (hard : gmap string GoVal) (used : option (gmap string GoVal)) (names : list string)
    (resources : gmap string (gmap string GoVal)) (maxPercent : float64) : gmap string (gmap string GoVal) * float64 :=
  match names with
  | [] => (resources, maxPercent)
  | resourceName :: rest =>
      match v ← hard !! resourceName; as_string v with
      | None => resource_loop hard used rest resources maxPercent
      | Some hardStr =>
          match ParseQuantity hardStr with
          | inr _ => resource_loop hard used rest resources maxPercent
          | inl hardQty =>
              let '(info, p) := resource_info used resourceName hardStr hardQty in
              let maxPercent' := match p with
                                 | Some percent => if float64_gtb percent maxPercent then percent else maxPercent
                                 | None => maxPercent
                                 end in
              resource_loop hard used rest (<[resourceName := info]> resources) maxPercent'
          end
      end
  end.

Definition quota_severity (maxPercent : float64) : Severity :=
  if float64_geb maxPercent (float64_of_int 90) then SeverityCritical
  else if float64_geb maxPercent (float64_of_int 75) then SeverityWarning
  else SeverityInfo.

Definition Parse (obj : Unstructured) : list Constraint * option error :=
  match SafeNestedMap (Some (Object obj)) ["spec"] with
  | None => ([], Some ("resourcequota " +:+ GetNamespace obj +:+ "/" +:+ GetName obj +:+ ": missing spec"))
  | Some spec =>
      let hard := default ∅ (SafeNestedMap (Some spec) ["hard"]) in
      if size hard == 0%nat then ([], None)
      else
        let used := SafeNestedMap (SafeNestedMap (Some (Object obj)) ["status"]) ["used"] in
        let '(resources, maxPercent) := resource_loop hard used (sorted_keys hard) ∅ float64_zero in
        ([{| c_UID := GetUID obj; c_Source := gvr; c_Name := GetName obj; c_Namespace := GetNamespace obj;
             c_AffectedNamespaces := [GetNamespace obj]; c_NamespaceSelector := None; c_WorkloadSelector := None;
             c_ResourceTargets := []; c_ConstraintType := ConstraintTypeResourceLimit; c_Effect := "limit";
             c_Severity := quota_severity maxPercent;
             c_Details := Some {[ "resources" := VMapMap resources ]}; c_Summary := buildSummary resources;
             c_RemediationHint := "Request quota increase or reduce resource usage";
             c_Remediation := []; c_Tags := []; c_RawObject := Some obj |}], None)
  end.

Definition New : Adapter := mkAdapter "resourcequota" [gvr] Parse.
End adapter.
End ResourceQuota.

(** ** Identities of the constraints an object gives *)

#[local] Arguments String.append !_ _ /.

Lemma fmt_d_inj a b : fmt_d a = fmt_d b → a = b.
Proof. apply pretty_Z_inj. Qed.

(** The UIDs [uid-i] of one object are distinct. *)
Lemma indexed_uid_inj uid i j :
  uid +:+ "-" +:+ fmt_d (Z.of_nat i) = uid +:+ "-" +:+ fmt_d (Z.of_nat j) → i = j.
Proof. intros H%string_append_inj_l%string_append_inj_l%fmt_d_inj. lia. Qed.

Lemma indexed_uids_NoDup (uid : string) (l : list Constraint) (js : list nat) :
  c_UID <$> l = (fun i => uid +:+ "-" +:+ fmt_d (Z.of_nat i)) <$> js → NoDup js → NoDup (c_UID <$> l).
Proof. intros -> Hnd. apply NoDup_fmap_2_strong; [|done]. intros i j _ _. apply indexed_uid_inj. Qed.

Lemma seq_filter_NoDup (n k : nat) (js : list nat) : js `sublist_of` seq n k → NoDup js.
Proof. intros H. eapply sublist_NoDup; [apply NoDup_seq|done]. Qed.

Section identity.
Context {AM : Apimachinery}.

Lemma limit_loop_uids obj i limits :
  ∃ js, c_UID <$> LimitRange.limit_loop obj i limits = (fun j => GetUID obj +:+ "-" +:+ fmt_d (Z.of_nat j)) <$> js ∧
        js `sublist_of` seq i (length limits).
Proof.
  revert i. induction limits as [|l limits IH]; intros i; simpl; [by exists []|].
  destruct (IH (S i)) as (js & Hi & Hs). destruct (as_map l).
  - exists (i :: js). csimpl. rewrite Hi. split; [done|by apply sublist_skip].
  - exists js. split; [done|by apply sublist_cons].
Qed.

Lemma webhook_loop_uids obj i ws :
  ∃ js, c_UID <$> WebhookConfig.webhook_loop obj i ws = (fun j => GetUID obj +:+ "-" +:+ fmt_d (Z.of_nat j)) <$> js ∧
        js `sublist_of` seq i (length ws).
Proof.
  revert i. induction ws as [|w ws IH]; intros i; simpl; [by exists []|].
  destruct (IH (S i)) as (js & Hi & Hs). destruct (as_map w) as [m|]; [destruct (WebhookConfig.shouldSkipWebhook _ _)|].
  - exists js. split; [done|by apply sublist_cons].
  - exists (i :: js). csimpl. rewrite Hi. split; [|by apply sublist_skip]. f_equal.
  - exists js. split; [done|by apply sublist_cons].
Qed.

Lemma LimitRange_distinct_uids obj : NoDup (c_UID <$> (LimitRange.Parse obj).1).
Proof.
  unfold LimitRange.Parse. destruct (SafeNestedMap _ _) as [spec|]; [|constructor]. simpl.
  edestruct limit_loop_uids as (js & Hi & Hs). eapply indexed_uids_NoDup; [exact Hi|by eapply seq_filter_NoDup].
Qed.

Lemma WebhookConfig_distinct_uids obj : NoDup (c_UID <$> (WebhookConfig.Parse obj).1).
Proof. edestruct webhook_loop_uids as (js & Hi & Hs). eapply indexed_uids_NoDup; [exact Hi|by eapply seq_filter_NoDup]. Qed.

Lemma NetworkPolicy_containsPolicyType types t : NetworkPolicy.containsPolicyType types t = true ↔ t ∈ types.
Proof.
  unfold NetworkPolicy.containsPolicyType. rewrite existsb_exists. setoid_rewrite <-list_elem_of_In.
  setoid_rewrite bool_decide_eq_true. naive_solver.
Qed.

(** A NetworkPolicy gives an ingress constraint when its policy types list
    Ingress or are absent, an egress constraint when they list Egress, on the
    pods of its selector, and nothing else. *)
Theorem NetworkPolicy_Parse_spec obj spec :
  SafeNestedMap (Some (Object obj)) ["spec"] = Some spec →
  let types := NetworkPolicy.extractPolicyTypes spec in
  let '(cs, err) := NetworkPolicy.Parse obj in
  err = None ∧ (length cs ≤ 2)%nat ∧
  (∀ c, c ∈ cs → c_UID c = GetUID obj ∧ c_Namespace c = GetNamespace obj ∧
                 c_WorkloadSelector c = SafeNestedLabelSelector (Some spec) ["podSelector"]) ∧
  ((∃ c, c ∈ cs ∧ c_ConstraintType c = ConstraintTypeNetworkIngress) ↔ "Ingress" ∈ types ∨ types = []) ∧
  ((∃ c, c ∈ cs ∧ c_ConstraintType c = ConstraintTypeNetworkEgress) ↔ "Egress" ∈ types).
Proof.
  intros Hs types. unfold NetworkPolicy.Parse. rewrite Hs. simpl. fold types.
  pose proof (NetworkPolicy_containsPolicyType types "Ingress") as Hci.
  pose proof (NetworkPolicy_containsPolicyType types "Egress") as Hce.
  destruct (NetworkPolicy.containsPolicyType types "Ingress"), (NetworkPolicy.containsPolicyType types "Egress");
    case_bool_decide; simpl; (split_and!; [done|lia|set_solver|set_solver|set_solver]).
Qed.
End identity.

(** ** Webhooks *)

Section webhooks.
Context {AM : Apimachinery}.

Lemma webhook_loop_elem obj i ws c :
  c ∈ WebhookConfig.webhook_loop obj i ws ↔
  ∃ j m, ws !! j = Some (VMap m) ∧ WebhookConfig.shouldSkipWebhook m (SafeStringFromMap (Some m) "name") = false ∧
         c = WebhookConfig.webhook_constraint obj (i + j) m.
Proof.
  revert i. induction ws as [|w ws IH]; intros i; simpl.
  { split; [by intros ?%not_elem_of_nil|]. intros (j & m & Hj & _). by rewrite lookup_nil in Hj. }
  assert (c ∈ WebhookConfig.webhook_loop obj (S i) ws ↔
          ∃ j m, ws !! j = Some (VMap m) ∧ WebhookConfig.shouldSkipWebhook m (SafeStringFromMap (Some m) "name") = false ∧
                 c = WebhookConfig.webhook_constraint obj (i + S j) m) as Hrest.
  { rewrite IH. by setoid_rewrite Nat.add_succ_r. }
  clear IH. destruct (as_map w) as [m|] eqn:Hw.
  - assert (w = VMap m) as -> by (destruct w; naive_solver).
    destruct (WebhookConfig.shouldSkipWebhook m _) eqn:Hskip; [|rewrite elem_of_cons]; rewrite Hrest.
    + split; [intros (j & H); by exists (S j)|]. intros ([|j] & m' & Hj & Hs & H); simplify_eq/=; [congruence|by exists j, m'].
    + split; [intros [->|(j & H)]; [exists 0, m; by rewrite Nat.add_0_r|by exists (S j)]|].
      intros ([|j] & m' & Hj & Hs & H); simplify_eq/=; [left; by rewrite Nat.add_0_r|right; by exists j, m'].
  - rewrite Hrest. split; [intros (j & H); by exists (S j)|].
    intros ([|j] & m' & Hj & H); simplify_eq/=; by exists j, m'.
Qed.

(** A webhook configuration gives one constraint for each of its webhooks
    but the program's own ones; each is a cluster-scoped admission constraint,
    a warning exactly when its failure policy, defaulted, is Fail. *)
Theorem WebhookConfig_Parse_spec obj c :
  (c ∈ (WebhookConfig.Parse obj).1 ↔
   ∃ i m, default [] (SafeNestedSlice (Some (Object obj)) ["webhooks"]) !! i = Some (VMap m) ∧
          WebhookConfig.shouldSkipWebhook m (SafeStringFromMap (Some m) "name") = false ∧
          c = WebhookConfig.webhook_constraint obj i m) ∧
  ∀ i m, c = WebhookConfig.webhook_constraint obj i m →
    c_Namespace c = EmptyString ∧ c_ConstraintType c = ConstraintTypeAdmission ∧
    c_Severity c = if bool_decide (SafeStringFromMap (Some m) "failurePolicy" ∈ [EmptyString; "Fail"])
                   then SeverityWarning else SeverityInfo.
Proof.
  split; [apply webhook_loop_elem|]. intros i m ->.
  unfold WebhookConfig.webhook_constraint. destruct (WebhookConfig.parseRules _) as [[ops res] tgts].
  cbn [c_Namespace c_ConstraintType c_Severity]. split_and!; [done..|].
  generalize (SafeStringFromMap (Some m) "failurePolicy"). intros fp.
  repeat case_bool_decide; rewrite ?elem_of_cons, ?elem_of_nil in *; naive_solver.
Qed.
End webhooks.

(** ** Quotas *)

(** [SFcompare] is a total preorder away from NaN. *)
Lemma SFleb_trans x y z : SFleb x y = true → SFleb y z = true → SFleb x z = true.
Proof.
  destruct x as [[]|[]| |[] mx ex], y as [[]|[]| |[] my ey], z as [[]|[]| |[] mz ez];
    unfold SFleb, SFcompare; try done;
    destruct (Z.compare_spec ex ey), (Z.compare_spec ey ez), (Z.compare_spec ex ez); try done; try lia;
    change (Pos.compare_cont Eq) with Pos.compare;
    destruct (Pos.compare_spec mx my), (Pos.compare_spec my mz), (Pos.compare_spec mx mz); simpl; try done; lia.
Qed.

Lemma SFltb_false_leb x y : x ≠ S754_nan → y ≠ S754_nan → SFltb x y = false → SFleb y x = true.
Proof.
  destruct x as [[]|[]| |[] mx ex], y as [[]|[]| |[] my ey]; unfold SFleb, SFltb, SFcompare; try done;
    destruct (Z.compare_spec ex ey), (Z.compare_spec ey ex); try done; try lia;
    change (Pos.compare_cont Eq) with Pos.compare;
    destruct (Pos.compare_spec mx my), (Pos.compare_spec my mx); simpl; try done; lia.
Qed.

Lemma SFltb_leb x y : SFltb x y = true → SFleb x y = true ∧ y ≠ S754_nan.
Proof. unfold SFltb, SFleb. destruct y as [| | |]; [| |by destruct x|]; destruct (SFcompare _ _) as [[]|]; done. Qed.

Section quotas.
Context {AM : Apimachinery} `{QT : Quantities}.

(** The percentages the loop computes, in order. *)
Definition percentages (hard : gmap string GoVal) (used : option (gmap string GoVal)) (names : list string) : list float64 :=
  omap (fun n => v ← hard !! n; s ← as_string v;
                 match ParseQuantity s with
                 | inl q => (ResourceQuota.resource_info used n s q).2
                 | inr _ => None
                 end) names.

(** The running maximum reaches a threshold exactly when it did at the start or
    some percentage does. *)
Lemma resource_loop_max hard used names resources mp t :
  mp ≠ S754_nan →
  let mp' := (ResourceQuota.resource_loop hard used names resources mp).2 in
  mp' ≠ S754_nan ∧
  (float64_geb mp' t = true ↔ float64_geb mp t = true ∨ ∃ p, p ∈ percentages hard used names ∧ float64_geb p t = true).
Proof.
  unfold float64_geb. revert resources mp. induction names as [|n names IH]; intros resources mp Hmp; simpl; [set_solver|].
  unfold percentages. simpl. destruct (hard !! n) as [v|]; simpl; [|by apply IH].
  destruct (as_string v) as [hs|]; simpl; [|by apply IH].
  destruct (ParseQuantity hs) as [q|]; [|by apply IH].
  destruct (ResourceQuota.resource_info used n hs q) as [info [p|]]; simpl; [|by apply IH].
  unfold float64_gtb. destruct (SFltb mp p) eqn:Hlt.
  - apply SFltb_leb in Hlt as [Hle Hp]. destruct (IH (<[n:=info]> resources) p Hp) as [Hn Hg]. split; [done|].
    rewrite Hg. split.
    + intros [?|(p' & ? & ?)]; right; [exists p; split; [left|done]|exists p'; split; [by right|done]].
    + intros [Hm|(p' & [->|Hin]%elem_of_cons & ?)]; [left; by eapply SFleb_trans|by left|right; by exists p'].
  - destruct (IH (<[n:=info]> resources) mp Hmp) as [Hn Hg]. split; [done|]. rewrite Hg. split.
    + intros [?|(p' & ? & ?)]; [by left|right; exists p'; split; [by right|done]].
    + intros [Hm|(p' & [->|Hin]%elem_of_cons & Ht)]; [by left| |right; by exists p'].
      left. eapply SFleb_trans; [exact Ht|]. apply SFltb_false_leb; [done| |done]. intros ->. by destruct t.
Qed.

(** The severity of a quota follows its most used resource: Critical exactly
    when some resource is at 90 percent or more, Warning when none is but some
    is at 75 percent or more, Info otherwise. *)
Theorem ResourceQuota_severity obj c spec :
  SafeNestedMap (Some (Object obj)) ["spec"] = Some spec →
  c ∈ (ResourceQuota.Parse obj).1 →
  let hard := default ∅ (SafeNestedMap (Some spec) ["hard"]) in
  let used := SafeNestedMap (SafeNestedMap (Some (Object obj)) ["status"]) ["used"] in
  let at_least t := ∃ p, p ∈ percentages hard used (sorted_keys hard) ∧ float64_geb p (float64_of_int t) = true in
  (c_Severity c = SeverityCritical ↔ at_least 90%Z) ∧
  (c_Severity c = SeverityWarning ↔ ¬ at_least 90%Z ∧ at_least 75%Z) ∧
  (c_Severity c = SeverityInfo ↔ ¬ at_least 90%Z ∧ ¬ at_least 75%Z).
Proof.
  intros Hs. unfold ResourceQuota.Parse. rewrite Hs. case_bool_decide; simpl; [set_solver|].
  set (hard := default ∅ _). set (used := SafeNestedMap _ ["used"]).
  pose proof (resource_loop_max hard used (sorted_keys hard) ∅ float64_zero) as Hmax.
  destruct (ResourceQuota.resource_loop _ _ _ _ _) as [resources mp]. simpl in *.
  intros ->%list_elem_of_singleton. simpl. unfold ResourceQuota.quota_severity.
  destruct (Hmax (float64_of_int 90)) as [_ H90]; [done|]. destruct (Hmax (float64_of_int 75)) as [_ H75]; [done|].
  assert (∀ P, (float64_geb float64_zero (float64_of_int 90) = true ∨ P ↔ P) ∧
               (float64_geb float64_zero (float64_of_int 75) = true ∨ P ↔ P)) as E.
  { intros P. split; (split; [intros [?|?]; [discriminate|done]|by right]). }
  rewrite (proj1 (E _)) in H90. rewrite (proj2 (E _)) in H75. rewrite <-H90, <-H75. clear.
  destruct (float64_geb mp (float64_of_int 90)), (float64_geb mp (float64_of_int 75)); split_and!; split; naive_solver.
Qed.

(** The usage figures of a quota never reach an event or a report: the
    adapter stores them as a map of maps, the extraction expects a map of
    interface values, and so finds nothing, for every quota object. *)
Theorem ResourceQuota_metrics_lost obj c :
  c ∈ (ResourceQuota.Parse obj).1 → c_ConstraintType c = ConstraintTypeResourceLimit ∧ extractMetrics c = None.
Proof.
  unfold ResourceQuota.Parse. destruct (SafeNestedMap _ ["spec"]) as [spec|]; simpl; [|set_solver].
  case_bool_decide; simpl; [set_solver|]. destruct (ResourceQuota.resource_loop _ _ _ _ _) as [resources mp]. simpl.
  intros ->%list_elem_of_singleton. split; [done|]. unfold extractMetrics. simpl. by rewrite lookup_singleton_eq.
Qed.
End quotas.

(** ** Evaluation *)

(** Quantities written as decimal numbers. *)
Fixpoint parse_decimal (acc : Z) (s : string) : Z + error :=
  match s with
  | EmptyString => inl acc
  | String c s' =>
      let n := Z.of_nat (nat_of_ascii c) in
      if ((48 <=? n) && (n <=? 57))%Z then parse_decimal (10 * acc + (n - 48)) s' else inr "quantities must match the regular expression"
  end.

#[export] Instance decimal_quantities : Quantities := {
  Quantity := Z;
  ParseQuantity := parse_decimal 0;
  IsZero z := (z =? 0)%Z;
  MilliValue z := (1000 * z)%Z;
  Value z := z;
}.

Definition object_of (kind name namespace uid : string) (fields : gmap string GoVal) : Unstructured :=
  mkUnstructured (<["kind" := VStr kind]>
    (<["metadata" := VMap {[ "name" := VStr name; "namespace" := VStr namespace; "uid" := VStr uid ]}]> fields)).

Definition both_ways_policy : Unstructured :=
  object_of "NetworkPolicy" "isolate" "prod" "np1"
    {[ "spec" := VMap {[ "podSelector" := VMap {[ "matchLabels" := VMap {[ "app" := VStr "db" ]} ]};
                         "policyTypes" := VSlice [VStr "Ingress"; VStr "Egress"];
                         "ingress" := VSlice [VMap {[ "ports" := VSlice [VMap {[ "port" := VInt64 5432 ]}] ]}] ]} ]}.

Definition example_quota : Unstructured :=
  object_of "ResourceQuota" "compute" "dev" "rq1"
    {[ "spec" := VMap {[ "hard" := VMap {[ "pods" := VStr "10"; "services" := VStr "5" ]} ]};
       "status" := VMap {[ "used" := VMap {[ "pods" := VStr "9"; "services" := VStr "1" ]} ]} ]}.

Definition example_webhook : Unstructured :=
  object_of "ValidatingWebhookConfiguration" "guard" EmptyString "wh1"
    {[ "webhooks" := VSlice [VMap {[ "name" := VStr "nightjar.io" ]}; VMap {[ "name" := VStr "deny.example.com" ]}] ]}.

Lemma NetworkPolicy_Parse_spec_witness :
  ∃ c, c ∈ (NetworkPolicy.Parse both_ways_policy).1 ∧ c_ConstraintType c = ConstraintTypeNetworkEgress.
Proof.
  edestruct (NetworkPolicy_Parse_spec both_ways_policy) as (_ & _ & _ & _ & H); [reflexivity|].
  apply H. vm_compute. right. left.
Defined.

Lemma WebhookConfig_Parse_spec_witness :
  length (WebhookConfig.Parse example_webhook).1 = 1%nat ∧
  ∃ c, c ∈ (WebhookConfig.Parse example_webhook).1 ∧ c_Severity c = SeverityWarning.
Proof.
  split; [reflexivity|].
  exists (WebhookConfig.webhook_constraint example_webhook 1 {[ "name" := VStr "deny.example.com" ]}). split.
  - apply (WebhookConfig_Parse_spec example_webhook). exists 1%nat, {[ "name" := VStr "deny.example.com" ]}.
    split; [reflexivity|]. split; reflexivity.
  - exact (proj2 (proj2 (proj2 (WebhookConfig_Parse_spec example_webhook _) 1%nat {[ "name" := VStr "deny.example.com" ]} eq_refl))).
Defined.

Lemma ResourceQuota_severity_witness :
  ∃ c, c ∈ (ResourceQuota.Parse example_quota).1 ∧ c_Severity c = SeverityCritical ∧
       c_Summary c = "Pods: 9/10 (90%); Services: 1/5 (20%)".
Proof.
  eexists. split; [left|]. split; [|vm_compute; reflexivity].
  eapply (ResourceQuota_severity example_quota); [reflexivity|left|].
  eexists. split; [vm_compute; left|vm_compute; reflexivity].
Defined.

Lemma ResourceQuota_metrics_lost_witness :
  ∃ c, c ∈ (ResourceQuota.Parse example_quota).1 ∧ c_ConstraintType c = ConstraintTypeResourceLimit ∧ extractMetrics c = None.
Proof. eexists. split; [left|]. apply (ResourceQuota_metrics_lost example_quota). left. Defined.

Example example_limit_range :
  c_Summary <$> (LimitRange.Parse (object_of "LimitRange" "lr" "dev" "l1"
    {[ "spec" := VMap {[ "limits" := VSlice [VMap {[ "type" := VStr "Pod"; "max" := VMap {[ "cpu" := VStr "2" ]};
                                                     "min" := VMap {[ "cpu" := VStr "1"; "memory" := VStr "1Gi" ]} ]}] ]} ]})).1
  = ["Pod limits: CPU 1-2, Memory min 1Gi"].
Proof. vm_compute. reflexivity. Qed.
