(* ===== verification/GenericAdapter.v ===== *)
(** * The fallback adapter (internal/adapters/generic/adapter.go)

    Parses objects of unknown kinds by probing common fields, with optional
    field paths and a severity override from a ConstraintProfile. *)

From S2P Require Import Prelude GoStd Types Apimachinery Util.
From Stdlib Require Import Ascii.

Open Scope go_scope.
#[local] Open Scope string_scope.

Module Generic.

(** v1alpha1.FieldPaths *)
Record FieldPaths := mkFieldPaths {
  SelectorPath : string;
  NamespaceSelectorPath : string;
  EffectPath : string;
  SummaryPath : string;
}.

Record ParseConfig := mkParseConfig {
  pc_FieldPaths : option FieldPaths;
  pc_SeverityOverride : string;
}.

Definition annotationSummary : string := "nightjar.io/summary".
Definition annotationSeverity : string := "nightjar.io/severity".
Definition annotationType : string := "nightjar.io/constraint-type".

Definition getAnnotation (annotations : option (gmap string string)) (key : string) : string :=
  match annotations with
  | None => EmptyString
  | Some m => default EmptyString (m !! key)
  end.

Definition guessResource (kind : string) : string :=
  if kind == EmptyString then "unknown"
  else
    let lower := strings_ToLower kind in
    if strings_HasSuffix lower "y" then String.substring 0 (String.length lower - 1) lower +:+ "ies"
    else if strings_HasSuffix lower "s" || strings_HasSuffix lower "x" || strings_HasSuffix lower "ch" || strings_HasSuffix lower "sh"
    then lower +:+ "es"
    else lower +:+ "s".

Definition splitFieldPath (path : string) : list string :=
  if path == EmptyString then []
  else filter (fun part => part ≠ EmptyString) (strings_Split path "."%char).

Section adapter.
Context {AM : Apimachinery}.

Definition or_else {A} (x y : option A) : option A := match x with Some _ => x | None => y end.

Definition extractSelectors (spec : option (gmap string GoVal)) : option LabelSelector * option LabelSelector :=
  match spec with
  | None => (None, None)
  | Some _ =>
      (or_else (SafeNestedLabelSelector spec ["selector"])
         (or_else (SafeNestedLabelSelector spec ["podSelector"]) (SafeNestedLabelSelector spec ["workloadSelector"])),
       SafeNestedLabelSelector spec ["namespaceSelector"])
  end.

Definition annotated_severity (annotations : option (gmap string string)) : Severity :=
  switch (getAnnotation annotations annotationSeverity)
    [("Critical", SeverityCritical); ("critical", SeverityCritical); ("Warning", SeverityWarning);
     ("warning", SeverityWarning); ("Info", SeverityInfo); ("info", SeverityInfo)] SeverityInfo.

Definition annotated_type (annotations : option (gmap string string)) : ConstraintType :=
  switch (getAnnotation annotations annotationType)
    [("NetworkIngress", ConstraintTypeNetworkIngress); ("NetworkEgress", ConstraintTypeNetworkEgress);
     ("Admission", ConstraintTypeAdmission); ("ResourceLimit", ConstraintTypeResourceLimit);
     ("MeshPolicy", ConstraintTypeMeshPolicy); ("MissingResource", ConstraintTypeMissing)] ConstraintTypeUnknown.

Definition default_summary (obj : Unstructured) : string :=
  if GetNamespace obj != EmptyString
  then GetKind obj +:+ " " +:+ fmt_q (GetName obj) +:+ " in namespace " +:+ fmt_q (GetNamespace obj)
  else GetKind obj +:+ " " +:+ fmt_q (GetName obj) +:+ " (cluster-scoped)".

(** The probed fields: the details found and the names of the fields. *)
Definition probe_rules (spec : option (gmap string GoVal)) : gmap string GoVal * list string :=
  match default [] (SafeNestedSlice spec ["rules"]) with
  | [] => (∅, [])
  | rules => ({[ "ruleCount" := VInt (go_len rules) ]}, ["rules"])
  end.

Definition probe_parameters (spec : option (gmap string GoVal)) : gmap string GoVal * list string :=
  match SafeNestedMap spec ["parameters"] with
  | Some _ => ({[ "hasParameters" := VBool true ]}, ["parameters"])
  | None => (∅, [])
  end.

Definition probe_match (spec : option (gmap string GoVal)) : gmap string GoVal * list string :=
  match SafeNestedMap spec ["match"] with
  | None => (∅, [])
  | Some m =>
      let '(d1, f1) := match default [] (SafeNestedSlice (Some m) ["kinds"]) with
                       | [] => (∅, [])
                       | kinds => ({[ "matchKinds" := VInt (go_len kinds) ]}, ["match.kinds"])
                       end in
      let '(d2, f2) := match SafeNestedStringSlice (Some m) ["namespaces"] with
                       | [] => (∅, [])
                       | ns => ({[ "matchNamespaces" := VStrs ns ]}, ["match.namespaces"])
                       end in
      ((d1 ∪ d2 : gmap string GoVal), (f1 ++ f2)%list)
  end.

Definition probe (spec : option (gmap string GoVal)) (ws ns : option LabelSelector) : gmap string GoVal :=
  let f0 := (match ws with Some _ => ["workloadSelector"] | None => [] end ++
             match ns with Some _ => ["namespaceSelector"] | None => [] end)%list in
  let '(d1, f1) := probe_rules spec in
  let '(d2, f2) := probe_parameters spec in
  let '(d3, f3) := probe_match spec in
  let discoveredFields := (f0 ++ f1 ++ f2 ++ f3)%list in
  let details : gmap string GoVal := d1 ∪ d2 ∪ d3 in
  if discoveredFields != [] then <["discoveredFields" := VStrs discoveredFields]> details else details.

Definition generic_constraint (obj : Unstructured) (gvr : GroupVersionResource) : Constraint :=
  let annotations := GetAnnotations obj in
  let spec := SafeNestedMap (Some (Object obj)) ["spec"] in
  let '(ws, ns) := extractSelectors spec in
  let summary := getAnnotation annotations annotationSummary in
  {| c_UID := GetUID obj; c_Source := gvr; c_Name := GetName obj; c_Namespace := GetNamespace obj;
     c_AffectedNamespaces := if GetNamespace obj != EmptyString then [GetNamespace obj] else [];
     c_NamespaceSelector := ns; c_WorkloadSelector := ws; c_ResourceTargets := [];
     c_ConstraintType := annotated_type annotations; c_Effect := "unknown";
     c_Severity := annotated_severity annotations; c_Details := Some (probe spec ws ns);
     c_Summary := if summary == EmptyString then default_summary obj else summary;
     c_RemediationHint := "This constraint was auto-discovered. Contact your platform team for details.";
     c_Remediation := []; c_Tags := []; c_RawObject := Some obj |}.

Definition ParseWithGVR (obj : Unstructured) (gvr : GroupVersionResource) : list Constraint * option error :=
  ([generic_constraint obj gvr], None).

(** The assignments of [ParseWithConfig] to the first constraint. *)
Definition apply_severity (obj : Unstructured) (override : string) (sev : Severity) : Severity :=
  if (override != EmptyString) && (getAnnotation (GetAnnotations obj) annotationSeverity == EmptyString)
  then switch override [("Critical", SeverityCritical); ("Warning", SeverityWarning); ("Info", SeverityInfo)] sev
  else sev.

Definition selector_at (obj : Unstructured) (path : string) (cur : option LabelSelector) : option LabelSelector :=
  if path != EmptyString then or_else (SafeNestedLabelSelector (Some (Object obj)) (splitFieldPath path)) cur else cur.

Definition string_at (obj : Unstructured) (path cur : string) : string :=
  if path != EmptyString
  then let s := SafeNestedString (Some (Object obj)) (splitFieldPath path) in if s != EmptyString then s else cur
  else cur.

Definition configure (obj : Unstructured) (cfg : ParseConfig) (c : Constraint) : Constraint :=
  let sev := apply_severity obj (pc_SeverityOverride cfg) (c_Severity c) in
  let '(ws, ns, eff, sum) :=
    match pc_FieldPaths cfg with
    | None => (c_WorkloadSelector c, c_NamespaceSelector c, c_Effect c, c_Summary c)
    | Some fp =>
        (selector_at obj (SelectorPath fp) (c_WorkloadSelector c),
         selector_at obj (NamespaceSelectorPath fp) (c_NamespaceSelector c),
         string_at obj (EffectPath fp) (c_Effect c),
         if getAnnotation (GetAnnotations obj) annotationSummary == EmptyString
         then string_at obj (SummaryPath fp) (c_Summary c) else c_Summary c)
    end in
  {| c_UID := c_UID c; c_Source := c_Source c; c_Name := c_Name c; c_Namespace := c_Namespace c;
     c_AffectedNamespaces := c_AffectedNamespaces c; c_NamespaceSelector := ns; c_WorkloadSelector := ws;
     c_ResourceTargets := c_ResourceTargets c; c_ConstraintType := c_ConstraintType c; c_Effect := eff;
     c_Severity := sev; c_Details := c_Details c; c_Summary := sum; c_RemediationHint := c_RemediationHint c;
     c_Remediation := c_Remediation c; c_Tags := c_Tags c; c_RawObject := c_RawObject c |}.

Definition ParseWithConfig (obj : Unstructured) (gvr : GroupVersionResource) (cfg : ParseConfig) : list Constraint * option error :=
  match ParseWithGVR obj gvr with
  | (_, Some err) => ([], Some err)
  | ([], None) => ([], None)
  | (c :: rest, None) => (configure obj cfg c :: rest, None)
  end.

Definition Parse (obj : Unstructured) : list Constraint * option error :=
  let gvk := GetGroupVersionKind obj in
  ParseWithGVR obj (mkGVR (k_Group gvk) (k_Version gvk) (guessResource (k_Kind gvk))).
End adapter.

(** ** Theorems *)

(** What the [switch] on a severity can give. *)
Lemma annotated_severity_known annotations :
  annotated_severity annotations ∈ [SeverityCritical; SeverityWarning; SeverityInfo].
Proof. unfold annotated_severity. apply switch_forall; [repeat constructor; simpl; set_solver|set_solver]. Qed.

Section theorems.
Context {AM : Apimachinery} {AML : ApimachineryLaws AM}.

(** An unknown object gives exactly one constraint, under its own UID, name
    and namespace and the GVR it was found under, with one of the three
    severities, whatever the profile configures. *)
Theorem ParseWithConfig_total obj gvr cfg :
  ∃ c, ParseWithConfig obj gvr cfg = ([c], None) ∧
    c_UID c = GetUID obj ∧ c_Source c = gvr ∧ c_Name c = GetName obj ∧ c_Namespace c = GetNamespace obj ∧
    c_Severity c ∈ [SeverityCritical; SeverityWarning; SeverityInfo] ∧ c_Details c ≠ None.
Proof.
  unfold ParseWithConfig, ParseWithGVR. eexists. split; [reflexivity|].
  assert (c_Severity (generic_constraint obj gvr) = annotated_severity (GetAnnotations obj) ∧
          c_Details (generic_constraint obj gvr) ≠ None ∧ c_UID (generic_constraint obj gvr) = GetUID obj ∧
          c_Source (generic_constraint obj gvr) = gvr ∧ c_Name (generic_constraint obj gvr) = GetName obj ∧
          c_Namespace (generic_constraint obj gvr) = GetNamespace obj) as (Hs & Hd & H1 & H2 & H3 & H4).
  { unfold generic_constraint. by destruct (extractSelectors _). }
  generalize dependent (generic_constraint obj gvr). intros c Hs Hd H1 H2 H3 H4.
  unfold configure. destruct (pc_FieldPaths cfg); simpl; split_and!; try done;
    unfold apply_severity; rewrite Hs; (case_match; [apply switch_forall|]);
    try apply annotated_severity_known; repeat constructor; simpl; set_solver.
Qed.

(** Annotations on the object win over the profile: with a severity
    annotation the override is ignored, and with a summary annotation the
    configured summary path is. *)
Theorem ParseWithConfig_annotation_wins obj gvr cfg c :
  ParseWithConfig obj gvr cfg = ([c], None) →
  (getAnnotation (GetAnnotations obj) annotationSeverity ≠ EmptyString →
   c_Severity c = annotated_severity (GetAnnotations obj)) ∧
  (getAnnotation (GetAnnotations obj) annotationSummary ≠ EmptyString →
   c_Summary c = getAnnotation (GetAnnotations obj) annotationSummary).
Proof.
  unfold ParseWithConfig, ParseWithGVR. intros [= <-].
  assert (c_Severity (generic_constraint obj gvr) = annotated_severity (GetAnnotations obj) ∧
          c_Summary (generic_constraint obj gvr) =
            (let s := getAnnotation (GetAnnotations obj) annotationSummary in if s == EmptyString then default_summary obj else s))
    as [Hs Hm].
  { unfold generic_constraint. by destruct (extractSelectors _). }
  generalize dependent (generic_constraint obj gvr). intros c Hs Hm. split; intros Ha.
  - transitivity (apply_severity obj (pc_SeverityOverride cfg) (c_Severity c)).
    { unfold configure. by destruct (pc_FieldPaths cfg). }
    unfold apply_severity. by rewrite (bool_decide_eq_false_2 (getAnnotation _ annotationSeverity = _)), andb_false_r.
  - transitivity (c_Summary c).
    { unfold configure. destruct (pc_FieldPaths cfg); [|done].
      by rewrite (bool_decide_eq_false_2 (getAnnotation _ annotationSummary = _)). }
    rewrite Hm. simpl. by rewrite (bool_decide_eq_false_2 (getAnnotation _ annotationSummary = _)).
Qed.

(** A configured selector path is followed: the selector written under the
    dotted path is the constraint's workload selector. *)
Theorem ParseWithConfig_selector_path obj gvr fp override ls c :
  SelectorPath fp ≠ EmptyString →
  field_at (Object obj) (splitFieldPath (SelectorPath fp)) = Some (encode_selector ls) →
  ParseWithConfig obj gvr (mkParseConfig (Some fp) override) = ([c], None) →
  c_WorkloadSelector c = Some ls.
Proof.
  intros Hp Hf. unfold ParseWithConfig, ParseWithGVR. intros [= <-]. unfold configure. simpl.
  unfold selector_at. rewrite bool_decide_eq_false_2 by done. simpl.
  by rewrite (selector_roundtrip _ _ _ Hf).
Qed.
End theorems.

(** ** Evaluation *)

Definition example_object : Unstructured :=
  mkUnstructured
    {[ "kind" := VStr "Widget";
       "metadata" := VMap {[ "name" := VStr "w"; "uid" := VStr "g1"; "namespace" := VStr "dev";
                             "annotations" := VMap {[ "nightjar.io/severity" := VStr "critical" ]} ]};
       "spec" := VMap {[ "target" := VMap {[ "sel" := encode_selector example_selector ]} ]} ]}.

Definition example_paths : FieldPaths := mkFieldPaths "spec.target.sel" EmptyString EmptyString EmptyString.

Lemma ParseWithConfig_annotation_wins_witness :
  ∃ c, ParseWithConfig example_object networkpolicies_gvr (mkParseConfig None "Info") = ([c], None) ∧
       c_Severity c = SeverityCritical.
Proof.
  eexists. split; [reflexivity|].
  refine (proj1 (ParseWithConfig_annotation_wins example_object networkpolicies_gvr (mkParseConfig None "Info") _ eq_refl) _).
  vm_compute. discriminate.
Defined.

Lemma ParseWithConfig_selector_path_witness :
  ∃ c, ParseWithConfig example_object networkpolicies_gvr (mkParseConfig (Some example_paths) EmptyString) = ([c], None) ∧
       c_WorkloadSelector c = Some example_selector.
Proof.
  eexists. split; [reflexivity|].
  eapply (ParseWithConfig_selector_path example_object networkpolicies_gvr example_paths EmptyString);
    [discriminate|reflexivity|reflexivity].
Defined.
End Generic.
