(* ===== verification/Discovery.v ===== *)
(** * The discovery engine (internal/discovery/engine.go) and the profile
      controller (internal/controller/constraintprofile_controller.go)

    The engine classifies API resources, runs an informer for each
    constraint-like one, routes observed objects to adapters and keeps the
    index.  Informers are goroutines with a stop channel: [running] lists those
    ever started, with the engine's channel ([None]) or a profile's own; a
    channel is a number, and closing one twice panics ([None] result of a
    step).  The answers of the API server are arguments. *)

From S2P Require Import Prelude GoStd Types Apimachinery Util Registry Indexer Channel GenericAdapter.
From Stdlib Require Import Ascii.

Open Scope go_scope.
#[local] Open Scope string_scope.

Definition defaultPolicyGroups : gset string :=
  list_to_set ["networking.k8s.io"; "cilium.io"; "constraints.gatekeeper.sh"; "kyverno.io"; "security.istio.io";
               "networking.istio.io"; "admissionregistration.k8s.io"; "policy"].

Definition defaultPolicyNameHints : list string :=
  ["policy"; "policies"; "constraint"; "constraints"; "rule"; "rules"; "quota"; "quotas"; "limit"; "limits"; "authorization"].

Definition IsPolicyAnnotation : string := "nightjar.io/is-policy".

Record profileState := mkProfile {
  p_gvr : GroupVersionResource;
  p_adapter : string;
  p_fieldPaths : option Generic.FieldPaths;
  p_severity : string;
  p_enabled : bool;
  p_stopCh : option nat;           (**r the profile's stop channel, nil-able *)
}.

Record Engine := mkEngine {
  e_registry : Registry;
  e_indexer : Indexer;
  e_dynamic : bool;                (**r a dynamic client is set *)
  watchedGVRs : gset GroupVersionResource;
  informers : gset GroupVersionResource;
  e_stopped : bool;                (**r [stopOnce] has run, [stopCh] is closed *)
  policyGroups : gset string;
  nameHints : list string;
  profiles : gmap string profileState;
  annotatedCRDs : gset GroupVersionResource;
  checkAnnotation : bool;
  e_nextCh : nat;                  (**r the next channel [make] returns *)
  e_closedCh : gset nat;           (**r the profile channels that are closed *)
  running : list (GroupVersionResource * option nat);
}.

Definition NewEngine (registry : Registry) (idx : Indexer) (dynamicClient : bool) : Engine :=
  mkEngine registry idx dynamicClient ∅ ∅ false defaultPolicyGroups defaultPolicyNameHints ∅ ∅ true 0 ∅ [].

(** Updates of one group of fields. *)
Definition set_indexer (idx : Indexer) (e : Engine) : Engine :=
  mkEngine (e_registry e) idx (e_dynamic e) (watchedGVRs e) (informers e) (e_stopped e) (policyGroups e) (nameHints e)
           (profiles e) (annotatedCRDs e) (checkAnnotation e) (e_nextCh e) (e_closedCh e) (running e).
Definition set_watch (w i : gset GroupVersionResource) (r : list (GroupVersionResource * option nat)) (e : Engine) : Engine :=
  mkEngine (e_registry e) (e_indexer e) (e_dynamic e) w i (e_stopped e) (policyGroups e) (nameHints e)
           (profiles e) (annotatedCRDs e) (checkAnnotation e) (e_nextCh e) (e_closedCh e) r.
Definition set_profiles (ps : gmap string profileState) (e : Engine) : Engine :=
  mkEngine (e_registry e) (e_indexer e) (e_dynamic e) (watchedGVRs e) (informers e) (e_stopped e) (policyGroups e) (nameHints e)
           ps (annotatedCRDs e) (checkAnnotation e) (e_nextCh e) (e_closedCh e) (running e).
Definition set_channels (next : nat) (closed : gset nat) (e : Engine) : Engine :=
  mkEngine (e_registry e) (e_indexer e) (e_dynamic e) (watchedGVRs e) (informers e) (e_stopped e) (policyGroups e) (nameHints e)
           (profiles e) (annotatedCRDs e) (checkAnnotation e) next closed (running e).
Definition set_annotated (a : gset GroupVersionResource) (e : Engine) : Engine :=
  mkEngine (e_registry e) (e_indexer e) (e_dynamic e) (watchedGVRs e) (informers e) (e_stopped e) (policyGroups e) (nameHints e)
           (profiles e) a (checkAnnotation e) (e_nextCh e) (e_closedCh e) (running e).
Definition set_stopped (b : bool) (e : Engine) : Engine :=
  mkEngine (e_registry e) (e_indexer e) (e_dynamic e) (watchedGVRs e) (informers e) b (policyGroups e) (nameHints e)
           (profiles e) (annotatedCRDs e) (checkAnnotation e) (e_nextCh e) (e_closedCh e) (running e).

Definition SetAdditionalGroups (groups : list string) (e : Engine) : Engine :=
  mkEngine (e_registry e) (e_indexer e) (e_dynamic e) (watchedGVRs e) (informers e) (e_stopped e)
           (policyGroups e ∪ list_to_set groups) (nameHints e) (profiles e) (annotatedCRDs e) (checkAnnotation e)
           (e_nextCh e) (e_closedCh e) (running e).
Definition SetAdditionalHints (hints : list string) (e : Engine) : Engine :=
  mkEngine (e_registry e) (e_indexer e) (e_dynamic e) (watchedGVRs e) (informers e) (e_stopped e)
           (policyGroups e) (nameHints e ++ hints) (profiles e) (annotatedCRDs e) (checkAnnotation e)
           (e_nextCh e) (e_closedCh e) (running e).
Definition SetCheckAnnotation (enabled : bool) (e : Engine) : Engine :=
  mkEngine (e_registry e) (e_indexer e) (e_dynamic e) (watchedGVRs e) (informers e) (e_stopped e)
           (policyGroups e) (nameHints e) (profiles e) (annotatedCRDs e) enabled (e_nextCh e) (e_closedCh e) (running e).

(** An informer goroutine that has not been told to stop. *)
Definition alive (e : Engine) (i : GroupVersionResource * option nat) : bool :=
  match i.2 with
  | None => negb (e_stopped e)
  | Some ch => bool_decide (ch ∉ e_closedCh e)
  end.

(** ** Classification *)

(** The first enabled profile of the GVR met by [range]. *)
Definition enabled_profile (σ : Shuffle) (e : Engine) (gvr : GroupVersionResource) : option profileState :=
  head (filter (fun ps => p_enabled ps = true ∧ p_gvr ps = gvr) (range_values σ (profiles e))).

Definition isConstraintLike (σ : Shuffle) (e : Engine) (gvr : GroupVersionResource) (resourceName : string) : bool :=
  let profileMatch := match enabled_profile σ e gvr with Some _ => true | None => false end in
  let annotated := bool_decide (gvr ∈ annotatedCRDs e) in
  if bool_decide (g_Group gvr ∈ policyGroups e) then true
  else match ForGVR (e_registry e) gvr with
  | Some _ => true
  | None =>
      if (g_Group gvr == EmptyString) && ((resourceName == "resourcequotas") || (resourceName == "limitranges")) then true
      else
        let lower := strings_ToLower resourceName in
        if existsb (fun hint => strings_Contains lower hint) (nameHints e) then true
        else if profileMatch then true
        else annotated
  end.

Section engine.
Context {AM : Apimachinery}.

(** The GVR of an annotated CRD, from its unstructured form. *)
Definition crd_gvr (crd : Unstructured) : option GroupVersionResource :=
  match GetAnnotations crd with
  | None => None
  | Some ann =>
      if default EmptyString (ann !! IsPolicyAnnotation) != "true" then None
      else
        match Object crd !! "spec" with
        | Some (VMap spec) =>
            let group := default EmptyString (v ← spec !! "group"; as_string v) in
            match spec !! "names" with
            | Some (VMap names) =>
                let plural := default EmptyString (v ← names !! "plural"; as_string v) in
                if (group == EmptyString) || (plural == EmptyString) then None
                else match spec !! "versions" with
                     | Some (VSlice (VMap firstVer :: _)) =>
                         let version := default EmptyString (v ← firstVer !! "name"; as_string v) in
                         if version == EmptyString then None else Some (mkGVR group version plural)
                     | _ => None
                     end
            | _ => None
            end
        | _ => None
        end
  end.

(** [crds] is the answer to listing the CRDs. *)
Definition refreshAnnotatedCRDs (crds : list Unstructured + error) (e : Engine) : Engine :=
  if negb (e_dynamic e) then e
  else match crds with
       | inr _ => e
       | inl items => set_annotated (list_to_set (omap crd_gvr items)) e
       end.

(** ** Scanning *)

(** [startInformer]; [handlerOk] is whether [AddEventHandler] succeeds. *)
Definition startInformer (handlerOk : GroupVersionResource -> bool) (gvr : GroupVersionResource) (e : Engine) : Engine :=
  if handlerOk gvr then set_watch (watchedGVRs e) ({[gvr]} ∪ informers e) ((gvr, None) :: running e) e else e.

(** The GVRs of the answer that the engine treats as constraints. *)
Definition discovered (σ : Shuffle) (lists : list (string * list string)) (e : Engine) : list GroupVersionResource :=
  mjoin ((fun l : string * list string =>
    match ParseGroupVersion l.1 with
    | inr _ => []
    | inl (group, version) =>
        omap (fun name =>
          if strings_Contains name "/" then None
          else let gvr := mkGVR group version name in
               if isConstraintLike σ e gvr name then Some gvr else None) l.2
    end) <$> lists).

Definition suppressed (e : Engine) : gset GroupVersionResource :=
  list_to_set (p_gvr <$> filter (fun ps => p_enabled ps = false) ((map_to_list (profiles e)).*2)).

(** The loop that starts informers. *)
Fixpoint watch_loop (handlerOk : GroupVersionResource -> bool) (sup : gset GroupVersionResource)
    (gvrs : list GroupVersionResource) (e : Engine) : Engine :=
  match gvrs with
  | [] => e
  | gvr :: rest =>
      if bool_decide (gvr ∈ sup) then watch_loop handlerOk sup rest e
      else if bool_decide (gvr ∈ watchedGVRs e) then watch_loop handlerOk sup rest e
      else watch_loop handlerOk sup rest
             (startInformer handlerOk gvr (set_watch ({[gvr]} ∪ watchedGVRs e) (informers e) (running e) e))
  end.

(** [lists] is what ServerPreferredResources returns (its error is only
    logged), [crds] the answer to listing the CRDs. *)
Definition scan (σ : Shuffle) (handlerOk : GroupVersionResource -> bool) (lists : list (string * list string))
    (crds : list Unstructured + error) (e : Engine) : Engine :=
  let found := discovered σ lists e in
  let e1 := if checkAnnotation e then refreshAnnotatedCRDs crds e else e in
  watch_loop handlerOk (suppressed e1) found e1.

(** ** Objects *)

Definition parseObject (σ : Shuffle) (e : Engine) (gvr : GroupVersionResource) (obj : Unstructured)
    : list Constraint * option error :=
  let profileCfg := enabled_profile σ e gvr in
  let named :=
    match profileCfg with
    | Some ps => if (p_adapter ps != EmptyString) && (p_adapter ps != "generic") then ForName (e_registry e) (p_adapter ps) else None
    | None => None
    end in
  match named with
  | Some adapter => a_Parse adapter obj
  | None =>
      match ForGVR (e_registry e) gvr with
      | Some adapter => a_Parse adapter obj
      | None =>
          match ForGroup (e_registry e) (g_Group gvr) with
          | Some adapter => a_Parse adapter obj
          | None =>
              match profileCfg with
              | Some ps => Generic.ParseWithConfig obj gvr (Generic.mkParseConfig (p_fieldPaths ps) (p_severity ps))
              | None => Generic.ParseWithGVR obj gvr
              end
          end
      end
  end.

(** The loops [for _, c := range constraints { e.indexer.Upsert(c) }] and
    [... Delete(c.UID)], with the events of the index. *)
Fixpoint upsert_all (cs : list Constraint) (idx : Indexer) : Indexer * list IndexEvent :=
  match cs with
  | [] => (idx, [])
  | c :: rest => let '(i1, ev1) := Upsert c idx in let '(i2, ev2) := upsert_all rest i1 in (i2, (ev1 ++ ev2)%list)
  end.
Fixpoint delete_all (uids : list UID) (idx : Indexer) : Indexer * list IndexEvent :=
  match uids with
  | [] => (idx, [])
  | uid :: rest => let '(i1, ev1) := Delete uid idx in let '(i2, ev2) := delete_all rest i1 in (i2, (ev1 ++ ev2)%list)
  end.

(** What an informer hands to its handlers. *)
Inductive Delivered :=
  | DObject (obj : Unstructured)
  | DTombstone (obj : option Unstructured)   (**r DeletedFinalStateUnknown *)
  | DOther.

Definition handleAdd (σ : Shuffle) (gvr : GroupVersionResource) (d : Delivered) (e : Engine) : Engine * list IndexEvent :=
  if negb (bool_decide (gvr ∈ watchedGVRs e)) then (e, [])
  else match d with
  | DObject obj =>
      match parseObject σ e gvr obj with
      | (_, Some _) => (e, [])
      | (cs, None) => let '(idx, ev) := upsert_all cs (e_indexer e) in (set_indexer idx e, ev)
      end
  | _ => (e, [])
  end.

Definition handleUpdate (σ : Shuffle) (gvr : GroupVersionResource) (d : Delivered) (e : Engine) : Engine * list IndexEvent :=
  handleAdd σ gvr d e.

Definition delivered_object (d : Delivered) : option Unstructured :=
  match d with DObject obj => Some obj | DTombstone o => o | DOther => None end.

Definition handleDelete (σ : Shuffle) (gvr : GroupVersionResource) (d : Delivered) (e : Engine) : Engine * list IndexEvent :=
  match delivered_object d with
  | None => (e, [])
  | Some obj =>
      match parseObject σ e gvr obj with
      | ((_ :: _) as cs, None) => let '(idx, ev) := delete_all (c_UID <$> cs) (e_indexer e) in (set_indexer idx e, ev)
      | _ => let '(idx, ev) := Delete (GetUID obj) (e_indexer e) in (set_indexer idx e, ev)
      end
  end.

(** ** Profiles *)

(** [close(ps.stopCh)] if it is not nil: [None] is the panic. *)
Definition stopProfileInformerLocked (ps : profileState) (e : Engine) : option (profileState * Engine) :=
  match p_stopCh ps with
  | None => Some (ps, e)
  | Some ch =>
      if bool_decide (ch ∈ e_closedCh e) then None
      else Some (mkProfile (p_gvr ps) (p_adapter ps) (p_fieldPaths ps) (p_severity ps) (p_enabled ps) None,
                 set_channels (e_nextCh e) ({[ch]} ∪ e_closedCh e) e)
  end.

Definition stopGVRInformerLocked (gvr : GroupVersionResource) (e : Engine) : Engine :=
  set_watch (watchedGVRs e ∖ {[gvr]}) (informers e ∖ {[gvr]}) (running e) e.

Definition startProfileInformer (handlerOk : GroupVersionResource -> bool) (gvr : GroupVersionResource) (stopCh : nat)
    (e : Engine) : Engine :=
  if negb (e_dynamic e) then e
  else if handlerOk gvr then set_watch (watchedGVRs e) ({[gvr]} ∪ informers e) ((gvr, Some stopCh) :: running e) e
  else e.

(** v1alpha1.ConstraintProfile, by the fields the engine reads. *)
Record ConstraintProfile := mkConstraintProfile {
  cp_Name : string;
  cp_GVR : GroupVersionResource;
  cp_Adapter : string;
  cp_Enabled : bool;
  cp_Severity : string;
  cp_FieldPaths : option Generic.FieldPaths;
}.

Definition RegisterProfile (handlerOk : GroupVersionResource -> bool) (profile : ConstraintProfile) (e : Engine) : option Engine :=
  let name := cp_Name profile in
  let gvr := cp_GVR profile in
  e1 ← match profiles e !! name with
       | Some existing =>
           if (p_gvr existing != gvr) || negb (cp_Enabled profile)
           then snd <$> stopProfileInformerLocked existing e
           else Some e
       | None => Some e
       end;
  let start := cp_Enabled profile && negb (bool_decide (gvr ∈ watchedGVRs e1)) in
  let ch := e_nextCh e1 in
  let ps := mkProfile gvr (cp_Adapter profile) (cp_FieldPaths profile) (cp_Severity profile) (cp_Enabled profile)
                      (if start then Some ch else None) in
  let e2 := set_profiles (<[name := ps]> (profiles e1)) e1 in
  Some (if negb (cp_Enabled profile) then stopGVRInformerLocked gvr e2
        else if start
        then startProfileInformer handlerOk gvr ch
               (set_channels (S ch) (e_closedCh e2) (set_watch ({[gvr]} ∪ watchedGVRs e2) (informers e2) (running e2) e2))
        else e2).

Definition gvr_needed (e : Engine) (gvr : GroupVersionResource) : bool :=
  bool_decide (map_Exists (fun _ other => p_enabled other = true ∧ p_gvr other = gvr) (profiles e)).

Definition UnregisterProfile (σ : Shuffle) (name : string) (e : Engine) : option (Engine * list IndexEvent) :=
  match profiles e !! name with
  | None => Some (e, [])
  | Some ps =>
      let gvr := p_gvr ps in
      '(_, e1) ← stopProfileInformerLocked ps e;
      let e2 := set_profiles (delete name (profiles e1)) e1 in
      if gvr_needed e2 gvr then Some (e2, [])
      else
        let e3 := stopGVRInformerLocked gvr e2 in
        let '(idx, ev, _) := DeleteBySource σ gvr (e_indexer e3) in
        Some (set_indexer idx e3, ev)
  end.

(** The loop of [Stop] over the profiles. *)
Fixpoint stop_profiles (names : list string) (e : Engine) : option Engine :=
  match names with
  | [] => Some e
  | name :: rest =>
      match profiles e !! name with
      | None => stop_profiles rest e
      | Some ps =>
          '(ps', e1) ← stopProfileInformerLocked ps e;
          stop_profiles rest (set_profiles (<[name := ps']> (profiles e1)) e1)
      end
  end.

Definition Stop (σ : Shuffle) (e : Engine) : option Engine :=
  if e_stopped e then Some e
  else stop_profiles ((range σ (profiles e)).*1) (set_stopped true e).

(** What a scan meets: the order of its maps, the informers that take a
    handler, the answers to discovery and to the list of CRDs. *)
Record ScanInput := mkScanInput {
  si_order : Shuffle; si_handlerOk : GroupVersionResource -> bool; si_lists : list (string * list string);
  si_crds : list Unstructured + error }.

Definition scan_with (i : ScanInput) (e : Engine) : Engine := scan (si_order i) (si_handlerOk i) (si_lists i) (si_crds i) e.

(** [Start]: the first scan, then the goroutine that rescans; a scan has no
    error, so neither has [Start].  [None] is the panic of the ticker of that
    goroutine. *)
Definition Start (rescanInterval : Duration) (first : ScanInput) (wakes : list (Wake ScanInput)) (e : Engine)
    : option (bool * Engine) :=
  with_ticker rescanInterval scan_with wakes (scan_with first e).

Definition WatchedGVRs (σ : Shuffle) (e : Engine) : list GroupVersionResource := shuffle σ (elements (watchedGVRs e)).

(** ** The controller *)

(** The answer to getting the profile. *)
Inductive ProfileAnswer :=
  | ProfileFound (profile : ConstraintProfile)
  | ProfileNotFound
  | ProfileError (err : error).

(** [None] is a panic; otherwise the engine, the index events and the error. *)
Definition Reconcile (σ : Shuffle) (handlerOk : GroupVersionResource -> bool) (name : string) (answer : ProfileAnswer)
    (e : Engine) : option (Engine * list IndexEvent * option error) :=
  match answer with
  | ProfileNotFound => '(e', ev) ← UnregisterProfile σ name e; Some (e', ev, None)
  | ProfileError err => Some (e, [], Some err)
  | ProfileFound profile => e' ← RegisterProfile handlerOk profile e; Some (e', [], None)
  end.
End engine.


(** ** Sequences of steps

    Each critical section that changes the engine's own state is one step; the
    periodic scan, the controller's workers, the informers' callbacks and
    [Stop] interleave in any order.  A scan is two steps, the refresh of the
    annotations and the loop that starts informers, the latter with whatever
    GVRs were classified before it ([scan_steps]).  The callbacks change the
    index only. *)

Inductive engine_op :=
  | OpRefresh (crds : list Unstructured + error)
  | OpWatch (handlerOk : GroupVersionResource -> bool) (found : list GroupVersionResource)
  | OpReconcile (σ : Shuffle) (handlerOk : GroupVersionResource -> bool) (name : string) (answer : ProfileAnswer)
  | OpAdd (σ : Shuffle) (gvr : GroupVersionResource) (d : Delivered)
  | OpUpdate (σ : Shuffle) (gvr : GroupVersionResource) (d : Delivered)
  | OpRemove (σ : Shuffle) (gvr : GroupVersionResource) (d : Delivered)
  | OpStop (σ : Shuffle).

Section runs.
Context {AM : Apimachinery}.

Definition engine_step (e : Engine) (op : engine_op) : option Engine :=
  match op with
  | OpRefresh crds => Some (refreshAnnotatedCRDs crds e)
  | OpWatch h found => Some (watch_loop h (suppressed e) found e)
  | OpReconcile σ h name answer => r ← Reconcile σ h name answer e; Some r.1.1
  | OpAdd σ gvr d => Some (handleAdd σ gvr d e).1
  | OpUpdate σ gvr d => Some (handleUpdate σ gvr d e).1
  | OpRemove σ gvr d => Some (handleDelete σ gvr d e).1
  | OpStop σ => Stop σ e
  end.

Fixpoint engine_run (e : Engine) (ops : list engine_op) : option Engine :=
  match ops with
  | [] => Some e
  | op :: rest => e' ← engine_step e op; engine_run e' rest
  end.

Lemma scan_steps σ h lists crds e :
  engine_run e ((if checkAnnotation e then [OpRefresh crds] else []) ++ [OpWatch h (discovered σ lists e)]) =
  Some (scan σ h lists crds e).
Proof. unfold scan. by destruct (checkAnnotation e). Qed.
End runs.

(** ** The invariant: who may close which channel *)

(** A profile's channel is open, was made by the engine, and no other profile
    holds it; closed channels were made by the engine too. *)
Definition channels_ok (ps : gmap string profileState) (next : nat) (closed : gset nat) : Prop :=
  (∀ n p ch, ps !! n = Some p → p_stopCh p = Some ch → ch < next ∧ ch ∉ closed) ∧
  (∀ n1 n2 p1 p2 ch, ps !! n1 = Some p1 → ps !! n2 = Some p2 →
     p_stopCh p1 = Some ch → p_stopCh p2 = Some ch → n1 = n2) ∧
  (∀ ch, ch ∈ closed → ch < next).

Definition engine_ok (e : Engine) : Prop := channels_ok (profiles e) (e_nextCh e) (e_closedCh e).

Lemma channels_ok_replace ps next closed n p :
  channels_ok ps next closed → p_stopCh p = None → channels_ok (<[n := p]> ps) next closed.
Proof.
  intros (H1 & H2 & H3) Hp. split_and!; [..|done].
  - intros m q ch. rewrite lookup_insert_Some. intros [[-> ->]|[_ Hq]] Hch; [congruence|eauto].
  - intros m1 m2 q1 q2 ch. rewrite !lookup_insert_Some.
    intros [[-> ->]|[_ Hq1]] [[-> ->]|[_ Hq2]] Hc1 Hc2; [congruence..|eauto].
Qed.

Lemma channels_ok_fresh ps next closed n p :
  channels_ok ps next closed → p_stopCh p = Some next → channels_ok (<[n := p]> ps) (S next) closed.
Proof.
  intros (H1 & H2 & H3) Hp. split_and!.
  - intros m q ch. rewrite lookup_insert_Some. intros [[-> ->]|[_ Hq]] Hch.
    + assert (ch = next) as -> by congruence. split; [lia|]. intros Hc%H3. lia.
    + destruct (H1 _ _ _ Hq Hch). split; [lia|done].
  - intros m1 m2 q1 q2 ch. rewrite !lookup_insert_Some.
    intros [[<- <-]|[? Hq1]] [[<- <-]|[? Hq2]] Hc1 Hc2; [done|..|eauto].
    + destruct (H1 _ _ _ Hq2 Hc2). assert (ch = next) by congruence. lia.
    + destruct (H1 _ _ _ Hq1 Hc1). assert (ch = next) by congruence. lia.
  - intros ch Hc%H3. lia.
Qed.

Lemma channels_ok_delete ps next closed n : channels_ok ps next closed → channels_ok (delete n ps) next closed.
Proof.
  intros (H1 & H2 & H3). split_and!; [..|done].
  - intros m q ch. rewrite lookup_delete_Some. intros [_ Hq]. eauto.
  - intros m1 m2 q1 q2 ch. rewrite !lookup_delete_Some. intros [_ Hq1] [_ Hq2]. eauto.
Qed.

(** Closing the channel of a profile that is then dropped or overwritten. *)
Lemma channels_ok_close ps next closed n p ch :
  channels_ok ps next closed → ps !! n = Some p → p_stopCh p = Some ch →
  channels_ok (delete n ps) next ({[ch]} ∪ closed).
Proof.
  intros (H1 & H2 & H3) Hp Hch. split_and!.
  - intros m q c. rewrite lookup_delete_Some. intros [Hne Hq] Hc. destruct (H1 _ _ _ Hq Hc) as [? Hnc].
    split; [done|]. rewrite elem_of_union, elem_of_singleton. intros [->|?]; [|done].
    destruct Hne. by eapply H2.
  - intros m1 m2 q1 q2 c. rewrite !lookup_delete_Some. intros [_ Hq1] [_ Hq2]. eauto.
  - intros c. rewrite elem_of_union, elem_of_singleton. intros [->|?]; [|by apply H3]. by eapply H1.
Qed.

#[export] Hint Resolve channels_ok_replace channels_ok_fresh channels_ok_delete : nightjar.

(** Stopping a profile's informer never panics: it closes the profile's channel
    and nothing else. *)
Lemma stopProfileInformerLocked_ok e n p :
  engine_ok e → profiles e !! n = Some p →
  ∃ p' closed, stopProfileInformerLocked p e = Some (p', set_channels (e_nextCh e) closed e) ∧ p_stopCh p' = None ∧
    (∀ ch, ch ∈ closed ↔ ch ∈ e_closedCh e ∨ p_stopCh p = Some ch) ∧
    channels_ok (delete n (profiles e)) (e_nextCh e) closed.
Proof.
  intros Hok Hp. unfold stopProfileInformerLocked. destruct (p_stopCh p) as [ch|] eqn:Hch.
  - destruct (proj1 Hok _ _ _ Hp Hch) as [_ Hopen]. rewrite bool_decide_false by done.
    eexists _, _. split; [done|]. split_and!; [done|set_solver|by eapply channels_ok_close].
  - exists p, (e_closedCh e). split_and!; [by destruct e|done|naive_solver|by apply channels_ok_delete].
Qed.

(** What one step needs: the channels in order, however the rest changed. *)
Lemma engine_ok_eq e e' :
  profiles e' = profiles e → e_nextCh e' = e_nextCh e → e_closedCh e' = e_closedCh e → engine_ok e → engine_ok e'.
Proof. unfold engine_ok. by intros -> -> ->. Qed.

Section channel_steps.
Context {AM : Apimachinery}.

Lemma startInformer_channels h gvr e :
  profiles (startInformer h gvr e) = profiles e ∧ e_nextCh (startInformer h gvr e) = e_nextCh e ∧
  e_closedCh (startInformer h gvr e) = e_closedCh e.
Proof. unfold startInformer. by destruct (h gvr). Qed.

Lemma watch_loop_channels h sup gvrs e :
  profiles (watch_loop h sup gvrs e) = profiles e ∧ e_nextCh (watch_loop h sup gvrs e) = e_nextCh e ∧
  e_closedCh (watch_loop h sup gvrs e) = e_closedCh e.
Proof.
  revert e. induction gvrs as [|gvr gvrs IH]; intros e; simpl; [done|].
  repeat case_bool_decide; try apply IH.
  destruct (IH (startInformer h gvr (set_watch ({[gvr]} ∪ watchedGVRs e) (informers e) (running e) e))) as (-> & -> & ->).
  by destruct (startInformer_channels h gvr (set_watch ({[gvr]} ∪ watchedGVRs e) (informers e) (running e) e)) as (-> & -> & ->).
Qed.

Lemma refreshAnnotatedCRDs_eq crds e :
  ∃ a, refreshAnnotatedCRDs crds e = set_annotated a e.
Proof.
  unfold refreshAnnotatedCRDs. destruct (e_dynamic e) eqn:E, crds; simpl; try by eexists.
  all: exists (annotatedCRDs e); by destruct e.
Qed.

Lemma handleAdd_eq σ gvr d e : ∃ idx, (handleAdd σ gvr d e).1 = set_indexer idx e.
Proof.
  unfold handleAdd. assert (∃ idx, e = set_indexer idx e) by (exists (e_indexer e); by destruct e).
  case_bool_decide; [|done]. simpl. destruct d as [obj| |]; [|done..].
  destruct (parseObject σ e gvr obj) as [cs [err|]]; [done|]. destruct (upsert_all cs (e_indexer e)) as [idx ev]. by exists idx.
Qed.

Lemma handleDelete_eq σ gvr d e : ∃ idx, (handleDelete σ gvr d e).1 = set_indexer idx e.
Proof.
  unfold handleDelete. destruct (delivered_object d) as [obj|]; [|exists (e_indexer e); by destruct e].
  destruct (parseObject σ e gvr obj) as [[|c cs] [err|]];
    try (destruct (Delete (GetUID obj) (e_indexer e)) as [idx ev]; by exists idx).
  destruct (delete_all (c_UID <$> c :: cs) (e_indexer e)) as [idx ev]. by exists idx.
Qed.

Lemma RegisterProfile_ok h p e : engine_ok e → ∃ e', RegisterProfile h p e = Some e' ∧ engine_ok e'.
Proof.
  intros Hok. unfold RegisterProfile.
  set (m := match profiles e !! cp_Name p with Some _ => _ | None => _ end).
  assert (∃ e1, m = Some e1 ∧ profiles e1 = profiles e ∧
            channels_ok (delete (cp_Name p) (profiles e1)) (e_nextCh e1) (e_closedCh e1)) as (e1 & -> & Hps & Hok1).
  { subst m. destruct (profiles e !! cp_Name p) as [ps|] eqn:Hp; [|exists e; auto with nightjar].
    destruct (negb _ || negb _); [|exists e; auto with nightjar].
    destruct (stopProfileInformerLocked_ok e _ _ Hok Hp) as (p' & closed & -> & _ & _ & Hc).
    by eexists. }
  simpl. eexists. split; [done|]. unfold engine_ok.
  destruct (cp_Enabled p); simpl; [|rewrite <-insert_delete_eq; by apply channels_ok_replace].
  case_bool_decide; simpl; [rewrite <-insert_delete_eq; by apply channels_ok_replace|].
  unfold startProfileInformer. simpl. destruct (e_dynamic e1), (h (cp_GVR p)); simpl;
    rewrite <-insert_delete_eq; by apply channels_ok_fresh.
Qed.

Lemma UnregisterProfile_ok σ n e : engine_ok e → ∃ e' ev, UnregisterProfile σ n e = Some (e', ev) ∧ engine_ok e'.
Proof.
  intros Hok. unfold UnregisterProfile. destruct (profiles e !! n) as [p|] eqn:Hp; [|by exists e, []].
  destruct (stopProfileInformerLocked_ok e n p Hok Hp) as (p' & closed & -> & _ & _ & Hc). simpl.
  destruct (gvr_needed _ _); [by eexists _, _|].
  destruct (DeleteBySource _ _ _) as [[idx ev] k]. by eexists _, _.
Qed.

Lemma stop_profiles_ok names e : engine_ok e → ∃ e', stop_profiles names e = Some e' ∧ engine_ok e'.
Proof.
  revert e. induction names as [|n names IH]; intros e Hok; simpl; [by exists e|].
  destruct (profiles e !! n) as [p|] eqn:Hp; [|by apply IH].
  destruct (stopProfileInformerLocked_ok e n p Hok Hp) as (p' & closed & -> & Hp' & _ & Hc). simpl.
  apply IH. unfold engine_ok. simpl. rewrite <-insert_delete_eq. by apply channels_ok_replace.
Qed.

Lemma engine_step_ok e op : engine_ok e → ∃ e', engine_step e op = Some e' ∧ engine_ok e'.
Proof.
  intros Hok. destruct op as [crds|h found|σ h name answer|σ gvr d|σ gvr d|σ gvr d|σ]; simpl.
  - destruct (refreshAnnotatedCRDs_eq crds e) as [a ->]. by eexists.
  - eexists. split; [done|]. eapply engine_ok_eq; [apply watch_loop_channels..|done].
  - destruct answer as [p| |err]; simpl.
    + destruct (RegisterProfile_ok h p e Hok) as (e' & -> & ?). by exists e'.
    + destruct (UnregisterProfile_ok σ name e Hok) as (e' & ev & -> & ?). by exists e'.
    + by exists e.
  - destruct (handleAdd_eq σ gvr d e) as [idx ->]. by eexists.
  - unfold handleUpdate. destruct (handleAdd_eq σ gvr d e) as [idx ->]. by eexists.
  - destruct (handleDelete_eq σ gvr d e) as [idx ->]. by eexists.
  - unfold Stop. destruct (e_stopped e); [by exists e|]. by apply stop_profiles_ok.
Qed.

(** ** Channels that no profile holds *)

(** An open channel that no profile holds any more. *)
Definition orphan (ch : nat) (e : Engine) : Prop :=
  ch < e_nextCh e ∧ (ch ∉ e_closedCh e) ∧ ∀ n p, profiles e !! n = Some p → p_stopCh p ≠ Some ch.

Lemma orphan_eq ch e e' :
  profiles e' = profiles e → e_nextCh e' = e_nextCh e → e_closedCh e' = e_closedCh e → orphan ch e → orphan ch e'.
Proof. unfold orphan. by intros -> -> ->. Qed.

Lemma stopProfileInformerLocked_orphan ch e n p p' e' :
  orphan ch e → profiles e !! n = Some p → stopProfileInformerLocked p e = Some (p', e') →
  orphan ch e' ∧ profiles e' = profiles e ∧ p_stopCh p' = None.
Proof.
  intros (Hlt & Hnc & Hh) Hp. unfold stopProfileInformerLocked. destruct (p_stopCh p) as [c|] eqn:Hc; [|by intros [= <- <-]; split_and!].
  case_bool_decide; [done|]. intros [= <- <-]. split_and!; [|done..]. split_and!; simpl; [done| |done].
  rewrite elem_of_union, elem_of_singleton. intros [->|?]; [|done]. by eapply Hh.
Qed.

Lemma orphan_insert ch e n p :
  orphan ch e → p_stopCh p ≠ Some ch → orphan ch (set_profiles (<[n := p]> (profiles e)) e).
Proof.
  intros (? & ? & Hh) Hp. split_and!; [done..|]. simpl. intros m q. rewrite lookup_insert_Some. naive_solver.
Qed.

Lemma RegisterProfile_orphan h p ch e e' : orphan ch e → RegisterProfile h p e = Some e' → orphan ch e'.
Proof.
  intros Ho. unfold RegisterProfile.
  set (m := match profiles e !! cp_Name p with Some _ => _ | None => _ end).
  destruct m as [e1|] eqn:Hm; [|done]. assert (orphan ch e1) as Ho1.
  { subst m. destruct (profiles e !! cp_Name p) as [ps|] eqn:Hp; [|naive_solver]. destruct (negb _ || negb _); [|naive_solver].
    destruct (stopProfileInformerLocked ps e) as [[p' e'']|] eqn:Hs; [|done]. simplify_eq/=.
    by eapply stopProfileInformerLocked_orphan. }
  simpl. intros [= <-].
  set (ps := mkProfile _ _ _ _ _ _).
  assert (orphan ch (set_profiles (<[cp_Name p := ps]> (profiles e1)) e1)) as Ho2.
  { apply orphan_insert; [done|]. subst ps. simpl. destruct (_ && _); [|done]. intros [= Heq]. destruct Ho1. lia. }
  destruct (cp_Enabled p); simpl; [|by eapply orphan_eq, Ho2]. case_bool_decide; simpl; [done|].
  destruct Ho2 as (Hlt & Hc & Hh). unfold startProfileInformer. simpl in *.
  destruct (e_dynamic e1), (h (cp_GVR p)); split_and!; simpl; auto with lia.
Qed.

Lemma UnregisterProfile_orphan σ n ch e e' ev : orphan ch e → UnregisterProfile σ n e = Some (e', ev) → orphan ch e'.
Proof.
  intros Ho. unfold UnregisterProfile. destruct (profiles e !! n) as [p|] eqn:Hp; [|naive_solver].
  destruct (stopProfileInformerLocked p e) as [[p' e1]|] eqn:Hs; [|done]. simpl.
  destruct (stopProfileInformerLocked_orphan _ _ _ _ _ _ Ho Hp Hs) as ((Hlt & Hc & Hh) & _ & _).
  assert (orphan ch (set_profiles (delete n (profiles e1)) e1)) as Ho2.
  { split_and!; [done..|]. simpl. intros m q [_ Hq]%lookup_delete_Some. eauto. }
  destruct (gvr_needed _ _); [naive_solver|]. destruct (DeleteBySource _ _ _) as [[idx ev'] k].
  intros [= <- <-]. by eapply orphan_eq, Ho2.
Qed.

Lemma stop_profiles_orphan names ch e e' : orphan ch e → stop_profiles names e = Some e' → orphan ch e'.
Proof.
  revert e. induction names as [|n names IH]; intros e Ho; simpl; [naive_solver|].
  destruct (profiles e !! n) as [p|] eqn:Hp; [|by apply IH].
  destruct (stopProfileInformerLocked p e) as [[p' e1]|] eqn:Hs; [|done]. simpl.
  destruct (stopProfileInformerLocked_orphan _ _ _ _ _ _ Ho Hp Hs) as (Ho1 & _ & Hp').
  apply IH, orphan_insert; congruence.
Qed.

(** No step of the engine closes it. *)
Lemma engine_step_orphan ch e op e' : orphan ch e → engine_step e op = Some e' → orphan ch e'.
Proof.
  intros Ho. destruct op as [crds|h found|σ h name answer|σ gvr d|σ gvr d|σ gvr d|σ]; simpl.
  - destruct (refreshAnnotatedCRDs_eq crds e) as [a ->]. intros [= <-]. done.
  - intros [= <-]. by eapply orphan_eq; [apply watch_loop_channels..|].
  - destruct answer as [p| |err]; simpl; [| |naive_solver].
    + destruct (RegisterProfile h p e) as [e1|] eqn:Hr; [|done]. intros [= <-]. by eapply RegisterProfile_orphan.
    + destruct (UnregisterProfile σ name e) as [[e1 ev]|] eqn:Hr; [|done]. intros [= <-]. by eapply UnregisterProfile_orphan.
  - destruct (handleAdd_eq σ gvr d e) as [idx ->]. naive_solver.
  - unfold handleUpdate. destruct (handleAdd_eq σ gvr d e) as [idx ->]. naive_solver.
  - destruct (handleDelete_eq σ gvr d e) as [idx ->]. naive_solver.
  - unfold Stop. destruct (e_stopped e); [naive_solver|]. by apply stop_profiles_orphan.
Qed.

Lemma engine_run_orphan ch e ops e' : orphan ch e → engine_run e ops = Some e' → orphan ch e'.
Proof.
  revert e. induction ops as [|op ops IH]; intros e Ho; simpl; [naive_solver|].
  destruct (engine_step e op) as [e1|] eqn:Hs; [|done]. apply IH. by eapply engine_step_orphan.
Qed.

Lemma engine_run_ok ops e : engine_ok e → is_Some (engine_run e ops).
Proof.
  revert e. induction ops as [|op ops IH]; intros e Hok; [done|].
  simpl. destruct (engine_step_ok e op Hok) as (e' & -> & Hok'). by apply IH.
Qed.

Lemma NewEngine_ok registry idx dynamicClient : engine_ok (NewEngine registry idx dynamicClient).
Proof. split_and!; simpl; intros *; rewrite ?lookup_empty; done. Qed.

(** ** Theorems *)

(** C6: no interleaving of scans, profile reconciliations, informer callbacks
    and [Stop] closes a stop channel twice: from a new engine every sequence
    of steps completes without a panic. *)
Theorem engine_never_panics registry idx dynamicClient ops :
  is_Some (engine_run (NewEngine registry idx dynamicClient) ops).
Proof. apply engine_run_ok, NewEngine_ok. Qed.
End channel_steps.

(** *** Classification and scanning *)

Section scanning.
Context {AM : Apimachinery}.

Lemma enabled_profile_Some σ e gvr ps :
  enabled_profile σ e gvr = Some ps → (∃ n, profiles e !! n = Some ps) ∧ p_enabled ps = true ∧ p_gvr ps = gvr.
Proof.
  unfold enabled_profile. intros Hh%head_Some_elem_of. apply list_elem_of_filter in Hh as [[??] Hin].
  by rewrite elem_of_range_values in Hin.
Qed.

Lemma enabled_profile_None σ e gvr n ps :
  enabled_profile σ e gvr = None → profiles e !! n = Some ps → p_enabled ps = true → p_gvr ps ≠ gvr.
Proof.
  unfold enabled_profile. intros Hh%head_None Hn Hen Hg.
  assert (ps ∈ filter (fun ps => p_enabled ps = true ∧ p_gvr ps = gvr) (range_values σ (profiles e))) as Hin.
  { rewrite list_elem_of_filter, elem_of_range_values. eauto. }
  rewrite Hh in Hin. by apply not_elem_of_nil in Hin.
Qed.

(** A resource is watched exactly when its group is a policy group, an
    adapter handles it, it is one of the core quota kinds, its lower-cased
    name contains a hint, an enabled profile names it, or its CRD carries the
    annotation; the order of the profiles map does not matter. *)
Theorem isConstraintLike_spec σ e gvr name :
  isConstraintLike σ e gvr name = true ↔
  g_Group gvr ∈ policyGroups e ∨ is_Some (ForGVR (e_registry e) gvr) ∨
  (g_Group gvr = EmptyString ∧ (name = "resourcequotas" ∨ name = "limitranges")) ∨
  (∃ hint, hint ∈ nameHints e ∧ strings_Contains (strings_ToLower name) hint = true) ∨
  (∃ n ps, profiles e !! n = Some ps ∧ p_enabled ps = true ∧ p_gvr ps = gvr) ∨
  gvr ∈ annotatedCRDs e.
Proof.
  unfold isConstraintLike. case_bool_decide as Hg; [tauto|].
  destruct (ForGVR (e_registry e) gvr) as [a|]; [naive_solver|].
  destruct ((g_Group gvr == EmptyString) && _) eqn:Hcore.
  { go_bool. rewrite orb_true_iff, !bool_decide_eq_true in *. tauto. }
  rewrite andb_false_iff, orb_false_iff, !bool_decide_eq_false in Hcore.
  destruct (existsb _ (nameHints e)) eqn:Hh.
  { apply existsb_exists in Hh as (hint & Hin%list_elem_of_In & Hc). naive_solver. }
  assert (¬ ∃ hint, hint ∈ nameHints e ∧ strings_Contains (strings_ToLower name) hint = true) as Hnh.
  { intros (hint & Hin & Hc). apply not_true_iff_false in Hh. apply Hh, existsb_exists.
    exists hint. by rewrite <-list_elem_of_In. }
  destruct (enabled_profile σ e gvr) as [ps|] eqn:Hp.
  - apply enabled_profile_Some in Hp as ([n Hn] & ? & ?). split; [|done]. intros _. do 4 right. left. by exists n, ps.
  - rewrite bool_decide_eq_true. split; [tauto|].
    intros [?|[[]|[?|[?|[(n & ps & Hn & He & Hgv)|?]]]]]; try done; [tauto|].
    destruct (enabled_profile_None _ _ _ _ _ Hp Hn He Hgv).
Qed.

(** Two engines that agree on what classification reads classify alike. *)
Lemma discovered_ext σ lists e e' :
  e_registry e' = e_registry e → policyGroups e' = policyGroups e → nameHints e' = nameHints e →
  profiles e' = profiles e → annotatedCRDs e' = annotatedCRDs e →
  discovered σ lists e' = discovered σ lists e.
Proof.
  intros H1 H2 H3 H4 H5. unfold discovered. f_equal. apply list_fmap_ext. intros _ [gv names] _. simpl.
  destruct (ParseGroupVersion gv) as [[g v]|]; [|done].
  induction names as [|n names IH]; [done|]. cbn [omap list_omap].
  change (list_omap _ _ ?f names) with (omap f names). rewrite IH.
  unfold isConstraintLike, enabled_profile. by rewrite H1, H2, H3, H4, H5.
Qed.

(** What [watch_loop] leaves alone. *)
Lemma watch_loop_frame h sup gvrs e :
  ∃ w i r, watch_loop h sup gvrs e = set_watch w i r e.
Proof.
  revert e. induction gvrs as [|g gvrs IH]; intros e; simpl.
  { exists (watchedGVRs e), (informers e), (running e). by destruct e. }
  repeat case_bool_decide; try apply IH.
  destruct (IH (startInformer h g (set_watch ({[g]} ∪ watchedGVRs e) (informers e) (running e) e))) as (w & i & r & ->).
  exists w, i, r. unfold startInformer. by destruct (h g).
Qed.

Lemma startInformer_watched h gvr e : watchedGVRs (startInformer h gvr e) = watchedGVRs e.
Proof. unfold startInformer. by destruct (h gvr). Qed.

Lemma watch_loop_watched h sup gvrs e gvr :
  gvr ∈ watchedGVRs (watch_loop h sup gvrs e) ↔ gvr ∈ watchedGVRs e ∨ (gvr ∈ gvrs ∧ gvr ∉ sup).
Proof.
  revert e. induction gvrs as [|g gvrs IH]; intros e; simpl; [set_solver|].
  repeat case_bool_decide; rewrite IH; [set_solver|set_solver|].
  rewrite startInformer_watched. simpl.
  destruct (decide (gvr = g)) as [->|]; set_solver.
Qed.

(** The informers of the engine's own channel, per GVR. *)
Definition own_informers (gvr : GroupVersionResource) (e : Engine) : nat :=
  length (filter (fun i => i = (gvr, None)) (running e)).

Lemma watch_loop_informers h sup gvrs e gvr :
  own_informers gvr (watch_loop h sup gvrs e) =
  own_informers gvr e +
    if bool_decide (gvr ∈ gvrs ∧ (gvr ∉ sup) ∧ (gvr ∉ watchedGVRs e) ∧ h gvr = true) then 1 else 0.
Proof.
  revert e. induction gvrs as [|g gvrs IH]; intros e.
  { rewrite bool_decide_false by (intros [?%not_elem_of_nil _]; done). simpl. lia. }
  cbn [watch_loop].
  case_bool_decide as Hs; [|case_bool_decide as Hw]; rewrite IH; clear IH.
  - repeat case_bool_decide; first [lia|set_solver].
  - repeat case_bool_decide; first [lia|set_solver].
  - assert (∀ w, own_informers gvr (startInformer h g (set_watch w (informers e) (running e) e)) =
                 own_informers gvr e + if bool_decide (gvr = g ∧ h g = true) then 1 else 0) as ->.
    { intros w. unfold startInformer, own_informers. destruct (h g); simpl; [rewrite filter_cons; case_decide|];
        repeat case_bool_decide; simplify_eq/=; try lia; naive_solver. }
    rewrite startInformer_watched. simpl.
    rewrite <-Nat.add_assoc. f_equal. destruct (decide (gvr = g)) as [->|Hne].
    + rewrite (bool_decide_false (g ∈ gvrs ∧ _)) by set_solver. rewrite Nat.add_0_r.
      apply if_bool_decide_iff. set_solver.
    + rewrite (bool_decide_false (gvr = g ∧ _)) by tauto. simpl. apply if_bool_decide_iff. set_solver.
Qed.

Lemma watch_loop_idle h sup gvrs e :
  (∀ g, g ∈ gvrs → g ∉ sup → g ∈ watchedGVRs e) → watch_loop h sup gvrs e = e.
Proof.
  induction gvrs as [|g gvrs IH]; intros H; simpl; [done|].
  repeat case_bool_decide; [apply IH; set_solver..|]. set_solver.
Qed.

(** The scans of an unchanging cluster, one after the other. *)
Fixpoint rescan (n : nat) (σ : Shuffle) (h : GroupVersionResource -> bool) (lists : list (string * list string))
    (crds : list Unstructured + error) (e : Engine) : Engine :=
  match n with
  | O => e
  | S n' => scan σ h lists crds (rescan n' σ h lists crds e)
  end.

Lemma refreshAnnotatedCRDs_idem crds e :
  refreshAnnotatedCRDs crds (refreshAnnotatedCRDs crds e) = refreshAnnotatedCRDs crds e.
Proof. unfold refreshAnnotatedCRDs. destruct (e_dynamic e) eqn:E, crds; simpl; rewrite ?E; done. Qed.

Lemma refresh_set_watch crds w i r e :
  refreshAnnotatedCRDs crds (set_watch w i r e) = set_watch w i r (refreshAnnotatedCRDs crds e).
Proof. unfold refreshAnnotatedCRDs. destruct e as [? ? []]; by destruct crds. Qed.

(** The engine before the last loop of [scan]. *)
Definition refreshed (crds : list Unstructured + error) (e : Engine) : Engine :=
  if checkAnnotation e then refreshAnnotatedCRDs crds e else e.

Lemma refreshed_set_watch crds w i r e : refreshed crds (set_watch w i r e) = set_watch w i r (refreshed crds e).
Proof. unfold refreshed. simpl. destruct (checkAnnotation e); [apply refresh_set_watch|done]. Qed.

Lemma refreshed_idem crds e : refreshed crds (refreshed crds e) = refreshed crds e.
Proof.
  unfold refreshed. destruct (checkAnnotation e) eqn:E; [|by rewrite E].
  rewrite refreshAnnotatedCRDs_idem. by case_match.
Qed.

(** A scan of a refreshed engine starts what is missing; the next one is idle. *)
Lemma scan_scan_refreshed σ h lists crds e :
  refreshed crds e = e → scan σ h lists crds (scan σ h lists crds e) = scan σ h lists crds e.
Proof.
  intros He. unfold scan at 2 3. change (if checkAnnotation e then _ else _) with (refreshed crds e). rewrite He.
  pose proof (watch_loop_watched h (suppressed e) (discovered σ lists e) e) as Hw.
  destruct (watch_loop_frame h (suppressed e) (discovered σ lists e) e) as (w & i & r & Heq). rewrite Heq in *.
  unfold scan. change (if checkAnnotation _ then _ else _) with (refreshed crds (set_watch w i r e)).
  rewrite refreshed_set_watch, He. rewrite (discovered_ext σ lists e (set_watch w i r e)) by done.
  apply watch_loop_idle. intros g Hg Hs. apply Hw. right. by split.
Qed.

Lemma refreshed_eq crds e : ∃ a, refreshed crds e = set_annotated a e.
Proof.
  unfold refreshed. destruct (checkAnnotation e); [apply refreshAnnotatedCRDs_eq|].
  exists (annotatedCRDs e). by destruct e.
Qed.

Lemma scan_refreshed σ h lists crds e : refreshed crds (scan σ h lists crds e) = scan σ h lists crds e.
Proof.
  unfold scan. change (if checkAnnotation e then _ else _) with (refreshed crds e).
  destruct (watch_loop_frame h (suppressed (refreshed crds e)) (discovered σ lists e) (refreshed crds e)) as (w & i & r & ->).
  by rewrite refreshed_set_watch, refreshed_idem.
Qed.

Lemma elem_of_suppressed e gvr :
  gvr ∈ suppressed e ↔ ∃ n ps, profiles e !! n = Some ps ∧ p_enabled ps = false ∧ p_gvr ps = gvr.
Proof.
  unfold suppressed. rewrite elem_of_list_to_set, list_elem_of_fmap. setoid_rewrite list_elem_of_filter.
  setoid_rewrite list_elem_of_fmap. split.
  - intros (ps & -> & He & ([n ps'] & -> & Hin%elem_of_map_to_list)). by exists n, ps'.
  - intros (n & ps & Hn & He & <-). exists ps. split_and!; [done..|]. exists (n, ps). by rewrite elem_of_map_to_list.
Qed.

(** A scan changes the watches and the annotations, nothing else. *)
Lemma scan_eq σ h lists crds e : ∃ a w i r, scan σ h lists crds e = set_watch w i r (set_annotated a e).
Proof.
  unfold scan. change (if checkAnnotation e then _ else _) with (refreshed crds e).
  destruct (watch_loop_frame h (suppressed (refreshed crds e)) (discovered σ lists e) (refreshed crds e)) as (w & i & r & ->).
  destruct (refreshed_eq crds e) as [a ->]. by exists a, w, i, r.
Qed.

Lemma scan_informers σ h lists crds e gvr :
  own_informers gvr (scan σ h lists crds e) =
  own_informers gvr e +
  if bool_decide (gvr ∈ watchedGVRs (scan σ h lists crds e) ∧ (gvr ∉ watchedGVRs e) ∧ h gvr = true) then 1 else 0.
Proof.
  unfold scan. change (if checkAnnotation e then _ else _) with (refreshed crds e).
  destruct (refreshed_eq crds e) as [a Ha]. rewrite watch_loop_informers, Ha. f_equal. apply if_bool_decide_iff.
  rewrite watch_loop_watched. simpl. tauto.
Qed.

Lemma scan_informers_watched σ h lists crds e gvr :
  gvr ∈ watchedGVRs e → own_informers gvr (scan σ h lists crds e) = own_informers gvr e.
Proof. intros Hw. rewrite scan_informers, bool_decide_false by tauto. lia. Qed.

Lemma rescan_fixed n σ h lists crds e : rescan (2 + n) σ h lists crds e = rescan 2 σ h lists crds e.
Proof.
  induction n as [|n IH]; [done|].
  change (rescan (2 + S n) σ h lists crds e) with (scan σ h lists crds (rescan (2 + n) σ h lists crds e)).
  rewrite IH. simpl. apply scan_scan_refreshed, scan_refreshed.
Qed.

(** The engine of an unchanging cluster is scanned to a fixed point: after
    one rescan, what [WatchedGVRs] returns and the informers stay as they are. *)
Lemma Start_rescans d i n e :
  (0 < d)%Z →
  Start d i (replicate n (Tick i)) e = Some (false, rescan (S n) (si_order i) (si_handlerOk i) (si_lists i) (si_crds i) e).
Proof.
  intros Hd. unfold Start. rewrite with_ticker_Some by done. f_equal.
  assert (∀ k, rescan k (si_order i) (si_handlerOk i) (si_lists i) (si_crds i) (scan_with i e) =
               rescan (S k) (si_order i) (si_handlerOk i) (si_lists i) (si_crds i) e) as Hk.
  { induction k as [|k IH]; [done|]. simpl in *. by rewrite IH. }
  rewrite <-Hk. clear Hk. generalize (scan_with i e) as x. induction n as [|n IH]; intros x; [done|].
  cbn [replicate ticker_loop]. rewrite IH. f_equal. clear IH. induction n as [|n IH]; [done|]. simpl in *. by rewrite IH.
Qed.

Theorem Start_settles d i n σ e r e1 r' e2 :
  (0 < d)%Z → Start d i [Tick i] e = Some (r, e1) → Start d i (replicate (S n) (Tick i)) e = Some (r', e2) →
  e2 = e1 ∧ ∀ gvr, gvr ∈ WatchedGVRs σ e2 ↔ gvr ∈ watchedGVRs e1.
Proof.
  intros Hd. change [Tick i] with (replicate 1 (Tick i)). rewrite !Start_rescans by done. intros H1 H2.
  pose proof (rescan_fixed n (si_order i) (si_handlerOk i) (si_lists i) (si_crds i) e) as Hfix.
  assert (e2 = e1) as -> by (apply Some_inj, pair_equal_spec in H1 as [_ <-]; by apply Some_inj, pair_equal_spec in H2 as [_ <-]).
  split; [done|]. intros gvr. unfold WatchedGVRs. by rewrite shuffle_perm, elem_of_elements.
Qed.

(** The flag for the interval is not checked: with zero the controller starts,
    scans once and then panics. *)
Theorem rescan_interval_zero_panics i wakes e : Start 0 i wakes e = None.
Proof. by apply with_ticker_None. Qed.

(** C10: a scan watches exactly the discovered resources that no disabled
    profile suppresses, besides those watched before, starts one informer for
    each newly watched one and none for another; over an unchanging cluster
    the second scan is a fixed point, so the periodic rescans start nothing. *)
Theorem scan_spec σ h lists crds e :
  let e' := scan σ h lists crds e in
  (∀ gvr, gvr ∈ watchedGVRs e' ↔
          gvr ∈ watchedGVRs e ∨
          (gvr ∈ discovered σ lists e ∧
           ¬ ∃ n ps, profiles e !! n = Some ps ∧ p_enabled ps = false ∧ p_gvr ps = gvr)) ∧
  (∀ gvr, own_informers gvr e' =
          own_informers gvr e +
          if bool_decide (gvr ∈ watchedGVRs e' ∧ (gvr ∉ watchedGVRs e) ∧ h gvr = true) then 1 else 0) ∧
  (∀ n, rescan (2 + n) σ h lists crds e = rescan 2 σ h lists crds e).
Proof.
  intros e'. split_and!.
  - intros gvr. unfold e', scan. change (if checkAnnotation e then _ else _) with (refreshed crds e).
    destruct (refreshed_eq crds e) as [a Ha]. rewrite watch_loop_watched, elem_of_suppressed. by rewrite Ha.
  - intros gvr. apply scan_informers.
  - intros n. apply rescan_fixed.
Qed.
End scanning.

(** *** Objects and the index *)

Lemma upsert_all_other cs idx uid :
  uid ∉ c_UID <$> cs → byUID (upsert_all cs idx).1 !! uid = byUID idx !! uid.
Proof.
  revert idx. induction cs as [|c cs IH]; intros idx Hu; simpl in *; [done|].
  apply not_elem_of_cons in Hu as [Hne Hu]. specialize (IH (Upsert c idx).1 Hu). simpl in IH.
  destruct (upsert_all cs _) as [i2 ev2]. simpl in *. by rewrite IH, lookup_insert_ne.
Qed.

Lemma upsert_all_stored cs idx c :
  NoDup (c_UID <$> cs) → c ∈ cs → byUID (upsert_all cs idx).1 !! c_UID c = Some c.
Proof.
  revert idx. induction cs as [|d cs IH]; intros idx Hnd Hc; [by apply not_elem_of_nil in Hc|].
  apply NoDup_cons in Hnd as [Hnin Hnd]. simpl.
  pose proof (upsert_all_other cs (Upsert d idx).1 (c_UID d) Hnin) as Ho. specialize (IH (Upsert d idx).1 Hnd). simpl in *.
  destruct (upsert_all cs _) as [i2 ev2]. simpl in *. apply elem_of_cons in Hc as [->|Hc]; [|auto].
  by rewrite Ho, lookup_insert_eq.
Qed.

Lemma Delete_lookup uid idx u : byUID (Delete uid idx).1 !! u = delete uid (byUID idx) !! u.
Proof. unfold Delete. destruct (byUID idx !! uid) eqn:E; simpl; [done|]. by rewrite delete_id. Qed.

Lemma delete_all_lookup uids idx uid :
  byUID (delete_all uids idx).1 !! uid = if bool_decide (uid ∈ uids) then None else byUID idx !! uid.
Proof.
  revert idx. induction uids as [|u uids IH]; intros idx; simpl; [done|].
  pose proof (Delete_lookup u idx uid) as Hd. destruct (Delete u idx) as [i1 ev1]. specialize (IH i1).
  destruct (delete_all uids i1) as [i2 ev2]. simpl in *. rewrite IH, Hd.
  destruct (decide (u = uid)) as [->|Hne]; [rewrite lookup_delete_eq|rewrite lookup_delete_ne by done];
    repeat case_bool_decide; set_solver.
Qed.

Section objects.
Context {AM : Apimachinery}.

(** Adding stores the parsed constraints, each under its UID. *)
Lemma handleAdd_stores σ gvr obj e cs :
  gvr ∈ watchedGVRs e → parseObject σ e gvr obj = (cs, None) →
  e_indexer (handleAdd σ gvr (DObject obj) e).1 = (upsert_all cs (e_indexer e)).1.
Proof.
  intros Hw Hp. unfold handleAdd. rewrite bool_decide_true by done. simpl. rewrite Hp.
  by destruct (upsert_all cs (e_indexer e)).
Qed.

(** Deleting removes the UIDs of the parsed constraints. *)
Lemma handleDelete_removes σ gvr d obj e cs uid :
  delivered_object d = Some obj → parseObject σ e gvr obj = (cs, None) → cs ≠ [] →
  byUID (e_indexer (handleDelete σ gvr d e).1) !! uid =
  if bool_decide (uid ∈ c_UID <$> cs) then None else byUID (e_indexer e) !! uid.
Proof.
  intros Hd Hp Hne. unfold handleDelete. rewrite Hd, Hp.
  pose proof (delete_all_lookup (c_UID <$> cs) (e_indexer e) uid) as Hu.
  destruct cs as [|c cs]; [done|]. by destruct (delete_all (c_UID <$> c :: cs) (e_indexer e)).
Qed.

Lemma parseObject_handleAdd σ σ' gvr d e gvr' obj :
  parseObject σ (handleAdd σ' gvr d e).1 gvr' obj = parseObject σ e gvr' obj.
Proof. destruct (handleAdd_eq σ' gvr d e) as [idx ->]. done. Qed.

(** Adding an object stores exactly the constraints its adapter makes of
    it, under their UIDs, provided these differ; deleting it, also by a
    tombstone, removes exactly these again. *)
Theorem handleAdd_handleDelete σ1 σ2 gvr obj e cs :
  gvr ∈ watchedGVRs e → parseObject σ1 e gvr obj = (cs, None) → parseObject σ2 e gvr obj = (cs, None) →
  cs ≠ [] → NoDup (c_UID <$> cs) →
  let e1 := (handleAdd σ1 gvr (DObject obj) e).1 in
  let e2 := (handleDelete σ2 gvr (DTombstone (Some obj)) e1).1 in
  (∀ c, c ∈ cs → byUID (e_indexer e1) !! c_UID c = Some c) ∧
  (∀ uid, (uid ∉ c_UID <$> cs) → byUID (e_indexer e1) !! uid = byUID (e_indexer e) !! uid) ∧
  (∀ uid, byUID (e_indexer e2) !! uid =
          if bool_decide (uid ∈ c_UID <$> cs) then None else byUID (e_indexer e) !! uid).
Proof.
  intros Hw Hp1 Hp2 Hne Hnd e1 e2. unfold e2. subst e1. split_and!.
  - intros c Hc. rewrite (handleAdd_stores σ1 gvr obj e cs) by done. by apply upsert_all_stored.
  - intros uid Hu. rewrite (handleAdd_stores σ1 gvr obj e cs) by done. by apply upsert_all_other.
  - intros uid. rewrite (handleDelete_removes σ2 gvr _ obj _ cs) by (rewrite ?parseObject_handleAdd; done).
    case_bool_decide; [done|]. rewrite (handleAdd_stores σ1 gvr obj e cs) by done. by apply upsert_all_other.
Qed.

(** *** Profiles *)

(** C11: removing the last profile that needs a GVR closes the channel that the
    profile holds, if it holds one: of all informers, exactly the live ones that
    were started under this channel stop.  It unwatches the GVR and deletes
    exactly the GVR's constraints from the index.  An informer of the GVR that
    runs without the profile's channel, because discovery started it or because
    the profile was registered again, is not stopped. *)
Theorem UnregisterProfile_spec σ name ps e :
  engine_ok e → profiles e !! name = Some ps →
  (∀ n q, profiles e !! n = Some q → n ≠ name → p_enabled q = true → p_gvr q ≠ p_gvr ps) →
  ∃ e' ev, UnregisterProfile σ name e = Some (e', ev) ∧
    profiles e' = delete name (profiles e) ∧ watchedGVRs e' = watchedGVRs e ∖ {[p_gvr ps]} ∧
    running e' = running e ∧
    (∀ i, alive e' i = true ↔ alive e i = true ∧ ¬ (∃ ch, i.2 = Some ch ∧ p_stopCh ps = Some ch)) ∧
    (∀ uid c, byUID (e_indexer e') !! uid = Some c ↔
              byUID (e_indexer e) !! uid = Some c ∧ c_Source c ≠ p_gvr ps).
Proof.
  intros Hok Hp Hother. unfold UnregisterProfile. rewrite Hp.
  destruct (stopProfileInformerLocked_ok e name ps Hok Hp) as (p' & closed & -> & _ & Hcl & _). simpl.
  unfold gvr_needed. rewrite bool_decide_false.
  - pose proof (DeleteBySource_lookup σ (p_gvr ps) (e_indexer e)) as Hd.
    destruct (DeleteBySource σ (p_gvr ps) (e_indexer e)) as [[idx ev] k].
    eexists _, _. split; [done|]. simpl. split_and!; [done..| |done].
    intros [gvr [ch|]]; unfold alive; simpl; [rewrite !bool_decide_eq_true, Hcl|]; naive_solver.
  - simpl. intros (n & q & [Hne Hq]%lookup_delete_Some & Hen & Hg). by eapply Hother.
Qed.

(** C38: registering an enabled profile again, as the controller does on every
    reconciliation, drops the profile's channel while its informer runs: from
    then on no sequence of steps, removing the profile and [Stop] included,
    stops the informer. *)
Theorem RegisterProfile_leaks_informer h p e ps ch :
  engine_ok e → profiles e !! cp_Name p = Some ps → p_stopCh ps = Some ch → p_gvr ps = cp_GVR p →
  cp_Enabled p = true → cp_GVR p ∈ watchedGVRs e →
  ∃ e', RegisterProfile h p e = Some e' ∧
    ∀ ops, ∃ e'', engine_run e' ops = Some e'' ∧ alive e'' (cp_GVR p, Some ch) = true.
Proof.
  intros Hok Hps Hch Hg Hen Hw. destruct (RegisterProfile_ok h p e Hok) as (e' & Hr & Hok').
  exists e'. split; [done|].
  assert (orphan ch e') as Ho.
  { revert Hr. unfold RegisterProfile. rewrite Hps, Hg, Hen, bool_decide_true by done. simpl.
    rewrite bool_decide_true by done. simpl. intros [= <-]. destruct (proj1 Hok _ _ _ Hps Hch) as [Hlt Hopen].
    split_and!; [done..|]. simpl. intros n q. rewrite lookup_insert_Some. intros [[<- <-]|[Hne Hq]]; [done|].
    intros Hc. apply Hne. by eapply (proj1 (proj2 Hok)). }
  intros ops. destruct (engine_run_ok ops e' Hok') as [e'' He'']. exists e''. split; [done|].
  destruct (engine_run_orphan _ _ _ _ Ho He'') as (_ & Hopen & _). unfold alive. simpl. by apply bool_decide_eq_true.
Qed.

(** Disabling a profile unwatches its GVR but leaves the index as it is,
    and every later add or update of the GVR's objects is ignored, so the
    constraints found so far stay, whatever becomes of the objects. *)
Theorem RegisterProfile_disabled_keeps_constraints h p e :
  engine_ok e → cp_Enabled p = false →
  ∃ e', RegisterProfile h p e = Some e' ∧ watchedGVRs e' = watchedGVRs e ∖ {[cp_GVR p]} ∧
    e_indexer e' = e_indexer e ∧
    ∀ σ d, handleAdd σ (cp_GVR p) d e' = (e', []) ∧ handleUpdate σ (cp_GVR p) d e' = (e', []).
Proof.
  intros Hok Hdis. assert (∃ e1, match profiles e !! cp_Name p with
       | Some existing => if (p_gvr existing != cp_GVR p) || true then snd <$> stopProfileInformerLocked existing e else Some e
       | None => Some e end = Some e1 ∧ watchedGVRs e1 = watchedGVRs e ∧ e_indexer e1 = e_indexer e) as (e1 & He1 & Hw1 & Hi1).
  { destruct (profiles e !! cp_Name p) as [ps|] eqn:Hp; [|by exists e]. rewrite orb_true_r.
    destruct (stopProfileInformerLocked_ok e _ ps Hok Hp) as (p' & closed & -> & _). by eexists. }
  unfold RegisterProfile. rewrite Hdis. simpl. rewrite He1. simpl. eexists. split; [done|]. simpl. rewrite Hw1, Hi1.
  split_and!; [done..|]. intros σ d. unfold handleUpdate, handleAdd. simpl. rewrite Hw1.
  rewrite bool_decide_false by set_solver. done.
Qed.

(** Pointing an enabled profile at another GVR stops the informer of the
    old one but keeps the old GVR in the watched set, with its constraints in
    the index: no scan starts an informer for it again. *)
Theorem RegisterProfile_retarget_abandons h p e ps ch :
  engine_ok e → profiles e !! cp_Name p = Some ps → p_stopCh ps = Some ch → p_gvr ps ≠ cp_GVR p →
  p_gvr ps ∈ watchedGVRs e →
  cp_Enabled p = true →
  ∃ e', RegisterProfile h p e = Some e' ∧ p_gvr ps ∈ watchedGVRs e' ∧ e_indexer e' = e_indexer e ∧
    alive e' (p_gvr ps, Some ch) = false ∧
    ∀ σ h' lists crds, own_informers (p_gvr ps) (scan σ h' lists crds e') = own_informers (p_gvr ps) e.
Proof.
  intros Hok Hps Hch Hg Hw Hen. unfold RegisterProfile. rewrite Hps, Hen, (bool_decide_false (p_gvr ps = _)) by done. simpl.
  destruct (stopProfileInformerLocked_ok e _ ps Hok Hps) as (p' & closed & -> & _ & Hcl & _). simpl.
  eexists. split; [done|].
  match goal with |- ?g ∈ watchedGVRs ?e' ∧ _ => assert (g ∈ watchedGVRs e' ∧ e_indexer e' = e_indexer e ∧
    e_closedCh e' = closed ∧ own_informers g e' = own_informers g e) as (Hw' & Hi & Hc & Ho) end.
  { unfold startProfileInformer, own_informers.
    case_bool_decide; simpl; [|destruct (e_dynamic e), (h (cp_GVR p)); simpl; rewrite ?filter_cons_False by done];
      split_and!; set_solver. }
  split_and!; [done..| |].
  - unfold alive. rewrite Hc. apply bool_decide_eq_false. simpl. rewrite Hcl. tauto.
  - intros σ h' lists crds. by rewrite scan_informers_watched.
Qed.
End objects.

(** ** Evaluation *)

Definition widgets_gvr : GroupVersionResource := mkGVR "example.com" "v1" "widgets".
Definition gadgets_gvr : GroupVersionResource := mkGVR "example.com" "v1" "gadgets".
Definition always (gvr : GroupVersionResource) : bool := true.

Definition widget_profile (gvr : GroupVersionResource) (enabled : bool) : ConstraintProfile :=
  mkConstraintProfile "widget-profile" gvr EmptyString enabled "Critical" None.

(** A widget, and an engine with a profile that watches widgets and has seen
    this one. *)
Definition example_widget : Unstructured :=
  mkUnstructured {[ "kind" := VStr "Widget";
                    "metadata" := VMap {[ "name" := VStr "w"; "uid" := VStr "w1"; "namespace" := VStr "dev" ]} ]}.

Definition widget_ops : list engine_op :=
  [OpReconcile in_order always "widget-profile" (ProfileFound (widget_profile widgets_gvr true));
   OpAdd in_order widgets_gvr (DObject example_widget)].

Definition widget_engine : Engine :=
  default (NewEngine NewRegistry example_index true) (engine_run (NewEngine NewRegistry example_index true) widget_ops).

Lemma engine_run_preserves ops e e' : engine_ok e → engine_run e ops = Some e' → engine_ok e'.
Proof.
  revert e. induction ops as [|op ops IH]; intros e Hok; simpl; [naive_solver|].
  destruct (engine_step_ok e op Hok) as (e1 & -> & Hok1). by apply IH.
Qed.

Lemma widget_engine_ok : engine_ok widget_engine.
Proof.
  unfold widget_engine. pose proof (NewEngine_ok NewRegistry example_index true) as Hok.
  destruct (engine_run_ok widget_ops _ Hok) as [e He]. rewrite He. by eapply engine_run_preserves.
Qed.

Example widget_engine_state :
  p_stopCh <$> profiles widget_engine !! "widget-profile" = Some (Some 0%nat) ∧
  alive widget_engine (widgets_gvr, Some 0%nat) = true ∧
  c_Severity <$> byUID (e_indexer widget_engine) !! "w1" = Some SeverityCritical ∧
  Count (e_indexer widget_engine) = 4%Z.
Proof. split_and!; vm_compute; reflexivity. Qed.

Lemma handleAdd_handleDelete_witness :
  let e1 := (handleAdd in_order widgets_gvr (DObject example_widget) widget_engine).1 in
  byUID (e_indexer (handleDelete reversed widgets_gvr (DTombstone (Some example_widget)) e1).1) !! "w1" = None.
Proof.
  etransitivity; [eapply (handleAdd_handleDelete in_order reversed widgets_gvr example_widget widget_engine)|].
  - vm_compute. reflexivity.
  - reflexivity.
  - reflexivity.
  - discriminate.
  - apply NoDup_singleton.
  - vm_compute. reflexivity.
Defined.

Lemma UnregisterProfile_spec_witness :
  ∃ e' ev, UnregisterProfile in_order "widget-profile" widget_engine = Some (e', ev) ∧
           alive e' (widgets_gvr, Some 0%nat) = false ∧ byUID (e_indexer e') !! "w1" = None.
Proof.
  destruct (UnregisterProfile_spec in_order "widget-profile"
              (mkProfile widgets_gvr EmptyString None "Critical" true (Some 0%nat)) widget_engine)
    as (e' & ev & Hu & _ & _ & _ & Ha & Hi).
  - exact widget_engine_ok.
  - vm_compute. reflexivity.
  - intros n q Hq Hne. assert (profiles widget_engine = {["widget-profile" := mkProfile widgets_gvr EmptyString None "Critical" true (Some 0%nat)]}) as Hps
      by (vm_compute; reflexivity).
    rewrite Hps in Hq. apply lookup_singleton_Some in Hq as [? _]. congruence.
  - exists e', ev. split; [exact Hu|]. split.
    { apply not_true_iff_false. intros [_ Hno]%Ha. apply Hno. exists 0%nat. split; reflexivity. }
    destruct (byUID (e_indexer e') !! "w1") as [c|] eqn:Hc; [|reflexivity].
    apply Hi in Hc as [Hc Hs]. exfalso. apply Hs. revert Hc. vm_compute. intros [= <-]. reflexivity.
Defined.

Lemma RegisterProfile_leaks_informer_witness :
  ∃ e' e'', RegisterProfile always (widget_profile widgets_gvr true) widget_engine = Some e' ∧
    engine_run e' [OpReconcile in_order always "widget-profile" ProfileNotFound; OpStop in_order] = Some e'' ∧
    alive e'' (widgets_gvr, Some 0%nat) = true.
Proof.
  destruct (RegisterProfile_leaks_informer always (widget_profile widgets_gvr true) widget_engine
              (mkProfile widgets_gvr EmptyString None "Critical" true (Some 0%nat)) 0%nat) as (e' & He' & H);
    [exact widget_engine_ok|vm_compute; reflexivity..|].
  destruct (H [OpReconcile in_order always "widget-profile" ProfileNotFound; OpStop in_order]) as (e'' & He'' & Ha).
  exists e', e''. split; [exact He'|]. split; [exact He''|exact Ha].
Defined.

Lemma RegisterProfile_disabled_keeps_constraints_witness :
  ∃ e', RegisterProfile always (widget_profile widgets_gvr false) widget_engine = Some e' ∧
        c_Name <$> byUID (e_indexer e') !! "w1" = Some "w".
Proof.
  destruct (RegisterProfile_disabled_keeps_constraints always (widget_profile widgets_gvr false) widget_engine)
    as (e' & He' & _ & Hi & _); [exact widget_engine_ok|reflexivity|].
  exists e'. split; [exact He'|]. rewrite Hi. vm_compute. reflexivity.
Defined.

Lemma RegisterProfile_retarget_abandons_witness :
  ∃ e', RegisterProfile always (widget_profile gadgets_gvr true) widget_engine = Some e' ∧
        widgets_gvr ∈ watchedGVRs e' ∧ alive e' (widgets_gvr, Some 0%nat) = false.
Proof.
  destruct (RegisterProfile_retarget_abandons always (widget_profile gadgets_gvr true) widget_engine
              (mkProfile widgets_gvr EmptyString None "Critical" true (Some 0%nat)) 0%nat)
    as (e' & He' & Hw & _ & Ha & _); [exact widget_engine_ok|vm_compute; reflexivity|reflexivity|discriminate|vm_compute; reflexivity|reflexivity|].
  exists e'. split; [exact He'|]. split; [exact Hw|exact Ha].
Defined.

(** *** CRD annotations *)

(** An annotated CRD whose first listed version is not served. *)
Definition version_of (name : string) (served : bool) : GoVal :=
  VMap {[ "name" := VStr name; "served" := VBool served ]}.
Definition annotated_crd (versions : list GoVal) : Unstructured :=
  mkUnstructured
    {[ "metadata" := VMap {[ "annotations" := VMap {[ IsPolicyAnnotation := VStr "true" ]} ]};
       "spec" := VMap {[ "group" := VStr "example.com"; "names" := VMap {[ "plural" := VStr "widgets" ]};
                         "versions" := VSlice versions ]} ]}.

(** A scan classifies the resources before it refreshes the annotations: a
    newly annotated CRD is not watched by the scan that sees the annotation,
    only by the next one; and one whose first version is not served never is,
    though its served version is listed. *)
Theorem scan_annotation_delayed :
  let e := NewEngine NewRegistry (New true) true in
  let n_scans n crd := rescan n in_order always [("example.com/v1", ["widgets"])] (inl [crd]) e in
  let served := annotated_crd [version_of "v1" true] in
  let old_first := annotated_crd [version_of "v0" false; version_of "v1" true] in
  (widgets_gvr ∈ annotatedCRDs (n_scans 1%nat served)) ∧ (widgets_gvr ∉ watchedGVRs (n_scans 1%nat served)) ∧
  (widgets_gvr ∈ watchedGVRs (n_scans 2%nat served)) ∧
  ∀ n, widgets_gvr ∉ watchedGVRs (n_scans n old_first).
Proof.
  intros e n_scans served old_first. unfold n_scans.
  split_and!; [by apply (bool_decide_unpack _); vm_compute..|].
  intros [|[|n]]; [by apply (bool_decide_unpack _); vm_compute..|].
  rewrite (rescan_fixed n). by apply (bool_decide_unpack _); vm_compute.
Qed.
