(* ===== verification/PolicyAdapters.v ===== *)
(** * The adapters of the admission policy engines

    internal/adapters/kyverno and internal/adapters/gatekeeper, a module
    each.  A Kyverno policy becomes one constraint per rule, a Gatekeeper
    constraint becomes one constraint.  [DeepCopy] gives an equal object;
    an object is never written, so sharing one copy is not visible. *)

From S2P Require Import Prelude GoStd Types Apimachinery Util Remediation NativeAdapters.
From Stdlib Require Import Ascii.

Open Scope go_scope.
#[local] Open Scope string_scope.

(** The resource list both [buildRuleSummary] and [buildSummary] write. *)
Definition resource_list (targets : list ResourceTarget) : string :=
  let kinds := mjoin (rt_Resources <$> targets) in
  if kinds == [] then "resources"
  else if (go_len kinds <=? 3)%Z then strings_Join kinds ", "
  else fmt_d (go_len kinds) +:+ " resource types".

(** ** Kyverno policies (kyverno/adapter.go) *)

Module Kyverno.
Definition gvrClusterPolicy : GroupVersionResource := mkGVR "kyverno.io" "v1" "clusterpolicies".
Definition gvrPolicy : GroupVersionResource := mkGVR "kyverno.io" "v1" "policies".

Definition mapValidationActionToSeverity (action : string) : Severity :=
  switch (strings_ToLower action) [("enforce", SeverityCritical); ("audit", SeverityWarning)] SeverityWarning.

Definition mapRuleTypeToConstraintType (ruleType : string) : ConstraintType :=
  switch ruleType
    [("validate", ConstraintTypeAdmission); ("verifyImages", ConstraintTypeAdmission);
     ("mutate", ConstraintTypeAdmission); ("generate", ConstraintTypeAdmission)] ConstraintTypeUnknown.

Definition buildRuleSummary (policyName ruleName ruleType action : string) (targets : list ResourceTarget)
    (isClusterPolicy : bool) : string :=
  let policyType := if isClusterPolicy then "ClusterPolicy" else "Policy" in
  let actionVerb :=
    switch ruleType
      [("validate", switch (strings_ToLower action) [("enforce", "enforces"); ("audit", "audits")] "validates");
       ("mutate", "mutates"); ("generate", "generates resources from"); ("verifyImages", "verifies images for")]
      "validates" in
  "Kyverno " +:+ policyType +:+ " " +:+ fmt_q policyName +:+ " rule " +:+ fmt_q ruleName +:+ " " +:+
  actionVerb +:+ " " +:+ resource_list targets.

Definition buildTags (ruleType action : string) (isClusterPolicy : bool) : list string :=
  (["kyverno"; "admission"; ruleType] ++ (if isClusterPolicy then ["cluster-wide"] else []) ++
   switch (strings_ToLower action) [("enforce", ["blocking"]); ("audit", ["audit"])] [])%list.

Definition buildRemediation (policyName namespace : string) (isClusterPolicy : bool) : list RemediationStep :=
  let getCmd := if isClusterPolicy then "kubectl get clusterpolicy " +:+ policyName +:+ " -o yaml"
                else "kubectl get policy -n " +:+ namespace +:+ " " +:+ policyName +:+ " -o yaml" in
  [kubectl_step "View the policy details" getCmd "developer";
   kubectl_step "Check policy report for violations" "kubectl get policyreport -A -o wide" "developer";
   manual_step "Contact platform team to request an exception or policy modification" "platform-team@company.com" "developer";
   link_step "Kyverno documentation" "https://kyverno.io/docs/" "developer"].

Section adapter.
Context {AM : Apimachinery}.

Definition determineRuleType (rule : gmap string GoVal) : string * string :=
  if SafeNestedMap (Some rule) ["validate"] != None then ("validate", "deny")
  else if SafeNestedMap (Some rule) ["mutate"] != None then ("mutate", "mutate")
  else if SafeNestedMap (Some rule) ["generate"] != None then ("generate", "generate")
  else if (SafeNestedMap (Some rule) ["verifyImages"] != None) || (SafeNestedSlice (Some rule) ["verifyImages"] != None)
  then ("verifyImages", "deny")
  else ("unknown", "unknown").

(** The loop over [kinds]: the groups of the qualified kinds and all resource names. *)
Fixpoint kinds_loop (kinds : list string) : list string * list string :=
  match kinds with
  | [] => ([], [])
  | kind :: rest =>
      let '(apiGroups, resourceNames) := kinds_loop rest in
      match strings_SplitN2 kind "/"%char with
      | [group; k] => (group :: apiGroups, (strings_ToLower k +:+ "s") :: resourceNames)
      | _ => (apiGroups, (strings_ToLower kind +:+ "s") :: resourceNames)
      end
  end.

Definition extractFromResources (resources : gmap string GoVal)
    : list string * list ResourceTarget * option LabelSelector :=
  let namespaces := SafeNestedStringSlice (Some resources) ["namespaces"] in
  let '(apiGroups, resourceNames) := kinds_loop (SafeNestedStringSlice (Some resources) ["kinds"]) in
  let targets := if resourceNames == [] then []
                 else [mkTarget (UniqueStrings apiGroups) (UniqueStrings resourceNames)] in
  (namespaces, targets, SafeNestedLabelSelector (Some resources) ["selector"]).

(** What [extractMatchInfo] accumulates over the clauses. *)
Abbreviation match_acc := (list string * list ResourceTarget * option LabelSelector)%type.

(** One [resources] block: the first selector found is kept. *)
Definition add_resources (acc : match_acc) (m : gmap string GoVal) : match_acc :=
  match SafeNestedMap (Some m) ["resources"] with
  | None => acc
  | Some resources =>
      let '(namespaces, targets, selector) := acc in
      let '(ns, tgt, sel) := extractFromResources resources in
      ((namespaces ++ ns)%list, (targets ++ tgt)%list,
       if (sel != None) && (selector == None) then sel else selector)
  end.

Definition extractMatchInfo (mtch : option (gmap string GoVal)) : match_acc :=
  match mtch with
  | None => ([], [], None)
  | Some m =>
      let anySlice := omap as_map (default [] (SafeNestedSlice (Some m) ["any"])) in
      let allSlice := omap as_map (default [] (SafeNestedSlice (Some m) ["all"])) in
      let acc := add_resources ([], [], None) m in
      let acc := foldl add_resources acc anySlice in
      let '(namespaces, targets, selector) := foldl add_resources acc allSlice in
      (UniqueStrings namespaces, targets, selector)
  end.

Definition buildRuleDetails (rule : gmap string GoVal) (ruleType action : string) (targets : list ResourceTarget)
    : gmap string GoVal :=
  let details := {[ "ruleType" := VStr ruleType; "action" := VStr action ]} in
  let details := if targets == [] then details else <["resourceTargets" := VTargets targets]> details in
  match SafeNestedMap (Some rule) ["validate"] with
  | None => details
  | Some validate =>
      let msg := SafeStringFromMap (Some validate) "message" in
      if msg != EmptyString then <["validationMessage" := VStr msg]> details else details
  end.

(** The [action] and the severity of a rule. *)
Definition rule_action (rule : gmap string GoVal) (globalAction : string) : string :=
  if (determineRuleType rule).1 == "validate" then
    let action := SafeNestedString (Some rule) ["validate"; "validationFailureAction"] in
    if action == EmptyString then globalAction else action
  else "mutate".
Definition rule_severity (rule : gmap string GoVal) (globalAction : string) : Severity :=
  if (determineRuleType rule).1 == "validate" then mapValidationActionToSeverity (rule_action rule globalAction)
  else SeverityInfo.

(** It returns a constraint and a nil error on every path. *)
Definition parseRule (obj : Unstructured) (rule : gmap string GoVal) (index : nat) (globalAction : string)
    (isClusterPolicy : bool) : option Constraint * option error :=
  let policyName := GetName obj in
  let namespace := GetNamespace obj in
  let n := SafeStringFromMap (Some rule) "name" in
  let ruleName := if n == EmptyString then "rule-" +:+ fmt_d (Z.of_nat index) else n in
  let '(ruleType, effect) := determineRuleType rule in
  let action := rule_action rule globalAction in
  let '(namespaces, resourceTargets, workloadSelector) := extractMatchInfo (SafeNestedMap (Some rule) ["match"]) in
  let affectedNamespaces :=
    if negb isClusterPolicy && (namespace != EmptyString) && (namespaces == []) then [namespace] else namespaces in
  (Some {| c_UID := GetUID obj +:+ "-rule-" +:+ fmt_d (Z.of_nat index);
           c_Source := if isClusterPolicy then gvrClusterPolicy else gvrPolicy;
           c_Name := policyName +:+ "/" +:+ ruleName; c_Namespace := namespace;
           c_AffectedNamespaces := affectedNamespaces; c_NamespaceSelector := None;
           c_WorkloadSelector := workloadSelector; c_ResourceTargets := resourceTargets;
           c_ConstraintType := mapRuleTypeToConstraintType ruleType; c_Effect := effect;
           c_Severity := rule_severity rule globalAction;
           c_Details := Some (buildRuleDetails rule ruleType action resourceTargets);
           c_Summary := buildRuleSummary policyName ruleName ruleType action resourceTargets isClusterPolicy;
           c_RemediationHint := "Review Kyverno policy " +:+ policyName +:+ " or contact your platform team";
           c_Remediation := buildRemediation policyName namespace isClusterPolicy;
           c_Tags := buildTags ruleType action isClusterPolicy; c_RawObject := Some obj |}, None).

(** The loop over [spec.rules]. *)
Fixpoint rules_loop (obj : Unstructured) (globalAction : string) (isClusterPolicy : bool) (i : nat) (rules : list GoVal)
    : list Constraint :=
  match rules with
  | [] => []
  | ruleRaw :: rest =>
      match as_map ruleRaw with
      | None => rules_loop obj globalAction isClusterPolicy (S i) rest
      | Some rule =>
          match parseRule obj rule i globalAction isClusterPolicy with
          | (Some c, None) => c :: rules_loop obj globalAction isClusterPolicy (S i) rest
          | _ => rules_loop obj globalAction isClusterPolicy (S i) rest
          end
      end
  end.

Definition global_action (spec : gmap string GoVal) : string :=
  let a := SafeNestedString (Some spec) ["validationFailureAction"] in
  if a == EmptyString then "Audit" else a.

Definition Parse (obj : Unstructured) : list Constraint * option error :=
  let name := GetName obj in
  let isClusterPolicy := GetKind obj == "ClusterPolicy" in
  match SafeNestedMap (Some (Object obj)) ["spec"] with
  | None => ([], Some ("kyverno policy " +:+ name +:+ ": missing spec"))
  | Some spec =>
      let rulesSlice := default [] (SafeNestedSlice (Some spec) ["rules"]) in
      if rulesSlice == [] then ([], Some ("kyverno policy " +:+ name +:+ ": no rules defined"))
      else match rules_loop obj (global_action spec) isClusterPolicy 0 rulesSlice with
           | [] => ([], Some ("kyverno policy " +:+ name +:+ ": no valid rules parsed"))
           | constraints => (constraints, None)
           end
  end.

Definition New : Adapter := mkAdapter "kyverno" [gvrClusterPolicy; gvrPolicy] Parse.
End adapter.
End Kyverno.

(** ** Gatekeeper constraints (gatekeeper/adapter.go) *)

Module Gatekeeper.
Definition GatekeeperConstraintGroup : string := "constraints.gatekeeper.sh".
Definition DefaultVersion : string := "v1beta1".

Definition mapEnforcementToSeverity (action : string) : Severity :=
  switch (strings_ToLower action)
    [("deny", SeverityCritical); ("warn", SeverityWarning); ("dryrun", SeverityInfo)] SeverityCritical.

Definition mapEnforcementToEffect (action : string) : string :=
  switch (strings_ToLower action) [("deny", "deny"); ("warn", "warn"); ("dryrun", "audit")] "deny".

Definition buildSummary (kind name enforcementAction : string) (targets : list ResourceTarget) (namespaces : list string)
    : string :=
  let actionVerb := switch (strings_ToLower enforcementAction)
                      [("deny", "rejects"); ("warn", "warns on"); ("dryrun", "audits")] "validates" in
  let nsScope := if namespaces == [] then EmptyString
                 else if (go_len namespaces <=? 2)%Z then " in " +:+ strings_Join namespaces ", "
                 else " in " +:+ fmt_d (go_len namespaces) +:+ " namespaces" in
  "Gatekeeper " +:+ kind +:+ " " +:+ fmt_q name +:+ " " +:+ actionVerb +:+ " " +:+ resource_list targets +:+ nsScope.

Definition buildDetails (enforcementAction : string) (targets : list ResourceTarget) (affected excluded : list string)
    (parameters : option (gmap string GoVal)) : gmap string GoVal :=
  let details := {[ "enforcementAction" := VStr enforcementAction ]} in
  let details := if targets == [] then details else <["resourceTargets" := VTargets targets]> details in
  let details := if affected == [] then details else <["affectedNamespaces" := VStrs affected]> details in
  let details := if excluded == [] then details else <["excludedNamespaces" := VStrs excluded]> details in
  let p := default ∅ parameters in
  if size p == 0%nat then details else <["parameters" := VMap p]> details.

Definition buildTags (kind enforcementAction : string) : list string :=
  (["gatekeeper"; "admission"; "opa"; strings_ToLower kind] ++
   switch (strings_ToLower enforcementAction)
     [("deny", ["blocking"]); ("warn", ["warning"]); ("dryrun", ["audit"])] [])%list.

Definition buildRemediation (kind name : string) : list RemediationStep :=
  let get := "kubectl get " +:+ strings_ToLower kind +:+ " " +:+ name in
  [kubectl_step "View the constraint details" (get +:+ " -o yaml") "developer";
   kubectl_step "Check for violations" (get +:+ " -o jsonpath='{.status.totalViolations}'") "developer";
   manual_step "Contact platform team to request an exception or policy modification" "platform-team@company.com" "developer";
   link_step "Gatekeeper documentation" "https://open-policy-agent.github.io/gatekeeper/website/docs/" "developer"].

Section adapter.
Context {AM : Apimachinery}.

Definition gvrFromObject (obj : Unstructured) : GroupVersionResource :=
  let gvk := GetGroupVersionKind obj in
  mkGVR (k_Group gvk) (k_Version gvk) (strings_ToLower (k_Kind gvk) +:+ "s").

Definition extractNamespaces (mtch : option (gmap string GoVal)) : list string * list string :=
  match mtch with
  | None => ([], [])
  | Some m => (SafeNestedStringSlice (Some m) ["namespaces"], SafeNestedStringSlice (Some m) ["excludedNamespaces"])
  end.

Definition kind_target (kindMap : gmap string GoVal) : option ResourceTarget :=
  let kinds := SafeNestedStringSlice (Some kindMap) ["kinds"] in
  if kinds == [] then None
  else Some (mkTarget (SafeNestedStringSlice (Some kindMap) ["apiGroups"]) ((fun k => strings_ToLower k +:+ "s") <$> kinds)).

Definition extractResourceTargets (mtch : option (gmap string GoVal)) : list ResourceTarget :=
  match mtch with
  | None => []
  | Some m => match SafeNestedSlice (Some m) ["kinds"] with
              | None => []
              | Some kindsSlice => omap kind_target (omap as_map kindsSlice)
              end
  end.

Definition extractLabelSelector (mtch : option (gmap string GoVal)) : option LabelSelector :=
  match mtch with None => None | Some m => SafeNestedLabelSelector (Some m) ["labelSelector"] end.
Definition extractNamespaceSelector (mtch : option (gmap string GoVal)) : option LabelSelector :=
  match mtch with None => None | Some m => SafeNestedLabelSelector (Some m) ["namespaceSelector"] end.

Definition enforcement_action (spec : gmap string GoVal) : string :=
  let a := SafeNestedString (Some spec) ["enforcementAction"] in
  if a == EmptyString then "deny" else a.

Definition Parse (obj : Unstructured) : list Constraint * option error :=
  let name := GetName obj in
  let kind := GetKind obj in
  match SafeNestedMap (Some (Object obj)) ["spec"] with
  | None => ([], Some ("gatekeeper constraint " +:+ name +:+ ": missing spec"))
  | Some spec =>
      let enforcementAction := enforcement_action spec in
      let mtch := SafeNestedMap (Some spec) ["match"] in
      let '(affectedNamespaces, excludedNamespaces) := extractNamespaces mtch in
      let resourceTargets := extractResourceTargets mtch in
      let parameters := SafeNestedMap (Some spec) ["parameters"] in
      ([{| c_UID := GetUID obj; c_Source := gvrFromObject obj; c_Name := name; c_Namespace := EmptyString;
           c_AffectedNamespaces := affectedNamespaces; c_NamespaceSelector := extractNamespaceSelector mtch;
           c_WorkloadSelector := extractLabelSelector mtch; c_ResourceTargets := resourceTargets;
           c_ConstraintType := ConstraintTypeAdmission; c_Effect := mapEnforcementToEffect enforcementAction;
           c_Severity := mapEnforcementToSeverity enforcementAction;
           c_Details := Some (buildDetails enforcementAction resourceTargets affectedNamespaces excludedNamespaces parameters);
           c_Summary := buildSummary kind name enforcementAction resourceTargets affectedNamespaces;
           c_RemediationHint := "Review Gatekeeper constraint " +:+ kind +:+ "/" +:+ name +:+ " or contact your platform team";
           c_Remediation := buildRemediation kind name; c_Tags := buildTags kind enforcementAction;
           c_RawObject := Some obj |}], None)
  end.

Definition New : Adapter := mkAdapter "gatekeeper" [mkGVR GatekeeperConstraintGroup DefaultVersion "*"] Parse.
End adapter.
End Gatekeeper.

(** ** Kyverno: one constraint per rule *)

Section kyverno_theorems.
Context {AM : Apimachinery}.

(** A rule blocks requests: it validates, and its own failure action, or else
    the policy's, or else Kyverno's default, is to enforce. *)
Definition kyverno_enforced (spec rule : gmap string GoVal) : Prop :=
  is_Some (SafeNestedMap (Some rule) ["validate"]) ∧
  let own := SafeNestedString (Some rule) ["validate"; "validationFailureAction"] in
  let global := SafeNestedString (Some spec) ["validationFailureAction"] in
  strings_ToLower (if own == EmptyString then (if global == EmptyString then "Audit" else global) else own) = "enforce".

(** What a rule becomes, whatever its index. *)
Definition rule_image (obj : Unstructured) (spec rule : gmap string GoVal) (c : Constraint) : Prop :=
  c_Source c = (if GetKind obj == "ClusterPolicy" then Kyverno.gvrClusterPolicy else Kyverno.gvrPolicy) ∧
  c_Namespace c = GetNamespace obj ∧
  (c_Severity c = SeverityCritical ↔ kyverno_enforced spec rule) ∧
  ("blocking" ∈ c_Tags c ↔ kyverno_enforced spec rule).

Lemma determineRuleType_validate rule :
  (Kyverno.determineRuleType rule).1 = "validate" ↔ is_Some (SafeNestedMap (Some rule) ["validate"]).
Proof.
  unfold Kyverno.determineRuleType. destruct (SafeNestedMap (Some rule) ["validate"]) as [v|].
  - rewrite bool_decide_false by done. naive_solver.
  - rewrite bool_decide_true by done. split; [|by intros [? ?]]. simpl. by repeat case_match.
Qed.

Lemma rule_action_enforce spec rule :
  strings_ToLower (Kyverno.rule_action rule (Kyverno.global_action spec)) = "enforce" ↔ kyverno_enforced spec rule.
Proof.
  unfold kyverno_enforced, Kyverno.rule_action, Kyverno.global_action. case_bool_decide as Hd.
  - rewrite determineRuleType_validate in Hd. simpl. tauto.
  - rewrite determineRuleType_validate in Hd. split; [discriminate|]. tauto.
Qed.

Lemma rule_severity_critical spec rule :
  Kyverno.rule_severity rule (Kyverno.global_action spec) = SeverityCritical ↔ kyverno_enforced spec rule.
Proof.
  unfold Kyverno.rule_severity. case_bool_decide as Hd.
  - rewrite <-rule_action_enforce. unfold Kyverno.mapValidationActionToSeverity. simpl.
    repeat case_bool_decide; naive_solver.
  - rewrite determineRuleType_validate in Hd. unfold kyverno_enforced. split; [discriminate|tauto].
Qed.

Lemma rule_blocking_tag spec rule b :
  "blocking" ∈ Kyverno.buildTags (Kyverno.determineRuleType rule).1 (Kyverno.rule_action rule (Kyverno.global_action spec)) b ↔
  kyverno_enforced spec rule.
Proof.
  rewrite <-rule_action_enforce. unfold Kyverno.buildTags. rewrite !elem_of_app, !elem_of_cons.
  assert ("blocking" ∉ (if b then ["cluster-wide"] else [])) by (destruct b; set_solver).
  assert ("blocking" ≠ (Kyverno.determineRuleType rule).1).
  { unfold Kyverno.determineRuleType. by repeat case_match. }
  simpl. repeat case_bool_decide; rewrite ?list_elem_of_singleton, ?elem_of_nil; naive_solver.
Qed.

Lemma parseRule_image obj spec rule i :
  ∃ c, Kyverno.parseRule obj rule i (Kyverno.global_action spec) (GetKind obj == "ClusterPolicy") = (Some c, None) ∧
       c_UID c = GetUID obj +:+ "-rule-" +:+ fmt_d (Z.of_nat i) ∧ rule_image obj spec rule c.
Proof.
  unfold Kyverno.parseRule. pose proof (rule_blocking_tag spec rule (GetKind obj == "ClusterPolicy")) as Ht.
  destruct (Kyverno.determineRuleType rule) as [rt eff]. destruct (Kyverno.extractMatchInfo _) as [[ns tg] sel].
  eexists. split_and!; [done..|]. by split_and!; [| |apply rule_severity_critical|].
Qed.

Lemma rules_loop_spec obj spec rules i :
  let cs := Kyverno.rules_loop obj (Kyverno.global_action spec) (GetKind obj == "ClusterPolicy") i rules in
  Forall2 (rule_image obj spec) (omap as_map rules) cs ∧
  ∃ js, c_UID <$> cs = (fun j => (GetUID obj +:+ "-rule") +:+ "-" +:+ fmt_d (Z.of_nat j)) <$> js ∧
        js `sublist_of` seq i (length rules).
Proof.
  revert i. induction rules as [|r rules IH]; intros i; [split; [constructor|by exists []]|].
  destruct (IH (S i)) as (Hf & js & Hu & Hs). simpl. destruct (as_map r) as [rule|]; simpl.
  - destruct (parseRule_image obj spec rule i) as (c & Hc & Hcu & Him). rewrite Hc. split; [by constructor|].
    exists (i :: js). rewrite !fmap_cons, Hu, Hcu, string_append_assoc. split; [done|by apply sublist_skip].
  - split; [done|]. exists js. split; [done|by apply sublist_cons].
Qed.

Lemma Kyverno_distinct_uids obj : NoDup (c_UID <$> (Kyverno.Parse obj).1).
Proof.
  unfold Kyverno.Parse. destruct (SafeNestedMap _ _) as [spec|]; [|constructor]. case_bool_decide; [constructor|].
  edestruct rules_loop_spec as (_ & js & Hu & Hs).
  assert (NoDup (c_UID <$> Kyverno.rules_loop obj (Kyverno.global_action spec) (GetKind obj == "ClusterPolicy") 0
            (default [] (SafeNestedSlice (Some spec) ["rules"])))) as Hnd.
  { eapply indexed_uids_NoDup; [exact Hu|by eapply seq_filter_NoDup]. }
  by destruct (Kyverno.rules_loop _ _ _ _ _).
Qed.

Lemma Kyverno_Parse_images obj spec :
  SafeNestedMap (Some (Object obj)) ["spec"] = Some spec →
  Forall2 (rule_image obj spec) (omap as_map (default [] (SafeNestedSlice (Some spec) ["rules"]))) (Kyverno.Parse obj).1.
Proof.
  intros Hs. unfold Kyverno.Parse. rewrite Hs. case_bool_decide as Hr; [rewrite Hr; constructor|].
  pose proof (rules_loop_spec obj spec (default [] (SafeNestedSlice (Some spec) ["rules"])) 0) as [Hf _].
  by destruct (Kyverno.rules_loop _ _ _ _ _).
Qed.

Lemma Kyverno_Parse_namespace obj c : c ∈ (Kyverno.Parse obj).1 → c_Namespace c = GetNamespace obj.
Proof.
  destruct (SafeNestedMap (Some (Object obj)) ["spec"]) as [spec|] eqn:Hs.
  - pose proof (Kyverno_Parse_images obj spec Hs) as Hf. intros (i & Hi)%list_elem_of_lookup.
    destruct (Forall2_lookup_r _ _ _ _ _ Hf Hi) as (r & _ & Him). apply Him.
  - unfold Kyverno.Parse. rewrite Hs. by intros ?%not_elem_of_nil.
Qed.

(** A Kyverno policy with a specification becomes one constraint per
    well-formed rule, in the order of the rules, under distinct UIDs; it is
    an error exactly when no rule is well-formed.  A constraint is critical,
    and tagged as blocking, exactly when Kyverno enforces the rule. *)
Theorem Kyverno_Parse_spec obj spec :
  SafeNestedMap (Some (Object obj)) ["spec"] = Some spec →
  let rules := omap as_map (default [] (SafeNestedSlice (Some spec) ["rules"])) in
  Forall2 (rule_image obj spec) rules (Kyverno.Parse obj).1 ∧
  NoDup (c_UID <$> (Kyverno.Parse obj).1) ∧
  ((Kyverno.Parse obj).2 = None ↔ rules ≠ []).
Proof.
  intros Hs rules. pose proof (Kyverno_Parse_images obj spec Hs) as Hf. fold rules in Hf.
  split_and!; [done|apply Kyverno_distinct_uids|]. apply Forall2_length in Hf. unfold Kyverno.Parse in *. rewrite Hs in *.
  case_bool_decide as Hr; [unfold rules; rewrite Hr; naive_solver|].
  destruct (Kyverno.rules_loop _ _ _ _ _); simpl in *; destruct rules; simpl in *; naive_solver.
Qed.
End kyverno_theorems.

(** ** Gatekeeper *)

Section gatekeeper_theorems.
Context {AM : Apimachinery}.

Definition gatekeeper_action (spec : gmap string GoVal) : string := strings_ToLower (Gatekeeper.enforcement_action spec).

(** A Gatekeeper constraint with a specification becomes exactly one
    cluster-scoped admission constraint under its own UID, which blocks unless
    the enforcement action is a warning or a dry run. *)
Theorem Gatekeeper_Parse_spec obj :
  match SafeNestedMap (Some (Object obj)) ["spec"] with
  | None => Gatekeeper.Parse obj = ([], Some ("gatekeeper constraint " +:+ GetName obj +:+ ": missing spec"))
  | Some spec => ∃ c, Gatekeeper.Parse obj = ([c], None) ∧ c_UID c = GetUID obj ∧ c_Namespace c = EmptyString ∧
      c_ConstraintType c = ConstraintTypeAdmission ∧
      (c_Severity c = SeverityCritical ↔ gatekeeper_action spec ≠ "warn" ∧ gatekeeper_action spec ≠ "dryrun") ∧
      (c_Effect c = "deny" ↔ c_Severity c = SeverityCritical)
  end.
Proof.
  unfold Gatekeeper.Parse. destruct (SafeNestedMap _ _) as [spec|]; [|done].
  destruct (Gatekeeper.extractNamespaces _) as [aff exc]. eexists. split_and!; [done..| |]; simpl.
  all: unfold Gatekeeper.mapEnforcementToSeverity, Gatekeeper.mapEnforcementToEffect, gatekeeper_action; simpl.
  all: repeat case_bool_decide; split; try done; try (intros [? ?]; congruence); try tauto; intros _; split; congruence.
Qed.

(** The source that the adapter writes is never the resource Gatekeeper
    serves, the kind in lower case, but that name with an s. *)
Lemma Gatekeeper_source_guessed obj c gvr :
  c ∈ (Gatekeeper.Parse obj).1 → g_Resource gvr = strings_ToLower (k_Kind (GetGroupVersionKind obj)) → c_Source c ≠ gvr.
Proof.
  unfold Gatekeeper.Parse. destruct (SafeNestedMap _ _) as [spec|]; [|by intros ?%not_elem_of_nil].
  destruct (Gatekeeper.extractNamespaces _) as [aff exc]. intros ->%list_elem_of_singleton Hr Hs. simpl in Hs.
  rewrite <-Hs in Hr. simpl in Hr.
  assert ("s" = EmptyString) as [=]. apply (string_append_inj_l (strings_ToLower (k_Kind (GetGroupVersionKind obj)))).
  by rewrite string_append_nil_r.
Qed.
End gatekeeper_theorems.

(** ** Evaluation *)

Definition example_kyverno : Unstructured :=
  object_of "ClusterPolicy" "labels" EmptyString "k1"
    {[ "spec" := VMap {[ "validationFailureAction" := VStr "Audit";
         "rules" := VSlice
           [VMap {[ "name" := VStr "team"; "validate" := VMap {[ "validationFailureAction" := VStr "Enforce" ]};
                    "match" := VMap {[ "any" := VSlice [VMap {[ "resources" := VMap
                      {[ "kinds" := VSlice [VStr "Pod"; VStr "apps/Deployment"]; "namespaces" := VSlice [VStr "prod"] ]} ]}] ]} ]};
            VStr "not a rule";
            VMap {[ "mutate" := VMap ∅ ]}] ]} ]}.

Lemma Kyverno_Parse_spec_witness :
  c_Severity <$> (Kyverno.Parse example_kyverno).1 = [SeverityCritical; SeverityInfo] ∧
  NoDup (c_UID <$> (Kyverno.Parse example_kyverno).1) ∧ (Kyverno.Parse example_kyverno).2 = None.
Proof.
  split; [vm_compute; reflexivity|].
  destruct (Kyverno_Parse_spec example_kyverno (default ∅ (SafeNestedMap (Some (Object example_kyverno)) ["spec"])))
    as (_ & Hnd & He); [vm_compute; reflexivity|]. split; [exact Hnd|]. apply He. vm_compute. discriminate.
Defined.

Example example_kyverno_constraints :
  (fun c => (c_UID c, c_Name c, c_Summary c)) <$> (Kyverno.Parse example_kyverno).1 =
  [("k1-rule-0", "labels/team", "Kyverno ClusterPolicy " +:+ fmt_q "labels" +:+ " rule " +:+ fmt_q "team" +:+ " enforces pods, deployments");
   ("k1-rule-2", "labels/rule-2", "Kyverno ClusterPolicy " +:+ fmt_q "labels" +:+ " rule " +:+ fmt_q "rule-2" +:+ " mutates resources")].
Proof. vm_compute. reflexivity. Qed.

Definition example_gatekeeper : Unstructured :=
  object_of "K8sRequiredLabels" "must-have-team" EmptyString "g1"
    {[ "apiVersion" := VStr "constraints.gatekeeper.sh/v1beta1";
       "spec" := VMap {[ "match" := VMap {[ "namespaces" := VSlice [VStr "prod"];
                                            "excludedNamespaces" := VSlice [VStr "kube-system"] ]} ]} ]}.

Example example_gatekeeper_constraint :
  (fun c => (c_Summary c, c_Severity c, g_Resource (c_Source c))) <$> (Gatekeeper.Parse example_gatekeeper).1 =
  [("Gatekeeper K8sRequiredLabels " +:+ fmt_q "must-have-team" +:+ " rejects resources in prod", SeverityCritical, "k8srequiredlabelss")].
Proof. vm_compute. reflexivity. Qed.
