(* ===== verification/CiliumAdapter.v ===== *)
(** * The adapter of Cilium network policies (internal/adapters/cilium/adapter.go)

    A CiliumNetworkPolicy or CiliumClusterwideNetworkPolicy has one or several
    specifications; each gives a constraint for ingress, one for egress, or
    one that denies all.  The controller does not register this adapter: the
    objects of the group cilium.io go to the generic one. *)

From S2P Require Import Prelude GoStd Types Apimachinery Util NativeAdapters.

Open Scope go_scope.
#[local] Open Scope string_scope.

Module Cilium.
Definition gvrCNP : GroupVersionResource := mkGVR "cilium.io" "v2" "ciliumnetworkpolicies".
Definition gvrCCNP : GroupVersionResource := mkGVR "cilium.io" "v2" "ciliumclusterwidenetworkpolicies".

(** The adapter's own copy of the loop of [util.UniqueStrings]; [seen] is a
    map to [bool]. *)
Fixpoint unique_strings_loop (seen : gmap string bool) (s : list string) : list string :=
  match s with
  | [] => []
  | v :: rest => if negb (default false (seen !! v)) then v :: unique_strings_loop (<[v := true]> seen) rest
                 else unique_strings_loop seen rest
  end.
Definition uniqueStrings (s : list string) : list string := unique_strings_loop ∅ s.

Definition policy_type (isClusterWide : bool) : string :=
  if isClusterWide then "CiliumClusterwideNetworkPolicy" else "CiliumNetworkPolicy".

Definition buildRemediationHint (name namespace : string) (isClusterWide : bool) : string :=
  if isClusterWide then "Review CiliumClusterwideNetworkPolicy " +:+ fmt_q name +:+ " or contact your platform team"
  else "Review CiliumNetworkPolicy " +:+ namespace +:+ "/" +:+ name +:+ " or contact your platform team".

(** [if len(l) > 0 { details[key] = uniqueStrings(l) }] *)
Definition add_strings (key : string) (l : list string) (details : gmap string GoVal) : gmap string GoVal :=
  if l == [] then details else <[key := VStrs (uniqueStrings l)]> details.

Section adapter.
Context {AM : Apimachinery}.

(** The maps among the elements of a field that holds a list. *)
Definition maps_at (m : gmap string GoVal) (field : string) : list (gmap string GoVal) :=
  omap as_map (default [] (SafeNestedSlice (Some m) [field])).

Definition getSpecs (obj : Unstructured) : list (gmap string GoVal) :=
  match SafeNestedSlice (Some (Object obj)) ["specs"] with
  | Some specs => match omap as_map specs with
                  | [] => match SafeNestedMap (Some (Object obj)) ["spec"] with Some spec => [spec] | None => [] end
                  | result => result
                  end
  | None => match SafeNestedMap (Some (Object obj)) ["spec"] with Some spec => [spec] | None => [] end
  end.

Definition extractEndpointSelector (spec : gmap string GoVal) : option LabelSelector :=
  SafeNestedLabelSelector (Some spec) ["endpointSelector"].

Definition port_of (p : gmap string GoVal) : option string :=
  let pr := SafeStringFromMap (Some p) "protocol" in
  let protocol := if pr == EmptyString then "TCP" else pr in
  let port := SafeStringFromMap (Some p) "port" in
  if port != EmptyString then Some (port +:+ "/" +:+ protocol) else None.

Definition extractPorts (rule : gmap string GoVal) : list string :=
  mjoin ((fun portMap => omap port_of (maps_at portMap "ports")) <$> maps_at rule "toPorts").

Definition extractEntities (rule : gmap string GoVal) (field : string) : list string :=
  SafeNestedStringSlice (Some rule) [field].

(** [if v := util.SafeStringFromMap(m, key); v != "" { append v }] *)
Definition string_entry (m : gmap string GoVal) (key : string) : list string :=
  let v := SafeStringFromMap (Some m) key in if v != EmptyString then [v] else [].

Definition extractCIDRs (rule : gmap string GoVal) (fields : list string) : list string :=
  mjoin ((fun field => (SafeNestedStringSlice (Some rule) [field] ++
                        mjoin ((fun cs => string_entry cs "cidr") <$> maps_at rule field))%list) <$> fields).

Definition extractFQDNs (rule : gmap string GoVal) : list string :=
  mjoin ((fun f => (string_entry f "matchName" ++ string_entry f "matchPattern")%list) <$> maps_at rule "toFQDNs").

(** [_, ok := rules[key]] *)
Definition has_key (rules : gmap string GoVal) (key : string) : bool := bool_decide (is_Some (rules !! key)).

Definition hasL7Rules (rule : gmap string GoVal) : bool :=
  existsb (fun portMap =>
    match SafeNestedMap (Some portMap) ["rules"] with
    | None => false
    | Some rules => has_key rules "http" || has_key rules "dns" || has_key rules "kafka" ||
                    has_key rules "l7" || has_key rules "l7proto"
    end) (maps_at rule "toPorts").

Definition l7_types_of (rules : gmap string GoVal) : list string :=
  ((if has_key rules "http" then ["http"] else []) ++ (if has_key rules "dns" then ["dns"] else []) ++
   (if has_key rules "kafka" then ["kafka"] else []) ++ string_entry rules "l7proto")%list.

Definition extractL7Types (rule : gmap string GoVal) : list string :=
  mjoin ((fun portMap => match SafeNestedMap (Some portMap) ["rules"] with
                         | None => []
                         | Some rules => l7_types_of rules
                         end) <$> maps_at rule "toPorts").

Definition buildIngressSummary (name : string) (ingress ingressDeny : list GoVal) (isClusterWide : bool) : string :=
  let head := policy_type isClusterWide +:+ " " +:+ fmt_q name in
  if ingressDeny != [] then head +:+ " explicitly denies " +:+ fmt_d (go_len ingressDeny) +:+ " ingress source(s)"
  else if ingress == [] then head +:+ " denies all ingress traffic"
  else
    let rules := omap as_map ingress in
    let entities := mjoin ((fun r => extractEntities r "fromEntities") <$> rules) in
    let hasL7 := existsb hasL7Rules rules in
    if entities != [] then
      head +:+ " allows ingress from " +:+ strings_Join (uniqueStrings entities) ", " +:+
      (if hasL7 then " with L7 filtering" else EmptyString)
    else if hasL7 then head +:+ " restricts ingress with L7 rules (" +:+ fmt_d (go_len ingress) +:+ " rule(s))"
    else head +:+ " restricts ingress to " +:+ fmt_d (go_len ingress) +:+ " rule(s)".

(** The destinations an egress summary names. *)
Definition egress_parts (entities fqdns : list string) : list string :=
  ((if entities == [] then [] else [strings_Join (uniqueStrings entities) ", "]) ++
   (if fqdns == [] then []
    else let u := uniqueStrings fqdns in
         if (go_len u <=? 3)%Z then [strings_Join u ", "] else [fmt_d (go_len u) +:+ " FQDN(s)"]))%list.

Definition buildEgressSummary (name : string) (egress egressDeny : list GoVal) (isClusterWide : bool) : string :=
  let head := policy_type isClusterWide +:+ " " +:+ fmt_q name in
  if egressDeny != [] then head +:+ " explicitly denies " +:+ fmt_d (go_len egressDeny) +:+ " egress destination(s)"
  else if egress == [] then head +:+ " denies all egress traffic"
  else
    let rules := omap as_map egress in
    let parts := egress_parts (mjoin ((fun r => extractEntities r "toEntities") <$> rules)) (mjoin (extractFQDNs <$> rules)) in
    let hasL7 := existsb hasL7Rules rules in
    if parts != [] then
      head +:+ " allows egress to " +:+ strings_Join parts " and " +:+
      (if hasL7 then " with L7 filtering" else EmptyString)
    else if hasL7 then head +:+ " restricts egress with L7 rules (" +:+ fmt_d (go_len egress) +:+ " rule(s))"
    else head +:+ " restricts egress to " +:+ fmt_d (go_len egress) +:+ " rule(s)".

Definition extractIngressDetails (ingress ingressDeny : list GoVal) : gmap string GoVal :=
  let rules := omap as_map (ingress ++ ingressDeny)%list in
  add_strings "l7Types" (mjoin (extractL7Types <$> rules))
    (add_strings "cidrs" (mjoin ((fun r => extractCIDRs r ["fromCIDR"; "fromCIDRSet"]) <$> rules))
      (add_strings "entities" (mjoin ((fun r => extractEntities r "fromEntities") <$> rules))
        (add_strings "ports" (mjoin (extractPorts <$> rules))
          {[ "allowRuleCount" := VInt (go_len ingress); "denyRuleCount" := VInt (go_len ingressDeny) ]}))).

Definition extractEgressDetails (egress egressDeny : list GoVal) : gmap string GoVal :=
  let rules := omap as_map (egress ++ egressDeny)%list in
  add_strings "l7Types" (mjoin (extractL7Types <$> rules))
    (add_strings "fqdns" (mjoin (extractFQDNs <$> rules))
      (add_strings "cidrs" (mjoin ((fun r => extractCIDRs r ["toCIDR"; "toCIDRSet"]) <$> rules))
        (add_strings "entities" (mjoin ((fun r => extractEntities r "toEntities") <$> rules))
          (add_strings "ports" (mjoin (extractPorts <$> rules))
            {[ "allowRuleCount" := VInt (go_len egress); "denyRuleCount" := VInt (go_len egressDeny) ]})))).

Definition is_cluster_wide (obj : Unstructured) : bool :=
  k_Kind (GetGroupVersionKind obj) == "CiliumClusterwideNetworkPolicy".

(** The fields the three constraint literals share. *)
Definition cilium_constraint (obj : Unstructured) (spec : gmap string GoVal) (ct : ConstraintType) (effect : string)
    (severity : Severity) (summary : string) (details : gmap string GoVal) : Constraint :=
  let name := GetName obj in
  let namespace := GetNamespace obj in
  let isClusterWide := is_cluster_wide obj in
  {| c_UID := GetUID obj; c_Source := if isClusterWide then gvrCCNP else gvrCNP; c_Name := name;
     c_Namespace := namespace;
     c_AffectedNamespaces := if negb isClusterWide && (namespace != EmptyString) then [namespace] else [];
     c_NamespaceSelector := None; c_WorkloadSelector := extractEndpointSelector spec; c_ResourceTargets := [];
     c_ConstraintType := ct; c_Effect := effect; c_Severity := severity; c_Details := Some details;
     c_Summary := summary; c_RemediationHint := buildRemediationHint name namespace isClusterWide;
     c_Remediation := []; c_Tags := []; c_RawObject := Some obj |}.

(** One iteration of the loop over the specifications. *)
Definition spec_constraints (obj : Unstructured) (spec : gmap string GoVal) : list Constraint :=
  let name := GetName obj in
  let isClusterWide := is_cluster_wide obj in
  let ingress := default [] (SafeNestedSlice (Some spec) ["ingress"]) in
  let ingressDeny := default [] (SafeNestedSlice (Some spec) ["ingressDeny"]) in
  let hasIngress := (ingress != []) || (ingressDeny != []) in
  let egress := default [] (SafeNestedSlice (Some spec) ["egress"]) in
  let egressDeny := default [] (SafeNestedSlice (Some spec) ["egressDeny"]) in
  let hasEgress := (egress != []) || (egressDeny != []) in
  ((if hasIngress
    then [cilium_constraint obj spec ConstraintTypeNetworkIngress
            (if ingressDeny != [] then "deny" else "restrict")
            (if ingressDeny != [] then SeverityCritical else SeverityWarning)
            (buildIngressSummary name ingress ingressDeny isClusterWide) (extractIngressDetails ingress ingressDeny)]
    else []) ++
   (if hasEgress
    then [cilium_constraint obj spec ConstraintTypeNetworkEgress
            (if egressDeny != [] then "deny" else "restrict")
            (if egressDeny != [] then SeverityCritical else SeverityWarning)
            (buildEgressSummary name egress egressDeny isClusterWide) (extractEgressDetails egress egressDeny)]
    else []) ++
   (if negb hasIngress && negb hasEgress
    then [cilium_constraint obj spec ConstraintTypeNetworkIngress "deny" SeverityCritical
            ("CiliumNetworkPolicy " +:+ fmt_q name +:+ " denies all traffic to selected pods") {[ "deniesAll" := VBool true ]}]
    else []))%list.

Definition Parse (obj : Unstructured) : list Constraint * option error :=
  match getSpecs obj with
  | [] => ([], Some ("cilium policy " +:+ GetName obj +:+ ": missing spec or specs"))
  | specs => (mjoin (spec_constraints obj <$> specs), None)
  end.

Definition New : Adapter := mkAdapter "cilium" [gvrCNP; gvrCCNP] Parse.
End adapter.
End Cilium.

(** ** Theorems *)

(** Each copy of the deduplication loop keeps what the other keeps. *)
Lemma unique_strings_loop_eq seen set s :
  (∀ v, v ∈ set ↔ seen !! v = Some true) → Cilium.unique_strings_loop seen s = unique_loop set s.
Proof.
  revert seen set. induction s as [|v s IH]; intros seen set Hset; simpl; [done|].
  case_bool_decide as Hv; rewrite Hset in Hv; [rewrite Hv; simpl; by apply IH|].
  destruct (seen !! v) as [[]|] eqn:Hs; [done| |]; simpl; f_equal; apply IH; intros w;
    destruct (decide (w = v)) as [->|]; rewrite ?lookup_insert_eq, ?lookup_insert_ne by done; set_solver.
Qed.

(** The adapter's own deduplication loop, over a map of flags, computes
    [util.UniqueStrings]: the same strings in the same order. *)
Theorem Cilium_uniqueStrings_eq s : Cilium.uniqueStrings s = UniqueStrings s.
Proof. apply unique_strings_loop_eq. intros v. rewrite lookup_empty. set_solver. Qed.

Section cilium_theorems.
Context {AM : Apimachinery}.

(** The field holds a list with an element. *)
Definition nonempty_list (spec : gmap string GoVal) (field : string) : bool :=
  match SafeNestedSlice (Some spec) [field] with Some (_ :: _) => true | _ => false end.

(** The directions one specification restricts; none means that it denies all. *)
Definition restricts_ingress (spec : gmap string GoVal) : bool := nonempty_list spec "ingress" || nonempty_list spec "ingressDeny".
Definition restricts_egress (spec : gmap string GoVal) : bool := nonempty_list spec "egress" || nonempty_list spec "egressDeny".

Definition spec_directions (spec : gmap string GoVal) : list ConstraintType :=
  match restricts_ingress spec, restricts_egress spec with
  | true, true => [ConstraintTypeNetworkIngress; ConstraintTypeNetworkEgress]
  | false, true => [ConstraintTypeNetworkEgress]
  | _, false => [ConstraintTypeNetworkIngress]
  end.

(** A constraint of the policy: under the policy's UID, and critical exactly
    when it denies. *)
Definition cilium_image (obj : Unstructured) (c : Constraint) : Prop :=
  c_UID c = GetUID obj ∧ c_Namespace c = GetNamespace obj ∧ (c_Severity c = SeverityCritical ↔ c_Effect c = "deny").

Lemma nonempty_list_default spec field :
  (default [] (SafeNestedSlice (Some spec) [field]) != []) = nonempty_list spec field.
Proof. unfold nonempty_list. by destruct (SafeNestedSlice _ _) as [[|]|]. Qed.

Lemma spec_constraints_spec obj spec :
  c_ConstraintType <$> Cilium.spec_constraints obj spec = spec_directions spec ∧
  Forall (cilium_image obj) (Cilium.spec_constraints obj spec).
Proof.
  unfold Cilium.spec_constraints, spec_directions, restricts_ingress, restricts_egress. rewrite !nonempty_list_default.
  destruct (nonempty_list spec "ingress"), (nonempty_list spec "ingressDeny"), (nonempty_list spec "egress"), (nonempty_list spec "egressDeny");
    (split; [done|]); simpl; repeat constructor; done.
Qed.

(** A Cilium policy is an error exactly when it has no specification; each
    specification gives the directions it restricts, or one ingress constraint
    that denies all; all constraints carry the UID of the policy. *)
Theorem Cilium_Parse_spec obj :
  ((Cilium.Parse obj).2 = None ↔ Cilium.getSpecs obj ≠ []) ∧
  c_ConstraintType <$> (Cilium.Parse obj).1 = mjoin (spec_directions <$> Cilium.getSpecs obj) ∧
  Forall (cilium_image obj) (Cilium.Parse obj).1.
Proof.
  assert ((Cilium.Parse obj).1 = mjoin (Cilium.spec_constraints obj <$> Cilium.getSpecs obj)) as ->.
  { unfold Cilium.Parse. by destruct (Cilium.getSpecs obj). }
  split_and!.
  - unfold Cilium.Parse. destruct (Cilium.getSpecs obj); naive_solver.
  - induction (Cilium.getSpecs obj) as [|spec l IH]; [done|]. rewrite !fmap_cons. simpl.
    by rewrite fmap_app, IH, (proj1 (spec_constraints_spec obj spec)).
  - apply Forall_forall. intros c (l & Hc & (spec & -> & _)%list_elem_of_fmap)%list_elem_of_join.
    revert c Hc. apply Forall_forall, spec_constraints_spec.
Qed.

(** The L7 types a rule lists are L7 filtering the summaries mention. *)
Theorem Cilium_L7Types_sound rule : Cilium.extractL7Types rule ≠ [] → Cilium.hasL7Rules rule = true.
Proof.
  unfold Cilium.extractL7Types, Cilium.hasL7Rules. rewrite existsb_exists.
  induction (Cilium.maps_at rule "toPorts") as [|p l IH]; [done|]. rewrite fmap_cons. cbn beta. intros Hne.
  destruct (SafeNestedMap (Some p) ["rules"]) as [rules|] eqn:Hr.
  - destruct (decide (Cilium.l7_types_of rules = [])) as [He|He].
    + rewrite He in Hne. destruct (IH Hne) as (q & Hq & Hb). exists q. split; [by right|done].
    + exists p. rewrite Hr. split; [by left|]. unfold Cilium.l7_types_of in He.
      destruct (Cilium.has_key rules "http"), (Cilium.has_key rules "dns"), (Cilium.has_key rules "kafka"), (Cilium.has_key rules "l7"); try done.
      simpl in *. unfold Cilium.string_entry, SafeStringFromMap in He. unfold Cilium.has_key.
      destruct (rules !! "l7proto"); [done|]. by rewrite bool_decide_true in He.
  - destruct (IH Hne) as (q & Hq & Hb). exists q. split; [by right|done].
Qed.
End cilium_theorems.

(** ** Evaluation *)

Definition example_cilium : Unstructured :=
  object_of "CiliumNetworkPolicy" "web" "prod" "cnp1"
    {[ "spec" := VMap
         {[ "ingress" := VSlice [VMap {[ "fromEntities" := VSlice [VStr "cluster"; VStr "host"; VStr "cluster"] ]}];
            "egressDeny" := VSlice [VMap {[ "toCIDR" := VSlice [VStr "10.0.0.0/8"] ]}] ]} ]}.

Example example_cilium_constraints :
  (fun c => (c_ConstraintType c, c_Severity c, c_Summary c)) <$> (Cilium.Parse example_cilium).1 =
  [(ConstraintTypeNetworkIngress, SeverityWarning, "CiliumNetworkPolicy " +:+ fmt_q "web" +:+ " allows ingress from cluster, host");
   (ConstraintTypeNetworkEgress, SeverityCritical, "CiliumNetworkPolicy " +:+ fmt_q "web" +:+ " explicitly denies 1 egress destination(s)")].
Proof. vm_compute. reflexivity. Qed.

(** A clusterwide policy that denies all is described as a namespaced one. *)
Example cilium_deny_all_mislabelled :
  c_Summary <$> (Cilium.Parse (object_of "CiliumClusterwideNetworkPolicy" "lock" EmptyString "u"
                                 {[ "spec" := VMap ∅; "apiVersion" := VStr "cilium.io/v2" ]})).1 =
  ["CiliumNetworkPolicy " +:+ fmt_q "lock" +:+ " denies all traffic to selected pods"].
Proof. vm_compute. reflexivity. Qed.
