(* ===== verification/AdapterContract.v ===== *)
(** * What every adapter promises, and what the index therefore holds

    [AdapterLaws] is the contract between the adapters and the engine: the
    constraints an object gives are of a declared type and severity, have
    remediation steps that the schema of the reports admits, refer to
    the object they were made of and have a UID derived from its UID, and an
    error comes without constraints.  Every adapter of the repository is an
    instance.  Against this interface the engine keeps the index well typed
    over every run ([index_typed]). *)

From S2P Require Import Prelude GoStd Types Apimachinery Util Registry Indexer Remediation.
From S2P Require Import NativeAdapters PolicyAdapters CiliumAdapter GenericAdapter Discovery.

Open Scope go_scope.
#[local] Open Scope string_scope.

(** The values of the enumerations of internal/types/constraint.go. *)
Definition constraint_types : list ConstraintType :=
  [ConstraintTypeNetworkIngress; ConstraintTypeNetworkEgress; ConstraintTypeAdmission; ConstraintTypeResourceLimit;
   ConstraintTypeMeshPolicy; ConstraintTypeMissing; ConstraintTypeUnknown].
Definition severities : list Severity := [SeverityCritical; SeverityWarning; SeverityInfo].

Section contract.
Context {AM : Apimachinery}.

Record typed_constraint (obj : Unstructured) (c : Constraint) : Prop := {
  tc_type : c_ConstraintType c ∈ constraint_types;
  tc_severity : c_Severity c ∈ severities;
  tc_raw : c_RawObject c = Some obj;
  tc_uid : ∃ suffix, c_UID c = GetUID obj +:+ suffix;
  tc_steps : Forall (fun s => schema_step s = true) (c_Remediation c);
}.

Class AdapterLaws (a : Adapter) : Prop := {
  parse_typed : forall obj, Forall (typed_constraint obj) (a_Parse a obj).1;
  parse_error : forall obj err, (a_Parse a obj).2 = Some err -> (a_Parse a obj).1 = [];
}.

(** The UID of the object itself is such a UID. *)
Lemma own_uid (uid : string) : ∃ suffix, uid = uid +:+ suffix.
Proof. exists EmptyString. by rewrite string_append_nil_r. Qed.

Ltac declared := apply (bool_decide_unpack _); vm_compute; exact I.
Ltac typed_field :=
  lazymatch goal with
  | |- ∃ _, _ => first [apply own_uid | by eexists]
  | |- _ ∈ _ => repeat case_match; declared
  | |- Forall _ _ => repeat (apply Forall_cons_2; [vm_compute; reflexivity|]); apply Forall_nil_2
  | |- _ => reflexivity
  end.
Ltac typed := split; simpl; typed_field.
Ltac typed_all := first [apply Forall_nil_2 | apply Forall_singleton; typed].

#[export] Instance NetworkPolicy_laws : AdapterLaws NetworkPolicy.New.
Proof.
  split; intros obj; simpl; unfold NetworkPolicy.Parse; destruct (SafeNestedMap _ _) as [spec|]; try done; try apply Forall_nil_2.
  apply Forall_app. split; case_match; typed_all.
Qed.

Lemma limit_loop_typed obj i limits : Forall (typed_constraint obj) (LimitRange.limit_loop obj i limits).
Proof.
  revert i. induction limits as [|l limits IH]; intros i; simpl; [constructor|].
  destruct (as_map l); [constructor; [typed|]|]; apply IH.
Qed.

#[export] Instance LimitRange_laws : AdapterLaws LimitRange.New.
Proof.
  split; intros obj; simpl; unfold LimitRange.Parse; destruct (SafeNestedMap _ _) as [spec|]; try done; try apply Forall_nil_2.
  apply limit_loop_typed.
Qed.

Lemma webhook_constraint_typed obj i m : typed_constraint obj (WebhookConfig.webhook_constraint obj i m).
Proof. unfold WebhookConfig.webhook_constraint. destruct (WebhookConfig.parseRules _) as [[ops res] tgts]. typed. Qed.

#[export] Instance WebhookConfig_laws : AdapterLaws WebhookConfig.New.
Proof.
  split; [|done]. intros obj. apply Forall_forall. intros c (j & m & _ & _ & ->)%webhook_loop_elem.
  apply webhook_constraint_typed.
Qed.

#[export] Instance ResourceQuota_laws `{Q : Quantities} : AdapterLaws ResourceQuota.New.
Proof.
  split; intros obj; simpl; unfold ResourceQuota.Parse; destruct (SafeNestedMap _ _) as [spec|]; simpl; try done; try apply Forall_nil_2;
    case_bool_decide; simpl; try done; try apply Forall_nil_2; destruct (ResourceQuota.resource_loop _ _ _ _ _) as [res mp]; simpl; [|done].
  apply Forall_singleton. split; simpl; [typed_field| |typed_field..]. unfold ResourceQuota.quota_severity. typed_field.
Qed.

Lemma rules_loop_typed obj g b i rules : Forall (typed_constraint obj) (Kyverno.rules_loop obj g b i rules).
Proof.
  revert i. induction rules as [|r rules IH]; intros i; simpl; [constructor|].
  destruct (as_map r) as [rule|]; [|apply IH]. unfold Kyverno.parseRule.
  destruct (Kyverno.determineRuleType rule) as [rt eff]. destruct (Kyverno.extractMatchInfo _) as [[ns tg] sel].
  constructor; [|apply IH]. split; simpl; [| |typed_field..].
  - unfold Kyverno.mapRuleTypeToConstraintType. cbn [switch]. typed_field.
  - unfold Kyverno.rule_severity, Kyverno.mapValidationActionToSeverity. cbn [switch]. typed_field.
Qed.

#[export] Instance Kyverno_laws : AdapterLaws Kyverno.New.
Proof.
  split; intros obj; simpl; unfold Kyverno.Parse; destruct (SafeNestedMap _ _) as [spec|]; try done; try apply Forall_nil_2;
    case_bool_decide; try done; try apply Forall_nil_2.
  - pose proof (rules_loop_typed obj (Kyverno.global_action spec) (GetKind obj == "ClusterPolicy") 0
                  (default [] (SafeNestedSlice (Some spec) ["rules"]))) as Hall.
    by destruct (Kyverno.rules_loop _ _ _ _ _).
  - by destruct (Kyverno.rules_loop _ _ _ _ _).
Qed.

#[export] Instance Gatekeeper_laws : AdapterLaws Gatekeeper.New.
Proof.
  split; intros obj; simpl; unfold Gatekeeper.Parse; destruct (SafeNestedMap _ _) as [spec|]; simpl; try done; try apply Forall_nil_2;
    destruct (Gatekeeper.extractNamespaces _) as [aff exc]; [|done].
  apply Forall_singleton. split; simpl; [typed_field| |typed_field..].
  unfold Gatekeeper.mapEnforcementToSeverity. cbn [switch]. typed_field.
Qed.

#[export] Instance Cilium_laws : AdapterLaws Cilium.New.
Proof.
  split; intros obj; simpl; unfold Cilium.Parse; destruct (Cilium.getSpecs obj) as [|s specs] eqn:Hs; try done.
  apply Forall_forall. intros c (l & Hc & (spec & -> & _)%list_elem_of_fmap)%list_elem_of_join.
  revert c Hc. apply Forall_forall. unfold Cilium.spec_constraints. rewrite !Forall_app.
  split_and!; case_match; typed_all.
Qed.

(** The generic adapter, with or without a profile's configuration. *)
Lemma generic_typed obj gvr : typed_constraint obj (Generic.generic_constraint obj gvr).
Proof.
  unfold Generic.generic_constraint. destruct (Generic.extractSelectors _) as [ws ns]. split; simpl; [| |typed_field..].
  - unfold Generic.annotated_type. cbn [switch]. typed_field.
  - apply Generic.annotated_severity_known.
Qed.

Lemma configured_typed obj cfg c : typed_constraint obj c → typed_constraint obj (Generic.configure obj cfg c).
Proof.
  intros [Ht Hs Hr Hu Hst]. unfold Generic.configure.
  set (t := match Generic.pc_FieldPaths cfg with Some _ => _ | None => _ end). destruct t as [[[ws ns] eff] sum].
  split; simpl; try done. unfold Generic.apply_severity. case_match; [|done].
  apply switch_forall; [|done]. repeat (apply Forall_cons_2; [declared|]). apply Forall_nil_2.
Qed.

(** ** The engine against the contract *)

Definition registry_laws (r : Registry) : Prop :=
  (∀ n a, ForName r n = Some a → AdapterLaws a) ∧ (∀ g a, ForGVR r g = Some a → AdapterLaws a) ∧
  (∀ g a, ForGroup r g = Some a → AdapterLaws a).

Lemma parseObject_typed σ e gvr obj :
  registry_laws (e_registry e) → Forall (typed_constraint obj) (parseObject σ e gvr obj).1.
Proof.
  intros (Hn & Hg & Hgr). unfold parseObject.
  set (m := match enabled_profile σ e gvr with Some _ => _ | None => _ end).
  destruct m as [a|] eqn:Hm.
  { assert (∃ n, ForName (e_registry e) n = Some a) as [n Ha].
    { unfold m in Hm. repeat case_match; try done. eauto. }
    by eapply (@parse_typed a (Hn _ _ Ha)). }
  destruct (ForGVR _ _) as [a|] eqn:Ha; [by eapply (@parse_typed a (Hg _ _ Ha))|].
  destruct (ForGroup _ _) as [a|] eqn:Hb; [by eapply (@parse_typed a (Hgr _ _ Hb))|].
  destruct (enabled_profile σ e gvr) as [ps|]; simpl; apply Forall_singleton; [apply configured_typed|]; apply generic_typed.
Qed.

(** What the index may hold. *)
Definition typed_index (idx : Indexer) : Prop :=
  map_Forall (fun uid c => c_UID c = uid ∧ ∃ obj, typed_constraint obj c) (byUID idx).

Definition typed_engine (e : Engine) : Prop := registry_laws (e_registry e) ∧ typed_index (e_indexer e).

Lemma upsert_all_typed obj cs idx :
  Forall (typed_constraint obj) cs → typed_index idx → typed_index (upsert_all cs idx).1.
Proof.
  intros Hcs. revert idx. induction Hcs as [|c cs Hc _ IH]; intros idx Hi; simpl; [done|].
  specialize (IH (Upsert c idx).1). simpl in IH. destruct (upsert_all cs _) as [i2 ev]. simpl in *. apply IH.
  apply map_Forall_insert_2; [|done]. split; [done|by exists obj].
Qed.

Lemma typed_index_subseteq idx idx' : byUID idx' ⊆ byUID idx → typed_index idx → typed_index idx'.
Proof. intros Hs Hi uid c Hc. apply Hi. by eapply lookup_weaken. Qed.

Lemma delete_all_subseteq uids idx : byUID (delete_all uids idx).1 ⊆ byUID idx.
Proof. apply map_subseteq_spec. intros uid c. rewrite delete_all_lookup. by case_bool_decide. Qed.

Lemma Delete_subseteq uid idx : byUID (Delete uid idx).1 ⊆ byUID idx.
Proof. apply map_subseteq_spec. intros u c. rewrite Delete_lookup, lookup_delete_Some. by intros [_ ?]. Qed.

Lemma handleAdd_typed σ gvr d e : typed_engine e → typed_engine (handleAdd σ gvr d e).1.
Proof.
  intros [Hr Hi]. unfold handleAdd. case_bool_decide; [|done]. simpl. destruct d as [obj| |]; [|done..].
  pose proof (parseObject_typed σ e gvr obj Hr) as Hp. destruct (parseObject σ e gvr obj) as [cs [err|]]; [done|].
  pose proof (upsert_all_typed obj cs (e_indexer e) Hp Hi) as Hu. destruct (upsert_all cs (e_indexer e)) as [idx ev]. done.
Qed.

Lemma handleDelete_typed σ gvr d e : typed_engine e → typed_engine (handleDelete σ gvr d e).1.
Proof.
  intros [Hr Hi]. unfold handleDelete. destruct (delivered_object d) as [obj|]; [|done].
  pose proof (typed_index_subseteq _ _ (Delete_subseteq (GetUID obj) (e_indexer e)) Hi) as Hd.
  destruct (parseObject σ e gvr obj) as [[|c cs] [err|]];
    try (by destruct (Delete (GetUID obj) (e_indexer e)) as [idx ev]).
  pose proof (typed_index_subseteq _ _ (delete_all_subseteq (c_UID <$> c :: cs) (e_indexer e)) Hi) as Ha.
  by destruct (delete_all (c_UID <$> c :: cs) (e_indexer e)) as [idx ev].
Qed.

(** Stopping informers and registering profiles leave registry and index alone. *)
Definition same_store (e e' : Engine) : Prop := e_registry e' = e_registry e ∧ e_indexer e' = e_indexer e.

Lemma same_store_typed e e' : same_store e e' → typed_engine e → typed_engine e'.
Proof. unfold typed_engine. by intros [-> ->]. Qed.

Lemma stopProfileInformerLocked_store ps e ps' e' :
  stopProfileInformerLocked ps e = Some (ps', e') → same_store e e'.
Proof. unfold stopProfileInformerLocked. repeat case_match; intros; simplify_eq; done. Qed.

Lemma RegisterProfile_store h p e e' : RegisterProfile h p e = Some e' → same_store e e'.
Proof.
  unfold RegisterProfile. intros (e1 & H1 & [= <-])%bind_Some.
  assert (same_store e e1) as [Hr Hi].
  { repeat case_match; simplify_eq/=; try done. apply fmap_Some in H1 as ([ps' e2] & H2 & ->).
    by eapply stopProfileInformerLocked_store. }
  unfold same_store. rewrite <-Hr, <-Hi. unfold startProfileInformer. repeat case_match; done.
Qed.

Lemma UnregisterProfile_typed σ n e e' ev : typed_engine e → UnregisterProfile σ n e = Some (e', ev) → typed_engine e'.
Proof.
  intros He. unfold UnregisterProfile. destruct (profiles e !! n) as [ps|]; [|by intros [= <- <-]].
  intros ([ps' e1] & H1 & H2)%bind_Some. apply stopProfileInformerLocked_store in H1.
  apply (same_store_typed _ _ H1) in He as [Hr Hi]. destruct (gvr_needed _ _); [by simplify_eq|].
  pose proof (DeleteBySource_lookup σ (p_gvr ps) (e_indexer e1)) as Hl.
  destruct (DeleteBySource _ _ _) as [[idx ev'] k] eqn:Hd; simplify_eq. split; [done|]. simpl.
  eapply typed_index_subseteq; [|exact Hi]. apply map_subseteq_spec. intros uid c Hc.
  by apply (Hl uid c).
Qed.

Lemma stop_profiles_store names e e' : stop_profiles names e = Some e' → same_store e e'.
Proof.
  revert e. induction names as [|n names IH]; intros e; simpl; [by intros [= <-]|].
  destruct (profiles e !! n) as [ps|]; [|apply IH].
  intros ([ps' e1] & [Hr Hi]%stopProfileInformerLocked_store & [Hr2 Hi2]%IH)%bind_Some.
  split; [by rewrite Hr2|by rewrite Hi2].
Qed.

Lemma watch_loop_store h sup gvrs e : same_store e (watch_loop h sup gvrs e).
Proof.
  revert e. induction gvrs as [|g gvrs IH]; intros e; simpl; [done|]. repeat case_bool_decide; try apply IH.
  destruct (IH (startInformer h g (set_watch ({[g]} ∪ watchedGVRs e) (informers e) (running e) e))) as [Hr Hi].
  split; [rewrite Hr|rewrite Hi]; unfold startInformer; by destruct (h g).
Qed.

Lemma engine_step_typed e op e' : typed_engine e → engine_step e op = Some e' → typed_engine e'.
Proof.
  intros He. destruct op as [crds|h found|σ h name answer|σ gvr d|σ gvr d|σ gvr d|σ]; simpl.
  - intros [= <-]. by destruct (refreshAnnotatedCRDs_eq crds e) as [a ->].
  - intros [= <-]. eapply same_store_typed; [apply watch_loop_store|done].
  - intros (r & Hrec & [= <-])%bind_Some. destruct answer as [p| |err]; simpl in Hrec.
    + apply bind_Some in Hrec as (e1 & H1%RegisterProfile_store & [= <-]). by eapply same_store_typed.
    + apply bind_Some in Hrec as ([e1 ev] & H1 & [= <-]). by eapply UnregisterProfile_typed.
    + by simplify_eq.
  - intros [= <-]. by apply handleAdd_typed.
  - intros [= <-]. by apply handleAdd_typed.
  - intros [= <-]. by apply handleDelete_typed.
  - unfold Stop. destruct (e_stopped e); [by intros [= <-]|]. intros [Hr Hi]%stop_profiles_store.
    eapply (same_store_typed (set_stopped true e)); [by split|done].
Qed.

Lemma engine_run_typed ops e e' : typed_engine e → engine_run e ops = Some e' → typed_engine e'.
Proof.
  revert e. induction ops as [|op ops IH]; intros e He; simpl; [by intros [= <-]|].
  intros (e1 & H1 & H2)%bind_Some. by eapply IH; [eapply engine_step_typed|].
Qed.

(** C16: for every registry of lawful adapters and every interleaving of scans,
    profile changes, informer callbacks and shutdown, each constraint that a
    reader of the index gets, in any namespace, has a declared type and
    severity, is stored under its own UID, and carries the object it was made
    of, whose UID its own UID extends. *)
Theorem index_typed registry cb dynamicClient ops e σ ns c :
  registry_laws registry → engine_run (NewEngine registry (New cb) dynamicClient) ops = Some e →
  c ∈ ByNamespace σ (e_indexer e) ns →
  c_ConstraintType c ∈ constraint_types ∧ c_Severity c ∈ severities ∧
  byUID (e_indexer e) !! c_UID c = Some c ∧
  ∃ obj suffix, c_RawObject c = Some obj ∧ c_UID c = GetUID obj +:+ suffix.
Proof.
  intros Hr Hrun Hc. unfold ByNamespace in Hc. apply elem_of_select in Hc as [[uid Hu] _].
  assert (typed_engine e) as [_ Hi].
  { eapply engine_run_typed; [|done]. split; [done|]. apply map_Forall_empty. }
  destruct (Hi _ _ Hu) as (<- & obj & [Ht Hs Hraw [suffix Hsuf] _]). eauto 8.
Qed.
End contract.
