(* ===== verification/ReportApi.v ===== *)
(** * The report as the API server keeps it (api/v1alpha1/types.go)

    The report reconciler writes a ConstraintReport, the command line client
    reads it back as an unstructured object.  [encode_status] is the object
    that the JSON tags of the types give; [schema_status] are the enumerations
    of the CRD schema.  The API server is a parameter: [ReportServer] answers
    the writes, and [ReportServerLaws] states what is documented of a resource
    whose status is a subresource (the +kubebuilder:subresource:status marker):
    a create ignores the status, an update of the status stores it. *)

From S2P Require Import Prelude GoStd Encoding Types Apimachinery Util Registry Indexer Remediation EventBuilder Requirements Report.
From S2P Require Import Discovery AdapterContract.
From Stdlib Require Import Ascii.

Open Scope go_scope.
#[local] Open Scope string_scope.

(** ** Objects by their members *)

(** A member that is left out ([omitempty]) is [None]. *)
Fixpoint members (l : list (string * option GoVal)) : gmap string GoVal :=
  match l with
  | [] => ∅
  | (k, Some v) :: l' => <[k := v]> (members l')
  | (_, None) :: l' => members l'
  end.

Fixpoint member_at (k : string) (l : list (string * option GoVal)) : option GoVal :=
  match l with
  | [] => None
  | (k', o) :: l' =>
      if String.eqb k' k then match o with Some v => Some v | None => member_at k l' end else member_at k l'
  end.

Lemma lookup_members l k : members l !! k = member_at k l.
Proof.
  induction l as [|[k' [v|]] l IH]; cbn [members member_at]; [apply lookup_empty| |].
  - destruct (String.eqb_spec k' k) as [->|Hne]; [by rewrite lookup_insert_eq|by rewrite lookup_insert_ne].
  - rewrite IH. by destruct (String.eqb k' k).
Qed.

Definition required (v : GoVal) : option GoVal := Some v.
Definition str (s : string) : option GoVal := Some (VStr s).
Definition str_omitempty (s : string) : option GoVal := if s == EmptyString then None else Some (VStr s).
Definition slice_omitempty (l : list GoVal) : option GoVal := match l with [] => None | _ => Some (VSlice l) end.

(** Reads the members of an object under closed keys. *)
Ltac read_members :=
  repeat (rewrite lookup_members; cbn [member_at required str String.eqb Ascii.eqb Bool.eqb mbind option_bind as_map as_string as_slice]).

(** metav1.Time: the zero time is null. *)
Definition time_val (t : Time) : option GoVal :=
  Some (if t == zero_time then VNil else VStr (format_RFC3339 t)).

(** ** The types of api/v1alpha1/types.go *)

(** What the dynamic client decodes of a number that was written as a float64. *)
Class JsonNumbers := json_float64 : float64 -> GoVal.

Section encode.
Context {JN : JsonNumbers}.

Definition encode_step (s : RemediationStep) : GoVal :=
  VMap (members [("type", str (rs_Type s)); ("description", str (rs_Description s)); ("command", str_omitempty (rs_Command s));
    ("patch", str_omitempty (rs_Patch s)); ("template", str_omitempty (rs_Template s)); ("url", str_omitempty (rs_URL s));
    ("contact", str_omitempty (rs_Contact s)); ("requiresPrivilege", str_omitempty (rs_RequiresPrivilege s))]).

Definition encode_remediation (r : RemediationInfo) : GoVal :=
  VMap (members [("summary", str (ri_Summary r)); ("steps", slice_omitempty (encode_step <$> ri_Steps r))]).

Definition encode_reference (r : ObjectReference) : GoVal :=
  VMap (members [("apiVersion", str (or_APIVersion r)); ("kind", str (or_Kind r)); ("name", str (or_Name r));
    ("namespace", str_omitempty (or_Namespace r))]).

Definition encode_metric (m : MetricDataPoint) : GoVal :=
  VMap (members [("hard", str (m_Hard m)); ("used", str (m_Used m)); ("unit", str (m_Unit m));
    ("percentUsed", required (json_float64 (m_PercentUsed m)))]).

Definition encode_metrics (m : option (gmap string MetricDataPoint)) : option GoVal :=
  match m with
  | None => None
  | Some m => if size m == 0%nat then None else Some (VMap (encode_metric <$> m))
  end.

(** The affected workloads are never set, so they are always left out. *)
Definition encode_entry (e : ConstraintEntry) : GoVal :=
  VMap (members [("name", str (ce_Name e)); ("type", str (ce_Type e)); ("severity", str (ce_Severity e));
    ("message", str (ce_Message e)); ("source", str (ce_Source e)); ("lastSeen", time_val (ce_LastSeen e))]).

Definition encode_machine_entry (e : MachineConstraintEntry) : GoVal :=
  VMap (members [("uid", str (me_UID e)); ("name", str (me_Name e)); ("constraintType", str (me_ConstraintType e));
    ("severity", str (me_Severity e)); ("effect", str (me_Effect e)); ("sourceRef", required (encode_reference (me_SourceRef e)));
    ("remediation", required (encode_remediation (me_Remediation e))); ("metrics", encode_metrics (me_Metrics e));
    ("tags", slice_omitempty (VStr <$> me_Tags e)); ("lastObserved", time_val (me_LastObserved e))]).

Definition encode_missing (e : MissingResourceEntry) : GoVal :=
  VMap (members [("expectedKind", str (mr_ExpectedKind e)); ("expectedAPIVersion", str (mr_ExpectedAPIVersion e));
    ("reason", str (mr_Reason e)); ("severity", str (mr_Severity e));
    ("forWorkload", required (VMap (members [("kind", str (mr_WorkloadKind e)); ("name", str (mr_WorkloadName e))])));
    ("remediation", required (encode_remediation (mr_Remediation e)))]).

Definition encode_machine_report (r : MachineReadableReport) : GoVal :=
  VMap (members [("schemaVersion", str (mm_SchemaVersion r)); ("generatedAt", time_val (mm_GeneratedAt r));
    ("detailLevel", str (mm_DetailLevel r)); ("constraints", slice_omitempty (encode_machine_entry <$> mm_Constraints r));
    ("missingResources", slice_omitempty (encode_missing <$> mm_MissingResources r));
    ("tags", slice_omitempty (VStr <$> mm_Tags r))]).

Definition encode_status (st : ConstraintReportStatus) : GoVal :=
  VMap (members [("constraintCount", required (VInt64 (st_ConstraintCount st)));
    ("criticalCount", required (VInt64 (st_CriticalCount st))); ("warningCount", required (VInt64 (st_WarningCount st)));
    ("infoCount", required (VInt64 (st_InfoCount st))); ("constraints", slice_omitempty (encode_entry <$> st_Constraints st));
    ("machineReadable", required (encode_machine_report (st_MachineReadable st))); ("lastUpdated", time_val (st_LastUpdated st))]).
End encode.

(** ** The API server *)

(** The answer to a write, given the object before it. *)
Class ReportServer := serve_write : option Unstructured -> ApiWrite -> Unstructured + error.

Class ReportServerLaws {AM : Apimachinery} {JN : JsonNumbers} (RS : ReportServer) : Prop := {
  create_ignores_status : forall old ns st o, serve_write old (CreateReport ns st) = inl o -> Object o !! "status" = None;
  update_stores_status : forall old ns rv st o,
    serve_write old (UpdateReport ns rv st) = inl o -> Object o !! "status" = Some (encode_status st);
  write_keeps_namespace : forall old w o, serve_write old w = inl o -> GetNamespace o = written_namespace w;
}.

(** A server that accepts every write. *)
Definition report_object (ns : string) (status : option GoVal) : Unstructured :=
  mkUnstructured (members [("apiVersion", str "nightjar.io/v1alpha1"); ("kind", str "ConstraintReport");
    ("metadata", required (VMap (members [("name", str "constraints"); ("namespace", str ns)]))); ("status", status)]).

#[export] Instance reference_numbers : JsonNumbers := VFloat.
#[export] Instance reference_server : ReportServer := fun _ w =>
  match w with
  | CreateReport ns st => inl (report_object ns None)
  | UpdateReport ns _ st => inl (report_object ns (Some (encode_status st)))
  end.

Lemma report_object_namespace ns status : GetNamespace (report_object ns status) = ns.
Proof.
  unfold report_object. cbn [GetNamespace reference_apimachinery]. unfold meta_string. cbn [Object field_at].
  by read_members.
Qed.

#[export] Instance reference_server_laws : ReportServerLaws reference_server.
Proof.
  split.
  - intros old ns st o [= <-]. cbn [Object report_object]. by rewrite lookup_members.
  - intros old ns rv st o [= <-]. cbn [Object report_object]. by rewrite lookup_members.
  - intros old [ns st|ns rv st] o [= <-]; apply report_object_namespace.
Qed.

(** ** The enumerations of the schema *)

Definition schema_remediation (r : RemediationInfo) : bool := forallb schema_step (ri_Steps r).

Definition schema_entry (e : ConstraintEntry) : bool := enum constraint_types (ce_Type e) && enum severities (ce_Severity e).

Definition schema_machine_entry (e : MachineConstraintEntry) : bool :=
  enum constraint_types (me_ConstraintType e) && enum severities (me_Severity e) && schema_remediation (me_Remediation e).

Definition schema_missing (e : MissingResourceEntry) : bool := enum severities (mr_Severity e) && schema_remediation (mr_Remediation e).

Definition schema_machine_report (r : MachineReadableReport) : bool :=
  enum [DetailLevelSummary; DetailLevelDetailed; DetailLevelFull] (mm_DetailLevel r) &&
  forallb schema_machine_entry (mm_Constraints r) && forallb schema_missing (mm_MissingResources r).

Definition schema_status (st : ConstraintReportStatus) : bool :=
  forallb schema_entry (st_Constraints st) && schema_machine_report (st_MachineReadable st).

Section schema.
Context {AM : Apimachinery}.

Lemma enum_true values s : enum values s = true ↔ s ∈ values.
Proof. apply bool_decide_eq_true. Qed.

Lemma Build_schema_remediation rb c :
  Forall (fun s => schema_step s = true) (c_Remediation c) → schema_remediation (Build rb c) = true.
Proof. intros Hc%(Build_schema rb). by apply forallb_Forall. Qed.

(** The evaluator runs rules that [main] registers. *)
Definition builtin_rules (e : Evaluator) : Prop := rules e ⊆ rules (registerRequirementRules NewEvaluator).

Lemma Evaluate_schema now eval w e rb c :
  builtin_rules e → c ∈ (Evaluate now eval (Some w) e).2 → schema_missing (constraintToMissingResourceEntry c w rb) = true.
Proof.
  intros Hb Hc. destruct (Evaluate_from_rules now eval w e) as [_ Hr]. destruct (Hr c Hc) as (rule & cs & Hin & He & Hcs).
  assert (rule ∈ [NewIstioMTLSRule; NewCertIssuerRule; NewPrometheusMonitorRule; NewIstioRoutingRule]) as Hk.
  { apply Hb in Hin. simpl in Hin. set_solver. }
  destruct (rules_well_formed _ _ _ _ Hk He) as [_ Hall]. rewrite Forall_forall in Hall.
  destruct (Hall c Hcs) as (_ & _ & _ & _ & _ & _ & Hs & Hrem).
  apply andb_true_iff. split; [by apply enum_true|]. apply Build_schema_remediation. simpl. rewrite Hrem. constructor.
Qed.

Lemma evaluate_workloads_schema env rb ws e :
  builtin_rules e → Forall (fun m => schema_missing m = true) (evaluate_workloads env rb ws e).2 ∧
  rules (evaluate_workloads env rb ws e).1 = rules e.
Proof.
  revert e. induction ws as [|w ws IH]; intros e Hb; [by split|]. cbn [evaluate_workloads].
  pose proof (fun c => Evaluate_schema (re_clock env) (re_eval env) w e rb c Hb) as Hm.
  destruct (Evaluate_from_rules (re_clock env) (re_eval env) w e) as [Hr _].
  destruct (Evaluate _ _ _ e) as [e1 cs]. simpl in Hr, Hm. destruct (IH e1) as [H1 H2]; [by unfold builtin_rules; rewrite Hr|].
  destruct (evaluate_workloads env rb ws e1) as [e2 rest]. simpl in *. split; [|by rewrite H2].
  apply Forall_app. split; [|done]. apply Forall_fmap, Forall_forall, Hm.
Qed.

Lemma evaluate_kinds_schema env rb gvrs e :
  builtin_rules e → Forall (fun m => schema_missing m = true) (evaluate_kinds env rb gvrs e).2.
Proof.
  revert e. induction gvrs as [|g gvrs IH]; intros e Hb; [constructor|]. cbn [evaluate_kinds].
  destruct (re_workloads env g _) as [items|]; [|by apply IH].
  destruct (evaluate_workloads_schema env rb items e Hb) as [H1 H2].
  destruct (evaluate_workloads env rb items e) as [e1 m1]. simpl in H1, H2.
  specialize (IH e1). destruct (evaluate_kinds env rb gvrs e1) as [e2 m2]. apply Forall_app. split; [done|].
  apply IH. unfold builtin_rules. by rewrite H2.
Qed.

Lemma evaluateMissingResources_schema env rr :
  (∀ e, rr_evaluator rr = Some e → builtin_rules e) →
  Forall (fun m => schema_missing m = true) (evaluateMissingResources env rr).2.
Proof.
  intros Hb. unfold evaluateMissingResources. destruct (rr_evaluator rr) as [e|]; [|constructor].
  destruct (rr_dynamicClient rr); [|constructor].
  pose proof (evaluate_kinds_schema env (rr_builder rr) workloadGVRs e (Hb _ eq_refl)) as Hk.
  by destruct (evaluate_kinds _ _ _ e).
Qed.

(** A reconciler as [main] sets it up. *)
Definition schema_reconciler (rr : ReportReconciler) : Prop :=
  DefaultDetailLevel (rr_opts rr) ∈ [DetailLevelSummary; DetailLevelDetailed; DetailLevelFull] ∧
  ∀ e, rr_evaluator rr = Some e → builtin_rules e.

(** C19: every report that is written from the index of an engine with lawful
    adapters, after any interleaving of its steps, keeps to the enumerations of
    the CRD schema (types, severities, detail level, step types, privileges),
    so that the API server does not refuse it. *)
Theorem report_schema_valid registry cb dynamicClient ops e env ns rr w :
  registry_laws registry → engine_run (NewEngine registry (New cb) dynamicClient) ops = Some e → schema_reconciler rr →
  w ∈ (ReconcileNamespace env (e_indexer e) ns rr).1.2 → schema_status (written_status w) = true.
Proof.
  intros Hr Hrun [Hd Hb] Hw. apply ReconcileNamespace_writes in Hw as [_ ->].
  assert (typed_engine e) as [_ Hi].
  { eapply engine_run_typed; [|done]. split; [done|]. apply map_Forall_empty. }
  assert (∀ c, c ∈ query_ns (re_order env) (e_indexer e) ns → ∃ obj, typed_constraint obj c) as Hc.
  { intros c [[uid Hu] _]%elem_of_select. by destruct (Hi _ _ Hu) as [_ ?]. }
  pose proof (evaluateMissingResources_schema env rr Hb) as Hm.
  unfold buildReportStatus. destruct (evaluateMissingResources env rr) as [rr' missing].
  unfold schema_status, schema_machine_report. cbn. rewrite !andb_true_iff, !forallb_Forall, enum_true.
  split_and!; [|done| |done]; apply Forall_forall; intros x; rewrite sort_slice_perm, list_elem_of_fmap;
    intros (c & -> & (obj & [Ht Hs _ _ Hst])%Hc).
  - unfold schema_entry. rewrite andb_true_iff, !enum_true. done.
  - unfold schema_machine_entry. rewrite !andb_true_iff, !enum_true. split; [done|]. by apply Build_schema_remediation.
Qed.
End schema.
