(* ===== verification/CliCommands.v ===== *)
(** * The command line client (cmd/nightjarctl)

    The commands read ConstraintReports through the dynamic client and print a
    result.  The client's answers, the manifest file and the YAML library
    ([yaml_Unmarshal], [yaml_Marshal]) are arguments; a command returns the text
    it prints or its error.  cmd/nightjarctl/nightjar-sentinel is a copy of the
    same code under other help texts. *)

From S2P Require Import Prelude GoStd Encoding Types Apimachinery Util Indexer Remediation EventBuilder Requirements Report McpHandlers ReportApi.
From Stdlib Require Import Ascii.

Open Scope go_scope.
#[local] Open Scope string_scope.

Module Cli.

(** ** output.go: the results *)

Record RemediationStep := mkStep { cs_Type : string; cs_Description : string; cs_Command : string; cs_RequiresPrivilege : string }.
Record RemediationInfo := mkRemediation { cr_Summary : string; cr_Steps : list RemediationStep }.

Record ConstraintInfo := mkInfo {
  ci_Name : string; ci_Type : string; ci_Severity : string; ci_Effect : string; ci_Message : string; ci_Source : string;
  ci_Tags : list string; ci_Remediation : option RemediationInfo;
}.

Record QueryResult := mkQueryResult { qr_Namespace : string; qr_Constraints : list ConstraintInfo; qr_Total : Z }.

Record ExplainResult := mkExplainResult {
  er_ErrorMessage : string; er_Explanation : string; er_Confidence : string;
  er_MatchingConstraints : list ConstraintInfo; er_RemediationSteps : list RemediationStep;
}.

Record ManifestInfo := mkManifestInfo { mi_Kind : string; mi_Name : string; mi_Namespace : string }.
Record CheckResult := mkCheckResult {
  ck_WouldBlock : bool; ck_BlockingConstraints : list ConstraintInfo; ck_Warnings : list string; ck_Manifest : ManifestInfo }.

Record RemediateResult := mkRemediateResult {
  rm_Constraint : ConstraintInfo; rm_Summary : string; rm_Steps : list RemediationStep }.

Record NamespaceSummary := mkNamespaceSummary {
  ns_Namespace : string; ns_Total : Z; ns_CriticalCount : Z; ns_WarningCount : Z; ns_InfoCount : Z }.
Record StatusResult := mkStatusResult {
  sr_NamespaceSummaries : list NamespaceSummary; sr_TotalConstraints : Z; sr_TotalCritical : Z; sr_TotalWarning : Z;
  sr_TotalInfo : Z; sr_NamespaceCount : Z }.

(** The values passed to [outputResult]. *)
Inductive Result :=
  | RQuery (r : QueryResult)
  | RExplain (r : ExplainResult)
  | RCheck (r : CheckResult)
  | RRemediate (r : RemediateResult)
  | RStatus (r : StatusResult).

(** ** query.go *)

Definition safeString (m : gmap string GoVal) (key : string) : string :=
  match m !! key with Some (VStr v) => v | _ => EmptyString end.

Definition parse_step (s : GoVal) : option RemediationStep :=
  stepMap ← as_map s;
  Some (mkStep (safeString stepMap "type") (safeString stepMap "description") (safeString stepMap "command")
          (safeString stepMap "requiresPrivilege")).

Definition parse_remediation (cMap : gmap string GoVal) : option RemediationInfo :=
  v ← cMap !! "remediation"; remedMap ← as_map v;
  Some (mkRemediation (safeString remedMap "summary")
          (match remedMap !! "steps" with Some (VSlice steps) => omap parse_step steps | _ => [] end)).

Definition parseConstraintMap (cMap : gmap string GoVal) : ConstraintInfo :=
  {| ci_Name := safeString cMap "name";
     ci_Type := match cMap !! "type" with Some (VStr t) => t | _ => safeString cMap "constraintType" end;
     ci_Severity := safeString cMap "severity";
     ci_Effect := safeString cMap "effect";
     ci_Message := safeString cMap "message";
     ci_Source := safeString cMap "source";
     ci_Tags := match cMap !! "tags" with Some (VSlice tags) => omap as_string tags | _ => [] end;
     ci_Remediation := parse_remediation cMap |}.

(** The loop over a list of constraints, with its filters. *)
Definition keeps (typeFilter severityFilter : string) (info : ConstraintInfo) : bool :=
  ((typeFilter == EmptyString) || (ci_Type info == typeFilter)) &&
  ((severityFilter == EmptyString) || (ci_Severity info == severityFilter)).
Definition collect (typeFilter severityFilter : string) (constraintsList : list GoVal) : list ConstraintInfo :=
  filter (fun info => keeps typeFilter severityFilter info = true) (omap (fun c => parseConstraintMap <$> as_map c) constraintsList).

Section commands.
Context {AM : Apimachinery}.

(** A map that is found is not nil. *)
Definition extractConstraints (report : Unstructured) (typeFilter severityFilter workloadFilter : string) : list ConstraintInfo :=
  let fallback :=
    let '(constraintsList, found, _) := NestedSlice (Object report) ["status"; "constraints"] in
    if found then collect typeFilter severityFilter constraintsList else [] in
  let '(machineReadable, found, _) := NestedMap (Object report) ["status"; "machineReadable"] in
  if found then
    let '(constraintsList, found, _) := NestedSlice machineReadable ["constraints"] in
    if found then collect typeFilter severityFilter constraintsList else fallback
  else fallback.

(** The dynamic client on the constraintreports: [Get] of the report named
    "constraints" of a namespace, and [List] of all namespaces. *)
Record Client := mkClient { cl_Get : string -> Unstructured + error; cl_List : list Unstructured + error }.

(** [if err != nil { return fmt.Errorf(prefix + "%w", err) }] *)
Definition try {A B} (prefix : string) (r : A + error) (k : A -> B + error) : B + error :=
  match r with inl a => k a | inr err => inr (prefix +:+ err) end.

Definition query_result (getClient : Client + error) (namespace constraintType severity workload : string) : Result + error :=
  try "failed to create client: " getClient (fun client =>
  try "failed to get ConstraintReport: " (cl_Get client namespace) (fun report =>
    let constraints := extractConstraints report constraintType severity workload in
    inl (RQuery (mkQueryResult namespace constraints (go_len constraints))))).

(** ** explain.go *)

Definition networkPatterns : list string :=
  ["connection refused"; "connection timed out"; "network unreachable"; "no route to host"; "dial tcp"; "i/o timeout";
   "egress"; "ingress"].
Definition admissionPatterns : list string :=
  ["denied"; "rejected"; "forbidden"; "admission"; "webhook"; "not allowed"; "policy violation"; "constraint"].
Definition quotaPatterns : list string :=
  ["exceeded quota"; "resource quota"; "limit exceeded"; "insufficient"; "cpu"; "memory"; "storage"].

(** The constraints that one loop over patterns appends. *)
Definition pattern_matches (patterns : list string) (keep : ConstraintInfo -> bool) (errorLower : string)
    (constraints : list ConstraintInfo) : list ConstraintInfo :=
  if existsb (strings_Contains errorLower) patterns then filter (fun c => keep c = true) constraints else [].

Definition matchError (errorMessage : string) (constraints : list ConstraintInfo) : list ConstraintInfo * string * string :=
  let errorLower := strings_ToLower errorMessage in
  let is_network c := (ci_Type c == "NetworkIngress") || (ci_Type c == "NetworkEgress") in
  match pattern_matches networkPatterns is_network errorLower constraints with
  | (_ :: _) as matches =>
      (matches, "high", "This error appears to be network-related. The following network policies may be blocking traffic.")
  | [] =>
  match pattern_matches admissionPatterns (fun c => ci_Type c == "Admission") errorLower constraints with
  | (_ :: _) as matches =>
      (matches, "high", "This error appears to be from an admission controller. The following admission policies may be rejecting the request.")
  | [] =>
  match pattern_matches quotaPatterns (fun c => ci_Type c == "ResourceLimit") errorLower constraints with
  | (_ :: _) as matches =>
      (matches, "high", "This error appears to be quota-related. The following resource quotas may be limiting resources.")
  | [] =>
      (constraints, "low", "Could not determine the specific cause. Here are all constraints in the namespace that might be relevant.")
  end end end.

Definition steps_of (c : ConstraintInfo) : list RemediationStep :=
  match ci_Remediation c with Some r => cr_Steps r | None => [] end.

Definition explain_result (getClient : Client + error) (namespace errorMessage : string) : Result + error :=
  try "failed to create client: " getClient (fun client =>
  try "failed to get ConstraintReport: " (cl_Get client namespace) (fun report =>
    let constraints := extractConstraints report EmptyString EmptyString EmptyString in
    let '(matchingConstraints, confidence, explanation) := matchError errorMessage constraints in
    inl (RExplain (mkExplainResult errorMessage explanation confidence matchingConstraints
                     (mjoin (steps_of <$> matchingConstraints)))))).

(** ** check.go *)

Definition is_blocking (c : ConstraintInfo) : bool := (ci_Type c == "Admission") && (ci_Severity c == "Critical").
Definition check_warning (c : ConstraintInfo) : option string :=
  if is_blocking c then None
  else if ci_Severity c == "Warning" then Some (ci_Name c +:+ ": " +:+ ci_Message c) else None.

(** A document that is empty leaves the map nil, which reads as the empty map;
    the namespace is that of [Mcp.manifest_namespace], the same lines. *)
Definition check_result (yaml_Unmarshal : string -> gmap string GoVal + error) (data : string + error) (getClient : Client + error)
    : Result + error :=
  try "failed to read manifest: " data (fun data =>
  try "failed to parse manifest: " (yaml_Unmarshal data) (fun manifest =>
    let namespace := Mcp.manifest_namespace manifest in
    let info := mkManifestInfo (safeString manifest "kind")
                  (Mcp.string_field (Mcp.manifest_metadata manifest) "name") namespace in
    try "failed to create client: " getClient (fun client =>
      match cl_Get client namespace with
      | inr _ => inl (RCheck (mkCheckResult false [] [] info))
      | inl report =>
          let constraints := extractConstraints report EmptyString EmptyString EmptyString in
          let blocking := filter (fun c => is_blocking c = true) constraints in
          let warnings := omap check_warning constraints in
          inl (RCheck (mkCheckResult (0 <? go_len blocking)%Z blocking warnings info))
      end))).

(** ** remediate.go *)

Definition remediate_result (getClient : Client + error) (namespace constraintName : string) : Result + error :=
  try "failed to create client: " getClient (fun client =>
  try "failed to get ConstraintReport: " (cl_Get client namespace) (fun report =>
    let constraints := extractConstraints report EmptyString EmptyString EmptyString in
    match head (filter (fun c => ci_Name c = constraintName) constraints) with
    | None => inr ("constraint " +:+ fmt_q constraintName +:+ " not found in namespace " +:+ fmt_q namespace)
    | Some target =>
        inl (RRemediate
          match ci_Remediation target with
          | Some r => mkRemediateResult target (cr_Summary r) (cr_Steps r)
          | None =>
              mkRemediateResult target ("Contact your platform team about constraint " +:+ fmt_q constraintName)
                [mkStep "manual" "Contact your platform team for assistance with this constraint" EmptyString "developer"]
          end)
    end)).

(** ** status.go *)

(** [int64(v)] of a float64 is [float64_to_int]; [int] is 64 bits wide. *)
Fixpoint getInt64 (current : gmap string GoVal) (fields : list string) : Z * bool :=
  match fields with
  | [] => (0, false)
  | [field] =>
      match current !! field with
      | Some (VInt64 v) => (v, true)
      | Some (VFloat v) => (float64_to_int v, true)
      | Some (VInt v) => (v, true)
      | _ => (0, false)
      end
  | field :: rest => match current !! field with Some (VMap next) => getInt64 next rest | _ => (0, false) end
  end%Z.

Definition summarize (report : Unstructured) : NamespaceSummary :=
  let count field := (getInt64 (Object report) ["status"; field]).1 in
  mkNamespaceSummary (GetNamespace report) (count "constraintCount") (count "criticalCount") (count "warningCount") (count "infoCount").

(** The totals are sums of 64-bit integers, which wrap around. *)
Definition total (f : NamespaceSummary -> Z) (summaries : list NamespaceSummary) : Z :=
  foldl (fun t s => wrap64 (t + f s)) 0%Z summaries.

Definition status_result (getClient : Client + error) : Result + error :=
  try "failed to create client: " getClient (fun client =>
  try "failed to list ConstraintReports: " (cl_List client) (fun reports =>
    let summaries := summarize <$> reports in
    inl (RStatus (mkStatusResult summaries (total ns_Total summaries) (total ns_CriticalCount summaries)
                    (total ns_WarningCount summaries) (total ns_InfoCount summaries) (go_len summaries))))).
End commands.
End Cli.

(** ** What the client reads of a report *)

(** What is kept of an entry of the machine-readable section, which has neither
    message nor source, and of an entry of the human-readable one. *)
Definition view_step (s : Types.RemediationStep) : Cli.RemediationStep :=
  Cli.mkStep (rs_Type s) (rs_Description s) (rs_Command s) (rs_RequiresPrivilege s).
Definition view_remediation (r : Remediation.RemediationInfo) : Cli.RemediationInfo :=
  Cli.mkRemediation (ri_Summary r) (view_step <$> ri_Steps r).
Definition machine_view (e : MachineConstraintEntry) : Cli.ConstraintInfo :=
  Cli.mkInfo (me_Name e) (me_ConstraintType e) (me_Severity e) (me_Effect e) EmptyString EmptyString (me_Tags e)
    (Some (view_remediation (me_Remediation e))).
Definition entry_view (e : ConstraintEntry) : Cli.ConstraintInfo :=
  Cli.mkInfo (ce_Name e) (ce_Type e) (ce_Severity e) EmptyString (ce_Message e) (ce_Source e) [] None.

Lemma omap_fmap_Some {A B C} (f : A -> B) (g : B -> option C) (h : A -> C) (l : list A) :
  (∀ a, g (f a) = Some (h a)) → omap g (f <$> l) = h <$> l.
Proof. intros Hg. induction l as [|a l IH]; simpl; [done|]. rewrite Hg. f_equal. exact IH. Qed.

Lemma StronglySorted_filter {A} (R : relation A) (P : A -> Prop) `{∀ x, Decision (P x)} l :
  StronglySorted R l → StronglySorted R (filter P l).
Proof.
  induction 1 as [|a l _ IH Ha]; [constructor|]. rewrite filter_cons. case_decide; [|done].
  constructor; [done|]. apply Forall_forall. intros x [_ Hx]%list_elem_of_filter. by eapply Forall_forall in Ha.
Qed.

Lemma safeString_members l k :
  Cli.safeString (members l) k = match member_at k l with Some (VStr v) => v | _ => EmptyString end.
Proof. unfold Cli.safeString. by rewrite lookup_members. Qed.

Ltac read_strings :=
  rewrite ?safeString_members, ?lookup_members; cbn [member_at str required time_val String.eqb Ascii.eqb Bool.eqb].

(** An omitted member is read as the empty value it stands for. *)
Lemma omitted_string s : match (match str_omitempty s with Some v => Some v | None => None end) with Some (VStr v) => v | _ => EmptyString end = s.
Proof. unfold str_omitempty. by case_bool_decide. Qed.

Lemma omitted_slice {A} (g : GoVal -> option A) l :
  match (match slice_omitempty l with Some v => Some v | None => None end) with Some (VSlice l') => omap g l' | _ => [] end = omap g l.
Proof. by destruct l. Qed.

Section encoded.
Context {JN : JsonNumbers}.

Lemma parse_encode_step s : Cli.parse_step (encode_step s) = Some (view_step s).
Proof.
  unfold Cli.parse_step, encode_step, view_step. cbn [as_map mbind option_bind]. read_strings. by rewrite !omitted_string.
Qed.

Lemma parse_encode_remediation m r :
  m !! "remediation" = Some (encode_remediation r) → Cli.parse_remediation m = Some (view_remediation r).
Proof.
  intros Hm. unfold Cli.parse_remediation. rewrite Hm. unfold encode_remediation. cbn [as_map mbind option_bind]. read_strings.
  rewrite omitted_slice. unfold view_remediation. by rewrite (omap_fmap_Some _ _ view_step) by apply parse_encode_step.
Qed.

Lemma parse_machine_entry e : Cli.parseConstraintMap <$> as_map (encode_machine_entry e) = Some (machine_view e).
Proof.
  unfold encode_machine_entry. cbn [as_map fmap option_fmap option_map]. unfold Cli.parseConstraintMap, machine_view.
  rewrite (parse_encode_remediation _ (me_Remediation e)) by (by read_strings). read_strings.
  rewrite omitted_slice, (omap_fmap_Some _ _ id) by done. by rewrite list_fmap_id.
Qed.

Lemma parse_entry e : Cli.parseConstraintMap <$> as_map (encode_entry e) = Some (entry_view e).
Proof.
  unfold encode_entry. cbn [as_map fmap option_fmap option_map]. unfold Cli.parseConstraintMap, entry_view, Cli.parse_remediation. by read_strings.
Qed.

Definition report_views (st : ConstraintReportStatus) : list Cli.ConstraintInfo :=
  match mm_Constraints (st_MachineReadable st) with
  | [] => entry_view <$> st_Constraints st
  | l => machine_view <$> l
  end.

Context {AM : Apimachinery} {AL : ApimachineryLaws AM}.

(** A slice that a path does not lead to is not found. *)
Lemma NestedSlice_absent obj fs :
  field_at obj fs = None → ∃ l err, NestedSlice obj fs = (l, false, err).
Proof.
  intros Hf. destruct (NestedSlice obj fs) as [[l []] err] eqn:E; [|eauto].
  pose proof (NestedSlice_found _ _ _ _ E). subst. apply NestedSlice_spec in E. congruence.
Qed.

Lemma NestedMap_absent obj fs : field_at obj fs = None → ∃ m err, NestedMap obj fs = (m, false, err).
Proof.
  intros Hf. destruct (NestedMap obj fs) as [[m []] err] eqn:E; [|eauto].
  pose proof (NestedMap_found _ _ _ _ E). subst. apply NestedMap_spec in E. congruence.
Qed.

Lemma collect_views {A} (enc : A -> GoVal) (view : A -> Cli.ConstraintInfo) t s l :
  (∀ a, Cli.parseConstraintMap <$> as_map (enc a) = Some (view a)) →
  Cli.collect t s (enc <$> l) = filter (fun i => Cli.keeps t s i = true) (view <$> l).
Proof. intros Hv. unfold Cli.collect. by rewrite (omap_fmap_Some _ _ view). Qed.

(** Where the status of a report is the written one, the client reads its views. *)
Lemma extract_encoded o st t s w :
  Object o !! "status" = Some (encode_status st) →
  Cli.extractConstraints o t s w = filter (fun i => Cli.keeps t s i = true) (report_views st).
Proof.
  intros Hs. unfold Cli.extractConstraints.
  assert (∀ f, field_at (Object o) ["status"; f] = field_at (match encode_status st with VMap m => m | _ => ∅ end) [f]) as Hf.
  { intros f. cbn [field_at]. by rewrite Hs. }
  assert (NestedMap (Object o) ["status"; "machineReadable"] =
    (match encode_machine_report (st_MachineReadable st) with VMap m => m | _ => ∅ end, true, None)) as ->.
  { apply NestedMap_spec. rewrite Hf. unfold encode_status. cbn [field_at]. by read_members. }
  unfold encode_machine_report, report_views. destruct (mm_Constraints (st_MachineReadable st)) as [|e l].
  - match goal with |- context [NestedSlice (members ?m) ["constraints"]] =>
      destruct (NestedSlice_absent (members m) ["constraints"]) as (l & err & ->) end; [cbn [field_at]; by read_members|].
    destruct (st_Constraints st) as [|e l'] eqn:Hc.
    + destruct (NestedSlice_absent (Object o) ["status"; "constraints"]) as (l' & err' & ->); [|done].
      rewrite Hf. unfold encode_status. rewrite Hc. cbn [field_at]. by read_members.
    + rewrite (proj2 (NestedSlice_spec _ _ (encode_entry <$> e :: l'))).
      { apply collect_views, parse_entry. }
      rewrite Hf. unfold encode_status. rewrite Hc. cbn [field_at]. by read_members.
  - match goal with |- context [NestedSlice (members ?m) ["constraints"]] =>
      rewrite (proj2 (NestedSlice_spec (members m) ["constraints"] (encode_machine_entry <$> e :: l))) end;
      [apply collect_views, parse_machine_entry|cbn [field_at]; by read_members].
Qed.

(** Without a status nothing is read. *)
Lemma extract_no_status o t s w : Object o !! "status" = None → Cli.extractConstraints o t s w = [].
Proof.
  intros Hs. unfold Cli.extractConstraints.
  destruct (NestedMap_absent (Object o) ["status"; "machineReadable"]) as (m & e & ->); [cbn [field_at]; by rewrite Hs|].
  by destruct (NestedSlice_absent (Object o) ["status"; "constraints"]) as (l & e' & ->); [cbn [field_at]; by rewrite Hs|].
Qed.
End encoded.

(** ** From the index to the client *)

Lemma unfiltered (l : list Cli.ConstraintInfo) : filter (fun i => Cli.keeps EmptyString EmptyString i = true) l = l.
Proof. induction l as [|i l IH]; [done|]. rewrite filter_cons_True by done. by rewrite IH. Qed.

Section published.
Context {AM : Apimachinery} {AL : ApimachineryLaws AM} {JN : JsonNumbers} {RS : ReportServer} {RL : ReportServerLaws RS}.
Context {Idx : Type} `{ConstraintQueryLaws Idx}.

(** The object that the API server keeps once an existing report of the
    namespace has been reconciled, and once a new one has been. *)
Definition published (env : ReconcileEnv) (idx : Idx) (ns : string) (rr : ReportReconciler) (o : Unstructured) : Prop :=
  ∃ old rv w, re_get env = ReportFound rv ∧ rv ≠ EmptyString ∧ (ReconcileNamespace env idx ns rr).1.2 = [w] ∧ serve_write old w = inl o.
Definition created (env : ReconcileEnv) (idx : Idx) (ns : string) (rr : ReportReconciler) (o : Unstructured) : Prop :=
  ∃ w, re_get env = ReportNotFound ∧ (ReconcileNamespace env idx ns rr).1.2 = [w] ∧ serve_write None w = inl o.

Definition applicable (env : ReconcileEnv) (idx : Idx) (ns : string) : list Constraint := query_ns (re_order env) idx ns.

Lemma published_status env idx ns rr o :
  published env idx ns rr o →
  Object o !! "status" = Some (encode_status (buildReportStatus env (applicable env idx ns) ns rr).2) ∧ GetNamespace o = ns.
Proof.
  intros (old & rv & w & Hg & Hrv & Hw & Ho). unfold ReconcileNamespace in Hw. rewrite Hg in Hw. fold (applicable env idx ns) in Hw.
  destruct (buildReportStatus _ _ _ _) as [rr' st]. rewrite bool_decide_eq_false_2 in Hw by done. simplify_eq/=.
  split; [by eapply update_stores_status|by apply write_keeps_namespace in Ho].
Qed.

Lemma created_status env idx ns rr o : created env idx ns rr o → Object o !! "status" = None ∧ GetNamespace o = ns.
Proof.
  intros (w & Hg & Hw & Ho). unfold ReconcileNamespace in Hw. rewrite Hg in Hw.
  destruct (buildReportStatus _ _ _ _) as [rr' st]. simplify_eq/=.
  split; [by eapply create_ignores_status|by apply write_keeps_namespace in Ho].
Qed.

(** What the client shows of a constraint. *)
Definition info_of (rr : ReportReconciler) (now : Time) (ns : string) (c : Constraint) : Cli.ConstraintInfo :=
  machine_view (buildMachineEntry rr now c ns).

Definition info_less (a b : Cli.ConstraintInfo) : bool := (severityOrder (Cli.ci_Severity a) <? severityOrder (Cli.ci_Severity b))%Z.

Lemma report_views_build env cs ns rr :
  report_views (buildReportStatus env cs ns rr).2 =
  machine_view <$> sort_slice machine_less (re_msort env) ((fun c => buildMachineEntry rr (re_now env) c ns) <$> cs).
Proof.
  destruct (buildReportStatus_eq env cs ns rr) as (_ & _ & _ & _ & He & Hm & _). unfold report_views. rewrite He, Hm.
  destruct (sort_slice machine_less _ _) as [|m l] eqn:E; [|done].
  pose proof (sort_slice_perm machine_less (re_msort env) ((fun c => buildMachineEntry rr (re_now env) c ns) <$> cs)) as Hp.
  rewrite E in Hp. apply Permutation_nil, fmap_nil_inv in Hp. subst cs.
  pose proof (sort_slice_perm entry_less (re_sort env) []) as Hp. symmetry in Hp. apply Permutation_nil in Hp. by rewrite fmap_nil, Hp.
Qed.

Lemma extract_published env idx ns rr o t s w :
  published env idx ns rr o →
  Cli.extractConstraints o t s w ≡ₚ filter (fun i => Cli.keeps t s i = true) (info_of rr (re_now env) ns <$> applicable env idx ns) ∧
  StronglySorted (not_after info_less) (Cli.extractConstraints o t s w).
Proof.
  intros [Hs _]%published_status. rewrite (extract_encoded _ _ _ _ _ Hs), report_views_build. split.
  - apply filter_Permutation. by rewrite sort_slice_perm, <-list_fmap_compose.
  - pose proof (sort_slice_sorted machine_less (re_msort env) ((fun c => buildMachineEntry rr (re_now env) c ns) <$> applicable env idx ns)) as Hss.
    apply StronglySorted_filter.
    induction Hss as [|m l _ IH Hm]; constructor; [done|]. by apply Forall_fmap.
Qed.

Definition reads (client : Cli.Client) (ns : string) (o : Unstructured) : Prop := Cli.cl_Get client ns = inl o.

(** C22: once an existing report has been reconciled, [nightjar query] without
    the workload flag lists exactly the stored constraints that apply to the
    namespace and pass the type and severity filters, critical before warning
    before info, and counts them.  The workload flag, documented as a filter, has
    no effect ([cli_workload_ignored]). *)
Theorem cli_query_exact env idx ns rr o client t s :
  published env idx ns rr o → reads client ns o →
  ∃ r, Cli.query_result (inl client) ns t s EmptyString = inl (Cli.RQuery r) ∧ Cli.qr_Namespace r = ns ∧
    Cli.qr_Total r = go_len (Cli.qr_Constraints r) ∧ StronglySorted no_less_severe (Cli.ci_Severity <$> Cli.qr_Constraints r) ∧
    ∀ x, x ∈ Cli.qr_Constraints r ↔ ∃ c, x = info_of rr (re_now env) ns c ∧ stored idx c ∧ matchesNamespace c ns = true ∧
      (t = EmptyString ∨ c_ConstraintType c = t) ∧ (s = EmptyString ∨ c_Severity c = s).
Proof.
  intros Hp Hr. destruct (extract_published env idx ns rr o t s EmptyString Hp) as [Hperm Hss].
  unfold Cli.query_result. cbn [Cli.try]. rewrite Hr. cbn [Cli.try]. eexists. split; [done|]. cbn [Cli.qr_Constraints].
  split_and!; [done|done| |].
  - eapply StronglySorted_fmap; [|exact Hss]. intros x y. apply ranked_no_less_severe.
  - intros x. rewrite Hperm, list_elem_of_filter, list_elem_of_fmap. unfold Cli.keeps.
    rewrite andb_true_iff, !orb_true_iff, !bool_decide_eq_true. unfold applicable. setoid_rewrite query_ns_spec.
    split; [intros (Hk & c & -> & Hc)|intros (c & -> & Hc & Hm & Hk)]; [exists c; naive_solver|]. split; [done|]. by exists c.
Qed.

Lemma filter_nonempty {A} (P : A -> Prop) `{∀ x, Decision (P x)} (l : list A) :
  (0 <? go_len (filter P l))%Z = true ↔ ∃ x, x ∈ l ∧ P x.
Proof.
  unfold go_len. rewrite Z.ltb_lt. split.
  - destruct (filter P l) as [|x k] eqn:E; simpl; [lia|]. intros _. exists x.
    assert (x ∈ filter P l) as [? ?]%list_elem_of_filter by (rewrite E; left). done.
  - intros (x & Hx & HP). destruct (filter P l) as [|y k] eqn:E; simpl; [|lia].
    exfalso. eapply not_elem_of_nil. rewrite <-E. by apply list_elem_of_filter.
Qed.

(** Once an existing report has been reconciled, [nightjar check] says that
    a manifest would be blocked exactly when a critical admission constraint is
    stored that applies to the manifest's namespace, and lists exactly these. *)
Theorem cli_check_exact env idx rr o client unmarshal data m :
  unmarshal data = inl m → let ns := Mcp.manifest_namespace m in
  published env idx ns rr o → reads client ns o →
  let blocks c := stored idx c ∧ matchesNamespace c ns = true ∧ c_ConstraintType c = ConstraintTypeAdmission ∧ c_Severity c = SeverityCritical in
  ∃ r, Cli.check_result unmarshal (inl data) (inl client) = inl (Cli.RCheck r) ∧
    (Cli.ck_WouldBlock r = true ↔ ∃ c, blocks c) ∧
    (∀ x, x ∈ Cli.ck_BlockingConstraints r ↔ ∃ c, x = info_of rr (re_now env) ns c ∧ blocks c) ∧
    Cli.mi_Namespace (Cli.ck_Manifest r) = ns.
Proof.
  intros Hm ns Hp Hr blocks. destruct (extract_published env idx ns rr o EmptyString EmptyString EmptyString Hp) as [Hperm _].
  unfold Cli.check_result. cbn [Cli.try]. rewrite Hm. cbn [Cli.try]. fold ns. rewrite Hr. eexists. split; [done|].
  cbn [Cli.ck_WouldBlock Cli.ck_BlockingConstraints].
  assert (∀ x, x ∈ Cli.extractConstraints o EmptyString EmptyString EmptyString ∧ Cli.is_blocking x = true ↔
    ∃ c, x = info_of rr (re_now env) ns c ∧ blocks c) as Hb.
  { intros x. rewrite Hperm, list_elem_of_filter, list_elem_of_fmap. unfold applicable. setoid_rewrite query_ns_spec.
    unfold Cli.is_blocking. rewrite andb_true_iff, !bool_decide_eq_true. unfold blocks, Cli.keeps. cbn.
    split; [intros ((_ & c & -> & ? & ?) & Ht & Hs)|intros (c & -> & ? & ? & Ht & Hs)]; [by exists c|]. naive_solver. }
  split_and!; [|intros x; rewrite list_elem_of_filter, <-Hb; tauto|done].
  rewrite filter_nonempty. setoid_rewrite Hb. naive_solver.
Qed.

(** C21: a report is created without its status, which the API server ignores
    there: until the namespace is reconciled again, the client reads no
    constraint, and [nightjar check] passes every manifest of the namespace
    whatever the index stores, although the reconcile has succeeded. *)
Theorem first_report_lost env idx rr o client unmarshal data m :
  unmarshal data = inl m → let ns := Mcp.manifest_namespace m in
  created env idx ns rr o → reads client ns o → re_write env = None →
  (ReconcileNamespace env idx ns rr).2 = None ∧
  (∀ t s w, Cli.query_result (inl client) ns t s w = inl (Cli.RQuery (Cli.mkQueryResult ns [] 0))) ∧
  ∃ r, Cli.check_result unmarshal (inl data) (inl client) = inl (Cli.RCheck r) ∧ Cli.ck_WouldBlock r = false ∧ Cli.ck_Warnings r = [].
Proof.
  intros Hm ns Hc Hr Hw. pose proof Hc as (w & Hg & _ & _). apply created_status in Hc as [Hs _].
  rewrite ReconcileNamespace_error. unfold reconcile_error. rewrite Hg. split_and!; [done| |].
  - intros t s w'. unfold Cli.query_result. cbn [Cli.try]. rewrite Hr. cbn [Cli.try]. by rewrite extract_no_status.
  - unfold Cli.check_result. cbn [Cli.try]. rewrite Hm. cbn [Cli.try]. fold ns. rewrite Hr, extract_no_status by done. by eexists.
Qed.

(** *** explain, against the MCP server's tool *)

Lemma filter_view (view : Constraint -> Cli.ConstraintInfo) keep keep' cs l :
  (∀ c, keep' (view c) = keep c) → l ≡ₚ view <$> cs →
  filter (fun x => keep' x = true) l ≡ₚ view <$> filter (fun c => keep c = true) cs.
Proof.
  intros Hk Hl. rewrite Hl. clear Hl. induction cs as [|c cs IH]; [done|]. rewrite fmap_cons, !filter_cons, Hk.
  destruct (keep c); simpl; by rewrite IH.
Qed.

Lemma pattern_matches_view (view : Constraint -> Cli.ConstraintInfo) patterns keep keep' e cs l :
  (∀ c, keep' (view c) = keep c) → l ≡ₚ view <$> cs →
  Cli.pattern_matches patterns keep' e l ≡ₚ view <$> Mcp.pattern_matches patterns keep e cs.
Proof.
  intros Hk Hl. unfold Cli.pattern_matches, Mcp.pattern_matches. destruct (existsb _ _); [|done]. by apply filter_view.
Qed.

(** The two copies of the matching agree on lists that show the same constraints. *)
Lemma matchError_agrees (view : Constraint -> Cli.ConstraintInfo) e cs l :
  (∀ c, Cli.ci_Type (view c) = c_ConstraintType c) → l ≡ₚ view <$> cs →
  let '(ms, confidence, explanation) := Mcp.matchErrorToConstraints e cs in
  let '(ms', confidence', explanation') := Cli.matchError e l in
  ms' ≡ₚ view <$> ms ∧ confidence' = confidence ∧ explanation' = explanation.
Proof.
  intros Ht Hl. unfold Mcp.matchErrorToConstraints, Cli.matchError. cbv zeta.
  pose proof (pattern_matches_view view Mcp.networkPatterns Mcp.is_network
    (fun c => (Cli.ci_Type c == "NetworkIngress") || (Cli.ci_Type c == "NetworkEgress")) (strings_ToLower e) cs l) as Hn.
  pose proof (pattern_matches_view view Mcp.admissionPatterns Mcp.is_admission
    (fun c => Cli.ci_Type c == "Admission") (strings_ToLower e) cs l) as Ha.
  pose proof (pattern_matches_view view Mcp.quotaPatterns Mcp.is_resource_limit
    (fun c => Cli.ci_Type c == "ResourceLimit") (strings_ToLower e) cs l) as Hq.
  specialize (Hn ltac:(intros c; cbv beta; by rewrite !Ht) Hl). specialize (Ha ltac:(intros c; cbv beta; by rewrite !Ht) Hl).
  specialize (Hq ltac:(intros c; cbv beta; by rewrite !Ht) Hl).
  change Cli.networkPatterns with Mcp.networkPatterns. change Cli.admissionPatterns with Mcp.admissionPatterns.
  change Cli.quotaPatterns with Mcp.quotaPatterns.
  destruct (Mcp.pattern_matches Mcp.networkPatterns _ _ _), (Cli.pattern_matches Mcp.networkPatterns _ _ _);
    try (by apply Permutation_length in Hn); [|done].
  destruct (Mcp.pattern_matches Mcp.admissionPatterns _ _ _), (Cli.pattern_matches Mcp.admissionPatterns _ _ _);
    try (by apply Permutation_length in Ha); [|done].
  by destruct (Mcp.pattern_matches Mcp.quotaPatterns _ _ _), (Cli.pattern_matches Mcp.quotaPatterns _ _ _);
    try (by apply Permutation_length in Hq).
Qed.

(** On the constraints of the index, [nightjar explain] gives the same
    confidence and explanation as the explain tool of the MCP server and shows
    the same constraints. *)
Theorem cli_explain_agrees env idx ns rr o client e :
  published env idx ns rr o → reads client ns o →
  let '(ms, confidence, explanation) := Mcp.matchErrorToConstraints e (applicable env idx ns) in
  ∃ r, Cli.explain_result (inl client) ns e = inl (Cli.RExplain r) ∧
    Cli.er_Confidence r = confidence ∧ Cli.er_Explanation r = explanation ∧
    Cli.er_MatchingConstraints r ≡ₚ info_of rr (re_now env) ns <$> ms ∧
    Cli.er_RemediationSteps r ≡ₚ mjoin ((fun c => view_step <$> ri_Steps (Build (rr_builder rr) c)) <$> ms).
Proof.
  intros Hp Hr. destruct (extract_published env idx ns rr o EmptyString EmptyString EmptyString Hp) as [Hl _].
  rewrite unfiltered in Hl.
  pose proof (matchError_agrees (info_of rr (re_now env) ns) e (applicable env idx ns) _ ltac:(done) Hl) as Ha.
  destruct (Mcp.matchErrorToConstraints _ _) as [[ms conf] expl].
  unfold Cli.explain_result. cbn [Cli.try]. rewrite Hr. cbn [Cli.try].
  destruct (Cli.matchError _ _) as [[ms' conf'] expl']. destruct Ha as (Hms & -> & ->).
  eexists. split; [done|]. cbn. split_and!; [done..|].
  rewrite Hms, <-list_fmap_compose. done.
Qed.

(** *** status *)

Lemma summarize_encoded o st :
  Object o !! "status" = Some (encode_status st) →
  Cli.summarize o = Cli.mkNamespaceSummary (GetNamespace o) (st_ConstraintCount st) (st_CriticalCount st) (st_WarningCount st) (st_InfoCount st).
Proof.
  intros Hs. unfold Cli.summarize. cbn [Cli.getInt64]. rewrite Hs. unfold encode_status. by read_members.
Qed.

(** The line that the status should show for a namespace. *)
Definition namespace_row (env : ReconcileEnv) (idx : Idx) (ns : string) : Cli.NamespaceSummary :=
  let cs := applicable env idx ns in
  let count sev := go_len (filter (fun c => c_Severity c = sev) cs) in
  Cli.mkNamespaceSummary ns (go_len cs) (count SeverityCritical) (count SeverityWarning) (count SeverityInfo).

Lemma summarize_published env idx ns rr o : published env idx ns rr o → Cli.summarize o = namespace_row env idx ns.
Proof.
  intros [Hs Hns]%published_status. rewrite (summarize_encoded _ _ Hs), Hns. unfold namespace_row.
  destruct (buildReportStatus_eq env (applicable env idx ns) ns rr) as (Hn & Hc & Hw & Hi & _).
  by rewrite Hn, Hc, Hw, Hi, !count_severity_filter.
Qed.

Definition sum_of (f : Cli.NamespaceSummary -> Z) (l : list Cli.NamespaceSummary) : Z := foldr (fun x => Z.add (f x)) 0%Z l.

(** A sum whose parts are bounded by those of one that fits does not wrap. *)
Lemma total_sum (f g : Cli.NamespaceSummary -> Z) l :
  Forall (fun x => 0 ≤ f x ≤ g x)%Z l → (sum_of g l ≤ int64_max)%Z → Cli.total f l = sum_of f l.
Proof.
  intros Hf Hg. unfold Cli.total. enough (∀ t, (0 ≤ t)%Z → (t + sum_of g l ≤ int64_max)%Z →
    foldl (fun t s => wrap64 (t + f s)) t l = (t + sum_of f l)%Z) as -> by lia.
  clear Hg. unfold sum_of. induction Hf as [|x l Hx Hl IH]; intros t Ht Hm; simpl in *; [lia|].
  assert (0 ≤ foldr (fun x => Z.add (g x)) 0 l)%Z as Hp.
  { clear -Hl. induction Hl as [|x l Hx _ IH]; simpl; lia. }
  rewrite wrap64_id by (unfold int64_min in *; lia). rewrite IH; lia.
Qed.

(** When every listed report has been reconciled, [nightjar status] shows for
    each namespace the numbers of stored constraints that apply to it, in total
    and by severity, and, as long as the sum fits an int, the total number. *)
Theorem cli_status_exact envs idx rrs nss os client :
  Forall2 (fun ns o => published (envs ns) idx ns (rrs ns) o) nss os → Cli.cl_List client = inl os →
  let rows := (fun ns => namespace_row (envs ns) idx ns) <$> nss in
  let sum f := sum_of f rows in
  ∃ r, Cli.status_result (inl client) = inl (Cli.RStatus r) ∧
    Cli.sr_NamespaceSummaries r = rows ∧ Cli.sr_NamespaceCount r = go_len nss ∧
    ((sum Cli.ns_Total ≤ int64_max)%Z →
     Cli.sr_TotalConstraints r = sum Cli.ns_Total ∧ Cli.sr_TotalCritical r = sum Cli.ns_CriticalCount ∧
     Cli.sr_TotalWarning r = sum Cli.ns_WarningCount ∧ Cli.sr_TotalInfo r = sum Cli.ns_InfoCount).
Proof.
  intros Hp Hl rows sum. unfold Cli.status_result. cbn [Cli.try]. rewrite Hl. cbn [Cli.try].
  assert (Cli.summarize <$> os = rows) as ->.
  { unfold rows. clear -Hp AL RL. induction Hp as [|ns o nss os Ho _ IH]; [done|].
    rewrite !fmap_cons. by rewrite (summarize_published _ _ _ _ _ Ho), IH. }
  eexists. split; [done|]. cbn. split_and!; [done|by unfold go_len, rows; rewrite length_fmap|]. intros Hs.
  assert (∀ f, (∀ ns, 0 ≤ f (namespace_row (envs ns) idx ns) ≤ go_len (applicable (envs ns) idx ns))%Z → Cli.total f rows = sum f) as Ht.
  { intros f Hf. apply (total_sum f Cli.ns_Total); [|done]. apply Forall_fmap, Forall_true. intros ns. apply Hf. }
  assert (∀ sev cs, 0 ≤ go_len (filter (fun c => c_Severity c = sev) cs) ≤ go_len cs)%Z as Hlen.
  { intros sev cs. unfold go_len. pose proof (length_filter (fun c => c_Severity c = sev) cs). lia. }
  split_and!; apply Ht; intros ns; try apply Hlen. unfold namespace_row, go_len. simpl. lia.
Qed.

(** *** remediate *)

(** Once a report has been reconciled, [nightjar remediate] answers with the
    remediation that the builder gives for a stored constraint shown under the
    name, and fails exactly when no applicable constraint is shown under it. *)
Theorem cli_remediate_spec env idx ns rr o client name :
  published env idx ns rr o → reads client ns o →
  let shown c := stored idx c ∧ matchesNamespace c ns = true ∧ scopedName rr c ns = name in
  match Cli.remediate_result (inl client) ns name with
  | inl (Cli.RRemediate r) => ∃ c, shown c ∧ Cli.rm_Constraint r = info_of rr (re_now env) ns c ∧
      Cli.rm_Summary r = ri_Summary (Build (rr_builder rr) c) ∧ Cli.rm_Steps r = view_step <$> ri_Steps (Build (rr_builder rr) c)
  | inl _ => False
  | inr err => (∀ c, ¬ shown c) ∧ err = "constraint " +:+ fmt_q name +:+ " not found in namespace " +:+ fmt_q ns
  end.
Proof.
  intros Hp Hr shown. destruct (extract_published env idx ns rr o EmptyString EmptyString EmptyString Hp) as [Hl _].
  rewrite unfiltered in Hl. unfold Cli.remediate_result. cbn [Cli.try]. rewrite Hr. cbn [Cli.try].
  assert (∀ x, x ∈ filter (fun c => Cli.ci_Name c = name) (Cli.extractConstraints o EmptyString EmptyString EmptyString) ↔
    ∃ c, x = info_of rr (re_now env) ns c ∧ shown c) as Hx.
  { intros x. rewrite list_elem_of_filter, Hl, list_elem_of_fmap. unfold applicable, shown. setoid_rewrite query_ns_spec.
    split; [intros (<- & c & -> & ? & ?); by exists c|intros (c & -> & ? & ? & <-); split; [done|by exists c]]. }
  destruct (filter _ _) as [|x l] eqn:Hf; simpl.
  - split; [|done]. intros c Hc. eapply not_elem_of_nil, Hx. eauto.
  - destruct (proj1 (Hx x) ltac:(left)) as (c & -> & Hc). by exists c.
Qed.

(** *** Where the client does not do what it says *)

(** What is read of a published report has neither message nor source, and a
    remediation step has lost its contact, link, patch and template. *)
Theorem cli_loses_fields env idx ns rr o t s w x :
  published env idx ns rr o → x ∈ Cli.extractConstraints o t s w →
  Cli.ci_Message x = EmptyString ∧ Cli.ci_Source x = EmptyString ∧
  (∀ warning, Cli.check_warning x = Some warning → warning = Cli.ci_Name x +:+ ": ").
Proof.
  intros Hp Hx. destruct (extract_published env idx ns rr o t s w Hp) as [Hl _].
  rewrite Hl in Hx. apply list_elem_of_filter in Hx as [_ (c & -> & _)%list_elem_of_fmap]. split_and!; [done..|].
  unfold Cli.check_warning. intros warning Hw. repeat case_match; by simplify_eq/=.
Qed.
End published.

Theorem cli_step_not_actionable ty d cmd p1 t1 u1 c1 p2 t2 u2 c2 priv :
  view_step (mkStep ty d cmd p1 t1 u1 c1 priv) = view_step (mkStep ty d cmd p2 t2 u2 c2 priv).
Proof. reflexivity. Qed.

(** Whatever the reason for which the report cannot be read, the check passes. *)
Theorem cli_check_error_passes `{AM : Apimachinery} unmarshal data m client err :
  unmarshal data = inl m → Cli.cl_Get client (Mcp.manifest_namespace m) = inr err →
  ∃ r, Cli.check_result unmarshal (inl data) (inl client) = inl (Cli.RCheck r) ∧ Cli.ck_WouldBlock r = false ∧
    Cli.ck_BlockingConstraints r = [] ∧ Cli.ck_Warnings r = [].
Proof.
  intros Hm Hg. unfold Cli.check_result. cbn [Cli.try]. rewrite Hm. cbn [Cli.try]. rewrite Hg. by eexists.
Qed.

Theorem cli_workload_ignored `{AM : Apimachinery} client ns t s w w' :
  Cli.query_result client ns t s w = Cli.query_result client ns t s w'.
Proof. reflexivity. Qed.

(** Two manifests of one namespace that differ in their labels only are checked alike. *)
Theorem cli_check_ignores_labels `{AM : Apimachinery} unmarshal unmarshal' data m lbls client :
  unmarshal data = inl m → unmarshal' data = inl (<["metadata" := VMap (<["labels" := lbls]> (default ∅ (Mcp.manifest_metadata m)))]> m) →
  Cli.check_result unmarshal (inl data) client = Cli.check_result unmarshal' (inl data) client.
Proof.
  intros Hm Hm'. unfold Cli.check_result. cbn [Cli.try]. rewrite Hm, Hm'. cbn [Cli.try].
  assert (∀ k, k ≠ "labels" → Mcp.string_field (Mcp.manifest_metadata (<["metadata" := VMap (<["labels" := lbls]> (default ∅ (Mcp.manifest_metadata m)))]> m)) k =
    Mcp.string_field (Mcp.manifest_metadata m) k) as Hk.
  { intros k Hk. unfold Mcp.string_field. f_equal. unfold Mcp.manifest_metadata at 1. rewrite lookup_insert_eq.
    unfold map_string. cbn [mbind option_bind as_map]. rewrite lookup_insert_ne by done. by destruct (Mcp.manifest_metadata m). }
  unfold Mcp.manifest_namespace. rewrite !Hk by done. unfold Cli.safeString. by rewrite lookup_insert_ne.
Qed.

(** ** Evaluation *)

Definition found_env : ReconcileEnv := example_env (ReportFound "7") None late.
Definition new_env : ReconcileEnv := example_env ReportNotFound None late.
Definition found_report : Unstructured :=
  report_object "dev" (Some (encode_status (buildReportStatus found_env (applicable found_env mcp_index "dev") "dev" example_reconciler).2)).
Definition new_report : Unstructured := report_object "dev" None.

Lemma found_published : published found_env mcp_index "dev" example_reconciler found_report.
Proof.
  by exists None, "7", (UpdateReport "dev" "7" (buildReportStatus found_env (applicable found_env mcp_index "dev") "dev" example_reconciler).2).
Qed.

Lemma new_created : created new_env mcp_index "dev" example_reconciler new_report.
Proof.
  by exists (CreateReport "dev" (buildReportStatus new_env (applicable new_env mcp_index "dev") "dev" example_reconciler).2).
Qed.

Definition client_of (o : Unstructured) : Cli.Client :=
  Cli.mkClient (fun ns => if ns == "dev" then inl o else inr "not found") (inl [o]).
Definition parse_manifest (data : string) : gmap string GoVal + error := if data == "pod" then inl example_manifest else inr "bad".

Example cli_query_runs :
  match Cli.query_result (inl (client_of found_report)) "dev" EmptyString "Critical" EmptyString with
  | inl (Cli.RQuery r) => Cli.ci_Name <$> Cli.qr_Constraints r
  | _ => []
  end = ["guard"].
Proof. vm_compute. reflexivity. Qed.

Lemma mcp_hook_stored : stored mcp_index mcp_hook ∧ matchesNamespace mcp_hook "dev" = true.
Proof. split; [by exists "h1"|]. vm_compute. reflexivity. Qed.

Lemma cli_query_exact_witness :
  ∃ r, Cli.query_result (inl (client_of found_report)) "dev" "Admission" EmptyString EmptyString = inl (Cli.RQuery r) ∧
    info_of example_reconciler late "dev" mcp_hook ∈ Cli.qr_Constraints r.
Proof.
  destruct (cli_query_exact found_env mcp_index "dev" example_reconciler found_report (client_of found_report) "Admission" EmptyString
    found_published eq_refl) as (r & Hr & _ & _ & _ & Hx).
  exists r. split; [exact Hr|]. apply Hx. exists mcp_hook. split; [reflexivity|]. destruct mcp_hook_stored as [Hs Hn]. auto.
Defined.

Lemma cli_check_exact_witness :
  ∃ r, Cli.check_result parse_manifest (inl "pod") (inl (client_of found_report)) = inl (Cli.RCheck r) ∧ Cli.ck_WouldBlock r = true.
Proof.
  destruct (cli_check_exact found_env mcp_index example_reconciler found_report (client_of found_report) parse_manifest "pod" example_manifest
    eq_refl found_published eq_refl) as (r & Hr & Hb & _).
  exists r. split; [exact Hr|]. apply Hb. exists mcp_hook. destruct mcp_hook_stored as [Hs Hn]. auto.
Defined.

Lemma first_report_lost_witness :
  stored mcp_index mcp_hook ∧
  ∃ r, Cli.check_result parse_manifest (inl "pod") (inl (client_of new_report)) = inl (Cli.RCheck r) ∧ Cli.ck_WouldBlock r = false.
Proof.
  destruct (first_report_lost new_env mcp_index example_reconciler new_report (client_of new_report) parse_manifest "pod" example_manifest
    eq_refl new_created eq_refl eq_refl) as (_ & _ & r & Hr & Hb & _).
  split; [exact (proj1 mcp_hook_stored)|]. exists r. split; [exact Hr|exact Hb].
Defined.

Lemma cli_explain_agrees_witness :
  ∃ r, Cli.explain_result (inl (client_of found_report)) "dev" quota_error = inl (Cli.RExplain r) ∧ Cli.er_Confidence r = "high".
Proof.
  destruct (cli_explain_agrees found_env mcp_index "dev" example_reconciler found_report (client_of found_report) quota_error
    found_published eq_refl) as (r & Hr & Hc & _).
  exists r. split; [exact Hr|]. rewrite Hc. vm_compute. reflexivity.
Defined.

Lemma cli_status_exact_witness :
  ∃ r, Cli.status_result (inl (client_of found_report)) = inl (Cli.RStatus r) ∧ Cli.sr_TotalConstraints r = 2%Z ∧ Cli.sr_TotalCritical r = 1%Z.
Proof.
  destruct (cli_status_exact (fun _ => found_env) mcp_index (fun _ => example_reconciler) ["dev"] [found_report] (client_of found_report)
    ltac:(repeat constructor; exact found_published) eq_refl) as (r & Hr & _ & _ & Ht).
  exists r. split; [exact Hr|]. destruct Ht as (-> & -> & _); [vm_compute; discriminate|]. vm_compute. split; reflexivity.
Defined.
