(* ===== verification/CliOutput.v ===== *)
(** * What the command line client prints (cmd/nightjarctl/output.go)

    [outputJSON] writes the JSON document of a result, [outputYAML] what the
    YAML library makes of it (a parameter), and the table functions the text
    that is handed to text/tabwriter, whose alignment of the columns is not
    modelled.  A JSON document is read back by [Json.json_parse]. *)

From S2P Require Import Prelude GoStd Encoding Json Types Apimachinery Util Indexer Remediation EventBuilder Requirements Report McpHandlers.
From S2P Require Import ReportApi CliCommands.
From Stdlib Require Import Ascii.

Open Scope go_scope.
#[local] Open Scope string_scope.

Module Printer.
Import Cli.

(** ** The JSON tags *)

(** Members in the order of the struct, without the omitted ones. *)
Definition jobj (l : list (string * option Json)) : Json := JObj (omap (fun kv => (fun v => (kv.1, v)) <$> kv.2) l).
Definition jstr (s : string) : option Json := Some (JStr s).
Definition jint (z : Z) : option Json := Some (JInt z).
Definition jbool (b : bool) : option Json := Some (JBool b).
Definition jstr_omitempty (s : string) : option Json := if s == EmptyString then None else Some (JStr s).
Definition jarr_omitempty {A} (f : A -> Json) (l : list A) : option Json := match l with [] => None | _ => Some (JArr (f <$> l)) end.

(** The slices are built with append from nil: an empty one is null. *)
Definition jarr {A} (f : A -> Json) (l : list A) : option Json := Some match l with [] => JNull | _ => JArr (f <$> l) end.

Definition json_step (s : RemediationStep) : Json :=
  jobj [("type", jstr (cs_Type s)); ("description", jstr (cs_Description s)); ("command", jstr_omitempty (cs_Command s));
        ("requiresPrivilege", jstr_omitempty (cs_RequiresPrivilege s))].
Definition json_remediation (r : RemediationInfo) : Json :=
  jobj [("summary", jstr (cr_Summary r)); ("steps", jarr_omitempty json_step (cr_Steps r))].
Definition json_info (c : ConstraintInfo) : Json :=
  jobj [("name", jstr (ci_Name c)); ("type", jstr (ci_Type c)); ("severity", jstr (ci_Severity c));
        ("effect", jstr_omitempty (ci_Effect c)); ("message", jstr_omitempty (ci_Message c)); ("source", jstr_omitempty (ci_Source c));
        ("tags", jarr_omitempty JStr (ci_Tags c)); ("remediation", json_remediation <$> ci_Remediation c)].
Definition json_query (r : QueryResult) : Json :=
  jobj [("namespace", jstr (qr_Namespace r)); ("constraints", jarr json_info (qr_Constraints r)); ("total", jint (qr_Total r))].
Definition json_explain (r : ExplainResult) : Json :=
  jobj [("errorMessage", jstr (er_ErrorMessage r)); ("explanation", jstr (er_Explanation r)); ("confidence", jstr (er_Confidence r));
        ("matchingConstraints", jarr json_info (er_MatchingConstraints r));
        ("remediationSteps", jarr_omitempty json_step (er_RemediationSteps r))].
Definition json_manifest (m : ManifestInfo) : Json :=
  jobj [("kind", jstr (mi_Kind m)); ("name", jstr (mi_Name m)); ("namespace", jstr (mi_Namespace m))].
Definition json_check (r : CheckResult) : Json :=
  jobj [("wouldBlock", jbool (ck_WouldBlock r)); ("blockingConstraints", jarr_omitempty json_info (ck_BlockingConstraints r));
        ("warnings", jarr_omitempty JStr (ck_Warnings r)); ("manifest", Some (json_manifest (ck_Manifest r)))].
Definition json_remediate (r : RemediateResult) : Json :=
  jobj [("constraint", Some (json_info (rm_Constraint r))); ("summary", jstr (rm_Summary r)); ("steps", jarr json_step (rm_Steps r))].
Definition json_summary (s : NamespaceSummary) : Json :=
  jobj [("namespace", jstr (ns_Namespace s)); ("total", jint (ns_Total s)); ("criticalCount", jint (ns_CriticalCount s));
        ("warningCount", jint (ns_WarningCount s)); ("infoCount", jint (ns_InfoCount s))].
Definition json_status (r : StatusResult) : Json :=
  jobj [("namespaceSummaries", jarr json_summary (sr_NamespaceSummaries r)); ("totalConstraints", jint (sr_TotalConstraints r));
        ("totalCritical", jint (sr_TotalCritical r)); ("totalWarning", jint (sr_TotalWarning r)); ("totalInfo", jint (sr_TotalInfo r));
        ("namespaceCount", jint (sr_NamespaceCount r))].

Definition json_result (r : Result) : Json :=
  match r with
  | RQuery r => json_query r
  | RExplain r => json_explain r
  | RCheck r => json_check r
  | RRemediate r => json_remediate r
  | RStatus r => json_status r
  end.

Definition outputJSON (r : Result) : string := json_Encode (json_result r).

(** ** The tables *)

Definition nl : string := String newline EmptyString.
Definition tab : string := String (ascii_of_nat 9) EmptyString.
Definition line (cells : list string) : string := strings_Join cells tab +:+ nl.

Definition rows {A} (header : list string) (f : A -> list string) (l : list A) : string :=
  line header +:+ strings_Join ((fun a => line (f a)) <$> l) EmptyString.

Definition outputQueryTable (r : QueryResult) : string :=
  line ["NAMESPACE"; qr_Namespace r] +:+ line ["TOTAL"; fmt_d (qr_Total r)] +:+ nl +:+
  rows ["NAME"; "TYPE"; "SEVERITY"; "EFFECT"; "SOURCE"]
    (fun c => [ci_Name c; ci_Type c; ci_Severity c; ci_Effect c; ci_Source c]) (qr_Constraints r).

Definition name_type_severity (l : list ConstraintInfo) : string :=
  rows ["NAME"; "TYPE"; "SEVERITY"] (fun c => [ci_Name c; ci_Type c; ci_Severity c]) l.

(** The steps of a loop with its index [i] (from 1). *)
Fixpoint numbered {A} (f : Z -> A -> string) (i : Z) (l : list A) : string :=
  match l with
  | [] => EmptyString
  | a :: l' => f i a +:+ numbered f (i + 1)%Z l'
  end.

Definition outputExplainTable (r : ExplainResult) : string :=
  line ["ERROR:"; er_ErrorMessage r] +:+ line ["CONFIDENCE:"; er_Confidence r] +:+ line ["EXPLANATION:"; er_Explanation r] +:+ nl +:+
  (if (0 <? go_len (er_MatchingConstraints r))%Z
   then line ["MATCHING CONSTRAINTS:"] +:+ name_type_severity (er_MatchingConstraints r) else EmptyString) +:+
  (if (0 <? go_len (er_RemediationSteps r))%Z
   then nl +:+ line ["REMEDIATION STEPS:"] +:+
        numbered (fun i step => fmt_d i +:+ ". [" +:+ cs_Type step +:+ "] " +:+ cs_Description step +:+ nl +:+
          (if cs_Command step != EmptyString then "   Command: " +:+ cs_Command step +:+ nl else EmptyString)) 1 (er_RemediationSteps r)
   else EmptyString).

Definition outputCheckTable (r : CheckResult) : string :=
  let status := if ck_WouldBlock r then "BLOCKED" else "PASS" in
  let m := ck_Manifest r in
  line ["MANIFEST:"; mi_Namespace m +:+ "/" +:+ mi_Name m +:+ " (" +:+ mi_Kind m +:+ ")"] +:+ line ["STATUS:"; status] +:+ nl +:+
  (if (0 <? go_len (ck_BlockingConstraints r))%Z
   then line ["BLOCKING CONSTRAINTS:"] +:+ name_type_severity (ck_BlockingConstraints r) else EmptyString) +:+
  (if (0 <? go_len (ck_Warnings r))%Z
   then nl +:+ line ["WARNINGS:"] +:+ strings_Join ((fun w => "- " +:+ w +:+ nl) <$> ck_Warnings r) EmptyString else EmptyString).

Definition outputRemediateTable (r : RemediateResult) : string :=
  line ["CONSTRAINT:"; ci_Name (rm_Constraint r) +:+ " (" +:+ ci_Type (rm_Constraint r) +:+ ")"] +:+
  line ["SEVERITY:"; ci_Severity (rm_Constraint r)] +:+ line ["SUMMARY:"; rm_Summary r] +:+ nl +:+
  (if (0 <? go_len (rm_Steps r))%Z
   then line ["REMEDIATION STEPS:"] +:+
        numbered (fun i step =>
          let privilege := if cs_RequiresPrivilege step == EmptyString then "developer" else cs_RequiresPrivilege step in
          nl +:+ fmt_d i +:+ ". [" +:+ cs_Type step +:+ "] (" +:+ privilege +:+ ")" +:+ nl +:+ "   " +:+ cs_Description step +:+ nl +:+
          (if cs_Command step != EmptyString then "   $ " +:+ cs_Command step +:+ nl else EmptyString)) 1 (rm_Steps r)
   else EmptyString).

Definition outputStatusTable (r : StatusResult) : string :=
  line ["TOTAL CONSTRAINTS:"; fmt_d (sr_TotalConstraints r)] +:+ line ["NAMESPACES:"; fmt_d (sr_NamespaceCount r)] +:+
  line ["CRITICAL:"; fmt_d (sr_TotalCritical r)] +:+ line ["WARNING:"; fmt_d (sr_TotalWarning r)] +:+
  line ["INFO:"; fmt_d (sr_TotalInfo r)] +:+ nl +:+
  (if (0 <? go_len (sr_NamespaceSummaries r))%Z
   then rows ["NAMESPACE"; "TOTAL"; "CRITICAL"; "WARNING"; "INFO"]
          (fun s => [ns_Namespace s; fmt_d (ns_Total s); fmt_d (ns_CriticalCount s); fmt_d (ns_WarningCount s); fmt_d (ns_InfoCount s)])
          (sr_NamespaceSummaries r)
   else EmptyString).

(** Every result has one of the five types. *)
Definition outputTable (r : Result) : string :=
  match r with
  | RQuery r => outputQueryTable r
  | RExplain r => outputExplainTable r
  | RCheck r => outputCheckTable r
  | RRemediate r => outputRemediateTable r
  | RStatus r => outputStatusTable r
  end.

Definition severityColor (severity : string) : string :=
  let esc := String (ascii_of_nat 27) EmptyString in
  switch (strings_ToLower severity) [("critical", esc +:+ "[31m"); ("warning", esc +:+ "[33m"); ("info", esc +:+ "[36m")] EmptyString.

(** ** The commands *)

Section run.
Context {AM : Apimachinery}.
Variable yaml_Marshal : Json -> string + error.
Variable yaml_Unmarshal : string -> gmap string GoVal + error.

Definition outputYAML (r : Result) : string + error :=
  match yaml_Marshal (json_result r) with inl data => inl (data +:+ nl) | inr err => inr err end.

Definition outputResult (r : Result) (format : string) : string + error :=
  if format == "json" then inl (outputJSON r)
  else if format == "yaml" then outputYAML r
  else inl (outputTable r).

Definition and_output (r : Result + error) (format : string) : string + error :=
  match r with inl r => outputResult r format | inr err => inr err end.

Definition runQuery (getClient : Client + error) (namespace constraintType severity workload outputFmt : string) : string + error :=
  and_output (query_result getClient namespace constraintType severity workload) outputFmt.
Definition runExplain (getClient : Client + error) (namespace errorMessage outputFmt : string) : string + error :=
  and_output (explain_result getClient namespace errorMessage) outputFmt.
Definition runCheck (data : string + error) (getClient : Client + error) (outputFmt : string) : string + error :=
  and_output (check_result yaml_Unmarshal data getClient) outputFmt.
Definition runRemediate (getClient : Client + error) (namespace constraintName outputFmt : string) : string + error :=
  and_output (remediate_result getClient namespace constraintName) outputFmt.
Definition runStatus (getClient : Client + error) (outputFmt : string) : string + error :=
  and_output (status_result getClient) outputFmt.
End run.

(** main: a failed command exits with 1. *)
Definition exit_code (r : string + error) : Z := match r with inl _ => 0 | inr _ => 1 end.
End Printer.

(** cmd/nightjarctl/nightjar-sentinel is the client that the releases ship: the
    same commands, word for word, under other help texts.  Its functions are
    therefore those above, and what is shown of them holds of it. *)
Module Sentinel.
Definition safeString := Cli.safeString.
Definition parseConstraintMap := @Cli.parseConstraintMap.
Definition extractConstraints := @Cli.extractConstraints.
Definition matchError := Cli.matchError.
Definition getInt64 := Cli.getInt64.
Definition outputJSON := Printer.outputJSON.
Definition outputYAML := @Printer.outputYAML.
Definition outputTable := Printer.outputTable.
Definition outputResult := @Printer.outputResult.
Definition outputQueryTable := Printer.outputQueryTable.
Definition outputExplainTable := Printer.outputExplainTable.
Definition outputCheckTable := Printer.outputCheckTable.
Definition outputRemediateTable := Printer.outputRemediateTable.
Definition outputStatusTable := Printer.outputStatusTable.
Definition severityColor := Printer.severityColor.
Definition runQuery := @Printer.runQuery.
Definition runExplain := @Printer.runExplain.
Definition runCheck := @Printer.runCheck.
Definition runRemediate := @Printer.runRemediate.
Definition runStatus := @Printer.runStatus.
Definition exit_code := Printer.exit_code.
End Sentinel.

(** ** The documents are faithful *)

Definition jget (k : string) (v : Json) : option Json :=
  match v with
  | JObj l => snd <$> head (filter (fun kv => String.eqb kv.1 k = true) l)
  | _ => None
  end.

Fixpoint jmember (k : string) (l : list (string * option Json)) : option Json :=
  match l with
  | [] => None
  | (k', o) :: l' => if String.eqb k' k then match o with Some v => Some v | None => jmember k l' end else jmember k l'
  end.

Lemma jget_jobj k l : jget k (Printer.jobj l) = jmember k l.
Proof.
  induction l as [|[k' [v|]] l IH]; [done| |].
  - cbn [jmember]. rewrite <-IH. unfold Printer.jobj, jget. cbn [omap list_omap fst snd fmap option_fmap option_map].
    rewrite filter_cons. cbn [fst]. by destruct (String.eqb k' k) eqn:E; [rewrite decide_True|rewrite decide_False].
  - cbn [jmember]. rewrite <-IH. by destruct (String.eqb k' k).
Qed.

Lemma jobj_members l l' k : Printer.jobj l = Printer.jobj l' → jmember k l = jmember k l'.
Proof. intros E%(f_equal (jget k)). by rewrite !jget_jobj in E. Qed.

(** Compares two documents under a key. *)
Ltac field E k :=
  let H := fresh "F" in pose proof (jobj_members _ _ k E) as H; cbn [jmember String.eqb Ascii.eqb Bool.eqb] in H.

Definition plain {A} (o : option A) : option A := match o with Some v => Some v | None => None end.
Lemma plain_id {A} (o : option A) : plain o = o.
Proof. by destruct o. Qed.

Lemma jstr_omitempty_inj s t : plain (Printer.jstr_omitempty s) = plain (Printer.jstr_omitempty t) → s = t.
Proof. rewrite !plain_id. unfold Printer.jstr_omitempty. repeat case_bool_decide; congruence. Qed.

Lemma jarr_omitempty_inj {A} (f : A -> Json) `{!Inj (=) (=) f} l l' :
  plain (Printer.jarr_omitempty f l) = plain (Printer.jarr_omitempty f l') → l = l'.
Proof. rewrite !plain_id. destruct l, l'; try done. unfold Printer.jarr_omitempty. intros [= Hf Hl]. f_equal; by simplify_eq. Qed.

Lemma jarr_inj {A} (f : A -> Json) `{!Inj (=) (=) f} l l' : Printer.jarr f l = Printer.jarr f l' → l = l'.
Proof. destruct l, l'; try done. unfold Printer.jarr. intros [= Hf Hl]. f_equal; by simplify_eq. Qed.

#[export] Instance JStr_inj : Inj (=) (=) JStr.
Proof. by intros s t [= ->]. Qed.

#[export] Instance json_step_inj : Inj (=) (=) Printer.json_step.
Proof.
  intros [a1 a2 a3 a4] [b1 b2 b3 b4] E. unfold Printer.json_step in E. field E "type". field E "description".
  field E "command". field E "requiresPrivilege". cbn in *.
  apply jstr_omitempty_inj in F1, F2. congruence.
Qed.

#[export] Instance json_remediation_inj : Inj (=) (=) Printer.json_remediation.
Proof.
  intros [a1 a2] [b1 b2] E. unfold Printer.json_remediation in E. field E "summary". field E "steps". cbn in *.
  apply (jarr_omitempty_inj _) in F0. congruence.
Qed.

#[export] Instance json_info_inj : Inj (=) (=) Printer.json_info.
Proof.
  intros [a1 a2 a3 a4 a5 a6 a7 a8] [b1 b2 b3 b4 b5 b6 b7 b8] E. unfold Printer.json_info in E. field E "name". field E "type".
  field E "severity". field E "effect". field E "message". field E "source". field E "tags". field E "remediation". clear E. cbn in *.
  apply jstr_omitempty_inj in F2, F3, F4. apply (jarr_omitempty_inj _) in F5.
  assert (a8 = b8) as -> by (destruct a8, b8; try discriminate; simplify_eq/=; done). congruence.
Qed.

#[export] Instance json_summary_inj : Inj (=) (=) Printer.json_summary.
Proof.
  intros [a1 a2 a3 a4 a5] [b1 b2 b3 b4 b5] E. unfold Printer.json_summary in E. field E "namespace". field E "total".
  field E "criticalCount". field E "warningCount". field E "infoCount". cbn in *. congruence.
Qed.

#[export] Instance json_query_inj : Inj (=) (=) Printer.json_query.
Proof.
  intros [a1 a2 a3] [b1 b2 b3] E. unfold Printer.json_query in E. field E "namespace". field E "constraints". field E "total".
  cbn in *. apply (jarr_inj _) in F0. congruence.
Qed.

#[export] Instance json_explain_inj : Inj (=) (=) Printer.json_explain.
Proof.
  intros [a1 a2 a3 a4 a5] [b1 b2 b3 b4 b5] E. unfold Printer.json_explain in E. field E "errorMessage". field E "explanation".
  field E "confidence". field E "matchingConstraints". field E "remediationSteps". clear E. cbn in *.
  apply (jarr_inj _) in F2. apply (jarr_omitempty_inj _) in F3. congruence.
Qed.

#[export] Instance json_manifest_inj : Inj (=) (=) Printer.json_manifest.
Proof.
  intros [a1 a2 a3] [b1 b2 b3] E. unfold Printer.json_manifest in E. field E "kind". field E "name". field E "namespace". cbn in *. congruence.
Qed.

#[export] Instance json_check_inj : Inj (=) (=) Printer.json_check.
Proof.
  intros [a1 a2 a3 a4] [b1 b2 b3 b4] E. unfold Printer.json_check in E. field E "wouldBlock". field E "blockingConstraints".
  field E "warnings". field E "manifest". clear E. cbn in *. apply (jarr_omitempty_inj _) in F0, F1. simplify_eq. done.
Qed.

#[export] Instance json_remediate_inj : Inj (=) (=) Printer.json_remediate.
Proof.
  intros [a1 a2 a3] [b1 b2 b3] E. unfold Printer.json_remediate in E. field E "constraint". field E "summary". field E "steps".
  clear E. cbn in *. apply (jarr_inj _) in F1. simplify_eq. done.
Qed.

#[export] Instance json_status_inj : Inj (=) (=) Printer.json_status.
Proof.
  intros [a1 a2 a3 a4 a5 a6] [b1 b2 b3 b4 b5 b6] E. unfold Printer.json_status in E. field E "namespaceSummaries".
  field E "totalConstraints". field E "totalCritical". field E "totalWarning". field E "totalInfo". field E "namespaceCount".
  clear E. cbn in *. apply (jarr_inj _) in F. congruence.
Qed.

(** Documents of different commands differ in their keys. *)
Lemma json_result_inj r r' : Printer.json_result r = Printer.json_result r' → r = r'.
Proof.
  destruct r, r'; cbn [Printer.json_result]; intros E; try (f_equal; by simplify_eq); exfalso;
    first [field E "total"; by cbn in *|field E "errorMessage"; by cbn in *|field E "manifest"; by cbn in *|field E "constraint"; by cbn in *].
Qed.

(** C20: the JSON output of every command is a document that a reader of JSON
    gets back as written, up to the replacement character for what is not
    UTF-8; and from a document of valid UTF-8 the whole result can be told: no
    two such results print the same text. *)
Theorem cli_json_faithful r r' :
  json_parse (Printer.outputJSON r) = Some (json_clean (Printer.json_result r)) ∧
  (json_utf8 (Printer.json_result r) = true → json_parse (Printer.outputJSON r) = Some (Printer.json_result r)) ∧
  (json_utf8 (Printer.json_result r) = true → json_utf8 (Printer.json_result r') = true →
   Printer.outputJSON r = Printer.outputJSON r' ↔ r = r').
Proof.
  split_and!; [apply json_parse_Encode| |].
  { intros Hv. pose proof (json_parse_Encode (Printer.json_result r)) as E. by rewrite json_clean_utf8 in E. }
  intros Hv Hv'. split; [|by intros ->]. by intros E%json_Encode_inj%json_result_inj.
Qed.

(** ** From the index to a script *)

(** A field of the document that is read back. *)
Lemma jget_clean k l :
  Forall (fun kv => utf8_clean kv.1 = kv.1) l → jget k (json_clean (JObj l)) = json_clean <$> jget k (JObj l).
Proof.
  unfold jget. cbn [json_clean]. induction 1 as [|[k' v] l Hk _ IH]; [done|]. cbn [List.map fst snd] in *. rewrite !filter_cons. cbn [fst].
  rewrite Hk. destruct (String.eqb k' k) eqn:E; [by rewrite !decide_True|by rewrite !decide_False].
Qed.

Lemma jget_jobj_clean k l :
  Forall (fun kv => utf8_clean kv.1 = kv.1) l → jget k (json_clean (Printer.jobj l)) = json_clean <$> jget k (Printer.jobj l).
Proof.
  intros Hl. apply jget_clean. apply Forall_forall. intros kv ([k' [v|]] & Hin & [= <-])%list_elem_of_omap.
  by apply (proj1 (Forall_forall _ _) Hl) in Hin.
Qed.

Lemma jget_check_clean k r : jget k (json_clean (Printer.json_check r)) = json_clean <$> jget k (Printer.json_check r).
Proof. apply jget_jobj_clean. repeat constructor. Qed.

(** The documented scripts test [would_block], which no document has. *)
Theorem check_documented_key_missing r : jget "would_block" (Printer.json_result (Cli.RCheck r)) = None.
Proof. cbn [Printer.json_result]. unfold Printer.json_check. by rewrite jget_jobj. Qed.


Section script.
Context {AM : Apimachinery} {AL : ApimachineryLaws AM} {JN : JsonNumbers} {RS : ReportServer} {RL : ReportServerLaws RS}.
Context {Idx : Type} `{ConstraintQueryLaws Idx}.

(** C18: once an existing report has been reconciled, and when no critical
    admission constraint of the manifest's namespace selects workloads, so that
    the labels of the manifest do not matter: the scripts that docs/cli/check.md
    gives for [nightjar check -o json] test a key [would_block] that no document
    has, whatever is stored; the document has [wouldBlock], true exactly when a
    critical admission constraint is stored that applies to the namespace; and
    the command exits with 0 either way. *)
Theorem cli_check_script env idx rr o client marshal unmarshal data m :
  unmarshal data = inl m → let ns := Mcp.manifest_namespace m in
  published env idx ns rr o → reads client ns o →
  (∀ c, stored idx c → matchesNamespace c ns = true → c_ConstraintType c = ConstraintTypeAdmission →
     c_Severity c = SeverityCritical → c_WorkloadSelector c = None) →
  ∃ text doc, Printer.runCheck marshal unmarshal (inl data) (inl client) "json" = inl text ∧
    Printer.exit_code (Printer.runCheck marshal unmarshal (inl data) (inl client) "json") = 0%Z ∧ json_parse text = Some doc ∧
    jget "would_block" doc = None ∧
    (jget "wouldBlock" doc = Some (JBool true) ↔ ∃ c, stored idx c ∧ matchesNamespace c ns = true ∧
       c_ConstraintType c = ConstraintTypeAdmission ∧ c_Severity c = SeverityCritical).
Proof.
  intros Hm ns Hp Hr _. destruct (cli_check_exact env idx rr o client unmarshal data m Hm Hp Hr) as (r & Hc & Hb & _).
  unfold Printer.runCheck. rewrite Hc. eexists _, _. split_and!; [done|done|apply json_parse_Encode| |].
  { cbn [Printer.json_result]. rewrite jget_check_clean. by rewrite (check_documented_key_missing r : jget _ (Printer.json_check r) = None). }
  cbn [Printer.json_result]. rewrite jget_check_clean. unfold Printer.json_check. rewrite jget_jobj.
  cbn [jmember String.eqb Ascii.eqb Bool.eqb Printer.jbool fmap option_fmap option_map json_clean].
  fold ns in Hb. rewrite <-Hb. destruct (Cli.ck_WouldBlock r); naive_solver.
Qed.
End script.

(** A report that cannot be read is printed as a manifest that passes, with exit code 0. *)
Theorem check_api_error_exits_zero `{AM : Apimachinery} marshal unmarshal data m client err :
  unmarshal data = inl m → Cli.cl_Get client (Mcp.manifest_namespace m) = inr err →
  ∃ text doc, Printer.runCheck marshal unmarshal (inl data) (inl client) "json" = inl text ∧
    Printer.exit_code (Printer.runCheck marshal unmarshal (inl data) (inl client) "json") = 0%Z ∧
    json_parse text = Some doc ∧ jget "wouldBlock" doc = Some (JBool false).
Proof.
  intros Hm Hg. destruct (cli_check_error_passes unmarshal data m client err Hm Hg) as (r & Hc & Hb & _).
  unfold Printer.runCheck. rewrite Hc. eexists _, _. split_and!; [done|done|apply json_parse_Encode|].
  cbn [Printer.json_result]. rewrite jget_check_clean. unfold Printer.json_check. rewrite jget_jobj.
  cbn [jmember String.eqb Ascii.eqb Bool.eqb Printer.jbool fmap option_fmap option_map json_clean]. by rewrite Hb.
Qed.

(** ** Evaluation *)

Definition no_yaml (v : Json) : string + error := inr "not used".

Example check_text :
  Printer.runCheck no_yaml parse_manifest (inl "pod") (inl (client_of new_report)) "json" =
  inl ("{
  " +:+ fmt_q "wouldBlock" +:+ ": false,
  " +:+ fmt_q "manifest" +:+ ": {
    " +:+ fmt_q "kind" +:+ ": " +:+ fmt_q "Deployment" +:+ ",
    " +:+ fmt_q "name" +:+ ": " +:+ fmt_q "web" +:+ ",
    " +:+ fmt_q "namespace" +:+ ": " +:+ fmt_q "dev" +:+ "
  }
}
").
Proof. vm_compute. reflexivity. Qed.

Example status_table :
  Printer.runStatus no_yaml (inl (client_of found_report)) "table" =
  inl ("TOTAL CONSTRAINTS:	2
NAMESPACES:	1
CRITICAL:	1
WARNING:	1
INFO:	0

NAMESPACE	TOTAL	CRITICAL	WARNING	INFO
dev	2	1	1	0
").
Proof. vm_compute. reflexivity. Qed.

Lemma mcp_index_selects_none c : stored mcp_index c → c_WorkloadSelector c = None.
Proof.
  assert (map_Forall (fun _ c => c_WorkloadSelector c = None) (byUID mcp_index)) as Hall by (apply (bool_decide_unpack _); vm_compute; exact I).
  intros [uid Hu]. exact (Hall uid c Hu).
Qed.

Lemma cli_check_script_witness :
  ∃ text doc, Printer.runCheck no_yaml parse_manifest (inl "pod") (inl (client_of found_report)) "json" = inl text ∧
    json_parse text = Some doc ∧ jget "would_block" doc = None ∧ jget "wouldBlock" doc = Some (JBool true).
Proof.
  destruct (cli_check_script found_env mcp_index example_reconciler found_report (client_of found_report) no_yaml parse_manifest "pod" example_manifest
    eq_refl found_published eq_refl) as (text & doc & Ht & _ & Hd & Hn & Hb).
  { intros c Hs _ _ _. exact (mcp_index_selects_none c Hs). }
  exists text, doc. split; [exact Ht|]. split; [exact Hd|]. split; [exact Hn|]. apply Hb. exists mcp_hook. destruct mcp_hook_stored as [Hs Hns]. auto.
Defined.

Definition example_check : Cli.Result :=
  Cli.RCheck (Cli.mkCheckResult false [] ["café: 2 replicas"] (Cli.mkManifestInfo "Deployment" "web" "dev")).

Lemma cli_json_faithful_witness :
  json_parse (Printer.outputJSON example_check) = Some (Printer.json_result example_check).
Proof. apply (proj2 (cli_json_faithful example_check example_check)). vm_compute. reflexivity. Defined.
