(* ===== verification/Pipeline.v ===== *)
(** * The controller's wiring (cmd/controller/main.go)

    The registrations of the adapters, the flags that configure the
    heuristics, and what the engine, the registry, the adapters and the index
    do together: an object that an informer delivers, up to the queries the
    readers of the index make. *)

From S2P Require Import Prelude GoStd Types Apimachinery Util Registry Indexer NativeAdapters GenericAdapter Discovery.
From S2P Require Import PolicyAdapters AdapterContract Remediation Requirements Report ReportApi.
From Stdlib Require Import Ascii.

Open Scope go_scope.
#[local] Open Scope string_scope.

(** [splitCSV] *)
Definition splitCSV (s : string) : list string :=
  omap (fun item => let item := strings_TrimSpace item in if item != EmptyString then Some item else None)
       (strings_Split s ","%char).

(** [mustRegister]: [None] is [logger.Fatal], which exits. *)
Definition mustRegister (adapter : Adapter) (r : Registry) : option Registry :=
  match Register adapter r with
  | (_, Some _) => None
  | (r', None) => Some r'
  end.

Section wiring.
Context {AM : Apimachinery} {Q : Quantities}.

(** The registrations of [main], in its order. *)
Definition main_registry : option Registry :=
  r1 ← mustRegister NetworkPolicy.New NewRegistry;
  r2 ← mustRegister ResourceQuota.New r1;
  r3 ← mustRegister LimitRange.New r2;
  r4 ← mustRegister WebhookConfig.New r3;
  r5 ← mustRegister Gatekeeper.New r4;
  mustRegister Kyverno.New r5.

(** The flags [additional-policy-groups], [additional-name-hints] and
    [check-crd-annotations] applied to a new engine. *)
Definition configure_engine (additionalPolicyGroups additionalNameHints : string) (checkCRDAnnotations : bool) (e : Engine) : Engine :=
  let e1 := if additionalPolicyGroups != EmptyString then SetAdditionalGroups (splitCSV additionalPolicyGroups) e else e in
  let e2 := if additionalNameHints != EmptyString then SetAdditionalHints (splitCSV additionalNameHints) e1 else e1 in
  SetCheckAnnotation checkCRDAnnotations e2.

(** ** Which adapter an object reaches *)

(** What the registrations leave: no two adapters collide. *)
Definition registered : Registry :=
  mkRegistry
    (<["kyverno" := Kyverno.New]> (<["gatekeeper" := Gatekeeper.New]>
       (<["webhookconfig" := WebhookConfig.New]> (<["limitrange" := LimitRange.New]>
          (<["resourcequota" := ResourceQuota.New]> (<["networkpolicy" := NetworkPolicy.New]> ∅))))))
    (<[Kyverno.gvrPolicy := Kyverno.New]> (<[Kyverno.gvrClusterPolicy := Kyverno.New]>
       (<[mkGVR "constraints.gatekeeper.sh" "v1beta1" "*" := Gatekeeper.New]>
          (<[WebhookConfig.mutatingGVR := WebhookConfig.New]> (<[WebhookConfig.validatingGVR := WebhookConfig.New]>
             (<[LimitRange.gvr := LimitRange.New]> (<[ResourceQuota.gvr := ResourceQuota.New]>
                (<[networkpolicies_gvr := NetworkPolicy.New]> ∅))))))))
    (<["kyverno.io" := Kyverno.New]> (<["constraints.gatekeeper.sh" := Gatekeeper.New]>
       (<["admissionregistration.k8s.io" := WebhookConfig.New]> (<[EmptyString := ResourceQuota.New]>
          (<["networking.k8s.io" := NetworkPolicy.New]> ∅))))).

Lemma main_registry_eq : main_registry = Some registered.
Proof. reflexivity. Qed.

Lemma registered_laws : registry_laws registered.
Proof.
  unfold registry_laws, ForName, ForGVR, ForGroup, registered. simpl. split_and!; intros n a Ha;
    repeat (apply lookup_insert_Some in Ha as [[_ <-]|[_ Ha]]; [apply _|]); by rewrite lookup_empty in Ha.
Qed.

Lemma registered_ForGVR_limitrange : ForGVR registered LimitRange.gvr = Some LimitRange.New.
Proof. reflexivity. Qed.

Lemma registered_ForGVR_networking gvr :
  g_Group gvr = "networking.k8s.io" → gvr ≠ networkpolicies_gvr → ForGVR registered gvr = None.
Proof.
  intros Hg Hne. unfold ForGVR, registered. simpl.
  rewrite !lookup_insert_ne by (intros <-; (discriminate || by apply Hne)). apply lookup_empty.
Qed.

(** The adapter of an object's GVR, or else of its group. *)
Definition route (r : Registry) (gvr : GroupVersionResource) : option Adapter :=
  match ForGVR r gvr with Some a => Some a | None => ForGroup r (g_Group gvr) end.

(** Whatever CRD a ConstraintTemplate makes, its objects reach the Gatekeeper
    adapter: the wildcard of its GVR matches nothing, its group does. *)
Lemma route_gatekeeper gvr : g_Group gvr = "constraints.gatekeeper.sh" → route registered gvr = Some Gatekeeper.New.
Proof.
  intros Hg. unfold route. destruct (ForGVR registered gvr) as [a|] eqn:Ha; [|by rewrite Hg].
  unfold ForGVR, registered in Ha. simpl in Ha.
  repeat (apply lookup_insert_Some in Ha as [[<- <-]|[_ Ha]]; [try discriminate; try done|]). by rewrite lookup_empty in Ha.
Qed.

(** Without a profile for the GVR, an object goes to its GVR's adapter, or to
    the first one of its group. *)
Lemma parseObject_ForGVR σ e gvr obj a :
  enabled_profile σ e gvr = None → ForGVR (e_registry e) gvr = Some a → parseObject σ e gvr obj = a_Parse a obj.
Proof. intros Hp Ha. unfold parseObject. by rewrite Hp, Ha. Qed.

Lemma parseObject_ForGroup σ e gvr obj a :
  enabled_profile σ e gvr = None → ForGVR (e_registry e) gvr = None → ForGroup (e_registry e) (g_Group gvr) = Some a →
  parseObject σ e gvr obj = a_Parse a obj.
Proof. intros Hp Hn Ha. unfold parseObject. by rewrite Hp, Hn, Ha. Qed.

Lemma parseObject_route σ e gvr obj a :
  enabled_profile σ e gvr = None → route (e_registry e) gvr = Some a → parseObject σ e gvr obj = a_Parse a obj.
Proof. unfold route, parseObject. intros -> Ha. destruct (ForGVR _ _) as [b|]; [by simplify_eq|]. by rewrite Ha. Qed.

(** A stored constraint is what the readers of the index get. *)
Lemma stored_ByNamespace σ idx c ns :
  byUID idx !! c_UID c = Some c → matchesNamespace c ns = true → c ∈ ByNamespace σ idx ns.
Proof. intros Hc Hm. unfold ByNamespace. rewrite elem_of_select. split; [by exists (c_UID c)|done]. Qed.

(** ** Theorems *)

Lemma singleton_NoDup_uids (cs : list Constraint) : (length cs ≤ 1)%nat → NoDup (c_UID <$> cs).
Proof. destruct cs as [|c [|]]; simpl; [constructor|intros; apply NoDup_singleton|lia]. Qed.

Lemma route_distinct_uids gvr a obj :
  route registered gvr = Some a → a_Name a ≠ "networkpolicy" → NoDup (c_UID <$> (a_Parse a obj).1).
Proof.
  intros Ha Hn. assert (a ∈ [Kyverno.New; Gatekeeper.New; WebhookConfig.New; LimitRange.New; ResourceQuota.New]) as Hin.
  { unfold route, ForGVR, ForGroup, registered in Ha. simpl in Ha. destruct (_ !! gvr) as [b|] eqn:Hb; [simplify_eq|clear Hb; rename Ha into Hb];
      repeat (apply lookup_insert_Some in Hb as [[_ <-]|[_ Hb]]; [done || by repeat constructor|]); by rewrite lookup_empty in Hb. }
  rewrite !elem_of_cons, elem_of_nil in Hin. destruct Hin as [->|[->|[->|[->|[->|[]]]]]]; simpl.
  - apply Kyverno_distinct_uids.
  - apply singleton_NoDup_uids. pose proof (Gatekeeper_Parse_spec obj) as Hg.
    destruct (SafeNestedMap _ _); [destruct Hg as (c & -> & _); simpl; lia|by rewrite Hg; simpl; lia].
  - apply WebhookConfig_distinct_uids.
  - apply LimitRange_distinct_uids.
  - apply singleton_NoDup_uids. unfold ResourceQuota.Parse. destruct (SafeNestedMap _ _); [|simpl; lia].
    case_bool_decide; [simpl; lia|]. destruct (ResourceQuota.resource_loop _ _ _ _ _). simpl. lia.
Qed.

(** C9: from the object that an informer delivers to the queries.  After an
    object that reaches any adapter but the one of NetworkPolicies is added,
    the readers of every namespace it concerns get every constraint its
    adapter makes of it; after it is deleted none is left, and no other
    constraint has changed. *)
Theorem observed_object_queryable e σ σ' σq gvr a obj cs :
  e_registry e = registered → gvr ∈ watchedGVRs e → (∀ σ, enabled_profile σ e gvr = None) →
  route registered gvr = Some a → a_Name a ≠ "networkpolicy" → a_Parse a obj = (cs, None) → cs ≠ [] →
  let e1 := (handleAdd σ gvr (DObject obj) e).1 in
  let e2 := (handleDelete σ' gvr (DObject obj) e1).1 in
  (∀ c ns, c ∈ cs → matchesNamespace c ns = true → c ∈ ByNamespace σq (e_indexer e1) ns) ∧
  (∀ c, c ∈ cs → byUID (e_indexer e2) !! c_UID c = None) ∧
  (∀ uid, (uid ∉ c_UID <$> cs) → byUID (e_indexer e2) !! uid = byUID (e_indexer e) !! uid).
Proof.
  intros Hr Hw Hnp Ha Hn Hp Hne e1 e2. unfold e2. subst e1.
  pose proof (route_distinct_uids gvr a obj Ha Hn) as Hnd. rewrite Hp in Hnd.
  assert (∀ τ, parseObject τ e gvr obj = (cs, None)) as Hparse.
  { intros τ. rewrite <-Hp. by apply parseObject_route; rewrite ?Hr. }
  assert (∀ uid, byUID (e_indexer (handleDelete σ' gvr (DObject obj) (handleAdd σ gvr (DObject obj) e).1).1) !! uid =
            if bool_decide (uid ∈ c_UID <$> cs) then None else byUID (e_indexer e) !! uid) as Hdel.
  { intros uid. rewrite (handleDelete_removes σ' gvr _ obj _ cs) by (rewrite ?parseObject_handleAdd; done).
    case_bool_decide; [done|]. rewrite (handleAdd_stores σ gvr obj e cs) by done. by apply upsert_all_other. }
  split_and!.
  - intros c ns Hc. apply stored_ByNamespace. rewrite (handleAdd_stores σ gvr obj e cs) by done. by apply upsert_all_stored.
  - intros c Hc. rewrite Hdel, bool_decide_true; [done|]. by apply list_elem_of_fmap_2.
  - intros uid Hu. by rewrite Hdel, bool_decide_false.
Qed.

(** A NetworkPolicy of both directions gives two constraints of one UID;
    the index keeps the egress one only, so that no reader ever sees that the
    policy restricts ingress. *)
Theorem networkpolicy_ingress_shadowed e σ obj spec :
  e_registry e = registered → networkpolicies_gvr ∈ watchedGVRs e → enabled_profile σ e networkpolicies_gvr = None →
  SafeNestedMap (Some (Object obj)) ["spec"] = Some spec →
  "Ingress" ∈ NetworkPolicy.extractPolicyTypes spec → "Egress" ∈ NetworkPolicy.extractPolicyTypes spec →
  (∃ c, c ∈ (NetworkPolicy.Parse obj).1 ∧ c_ConstraintType c = ConstraintTypeNetworkIngress) ∧
  c_ConstraintType <$> byUID (e_indexer (handleAdd σ networkpolicies_gvr (DObject obj) e).1) !! GetUID obj =
    Some ConstraintTypeNetworkEgress.
Proof.
  intros Hr Hw Hnp Hs Hi He.
  assert (∃ c d, NetworkPolicy.Parse obj = ([c; d], None) ∧ c_UID d = GetUID obj ∧
            c_ConstraintType c = ConstraintTypeNetworkIngress ∧ c_ConstraintType d = ConstraintTypeNetworkEgress)
    as (c & d & Hp & Hud & Hc & Hd).
  { unfold NetworkPolicy.Parse. rewrite Hs. rewrite <-NetworkPolicy_containsPolicyType in Hi, He. rewrite Hi, He. simpl. by eexists _, _. }
  split; [exists c; rewrite Hp; split; [left|done]|].
  rewrite (handleAdd_stores σ networkpolicies_gvr obj e [c; d]); [|done|].
  - simpl. by rewrite <-Hud, lookup_insert_eq, <-Hd.
  - rewrite <-Hp. apply (parseObject_ForGVR σ e networkpolicies_gvr obj NetworkPolicy.New Hnp). by rewrite Hr.
Qed.

(** An object of another kind of the group networking.k8s.io, such as an
    Ingress, reaches the NetworkPolicy adapter through the group, which reads
    it as a policy without policy types: the index reports a NetworkPolicy
    that denies all ingress, though there is none. *)
Theorem networking_object_misread e σ gvr obj spec :
  e_registry e = registered → gvr ∈ watchedGVRs e → enabled_profile σ e gvr = None →
  g_Group gvr = "networking.k8s.io" → gvr ≠ networkpolicies_gvr →
  SafeNestedMap (Some (Object obj)) ["spec"] = Some spec →
  NetworkPolicy.extractPolicyTypes spec = [] → SafeNestedSlice (Some spec) ["ingress"] = None →
  ∃ c, byUID (e_indexer (handleAdd σ gvr (DObject obj) e).1) !! GetUID obj = Some c ∧
       c_Source c = networkpolicies_gvr ∧ c_ConstraintType c = ConstraintTypeNetworkIngress ∧
       c_Summary c = "NetworkPolicy " +:+ fmt_q (GetName obj) +:+ " denies all ingress traffic".
Proof.
  intros Hr Hw Hnp Hg Hne Hs Ht Hin.
  assert (parseObject σ e gvr obj = NetworkPolicy.Parse obj) as Hpo.
  { apply (parseObject_ForGroup σ e gvr obj NetworkPolicy.New Hnp); rewrite Hr; [by apply registered_ForGVR_networking|]. by rewrite Hg. }
  revert Hpo. unfold NetworkPolicy.Parse at 1. rewrite Hs, Ht. simpl. intros Hpo.
  rewrite (handleAdd_stores _ _ _ _ _ Hw Hpo). simpl. rewrite lookup_insert_eq. eexists. split; [done|].
  split_and!; [done..|]. simpl. unfold NetworkPolicy.buildIngressSummary, NetworkPolicy.build_summary. by rewrite Hin.
Qed.
(** *** Objects of the admission policy engines *)

Lemma parseObject_gatekeeper σ e gvr obj :
  e_registry e = registered → g_Group gvr = "constraints.gatekeeper.sh" →
  (∀ ps, enabled_profile σ e gvr = Some ps → p_adapter ps ∈ [EmptyString; "generic"; "gatekeeper"]) →
  parseObject σ e gvr obj = Gatekeeper.Parse obj.
Proof.
  intros Hr Hg Hps. pose proof (route_gatekeeper gvr Hg) as Hroute.
  destruct (enabled_profile σ e gvr) as [ps|] eqn:He.
  - unfold parseObject. rewrite He, Hr. specialize (Hps ps eq_refl). rewrite !elem_of_cons, elem_of_nil in Hps.
    unfold route in Hroute. destruct Hps as [->|[->|[->|[]]]]; simpl; [..|reflexivity];
      (destruct (ForGVR registered gvr); [by simplify_eq|]; by rewrite Hroute).
  - rewrite (parseObject_route σ e gvr obj Gatekeeper.New); [done|done|by rewrite Hr].
Qed.

(** The constraints of a Gatekeeper resource survive the removal of the
    profile that made the engine watch it: they carry a guessed plural as their
    source, so deleting the constraints of the resource removes none of them. *)
Theorem gatekeeper_survives_profile_removal e σ σ' name ps obj c e' ev :
  e_registry e = registered → profiles e !! name = Some ps → enabled_profile σ e (p_gvr ps) = Some ps →
  p_adapter ps ∈ [EmptyString; "generic"; "gatekeeper"] → p_gvr ps ∈ watchedGVRs e →
  g_Group (p_gvr ps) = "constraints.gatekeeper.sh" →
  g_Resource (p_gvr ps) = strings_ToLower (k_Kind (GetGroupVersionKind obj)) →
  Gatekeeper.Parse obj = ([c], None) →
  UnregisterProfile σ' name (handleAdd σ (p_gvr ps) (DObject obj) e).1 = Some (e', ev) →
  byUID (e_indexer e') !! c_UID c = Some c.
Proof.
  intros Hr Hps Hen Had Hw Hg Hres Hp. set (gvr := p_gvr ps) in *.
  assert (parseObject σ e gvr obj = ([c], None)) as Hparse.
  { rewrite <-Hp. apply parseObject_gatekeeper; [done..|]. intros ps'. rewrite Hen. by intros [= <-]. }
  pose proof (handleAdd_stores σ gvr obj e [c] Hw Hparse) as Hst.
  destruct (handleAdd_eq σ gvr (DObject obj) e) as [idx Heq]. rewrite Heq in *. simpl in Hst.
  unfold UnregisterProfile. simpl. rewrite Hps. intros ([ps' e1] & H1 & H2)%bind_Some.
  apply stopProfileInformerLocked_store in H1 as [_ H1]. simpl in H1.
  assert (byUID idx !! c_UID c = Some c) as Hc by (rewrite Hst; apply lookup_insert_eq).
  destruct (gvr_needed _ _); [simplify_eq/=; by rewrite H1|].
  pose proof (DeleteBySource_lookup σ' gvr (e_indexer e1) (c_UID c) c) as Hl. fold gvr in H2. simpl in H2.
  destruct (DeleteBySource σ' gvr (e_indexer e1)) as [[i ev'] k]. simplify_eq/=. apply Hl. rewrite H1. split; [done|].
  apply (Gatekeeper_source_guessed obj c gvr); [rewrite Hp; left|done].
Qed.

(** A policy of the whole cluster is reported in every namespace, also when
    its match block names the only namespaces it applies to. *)
Theorem cluster_policy_everywhere e σ σq gvr a obj cs c ns :
  e_registry e = registered → gvr ∈ watchedGVRs e → enabled_profile σ e gvr = None →
  route registered gvr = Some a → a ∈ [Kyverno.New; Gatekeeper.New] → GetNamespace obj = EmptyString →
  a_Parse a obj = (cs, None) → c ∈ cs →
  c ∈ ByNamespace σq (e_indexer (handleAdd σ gvr (DObject obj) e).1) ns.
Proof.
  intros Hr Hw Hnp Ha Hin Hns Hp Hc. apply stored_ByNamespace.
  - rewrite (handleAdd_stores σ gvr obj e cs); [|done|rewrite <-Hp; by apply parseObject_route; rewrite ?Hr].
    apply upsert_all_stored; [|done]. change cs with (cs, None : option error).1. rewrite <-Hp.
    apply (route_distinct_uids gvr); [done|]. rewrite !elem_of_cons, elem_of_nil in Hin. by destruct Hin as [->|[->|[]]].
  - unfold matchesNamespace. rewrite bool_decide_true; [done|].
    rewrite !elem_of_cons, elem_of_nil in Hin. destruct Hin as [->|[->|[]]]; simpl in Hp.
    + rewrite (Kyverno_Parse_namespace obj c); [done|]. by rewrite Hp.
    + pose proof (Gatekeeper_Parse_spec obj) as Hg. destruct (SafeNestedMap _ _); [|by rewrite Hp in Hg].
      destruct Hg as (d & Hd & _ & Hdn & _). rewrite Hp in Hd. simplify_eq. by apply list_elem_of_singleton in Hc as ->.
Qed.
End wiring.

(** ** The flags *)

Lemma splitCSV_elem s item : item ∈ splitCSV s → item ≠ EmptyString ∧ ∃ raw, item = strings_TrimSpace raw.
Proof.
  unfold splitCSV. rewrite list_elem_of_omap. intros (raw & _ & H). case_bool_decide; simplify_eq/=. eauto.
Qed.

(** The empty string is a substring of every name: as a hint it would make
    every resource constraint-like. *)
Lemma Contains_empty s : strings_Contains s EmptyString = true.
Proof. by destruct s. Qed.

(** Whatever the flag additional-name-hints holds, no empty hint reaches
    the heuristics, which would then match every resource of the cluster. *)
Theorem configure_engine_hints groups hints b e :
  (EmptyString ∉ nameHints e) → EmptyString ∉ nameHints (configure_engine groups hints b e).
Proof.
  intros He. unfold configure_engine. repeat case_bool_decide; simpl; try done.
  all: rewrite elem_of_app; intros [?|[? _]%splitCSV_elem]; done.
Qed.

(** ** Evaluation *)

(** An engine with the adapters of [main] that has scanned a cluster. *)
Definition scanned_engine : Engine :=
  scan in_order always [("v1", ["pods"; "limitranges"; "resourcequotas"]); ("networking.k8s.io/v1", ["ingresses"; "networkpolicies"])]
       (inl []) (NewEngine registered (New true) true).

Definition ingresses_gvr : GroupVersionResource := mkGVR "networking.k8s.io" "v1" "ingresses".

Definition limits_object (limits : list GoVal) : Unstructured :=
  object_of "LimitRange" "lr" "dev" "l1" {[ "spec" := VMap {[ "limits" := VSlice limits ]} ]}.
Definition container_limit : GoVal := VMap {[ "type" := VStr "Container"; "max" := VMap {[ "cpu" := VStr "1" ]} ]}.
Definition pod_limit : GoVal := VMap {[ "type" := VStr "Pod"; "max" := VMap {[ "cpu" := VStr "2" ]} ]}.

Definition example_ingress : Unstructured :=
  object_of "Ingress" "shop" "prod" "ing1" {[ "spec" := VMap {[ "ingressClassName" := VStr "nginx" ]} ]}.

Example scanned_engine_watches :
  watchedGVRs scanned_engine = {[ LimitRange.gvr; ResourceQuota.gvr; ingresses_gvr; networkpolicies_gvr ]}.
Proof. apply (bool_decide_unpack _). vm_compute. exact I. Qed.

Lemma scanned_engine_frame : e_registry scanned_engine = registered ∧ profiles scanned_engine = ∅.
Proof. unfold scanned_engine. edestruct scan_eq as (a & w & i & r & ->). done. Qed.

Lemma scanned_engine_no_profiles σ gvr : enabled_profile σ scanned_engine gvr = None.
Proof.
  destruct (enabled_profile σ scanned_engine gvr) as [ps|] eqn:E; [|done].
  apply enabled_profile_Some in E as ([n Hn] & _). by rewrite (proj2 scanned_engine_frame), lookup_empty in Hn.
Qed.

Lemma observed_object_queryable_witness :
  let e1 := (handleAdd in_order LimitRange.gvr (DObject (limits_object [container_limit; pod_limit])) scanned_engine).1 in
  let e2 := (handleDelete in_order LimitRange.gvr (DObject (limits_object [container_limit; pod_limit])) e1).1 in
  (∃ c, c ∈ ByNamespace reversed (e_indexer e1) "dev" ∧ c_UID c = "l1-1") ∧ byUID (e_indexer e2) !! "l1-1" = None.
Proof.
  edestruct (observed_object_queryable scanned_engine in_order in_order reversed LimitRange.gvr LimitRange.New
               (limits_object [container_limit; pod_limit]) (LimitRange.Parse (limits_object [container_limit; pod_limit])).1)
    as (H1 & H2 & _).
  - apply scanned_engine_frame.
  - apply (bool_decide_unpack _). vm_compute. exact I.
  - intros σ. apply scanned_engine_no_profiles.
  - reflexivity.
  - discriminate.
  - apply injective_projections; [reflexivity|vm_compute; reflexivity].
  - vm_compute. discriminate.
  - split.
    + exists (LimitRange.limit_constraint (limits_object [container_limit; pod_limit]) 1
                {[ "type" := VStr "Pod"; "max" := VMap {[ "cpu" := VStr "2" ]} ]}).
      split; [apply H1; [vm_compute; right; left|vm_compute; reflexivity]|vm_compute; reflexivity].
    + apply (H2 (LimitRange.limit_constraint (limits_object [container_limit; pod_limit]) 1
                   {[ "type" := VStr "Pod"; "max" := VMap {[ "cpu" := VStr "2" ]} ]})).
      vm_compute. right. left.
Defined.

Definition spec_of (obj : Unstructured) : gmap string GoVal := default ∅ (SafeNestedMap (Some (Object obj)) ["spec"]).

Lemma networkpolicy_ingress_shadowed_witness :
  GetUID both_ways_policy = "np1" ∧
  c_ConstraintType <$> byUID (e_indexer (handleAdd in_order networkpolicies_gvr (DObject both_ways_policy) scanned_engine).1)
                         !! GetUID both_ways_policy = Some ConstraintTypeNetworkEgress.
Proof.
  split; [reflexivity|].
  apply (networkpolicy_ingress_shadowed scanned_engine in_order both_ways_policy (spec_of both_ways_policy)).
  - apply scanned_engine_frame.
  - apply (bool_decide_unpack _). vm_compute. exact I.
  - apply scanned_engine_no_profiles.
  - vm_compute. reflexivity.
  - vm_compute. left.
  - vm_compute. right. left.
Defined.

Lemma networking_object_misread_witness :
  GetUID example_ingress = "ing1" ∧
  ∃ c, byUID (e_indexer (handleAdd in_order ingresses_gvr (DObject example_ingress) scanned_engine).1) !! GetUID example_ingress = Some c ∧
       c_ConstraintType c = ConstraintTypeNetworkIngress.
Proof.
  split; [reflexivity|].
  destruct (networking_object_misread scanned_engine in_order ingresses_gvr example_ingress (spec_of example_ingress))
    as (c & Hc & _ & Ht & _).
  - apply scanned_engine_frame.
  - apply (bool_decide_unpack _). vm_compute. exact I.
  - apply scanned_engine_no_profiles.
  - reflexivity.
  - discriminate.
  - vm_compute. reflexivity.
  - vm_compute. reflexivity.
  - vm_compute. reflexivity.
  - exists c. split; [exact Hc|exact Ht].
Defined.

Lemma configure_engine_hints_witness :
  nameHints (configure_engine EmptyString "guard, ,fence" true scanned_engine) = (defaultPolicyNameHints ++ ["guard"; "fence"])%list ∧
  EmptyString ∉ nameHints (configure_engine EmptyString "guard, ,fence" true scanned_engine).
Proof.
  split; [vm_compute; reflexivity|]. apply (configure_engine_hints EmptyString "guard, ,fence" true scanned_engine).
  apply (bool_decide_unpack _). vm_compute. exact I.
Defined.

(** An update replaces only what the new object still gives: when a
    LimitRange loses an entry, the constraint of the lost entry stays in the
    index, and deleting the object does not remove it either. *)
Theorem limitrange_update_stale :
  let e1 := (handleAdd in_order LimitRange.gvr (DObject (limits_object [container_limit; pod_limit])) scanned_engine).1 in
  let e2 := (handleUpdate in_order LimitRange.gvr (DObject (limits_object [container_limit])) e1).1 in
  let e3 := (handleDelete in_order LimitRange.gvr (DObject (limits_object [container_limit])) e2).1 in
  c_UID <$> (LimitRange.Parse (limits_object [container_limit])).1 = ["l1-0"] ∧
  c_UID <$> ByNamespace in_order (e_indexer e2) "dev" ≡ₚ ["l1-0"; "l1-1"] ∧
  c_UID <$> ByNamespace in_order (e_indexer e3) "dev" = ["l1-1"].
Proof. split_and!; [vm_compute; reflexivity|apply (bool_decide_unpack _); vm_compute; exact I|vm_compute; reflexivity]. Qed.

(** *** Evaluation of the contract and of the policy engines *)

(** A run: a scan finds the LimitRanges, an informer delivers one, a profile
    for a Gatekeeper resource is created, and one of its objects arrives. *)
Definition labels_gvr : GroupVersionResource := mkGVR "constraints.gatekeeper.sh" "v1beta1" "k8srequiredlabels".
Definition labels_profile : ConstraintProfile := mkConstraintProfile "labels" labels_gvr EmptyString true EmptyString None.

Definition example_run : list engine_op :=
  [OpWatch always [LimitRange.gvr; Kyverno.gvrClusterPolicy];
   OpAdd in_order LimitRange.gvr (DObject (limits_object [container_limit; pod_limit]));
   OpReconcile in_order always "labels" (ProfileFound labels_profile);
   OpAdd in_order labels_gvr (DObject example_gatekeeper)].

Definition ran_engine : Engine := default scanned_engine (engine_run (NewEngine registered (New true) true) example_run).

Lemma ran_engine_run : engine_run (NewEngine registered (New true) true) example_run = Some ran_engine.
Proof.
  unfold ran_engine. destruct (engine_run (NewEngine registered (New true) true) example_run) as [e|] eqn:E; [done|].
  destruct (engine_run_ok example_run (NewEngine registered (New true) true)) as [e He]; [apply NewEngine_ok|].
  rewrite E in He. discriminate.
Qed.

Definition team_constraint : Constraint :=
  default (LimitRange.limit_constraint example_gatekeeper 0 ∅) (head (Gatekeeper.Parse example_gatekeeper).1).

Example ran_engine_index : (c_UID <$> ByNamespace in_order (e_indexer ran_engine) "dev") ≡ₚ ["l1-0"; "l1-1"; "g1"].
Proof. apply (bool_decide_unpack _). vm_compute. exact I. Qed.


Lemma index_typed_witness :
  ∃ c, c ∈ ByNamespace in_order (e_indexer ran_engine) "dev" ∧ c_ConstraintType c ∈ constraint_types ∧ c_Severity c ∈ severities.
Proof.
  exists team_constraint.
  assert (team_constraint ∈ ByNamespace in_order (e_indexer ran_engine) "dev") as Hc.
  { apply stored_ByNamespace; [vm_compute; reflexivity|vm_compute; reflexivity]. }
  destruct (index_typed registered true true example_run ran_engine in_order "dev" team_constraint registered_laws ran_engine_run Hc)
    as (Ht & Hs & _).
  split; [exact Hc|]. split; [exact Ht|exact Hs].
Defined.

(** The reconciler of [main], with the rules it registers. *)
Definition main_reconciler : ReportReconciler :=
  NewReportReconciler (mkReportOptions 0 EmptyString EmptyString) (Some (registerRequirementRules NewEvaluator)) true.
Definition main_env : ReconcileEnv := example_env (ReportFound "7") None late.

Lemma report_schema_valid_witness :
  ∃ w, (ReconcileNamespace main_env (e_indexer ran_engine) "dev" main_reconciler).1.2 = [w] ∧ schema_status (written_status w) = true.
Proof.
  destruct (ReconcileNamespace_one_write main_env (e_indexer ran_engine) "dev" main_reconciler) as [w Hw].
  exists w. split; [exact Hw|].
  apply (report_schema_valid registered true true example_run ran_engine main_env "dev" main_reconciler w registered_laws ran_engine_run).
  - split; [apply (bool_decide_unpack _); vm_compute; exact I|]. intros e [= <-]. unfold builtin_rules. reflexivity.
  - rewrite Hw. apply list_elem_of_singleton. reflexivity.
Defined.

(** An engine that the Gatekeeper profile made watch its resource. *)
Definition profile_engine : Engine :=
  default scanned_engine (RegisterProfile always labels_profile (NewEngine registered (New true) true)).
Definition profile_state : profileState := mkProfile labels_gvr EmptyString None EmptyString true (Some 0%nat).

Lemma profile_engine_registry : e_registry profile_engine = registered.
Proof.
  unfold profile_engine. destruct (RegisterProfile _ _ _) as [e|] eqn:E; [|apply scanned_engine_frame].
  apply RegisterProfile_store in E as [Hr _]. exact Hr.
Qed.

Definition unregistered : Engine * list IndexEvent :=
  default (scanned_engine, [])
    (UnregisterProfile in_order "labels" (handleAdd in_order labels_gvr (DObject example_gatekeeper) profile_engine).1).

Lemma unregistered_eq :
  UnregisterProfile in_order "labels" (handleAdd in_order (p_gvr profile_state) (DObject example_gatekeeper) profile_engine).1 =
  Some (unregistered.1, unregistered.2).
Proof.
  assert (match UnregisterProfile in_order "labels" (handleAdd in_order labels_gvr (DObject example_gatekeeper) profile_engine).1
          with Some _ => true | None => false end = true) as H by (vm_compute; reflexivity).
  revert H. unfold unregistered. change (p_gvr profile_state) with labels_gvr.
  destruct (UnregisterProfile _ _ _) as [[e ev]|]; [done|discriminate].
Qed.

Lemma gatekeeper_survives_profile_removal_witness :
  watchedGVRs unregistered.1 = ∅ ∧ profiles unregistered.1 = ∅ ∧
  byUID (e_indexer unregistered.1) !! "g1" = Some team_constraint.
Proof.
  split; [vm_compute; reflexivity|]. split; [vm_compute; reflexivity|].
  apply (gatekeeper_survives_profile_removal profile_engine in_order in_order "labels" profile_state example_gatekeeper
           team_constraint unregistered.1 unregistered.2).
  - apply profile_engine_registry.
  - vm_compute. reflexivity.
  - vm_compute. reflexivity.
  - left.
  - apply (bool_decide_unpack _). vm_compute. exact I.
  - reflexivity.
  - vm_compute. reflexivity.
  - vm_compute. reflexivity.
  - exact unregistered_eq.
Defined.

(** A ClusterPolicy whose first rule is for the namespace prod only. *)
Definition policy_engine : Engine :=
  watch_loop always ∅ [Kyverno.gvrClusterPolicy] (NewEngine registered (New true) true).
Definition prod_rule : Constraint :=
  default team_constraint (head (Kyverno.Parse example_kyverno).1).

Lemma cluster_policy_everywhere_witness :
  c_AffectedNamespaces prod_rule = ["prod"] ∧
  prod_rule ∈ ByNamespace in_order (e_indexer (handleAdd in_order Kyverno.gvrClusterPolicy (DObject example_kyverno) policy_engine).1) "dev".
Proof.
  split; [vm_compute; reflexivity|].
  apply (cluster_policy_everywhere policy_engine in_order in_order Kyverno.gvrClusterPolicy Kyverno.New example_kyverno
           (Kyverno.Parse example_kyverno).1 prod_rule "dev").
  - apply (watch_loop_store always ∅ [Kyverno.gvrClusterPolicy]).
  - apply (bool_decide_unpack _). vm_compute. exact I.
  - vm_compute. reflexivity.
  - reflexivity.
  - left.
  - vm_compute. reflexivity.
  - apply injective_projections; [reflexivity|vm_compute; reflexivity].
  - vm_compute. left.
Defined.
