(* ===== verification/Controller.v ===== *)
(** * The controller (cmd/controller/main.go)

    [main] builds the components, hands the index a callback that reaches the
    workload annotator and the report reconciler, and adds the runnables that
    the manager starts.  [Controller] is the state of the process together with
    the reports that the API server holds; [step] is one move of one goroutine,
    and [run] an interleaving of moves.

    The callback of the index runs after the index has been unlocked, in the
    goroutine that changed it: a change is in flight ([ct_inflight]) until its
    callback has run, and the callbacks of several changes may run in any
    order.  A tick of the report reconciler takes the triggers, then visits its
    namespaces one by one; a visit reads the index first and writes the report
    later, and the index may change in between.  The manager's own work (leader
    election, health probes, the clients of the API server) is that of
    controller-runtime. *)

From S2P Require Import Prelude GoStd Encoding Types Apimachinery Util Dedupe Registry Indexer Hubble Channel Correlator Remediation.
From S2P Require Import EventBuilder Dispatcher Requirements Report WorkloadAnnotator AnnotatorPool McpHandlers Api Admission NativeAdapters Discovery.
From S2P Require Import PolicyAdapters AdapterContract ReportApi CliCommands Pipeline Servers.
From Stdlib Require Import Ascii.

Open Scope go_scope.
#[local] Open Scope string_scope.

(** ** Wiring *)

(** The callback that [main] gives to [indexer.New]: the two references are
    nil until [main] has stored the components.  [None] is a panic. *)
Definition on_index_event (annotatorRef : option WorkloadAnnotator) (reportReconcilerRef : option ReportReconciler)
    (now : Time) (event : IndexEvent) : option (option WorkloadAnnotator * option ReportReconciler) :=
  a ← match annotatorRef with
      | Some a => Some <$> WorkloadAnnotator.OnIndexChange now event a
      | None => Some None
      end;
  Some (a, Report.OnIndexChange event <$> reportReconcilerRef).

Section controller.
Context {AM : Apimachinery} {Q : Quantities} {RL : RateLimiter} {RS : ReportServer}.

(** The flags that the components below depend on, and their defaults. *)
Record Flags := mkFlags {
  fl_hubbleEnabled : bool; fl_additionalPolicyGroups : string; fl_additionalNameHints : string; fl_checkCRDAnnotations : bool }.

Definition default_flags : Flags := mkFlags false EmptyString EmptyString true.

Record Controller := mkController {
  ct_engine : Engine;                              (**r with the index *)
  ct_inflight : list IndexEvent;                   (**r changes whose callback has not run *)
  ct_annotator : Pool;                             (**r the annotator and its workers *)
  ct_reconciler : ReportReconciler;
  ct_todo : list string;                           (**r what the running tick has still to visit *)
  ct_reading : option (string * Indexer);          (**r the visit that has read the index *)
  ct_correlator : Correlator;
  ct_dispatcher : Dispatcher;
  ct_received : nat;                               (**r notifications that the dispatcher's loop has handled *)
  ct_hubble : bool;                                (**r flows are observed *)
  ct_mcp : option Evaluator;                       (**r the evaluator of the pre-check *)
  ct_stream : Mcp.Server;                          (**r the clients of the event stream *)
  ct_reports : gmap string Unstructured;           (**r the reports of the API server, by namespace *)
  ct_created : list BuiltEvent;                    (**r the events passed to the API server *)
  ct_patches : list PatchCall;                     (**r the patches of workloads *)
  ct_log : list IndexEvent;                        (**r all changes since the start *)
  ct_lost : gset string;                           (**r namespaces whose report the last reconcile did not store *)
}.

Definition ct_index (c : Controller) : Indexer := e_indexer (ct_engine c).

(** What [main] builds before it starts the manager; [None] when an adapter is
    refused.  The reports that an earlier process left count as not stored by
    this one. *)
Definition main_state (registry : Registry) (flags : Flags) (reports : gmap string Unstructured) : Controller :=
  let idx := Indexer.New true in
  let engine := configure_engine (fl_additionalPolicyGroups flags) (fl_additionalNameHints flags) (fl_checkCRDAnnotations flags) (NewEngine registry idx true) in
  let mcpEvaluator := registerRequirementRules (SetDebounceDuration 0 NewEvaluator) in
  let reconcilerEvaluator := registerRequirementRules NewEvaluator in
  {| ct_engine := engine; ct_inflight := [];
     ct_annotator := start_workers (NewWorkloadAnnotator DefaultWorkloadAnnotatorOptions);
     ct_reconciler := NewReportReconciler DefaultReportReconcilerOptions (Some reconcilerEvaluator) true;
     ct_todo := []; ct_reading := None;
     ct_correlator := Correlator.NewWithOptions;
     ct_dispatcher := NewDispatcher DefaultDispatcherOptions; ct_received := 0;
     ct_hubble := fl_hubbleEnabled flags; ct_mcp := Some mcpEvaluator; ct_stream := Mcp.no_clients;
     ct_reports := reports; ct_created := []; ct_patches := []; ct_log := []; ct_lost := dom reports |}.

Definition main_controller (flags : Flags) (reports : gmap string Unstructured) : option Controller :=
  registry ← main_registry;
  Some (main_state registry flags reports).

(** The remediation builder of the MCP server. *)
Definition mcp_builder : RemediationBuilder :=
  NewRemediationBuilder (Mcp.so_DefaultContact (Mcp.NewServer (Mcp.DefaultServerOptions (R:=Http.Request)))).

(** ** Moves *)

Inductive move :=
  | MEngine (op : engine_op)                                   (**r a whole handler or critical section of the engine *)
  | MIndex (op : index_op)                                     (**r one operation of a handler that is not finished *)
  | MCallback (i : nat) (now : Time)                           (**r the callback of the [i]-th change in flight *)
  | MTick (σ : Shuffle) (nss : list string + error)            (**r the report reconciler takes its triggers *)
  | MVisit (now : Time)                                        (**r ... looks at the next namespace *)
  | MReconcile (env : ReconcileEnv) (done : Time)              (**r ... writes its report *)
  | MWorker (op : worker_op)                                   (**r a step of a worker of the annotator *)
  | MEvent (type : string) (event : Event) (σ : Shuffle) (now : Time) (env : nat -> Round)
  | MFlow (σs : string -> Shuffle) (now : Time) (envs : string -> nat -> Round) (d : FlowDrop)
  | MFlowLogged                                                (**r the consumer of the flow notifications *)
  | MRequest (env : Http.McpEnv) (r : Http.Request)            (**r a request to the MCP server *)
  | MConnect | MDisconnect (id : string) | MRead (id : string) (**r the event stream *)
  | MDispatch (call : Call)                                    (**r a round of the dispatcher's loop *)
  | MCleanCorrelator (σ : Shuffle) (now : Time)
  | MCleanDispatcher (σ σ' : Shuffle) (now now' : Time)
  | MCleanEvaluator (σ : Shuffle) (now : Time)
  | MShutdown.                                                 (**r the context is cancelled *)

(** An engine step with the events of the index. *)
Definition engine_emit (e : Engine) (op : engine_op) : option (Engine * list IndexEvent) :=
  match op with
  | OpRefresh crds => Some (refreshAnnotatedCRDs crds e, [])
  | OpWatch h found => Some (watch_loop h (suppressed e) found e, [])
  | OpReconcile σ h name answer => r ← Reconcile σ h name answer e; Some r.1
  | OpAdd σ gvr d => Some (handleAdd σ gvr d e)
  | OpUpdate σ gvr d => Some (handleUpdate σ gvr d e)
  | OpRemove σ gvr d => Some (handleDelete σ gvr d e)
  | OpStop σ => e' ← Stop σ e; Some (e', [])
  end.

(** The index has changed: the changes are in flight. *)
Definition changed (e : Engine) (ev : list IndexEvent) (c : Controller) : Controller :=
  {| ct_engine := e; ct_inflight := (ct_inflight c ++ ev)%list; ct_annotator := ct_annotator c; ct_reconciler := ct_reconciler c;
     ct_todo := ct_todo c; ct_reading := ct_reading c; ct_correlator := ct_correlator c; ct_dispatcher := ct_dispatcher c;
     ct_received := ct_received c; ct_hubble := ct_hubble c; ct_mcp := ct_mcp c; ct_stream := ct_stream c; ct_reports := ct_reports c; ct_created := ct_created c; ct_patches := ct_patches c;
     ct_log := (ct_log c ++ ev)%list; ct_lost := ct_lost c |}.

Definition callback (i : nat) (now : Time) (c : Controller) : option Controller :=
  match ct_inflight c !! i with
  | None => Some c
  | Some event =>
      '(a, rr) ← on_index_event (Some (pl_annotator (ct_annotator c))) (Some (ct_reconciler c)) now event;
      Some {| ct_engine := ct_engine c; ct_inflight := delete i (ct_inflight c);
              ct_annotator := default (ct_annotator c) (flip set_annotator (ct_annotator c) <$> a); ct_reconciler := default (ct_reconciler c) rr;
              ct_todo := ct_todo c; ct_reading := ct_reading c; ct_correlator := ct_correlator c; ct_dispatcher := ct_dispatcher c;
              ct_received := ct_received c; ct_hubble := ct_hubble c; ct_mcp := ct_mcp c; ct_stream := ct_stream c; ct_reports := ct_reports c; ct_created := ct_created c; ct_patches := ct_patches c;
              ct_log := ct_log c; ct_lost := ct_lost c |}
  end.

(** The report reconciler's own fields. *)
Definition set_reporting (rr : ReportReconciler) (todo : list string) (reading : option (string * Indexer))
    (reports : gmap string Unstructured) (lost : gset string) (c : Controller) : Controller :=
  {| ct_engine := ct_engine c; ct_inflight := ct_inflight c; ct_annotator := ct_annotator c; ct_reconciler := rr;
     ct_todo := todo; ct_reading := reading; ct_correlator := ct_correlator c; ct_dispatcher := ct_dispatcher c;
     ct_received := ct_received c; ct_hubble := ct_hubble c; ct_mcp := ct_mcp c; ct_stream := ct_stream c; ct_reports := reports; ct_created := ct_created c; ct_patches := ct_patches c;
     ct_log := ct_log c; ct_lost := lost |}.

(** [processPendingTriggers] up to its loop; the previous tick is over. *)
Definition begin_tick (σ : Shuffle) (nss : list string + error) (c : Controller) : Controller :=
  match ct_todo c, ct_reading c with
  | [], None =>
      let rr := ct_reconciler c in
      set_reporting (set_triggers ∅ false rr) (shuffle σ (elements (visited nss rr))) None (ct_reports c) (ct_lost c) c
  | _, _ => c
  end.

(** One namespace of the loop, up to the read of the index. *)
Definition visit (now : Time) (c : Controller) : Controller :=
  match ct_todo c, ct_reading c with
  | ns :: rest, None =>
      let rr := ct_reconciler c in
      if (time_Since now (default zero_time (lastReconcile rr !! ns)) <? Report.DebounceDuration (rr_opts rr))%Z
      then set_reporting (set_triggers ({[ns]} ∪ pendingTriggers rr) (clusterWideTriggered rr) rr) rest None (ct_reports c) (ct_lost c) c
      else set_reporting rr rest (Some (ns, ct_index c)) (ct_reports c) (ct_lost c) c
  | _, _ => c
  end.

(** The answer of the API server to the write of a reconcile. *)
Definition serve (reports : gmap string Unstructured) (ns : string) (writes : list ApiWrite) : option Unstructured * option error :=
  match writes with
  | [] => (None, None)
  | w :: _ => match serve_write (reports !! ns) w with inl o => (Some o, None) | inr err => (None, Some err) end
  end.

Definition with_write (err : option error) (env : ReconcileEnv) : ReconcileEnv :=
  mkReconcileEnv (re_order env) (re_sort env) (re_msort env) (re_tsort env) (re_now env) (re_get env) err
                 (re_workloads env) (re_eval env) (re_clock env).

Definition is_update (w : ApiWrite) : bool := match w with UpdateReport _ _ _ => true | CreateReport _ _ => false end.

(** The rest of [ReconcileNamespace], with what the visit has read. *)
Definition reconcile (env : ReconcileEnv) (done : Time) (c : Controller) : Controller :=
  match ct_reading c with
  | None => c
  | Some (ns, idx) =>
      let rr := ct_reconciler c in
      let '(stored, answer) := serve (ct_reports c) ns (ReconcileNamespace env idx ns rr).1.2 in
      let '(rr1, writes, err) := ReconcileNamespace (with_write answer env) idx ns rr in
      let rr2 := match err with Some _ => rr1 | None => set_last (<[ns := done]> (lastReconcile rr1)) rr1 end in
      set_reporting rr2 (ct_todo c) None
        (match stored with Some o => <[ns := o]> (ct_reports c) | None => ct_reports c end)
        (if (stored != None) && forallb is_update writes then ct_lost c ∖ {[ns]} else {[ns]} ∪ ct_lost c) c
  end.

Definition set_annotating (a : Pool) (calls : list PatchCall) (c : Controller) : Controller :=
  {| ct_engine := ct_engine c; ct_inflight := ct_inflight c; ct_annotator := a; ct_reconciler := ct_reconciler c;
     ct_todo := ct_todo c; ct_reading := ct_reading c; ct_correlator := ct_correlator c; ct_dispatcher := ct_dispatcher c;
     ct_received := ct_received c; ct_hubble := ct_hubble c; ct_mcp := ct_mcp c; ct_stream := ct_stream c; ct_reports := ct_reports c; ct_created := ct_created c;
     ct_patches := (ct_patches c ++ calls)%list; ct_log := ct_log c; ct_lost := ct_lost c |}.

Definition set_notifying (corr : Correlator) (d : Dispatcher) (received : nat) (events : list BuiltEvent) (c : Controller) : Controller :=
  {| ct_engine := ct_engine c; ct_inflight := ct_inflight c; ct_annotator := ct_annotator c; ct_reconciler := ct_reconciler c;
     ct_todo := ct_todo c; ct_reading := ct_reading c; ct_correlator := corr; ct_dispatcher := d;
     ct_received := received; ct_hubble := ct_hubble c; ct_mcp := ct_mcp c; ct_stream := ct_stream c; ct_reports := ct_reports c; ct_created := (ct_created c ++ events)%list;
     ct_patches := ct_patches c; ct_log := ct_log c; ct_lost := ct_lost c |}.

Definition set_correlator (corr : Correlator) (c : Controller) : Controller :=
  set_notifying corr (ct_dispatcher c) (ct_received c) [] c.

Definition set_serving (e : option Evaluator) (s : Mcp.Server) (c : Controller) : Controller :=
  {| ct_engine := ct_engine c; ct_inflight := ct_inflight c; ct_annotator := ct_annotator c; ct_reconciler := ct_reconciler c;
     ct_todo := ct_todo c; ct_reading := ct_reading c; ct_correlator := ct_correlator c; ct_dispatcher := ct_dispatcher c;
     ct_received := ct_received c; ct_hubble := ct_hubble c; ct_mcp := e; ct_stream := s; ct_reports := ct_reports c;
     ct_created := ct_created c; ct_patches := ct_patches c; ct_log := ct_log c; ct_lost := ct_lost c |}.

(** A request to the MCP server; the handlers read the index at once. *)
Definition mcp_request (env : Http.McpEnv) (r : Http.Request) (c : Controller) : Controller * Http.McpAnswer :=
  let '(e, answer) := Http.mcp_serve env mcp_builder (ct_index c) (ct_mcp c) r in
  (set_serving e (ct_stream c) c, answer).

(** A handler of the event stream ends; without one there is nothing to end. *)
Definition disconnect (id : string) (c : Controller) : option Controller :=
  if decide (id ∈ Mcp.sseClients (ct_stream c)) then
    s ← Mcp.sse_disconnect id (ct_stream c); Some (set_serving (ct_mcp c) s c)
  else Some c.

(** The loop of a handler takes an event. *)
Definition read_stream (id : string) (c : Controller) : Controller :=
  if decide (id ∈ Mcp.sseClients (ct_stream c)) then set_serving (ct_mcp c) (Mcp.sse_read id (ct_stream c)) c else c.

(** One round of the dispatcher's loop: it receives the next notification, or
    waits while there is none; an error of [Dispatch] is only logged. *)
Definition dispatch_round (call : Call) (c : Controller) : Controller :=
  let ch := notifications (ct_correlator c) in
  let ch' := if (ct_received c <? length (ch_taken ch))%nat then ch else ch_take 1 ch in
  match ch_taken ch' !! ct_received c with
  | None => c
  | Some n =>
      let '(d, events, _) := Dispatch call n (ct_dispatcher c) in
      set_notifying (set_notifications ch' (ct_correlator c)) d (S (ct_received c)) events c
  end.

(** The events of the cluster that the correlator's watch delivers. *)
Definition watched (type : string) (event : Event) (σ : Shuffle) (now : Time) (env : nat -> Round) (idx : Indexer) : WatchEvent :=
  mkWatchEvent type event σ now env idx.

Definition step (c : Controller) (m : move) : option Controller :=
  match m with
  | MEngine op => '(e, ev) ← engine_emit (ct_engine c) op; Some (changed e ev c)
  | MIndex op => let '(idx, ev) := index_step (ct_index c) op in Some (changed (set_indexer idx (ct_engine c)) ev c)
  | MCallback i now => callback i now c
  | MTick σ nss => Some (begin_tick σ nss c)
  | MVisit now => Some (visit now c)
  | MReconcile env done => Some (reconcile env done c)
  | MWorker op => '(a, calls) ← worker_step op (ct_index c) (ct_annotator c); Some (set_annotating a calls c)
  | MEvent type event σ now env =>
      Some (set_correlator (watchEvents [watched type event σ now env (ct_index c)] (ct_correlator c)) c)
  | MFlow σs now envs d =>
      if ct_hubble c then
        match handleFlowDrop σs now envs (fun _ => ct_index c) d (ct_correlator c) with
        | (Panicked, _) => None
        | (_, corr) => Some (set_correlator corr c)
        end
      else Some c
  | MFlowLogged => Some (set_correlator (set_flowDrops (ch_take 1 (flowDrops (ct_correlator c))) (ct_correlator c)) c)
  | MRequest env r => Some (mcp_request env r c).1
  | MConnect => Some (set_serving (ct_mcp c) (Mcp.sse_connect (ct_stream c)).1 c)
  | MDisconnect id => disconnect id c
  | MRead id => Some (read_stream id c)
  | MDispatch call => Some (dispatch_round call c)
  | MCleanCorrelator σ now => Some (set_correlator (Correlator.cleanupDedupeCache σ now (ct_correlator c)) c)
  | MCleanDispatcher σ σ' now now' =>
      Some (set_notifying (ct_correlator c) (Dispatcher.cleanupDedupeCache σ σ' now now' (ct_dispatcher c)) (ct_received c) [] c)
  | MCleanEvaluator σ now =>
      let rr := ct_reconciler c in
      Some (set_reporting (set_evaluator (CleanupStaleEntries σ now <$> rr_evaluator rr) rr)
              (ct_todo c) (ct_reading c) (ct_reports c) (ct_lost c) c)
  | MShutdown =>
      Some (set_correlator (close_channels (ct_correlator c)) (set_annotating (set_annotator (Start_shutdown (pl_annotator (ct_annotator c))) (ct_annotator c)) [] c))
  end.

Fixpoint run (c : Controller) (ms : list move) : option Controller :=
  match ms with
  | [] => Some c
  | m :: rest => c' ← step c m; run c' rest
  end.

Lemma mcp_request_eq env r c : ∃ e, (mcp_request env r c).1 = set_serving e (ct_stream c) c.
Proof. unfold mcp_request. destruct (Http.mcp_serve _ _ _ _ _) as [e a]. by exists e. Qed.

Lemma disconnect_eq id c c' :
  disconnect id c = Some c' → ∃ s, (s = ct_stream c ∨ Mcp.sse_disconnect id (ct_stream c) = Some s) ∧ c' = set_serving (ct_mcp c) s c.
Proof.
  unfold disconnect. case_decide.
  - intros (s & Hs & [= <-])%bind_Some. exists s. auto.
  - intros [= <-]. exists (ct_stream c). split; [by left|by destruct c].
Qed.

Lemma read_stream_eq id c :
  ∃ s, (s = ct_stream c ∨ id ∈ Mcp.sseClients (ct_stream c) ∧ s = Mcp.sse_read id (ct_stream c)) ∧ read_stream id c = set_serving (ct_mcp c) s c.
Proof.
  unfold read_stream. case_decide; [eexists; split; [by right|done]|].
  exists (ct_stream c). split; [by left|by destruct c].
Qed.

Lemma run_app ms1 ms2 c : run c (ms1 ++ ms2) = (c' ← run c ms1; run c' ms2).
Proof. revert c. induction ms1 as [|m ms1 IH]; intros c; [done|]. simpl. destruct (step c m); [apply IH|done]. Qed.
End controller.

(** ** The change stream of the engine *)

Lemma upsert_all_run cs idx : index_run idx (OpUpsert <$> cs) = upsert_all cs idx.
Proof. revert idx. induction cs as [|c cs IH]; intros idx; [done|]. simpl. by rewrite <-IH. Qed.

Lemma delete_all_run uids idx : index_run idx (OpDelete <$> uids) = delete_all uids idx.
Proof.
  revert idx. induction uids as [|u uids IH]; intros idx; [done|]. cbn [fmap list_fmap index_run delete_all index_step].
  destruct (Delete u idx) as [i1 ev1]. by rewrite <-IH.
Qed.

Lemma index_run_one idx op : index_run idx [op] = index_step idx op.
Proof. simpl. destruct (index_step idx op) as [i ev]. by rewrite app_nil_r. Qed.

(** Each operation touches the constraints of its events and nothing else. *)
Lemma index_step_touch idx op idx' ev :
  keyed (byUID idx) → onChange idx = true → index_step idx op = (idx', ev) →
  keyed (byUID idx') ∧ onChange idx' = true ∧
  ∀ uid, byUID idx' !! uid = byUID idx !! uid ∨
    ∃ e, e ∈ ev ∧ c_UID (ie_Constraint e) = uid ∧
      (byUID idx' !! uid = Some (ie_Constraint e) ∨ (byUID idx' !! uid = None ∧ byUID idx !! uid = Some (ie_Constraint e))).
Proof.
  intros Hk Hc. destruct op as [c|u|σ gvr]; simpl.
  - intros [= <- <-]. unfold notify. simpl. rewrite Hc. split_and!; [auto with nightjar|done|]. intros uid.
    destruct (decide (c_UID c = uid)) as [<-|Hne]; [right|left; by rewrite lookup_insert_ne].
    eexists. split_and!; [by left|done|]. left. by rewrite lookup_insert_eq.
  - unfold Delete. destruct (byUID idx !! u) as [c|] eqn:Hu; intros [= <- <-]; [|split_and!; [done..|by left]].
    unfold notify. simpl. rewrite Hc. split_and!; [auto with nightjar|done|]. intros uid.
    destruct (decide (u = uid)) as [<-|Hne]; [right|left; by rewrite lookup_delete_ne].
    eexists. split_and!; [by left|by apply Hk|]. right. by rewrite lookup_delete_eq.
  - pose proof (DeleteBySource_lookup σ gvr idx) as Hl. rewrite DeleteBySource_eq in *. simpl in Hl. intros [= <- <-].
    unfold notify. simpl. rewrite Hc. split_and!; [|done|].
    + intros uid c [Hu _]%Hl. by apply Hk.
    + intros uid. destruct (byUID idx !! uid) as [c|] eqn:Hu.
      * destruct (decide (c_Source c = gvr)) as [Hs|Hs]; [right|left; by apply Hl].
        exists (mkIndexEvent "delete" c). split_and!; [|by apply Hk|right; split; [|done]].
        -- apply list_elem_of_fmap. exists c. split; [done|]. apply list_elem_of_fmap. exists (uid, c). by rewrite elem_of_doomed.
        -- apply eq_None_not_Some. intros [d [Hd Hn]%Hl]. by simplify_eq.
      * left. apply eq_None_not_Some. intros [d [Hd _]%Hl]. by simplify_eq.
Qed.

Section engine_index.
Context {AM : Apimachinery}.

(** Whatever the engine does to the index is a sequence of index operations,
    and the events that it causes are theirs. *)
Lemma engine_emit_index e op e' ev :
  engine_emit e op = Some (e', ev) → ∃ ops, index_run (e_indexer e) ops = (e_indexer e', ev).
Proof.
  assert (∀ e', e_indexer e' = e_indexer e → ∃ ops, index_run (e_indexer e) ops = (e_indexer e', [])) as Hsame.
  { intros e2 ->. by exists []. }
  assert (∀ σ gvr d, ∃ ops, index_run (e_indexer e) ops = (e_indexer (handleAdd σ gvr d e).1, (handleAdd σ gvr d e).2)) as Hadd.
  { intros σ gvr d. unfold handleAdd. case_bool_decide; simpl; [|by apply Hsame]. destruct d as [obj| |]; try by apply Hsame.
    destruct (parseObject _ _ _ _) as [cs [err|]]; [by apply Hsame|]. exists (OpUpsert <$> cs). rewrite upsert_all_run.
    by destruct (upsert_all cs (e_indexer e)). }
  destruct op as [crds|h found|σ h n a|σ gvr d|σ gvr d|σ gvr d|σ]; simpl.
  - intros [= <- <-]. apply Hsame. destruct (refreshAnnotatedCRDs_eq crds e) as [? ->]. done.
  - intros [= <- <-]. apply Hsame, watch_loop_store.
  - intros ([[e1 ev1] err1] & Hr & [= -> ->])%bind_Some. destruct a as [p| |err]; simpl in Hr.
    + apply bind_Some in Hr as (e2 & [_ Hi]%RegisterProfile_store & [= <- <- _]). by apply Hsame.
    + apply bind_Some in Hr as ([e2 ev2] & Hu & [= -> -> _]). unfold UnregisterProfile in Hu.
      destruct (profiles e !! n) as [ps|]; [|simplify_eq; by apply Hsame].
      apply bind_Some in Hu as ([ps' e3] & [_ Hi]%stopProfileInformerLocked_store & Hu).
      destruct (gvr_needed _ _); [simplify_eq/=; by apply Hsame|]. exists [OpDeleteBySource σ (p_gvr ps)].
      rewrite index_run_one. simpl in *. rewrite Hi in Hu. destruct (DeleteBySource _ _ _) as [[i ev3] k]. by simplify_eq/=.
    + simplify_eq/=. by apply Hsame.
  - intros [= Ha]. destruct (Hadd σ gvr d) as [ops Ho]. exists ops. by rewrite Ho, Ha.
  - intros [= Ha]. destruct (Hadd σ gvr d) as [ops Ho]. exists ops. unfold handleUpdate in Ha. by rewrite Ho, Ha.
  - intros [= Hd]. unfold handleDelete in Hd. destruct (delivered_object d) as [obj|]; [|simplify_eq; by apply Hsame].
    assert (∀ uids, (let '(idx, ev) := delete_all uids (e_indexer e) in (set_indexer idx e, ev)) = (e', ev) →
      ∃ ops, index_run (e_indexer e) ops = (e_indexer e', ev)) as Hall.
    { intros uids Hu. exists (OpDelete <$> uids). rewrite delete_all_run. by destruct (delete_all _ _); simplify_eq/=. }
    assert ((let '(idx, ev) := Delete (GetUID obj) (e_indexer e) in (set_indexer idx e, ev)) = (e', ev) →
      ∃ ops, index_run (e_indexer e) ops = (e_indexer e', ev)) as Hone.
    { intros Hu. exists [OpDelete (GetUID obj)]. rewrite index_run_one. simpl. by destruct (Delete _ _); simplify_eq/=. }
    destruct (parseObject _ _ _ _) as [[|c cs] [err|]]; [by apply Hone..|by apply (Hall (c_UID <$> c :: cs))].
  - unfold Stop. intros (e1 & He & [= <- <-])%bind_Some. apply Hsame.
    destruct (e_stopped e); [by simplify_eq|]. by apply stop_profiles_store in He as [_ ?].
Qed.
End engine_index.

(** ** Freshness of the reports *)

(** What the index holds for a namespace. *)
Definition view (ns : string) (idx : Indexer) : gmap UID Constraint :=
  filter (fun kv => matchesNamespace kv.2 ns = true) (byUID idx).

Definition concerns (ns : string) (e : IndexEvent) : Prop := matchesNamespace (ie_Constraint e) ns = true.

#[export] Instance concerns_dec ns e : Decision (concerns ns e).
Proof. unfold concerns. apply _. Defined.

(** What the reconciler relies on, for one namespace and the changes of a run:
    a cluster-scoped constraint lists no namespaces, and a constraint keeps
    applying to the namespace, or not applying to it, as long as it exists. *)
Definition scope_kept (ns : string) (log : list IndexEvent) : Prop :=
  (∀ e, e ∈ log → c_Namespace (ie_Constraint e) ≠ EmptyString ∨ c_AffectedNamespaces (ie_Constraint e) = []) ∧
  (∀ e e', e ∈ log → e' ∈ log → c_UID (ie_Constraint e) = c_UID (ie_Constraint e') → concerns ns e ↔ concerns ns e').

Lemma scope_kept_mono ns log log' : log ⊆ log' → scope_kept ns log' → scope_kept ns log.
Proof. intros Hs [H1 H2]. split; [intros e ?; apply H1, Hs; done|intros e e' ? ?; apply H2; by apply Hs]. Qed.

Lemma contains_view ns idx idx' c :
  view ns idx = view ns idx' → matchesNamespace c ns = true → contains idx c → contains idx' c.
Proof.
  intros Hv Hm [uid Hu]. exists uid. assert (view ns idx !! uid = Some c) as Hl by (by apply map_lookup_filter_Some).
  rewrite Hv in Hl. by apply map_lookup_filter_Some in Hl as [? _].
Qed.

(** An operation that concerns other namespaces only leaves the view alone. *)
Lemma view_untouched ns idx op idx' ev log :
  keyed (byUID idx) → onChange idx = true → index_step idx op = (idx', ev) →
  (∀ uid c, byUID idx !! uid = Some c → ∃ e, e ∈ log ∧ ie_Constraint e = c) →
  scope_kept ns (log ++ ev) → (∀ e, e ∈ ev → ¬ concerns ns e) → view ns idx' = view ns idx.
Proof.
  intros Hk Hc Hstep Hlog [_ Hkeep] Hno. destruct (index_step_touch idx op idx' ev Hk Hc Hstep) as (_ & _ & Ht).
  apply map_eq. intros uid. unfold view. rewrite !map_lookup_filter.
  destruct (Ht uid) as [->|(e & He & Hu & Hcase)]; [done|].
  assert (∀ c, byUID idx !! uid = Some c → ¬ matchesNamespace c ns = true) as Hold.
  { intros c Hc'. destruct (Hlog uid c Hc') as (e' & He' & <-). intros Hm. apply (Hno e He), (Hkeep e e'); [..|done];
      [set_solver|set_solver|]. rewrite Hu. symmetry. by apply Hk. }
  assert (option_guard_none : ∀ o : option Constraint, (∀ c, o = Some c → ¬ matchesNamespace c ns = true) →
    (x ← o; guard (matchesNamespace x ns = true);; Some x) = None).
  { intros [c|] Ho; [|done]. simpl. by rewrite option_guard_False by (by apply Ho). }
  etrans; [apply option_guard_none|symmetry; by apply option_guard_none].
  intros c Hc'. destruct Hcase as [Hn|[Hn _]]; rewrite Hc' in Hn; simplify_eq. by apply Hno.
Qed.

(** The answer of [ByNamespace] is the view, in some order. *)
Lemma ByNamespace_view σ idx ns : ByNamespace σ idx ns ≡ₚ (map_to_list (view ns idx)).*2.
Proof.
  unfold ByNamespace, select, range_values, range, view. rewrite map_filter_alt, map_to_list_to_map.
  2:{ apply NoDup_fmap_fst; [|apply NoDup_filter, NoDup_map_to_list].
      intros k v v' [_ H1%elem_of_map_to_list]%list_elem_of_filter [_ H2%elem_of_map_to_list]%list_elem_of_filter. by simplify_eq. }
  rewrite shuffle_perm. induction (map_to_list (byUID idx)) as [|[u k] l IH]; [done|].
  cbn [fmap list_fmap snd]. rewrite !filter_cons. cbn [snd]. case_decide; cbn [fmap list_fmap snd]; by rewrite IH.
Qed.

Section freshness.
Context {AM : Apimachinery} {Q : Quantities} {RL : RateLimiter} {RS : ReportServer}.
Context (ns : string).
Implicit Types c : Controller.

(** Something will make the reconciler visit the namespace. *)
Definition marked c : Prop :=
  (ns ∈ pendingTriggers (ct_reconciler c)) ∨ clusterWideTriggered (ct_reconciler c) = true ∨ Exists (concerns ns) (ct_inflight c).

(** The report lists what the index holds for the namespace. *)
Definition fresh c : Prop :=
  match ct_reports c !! ns with
  | Some o => ∃ env idx rr, published env idx ns rr o ∧ view ns idx = view ns (ct_index c)
  | None => view ns (ct_index c) = ∅
  end.

Definition up_to_date c : Prop :=
  match ct_reading c with
  | Some (ns', idx) =>
      if decide (ns' = ns) then marked c ∨ view ns idx = view ns (ct_index c)
      else marked c ∨ (ns ∈ ct_todo c) ∨ (ns ∈ ct_lost c) ∨ fresh c
  | None => marked c ∨ (ns ∈ ct_todo c) ∨ (ns ∈ ct_lost c) ∨ fresh c
  end.

Record reporting c : Prop := {
  rp_keyed : keyed (byUID (ct_index c));
  rp_callback : onChange (ct_index c) = true;
  rp_client : rr_dynamicClient (ct_reconciler c) = true;
  rp_logged : ∀ uid k, byUID (ct_index c) !! uid = Some k → ∃ e, e ∈ ct_log c ∧ ie_Constraint e = k;
  rp_inflight : ct_inflight c ⊆ ct_log c;
  rp_report : up_to_date c;
}.

(** A change of the index. *)
Lemma changed_reporting op idx ev e c :
  reporting c → index_step (ct_index c) op = (idx, ev) → e_indexer e = idx →
  scope_kept ns (ct_log c ++ ev) → reporting (changed e ev c).
Proof.
  intros [Hk Hcb Hd Hl Hf Hr] Hs <- Ht.
  destruct (index_step_touch _ _ _ _ Hk Hcb Hs) as (Hk' & Hcb' & Htouch). split; [done|done|done| | |].
  - intros uid k Hu. simpl. destruct (Htouch uid) as [Heq|(e0 & He & _ & [Hn|[Hn _]])]; simpl in Hu.
    + unfold ct_index in *. simpl in *. rewrite Heq in Hu. destruct (Hl _ _ Hu) as (e1 & ? & ?). exists e1. set_solver.
    + unfold ct_index in *. simpl in *. rewrite Hu in Hn. simplify_eq. exists e0. set_solver.
    + unfold ct_index in *. simpl in *. congruence.
  - simpl. set_solver.
  - destruct (decide (Exists (concerns ns) ev)) as [Hex|Hno].
    { assert (marked (changed e ev c)) as Hm by (right; right; simpl; apply Exists_app; by right).
      unfold up_to_date. simpl. destruct (ct_reading c) as [[ns' i]|]; [case_decide|]; by left. }
    assert (view ns (e_indexer e) = view ns (ct_index c)) as Hv.
    { eapply view_untouched; [done..|]. intros e0 He Hc. apply Hno, Exists_exists. by exists e0. }
    assert (marked c → marked (changed e ev c)) as Hm.
    { intros [?|[?|?]]; [by left|by right; left|]. right. right. simpl. apply Exists_app. by left. }
    assert (fresh c → fresh (changed e ev c)) as Hfr.
    { unfold fresh, ct_index. simpl. unfold ct_index in Hv. rewrite Hv. done. }
    unfold up_to_date in *. unfold ct_index in *. simpl in *. rewrite Hv. destruct (ct_reading c) as [[ns' i]|]; [case_decide|]; naive_solver.
Qed.

Lemma changed_changed e1 ev1 e2 ev2 c : changed e2 ev2 (changed e1 ev1 c) = changed e2 (ev1 ++ ev2) c.
Proof. unfold changed. simpl. by rewrite <-!(assoc_L (++)). Qed.

Lemma changed_run ops idx ev e c :
  reporting c → index_run (ct_index c) ops = (idx, ev) → e_indexer e = idx →
  scope_kept ns (ct_log c ++ ev) → reporting (changed e ev c).
Proof.
  revert ev c. induction ops as [|op ops IH]; intros ev c Hr; cbn [index_run].
  { intros [= <- <-] He _. destruct Hr as [Hk Hcb Hd Hl Hf Hr].
    split; unfold up_to_date, marked, fresh, ct_index in *; simpl; rewrite ?He, ?(right_id_L [] (++)); done. }
  destruct (index_step (ct_index c) op) as [i1 ev1] eqn:Hs. destruct (index_run i1 ops) as [i2 ev2] eqn:Hi.
  intros [= -> <-] He Ht. rewrite <-(changed_changed (set_indexer i1 (ct_engine c)) ev1).
  apply IH; [eapply changed_reporting; [done..|]|exact Hi|exact He|].
  - eapply scope_kept_mono; [|exact Ht]. set_solver.
  - simpl. by rewrite <-(assoc_L (++)).
Qed.

(** A callback marks the namespaces of its change. *)
Lemma OnIndexChange_mono e rr :
  pendingTriggers rr ⊆ pendingTriggers (Report.OnIndexChange e rr) ∧
  (clusterWideTriggered rr = true → clusterWideTriggered (Report.OnIndexChange e rr) = true) ∧
  rr_dynamicClient (Report.OnIndexChange e rr) = rr_dynamicClient rr.
Proof. unfold Report.OnIndexChange. destruct (_ && _); simpl; [done|]. split_and!; [set_solver|done..]. Qed.

Lemma callback_reporting i now c c' :
  reporting c → scope_kept ns (ct_log c) → callback i now c = Some c' → reporting c'.
Proof.
  intros [Hk Hcb Hd Hl Hf Hr] [Hscope _]. unfold callback. destruct (ct_inflight c !! i) as [e|] eqn:Hi; [|by intros [= <-]].
  unfold on_index_event. intros ([a rr] & Ha & [= <-])%bind_Some. apply bind_Some in Ha as (a' & _ & [= <- <-]). simpl in *.
  destruct (OnIndexChange_mono e (ct_reconciler c)) as (Hp & Hcw & Hdyn). split; [done|done|simpl; by rewrite Hdyn|done| |].
  { intros e' He'. apply Hf. by eapply list_elem_of_delete_inv. }
  set (c' := mkController _ _ _ _ _ _ _ _ _ _ _ _ _ _ _ _ _).
  assert (marked c → marked c') as Hm.
  { intros [Hin|[Hw|Hex]]; [left; by apply Hp|right; left; by apply Hcw|].
    rewrite (delete_Permutation _ _ _ Hi), Exists_cons in Hex. destruct Hex as [He|Hex]; [|by right; right].
    destruct (OnIndexChange_covers e (ct_reconciler c) ns) as [Hin|Hw]; [|done|by left|by right; left].
    apply Hscope, Hf. by eapply list_elem_of_lookup_2. }
  unfold up_to_date in *. simpl in *. destruct (ct_reading c) as [[ns' i']|]; [case_decide|]; naive_solver.
Qed.

(** Moves of the other components. *)
Lemma reporting_ext c c' :
  ct_index c' = ct_index c → ct_inflight c' = ct_inflight c → ct_log c' = ct_log c →
  pendingTriggers (ct_reconciler c') = pendingTriggers (ct_reconciler c) →
  clusterWideTriggered (ct_reconciler c') = clusterWideTriggered (ct_reconciler c) →
  rr_dynamicClient (ct_reconciler c') = rr_dynamicClient (ct_reconciler c) →
  ct_todo c' = ct_todo c → ct_reading c' = ct_reading c → ct_reports c' = ct_reports c → ct_lost c' = ct_lost c →
  reporting c → reporting c'.
Proof.
  intros H1 H2 H3 H4 H5 H6 H7 H8 H9 H10 [Hk Hcb Hd Hl Hf Hr].
  unfold up_to_date, marked, fresh in Hr. split; unfold up_to_date, marked, fresh;
    rewrite ?H1, ?H2, ?H3, ?H4, ?H5, ?H6, ?H7, ?H8, ?H9, ?H10; done.
Qed.

(** A tick takes every trigger, and the whole cluster when a trigger asks for
    it. *)
Lemma begin_tick_reporting σ nss names c :
  nss = inl names → ns ∈ names → reporting c → reporting (begin_tick σ nss c).
Proof.
  intros -> Hin [Hk Hcb Hd Hl Hf Hr]. unfold begin_tick.
  destruct (ct_todo c) as [|? ?] eqn:Ht; [|by split]. destruct (ct_reading c) as [|] eqn:Hrd; [by split|].
  split; try done. unfold up_to_date in *. rewrite Hrd in Hr. simpl.
  assert (∀ x, x ∈ visited (inl names) (ct_reconciler c) → x ∈ shuffle σ (elements (visited (inl names) (ct_reconciler c)))) as Hv.
  { intros x Hx. by rewrite shuffle_perm, elem_of_elements. }
  destruct Hr as [[Hp|[Hw|Hex]]|[Htd|[Hlost|Hfr]]].
  - right. left. apply Hv. unfold visited. destruct (_ && _); set_solver.
  - right. left. apply Hv. unfold visited. rewrite Hw, Hd. simpl. set_solver.
  - left. by right; right.
  - rewrite Ht in Htd. by apply not_elem_of_nil in Htd.
  - by right; right; left.
  - by right; right; right.
Qed.

(** A visit either asks for another one or reads the index. *)
Lemma visit_reporting now c : reporting c → reporting (visit now c).
Proof.
  intros [Hk Hcb Hd Hl Hf Hr]. unfold visit. destruct (ct_todo c) as [|x rest] eqn:Ht; [by split|].
  destruct (ct_reading c) as [|] eqn:Hrd; [by split|]. unfold up_to_date in *. rewrite Hrd, Ht in Hr.
  destruct (_ <? _)%Z; (split; [done..|]); unfold up_to_date; simpl.
  - destruct Hr as [[Hp|[Hw|Hex]]|[[->|Htd]%elem_of_cons|[Hlost|Hfr]]];
      [left; left; simpl; set_solver|left; right; by left|left; right; by right|left; left; simpl; set_solver|by right; left|
       by right; right; left|by right; right; right].
  - destruct (decide (x = ns)) as [->|Hne]; [by right|].
    destruct Hr as [Hm|[[->|Htd]%elem_of_cons|[Hlost|Hfr]]]; [by left|done|by right; left|by right; right; left|by right; right; right].
Qed.

Lemma ReconcileNamespace_evaluator env (idx : Indexer) n rr :
  ∃ e, (ReconcileNamespace env idx n rr).1.1 = set_evaluator e rr.
Proof.
  assert (set_evaluator (rr_evaluator rr) rr = rr) as Hid by (by destruct rr).
  assert (∃ e, (evaluateMissingResources env rr).1 = set_evaluator e rr) as [e He].
  { unfold evaluateMissingResources. destruct (rr_evaluator rr) as [ev|] eqn:E; [destruct (rr_dynamicClient rr)|].
    - destruct (evaluate_kinds _ _ _ _). by eexists.
    - by exists (Some ev).
    - by exists None. }
  assert (∀ cs, ∃ e, (buildReportStatus env cs n rr).1 = set_evaluator e rr) as Hb.
  { intros cs. unfold buildReportStatus. destruct (evaluateMissingResources env rr). simpl in *. by exists e. }
  unfold ReconcileNamespace. destruct (Hb (query_ns (re_order env) idx n)) as [e' He'].
  destruct (re_get env); [..|by exists (rr_evaluator rr)]; destruct (buildReportStatus _ _ _ _); simpl in *;
    repeat case_bool_decide; by exists e'.
Qed.

(** The answer to the write does not change what is written. *)
Lemma with_write_status err env cs n rr : buildReportStatus (with_write err env) cs n rr = buildReportStatus env cs n rr.
Proof.
  assert (∀ rb ws e, evaluate_workloads (with_write err env) rb ws e = evaluate_workloads env rb ws e) as Hw.
  { intros rb ws. induction ws as [|w ws IH]; intros e; [done|]. cbn [evaluate_workloads with_write re_clock re_eval].
    destruct (Evaluate (re_clock env) (re_eval env) (Some w) e). by rewrite IH. }
  assert (∀ rb gvrs e, evaluate_kinds (with_write err env) rb gvrs e = evaluate_kinds env rb gvrs e) as Hk.
  { intros rb gvrs. induction gvrs as [|g gvrs IH]; intros e; [done|]. cbn [evaluate_kinds with_write re_workloads]. destruct (re_workloads env g _); [|apply IH].
    rewrite Hw. destruct (evaluate_workloads _ _ _ _). by rewrite IH. }
  unfold buildReportStatus, evaluateMissingResources. destruct (rr_evaluator rr); [|done]. by rewrite Hk.
Qed.

Lemma with_write_writes err env (idx : Indexer) n rr :
  (ReconcileNamespace (with_write err env) idx n rr).1.2 = (ReconcileNamespace env idx n rr).1.2.
Proof.
  unfold ReconcileNamespace. simpl. rewrite with_write_status.
  destruct (re_get env); [..|done]; destruct (buildReportStatus _ _ _ _); by repeat case_bool_decide.
Qed.

(** The reconcile of a namespace, as the report reconciler and the API server
    see it. *)
Lemma reconcile_cases env done c x idx :
  ct_reading c = Some (x, idx) →
  ∃ e last reports lost,
    reconcile env done c = set_reporting (set_last last (set_evaluator e (ct_reconciler c))) (ct_todo c) None reports lost c ∧
    (∀ y, y ≠ x → last !! y = lastReconcile (ct_reconciler c) !! y) ∧
    ((reports = ct_reports c ∧ lost = {[x]} ∪ ct_lost c) ∨
     ∃ o, reports = <[x := o]> (ct_reports c) ∧
          (lost = {[x]} ∪ ct_lost c ∨
           lost = ct_lost c ∖ {[x]} ∧ published (with_write None env) idx x (ct_reconciler c) o)).
Proof.
  intros Hrd. unfold reconcile. rewrite Hrd. set (rr := ct_reconciler c).
  destruct (serve (ct_reports c) x _) as [stored answer] eqn:Hs.
  destruct (ReconcileNamespace_evaluator (with_write answer env) idx x rr) as [e He].
  destruct (ReconcileNamespace (with_write answer env) idx x rr) as [[rr1 writes] err] eqn:Hrn. simpl in He. subst rr1.
  set (last := match err with Some _ => lastReconcile rr | None => <[x := done]> (lastReconcile rr) end).
  assert (match err with Some _ => set_evaluator e rr | None => set_last (<[x := done]> (lastReconcile (set_evaluator e rr))) (set_evaluator e rr) end
          = set_last last (set_evaluator e rr)) as ->.
  { unfold last. destruct err; [by destruct rr|done]. }
  assert ((ReconcileNamespace env idx x rr).1.2 = writes) as Hw by (by rewrite <-(with_write_writes answer), Hrn).
  rewrite Hw in Hs. exists e, last. eexists _, _. split; [done|].
  split; [intros y Hy; unfold last; destruct err; [done|by rewrite lookup_insert_ne]|]. destruct stored as [o|]; [|by left]. right. exists o.
  split; [done|]. rewrite bool_decide_eq_false_2 by done. simpl. destruct (forallb is_update writes) eqn:Hu; [right|by left].
  split; [done|]. unfold serve in Hs. destruct writes as [|w ws]; [done|].
  destruct (serve_write (ct_reports c !! x) w) as [o'|er] eqn:Hsw; [|done]. simplify_eq.
  pose proof (ReconcileNamespace_one_write env idx x rr) as Hone. rewrite Hw in Hone.
  destruct (re_get env) as [rv| |er] eqn:Hg; [..|done]; destruct Hone as [w' [= -> ->]].
  - exists (ct_reports c !! x), rv, w'. split_and!; [done| |by rewrite with_write_writes|done].
    intros ->. unfold ReconcileNamespace in Hw. rewrite Hg in Hw. destruct (buildReportStatus _ _ _ _). by simplify_eq/=.
  - unfold ReconcileNamespace in Hw. rewrite Hg in Hw. destruct (buildReportStatus _ _ _ _). by simplify_eq/=.
Qed.

(** A reconcile that is stored makes the report fresh, or the index has
    changed since it was read and the namespace is marked again. *)
Lemma reconcile_reporting env done c : reporting c → reporting (reconcile env done c).
Proof.
  intros Hc. destruct (ct_reading c) as [[x idx]|] eqn:Hrd; [|by unfold reconcile; rewrite Hrd].
  destruct (reconcile_cases env done c x idx Hrd) as (e & last & reports & lost & -> & _ & Hcase).
  destruct Hc as [Hk Hcb Hd Hl Hf Hr]. unfold up_to_date in Hr. rewrite Hrd in Hr. split; try done.
  unfold up_to_date. simpl. destruct (decide (x = ns)) as [->|Hne].
  - destruct Hr as [Hm|Hv]; [by left|]. right. right.
    destruct Hcase as [[-> ->]|(o & -> & [->|[-> Hp]])]; [left; set_solver|left; set_solver|right].
    unfold fresh. simpl. rewrite lookup_insert_eq. by eexists _, _, _.
  - destruct Hr as [Hm|[Ht|[Hlost|Hfr]]]; [by left|by right; left| |].
    + right. right. left. destruct Hcase as [[_ ->]|(o & _ & [->|[-> _]])]; set_solver.
    + right. right. right. unfold fresh in *. simpl. destruct Hcase as [[-> _]|(o & -> & _)]; [done|by rewrite lookup_insert_ne].
Qed.

(** The answer of the API server to a listing of namespaces has this one. *)
Definition lists_namespace (m : move) : Prop :=
  match m with MTick _ nss => ∃ names, nss = inl names ∧ ns ∈ names | _ => True end.

Lemma step_log c m c' : step c m = Some c' → ct_log c ⊆ ct_log c'.
Proof.
  destruct m; simpl; intros Hs.
  - apply bind_Some in Hs as ([e ev] & _ & [= <-]). simpl. set_solver.
  - destruct (index_step _ _). simplify_eq/=. set_solver.
  - unfold callback in Hs. destruct (_ !! _); [|by simplify_eq]. apply bind_Some in Hs as ([a rr] & _ & [= <-]). done.
  - simplify_eq. unfold begin_tick. by repeat case_match.
  - simplify_eq. unfold visit. by repeat case_match.
  - simplify_eq. unfold reconcile. by repeat case_match.
  - apply bind_Some in Hs as ([a calls] & _ & [= <-]). done.
  - by simplify_eq.
  - destruct (ct_hubble c); [|by simplify_eq]. destruct (handleFlowDrop _ _ _ _ _ _) as [[] ?]; by simplify_eq.
  - by simplify_eq.
  - destruct (mcp_request_eq env r c) as [e Heq]. simplify_eq. by rewrite Heq.
  - by simplify_eq.
  - apply disconnect_eq in Hs as (s & _ & ->). done.
  - destruct (read_stream_eq id c) as (s & _ & Heq). simplify_eq. by rewrite Heq.
  - simplify_eq. unfold dispatch_round. repeat case_match; done.
  - by simplify_eq.
  - by simplify_eq.
  - by simplify_eq.
  - by simplify_eq.
Qed.

Lemma step_reporting c m c' :
  reporting c → lists_namespace m → step c m = Some c' → scope_kept ns (ct_log c') → reporting c'.
Proof.
  intros Hr Hm Hs Ht. assert (scope_kept ns (ct_log c)) as Ht0 by (eapply scope_kept_mono; [by eapply step_log|done]).
  destruct m; simpl in Hs.
  - apply bind_Some in Hs as ([e ev] & [ops Hi]%engine_emit_index & [= <-]). by eapply changed_run.
  - destruct (index_step _ _) as [i ev] eqn:Hi. simplify_eq/=. by eapply changed_reporting.
  - by eapply callback_reporting.
  - simplify_eq. destruct Hm as (names & -> & Hin). by eapply begin_tick_reporting.
  - simplify_eq. by apply visit_reporting.
  - simplify_eq. by apply reconcile_reporting.
  - apply bind_Some in Hs as ([a calls] & _ & [= <-]). by apply (reporting_ext c).
  - simplify_eq. by apply (reporting_ext c).
  - destruct (ct_hubble c); [|by simplify_eq]. destruct (handleFlowDrop _ _ _ _ _ _) as [[] ?]; simplify_eq; by apply (reporting_ext c).
  - simplify_eq. by apply (reporting_ext c).
  - destruct (mcp_request_eq env r c) as [e Heq]. simplify_eq. rewrite Heq. by apply (reporting_ext c).
  - simplify_eq. by apply (reporting_ext c).
  - apply disconnect_eq in Hs as (s & _ & ->). by apply (reporting_ext c).
  - destruct (read_stream_eq id c) as (s & _ & Heq). simplify_eq. rewrite Heq. by apply (reporting_ext c).
  - simplify_eq. unfold dispatch_round. repeat case_match; try done; by apply (reporting_ext c).
  - simplify_eq. by apply (reporting_ext c).
  - simplify_eq. by apply (reporting_ext c).
  - simplify_eq. by apply (reporting_ext c).
  - simplify_eq. by apply (reporting_ext c).
Qed.

Lemma run_log c ms c' : run c ms = Some c' → ct_log c ⊆ ct_log c'.
Proof.
  revert c. induction ms as [|m ms IH]; intros c; simpl; [by intros [= <-]|].
  intros (c1 & H1%step_log & H2%IH)%bind_Some. by etrans.
Qed.

Lemma run_reporting c ms c' :
  reporting c → Forall lists_namespace ms → run c ms = Some c' → scope_kept ns (ct_log c') → reporting c'.
Proof.
  revert c. induction ms as [|m ms IH]; intros c Hr Hm; simpl; [by intros [= <-]|].
  apply Forall_cons in Hm as [Hm1 Hm2]. intros (c1 & H1 & H2)%bind_Some Ht. apply (IH c1); [|done..].
  eapply step_reporting; [done..|]. eapply scope_kept_mono; [by eapply run_log|done].
Qed.
End freshness.
