(* ===== verification/Runs.v ===== *)
(** * Runs of the controller

    Theorems about the interleavings of [Controller]: no panic before the
    shutdown, where the Kubernetes Events come from, that reports are fresh and
    converge, that the readers agree, and where reports, the event stream and
    the answers of a standby replica go stale. *)

From S2P Require Import Prelude GoStd Encoding Types Apimachinery Util Dedupe Registry Indexer Hubble Channel Correlator Remediation.
From S2P Require Import EventBuilder Dispatcher Requirements Report WorkloadAnnotator AnnotatorPool McpHandlers Api Admission NativeAdapters Discovery.
From S2P Require Import PolicyAdapters AdapterContract ReportApi CliCommands Pipeline Servers Controller.
From Stdlib Require Import Ascii.

Open Scope go_scope.
#[local] Open Scope string_scope.

(** ** The process does not panic before it shuts down *)

Section no_panic.
Context {AM : Apimachinery} {Q : Quantities} {RL : RateLimiter} {RS : ReportServer}.

(** Before the shutdown: no channel is closed. *)
Definition orderly (m : move) : Prop :=
  match m with
  | MShutdown => False
  | MFlow _ _ envs _ => ∀ ns i, rd_closed (envs ns i) = false
  | _ => True
  end.

Lemma flow_loop_open env i d lbls cs corr :
  (∀ j, rd_closed (env j) = false) → ch_closed (flowDrops corr) = false →
  (flow_loop env i d lbls cs corr).1 ≠ Panicked ∧ ch_closed (flowDrops (flow_loop env i d lbls cs corr).2) = false.
Proof.
  intros He. revert i corr. induction cs as [|k cs IH]; intros i corr Ho; csimpl; [done|].
  destruct (is_network k); simpl; [|by apply IH]. destruct (matchesSelector _ _); simpl; [|by apply IH].
  pose proof (tryMarkSeen_channels (rd_since (env i)) (rd_now (env i)) (flow_key d, c_UID k) corr) as (_ & Hf & _).
  destruct (Correlator.tryMarkSeen _ _ _ _) as [fr c1]. simpl in *. rewrite <-Hf in Ho. destruct fr; simpl; [|by apply IH].
  rewrite He. destruct (select_send _ _ _ _) as [ch'| | |] eqn:Hs; simpl.
  - apply IH. by apply select_send_Sent in Hs as (_ & _ & ? & _).
  - by apply IH.
  - done.
  - exfalso. unfold select_send, ch_send in Hs. simpl in Hs. rewrite Ho in Hs. by repeat case_match.
Qed.

Lemma handleFlowDrop_open σs now envs (idx : string -> Indexer) d corr :
  (∀ ns j, rd_closed (envs ns j) = false) → ch_closed (flowDrops corr) = false →
  (handleFlowDrop σs now envs idx d corr).1 ≠ Panicked ∧ ch_closed (flowDrops (handleFlowDrop σs now envs idx d corr).2) = false.
Proof.
  intros He Ho. unfold handleFlowDrop. destruct (IsPolicyDrop _); simpl; [|done].
  pose proof (allow_channels now corr) as (_ & Hf & _). destruct (allow now corr) as [ok c1]. simpl in *. rewrite <-Hf in Ho.
  destruct ok; simpl; [|done]. case_bool_decide; [done|]. clear Hf H. revert c1 Ho.
  induction (drop_namespaces d) as [|n nss IH]; intros c1 Ho; simpl; [done|]. unfold correlateFlowDropInNamespace.
  case_bool_decide; [by apply IH|].
  destruct (flow_loop_open (envs n) 0 d (if n == e_Namespace (f_Source d) then e_Labels (f_Source d) else e_Labels (f_Destination d))
    (query_ns (σs n) (idx n) n) c1 (He n) Ho) as [Hp Ho'].
  destruct (flow_loop _ _ _ _ _ _) as [[] c2]; [by apply IH|by apply IH|done].
Qed.

Lemma begin_update_open env key wa :
  is_open wa → ∃ wa' go, begin_update env key wa = Some (wa', go) ∧ is_open wa'.
Proof.
  intros Ho. unfold begin_update. case_bool_decide; [destruct (listAllNamespaces env) as [l|]; [|by eexists _, _]|].
  - destruct (namespaces_loop_offered env 0 l wa Ho) as (wa1 & -> & O). eexists _, _. split; [done|apply O].
  - destruct (_ || _); [|by eexists _, _].
    assert (wa_pending (listNamespaceWorkloads env (wk_Namespace key) wa).1 = wa_pending wa) as Hp.
    { unfold listNamespaceWorkloads. repeat case_match; done. }
    destruct (listNamespaceWorkloads _ _ _) as [wa1 l]. simpl in Hp.
    destruct (workloads_loop_offered env 0 l wa1) as (wa2 & -> & O); [unfold is_open; by rewrite Hp|].
    eexists _, _. split; [done|apply O].
Qed.

Lemma worker_step_open op (idx : Indexer) p :
  is_open (pl_annotator p) → ∃ p' calls, worker_step op idx p = Some (p', calls) ∧ is_open (pl_annotator p').
Proof.
  intros Ho. destruct op as [i env|i env|i now]; simpl; destruct (pl_workers p !! i) as [[]|]; try by eexists _, _.
  - destruct (ch_buf _) as [|u rest]; [by eexists _, _|].
    destruct (begin_update_open env (pu_key u) (set_pending (ch_take 1 (wa_pending (pl_annotator p))) (pl_annotator p)) Ho) as (wa1 & go & -> & Ho1).
    by eexists _, _.
  - destruct (patch_update _ _ _) as [calls err]. by eexists _, _.
Qed.

Lemma engine_emit_step e op : engine_step e op = fst <$> engine_emit e op.
Proof.
  destruct op; simpl; try done; [by destruct (Reconcile _ _ _ _ _)|by destruct (Stop _ _)].
Qed.

(** No event has been sent to a client of the stream. *)
Definition quiet_stream (s : Mcp.Server) : Prop := ∃ clients, stream_inv (mkStream s ∅ [] clients []).

Lemma quiet_no_clients : quiet_stream Mcp.no_clients.
Proof. exists ∅. apply stream_reachable_inv, reach_start. Qed.

Lemma quiet_stream_step s :
  quiet_stream s →
  quiet_stream (Mcp.sse_connect s).1 ∧ (∀ id, id ∈ Mcp.sseClients s → quiet_stream (Mcp.sse_read id s)) ∧
  ∀ id, id ∈ Mcp.sseClients s → ∃ s', Mcp.sse_disconnect id s = Some s' ∧ quiet_stream s'.
Proof.
  intros [cl Hs]. split_and!.
  - destruct (Mcp.sse_connect s) as [s' id] eqn:Hc. eexists. eapply stream_inv_connect; [exact Hs|exact Hc].
  - intros id [n Hn]%(si_live _ Hs). exists cl. by eapply stream_inv_read.
  - intros id [n Hn]%(si_live _ Hs). destruct (stream_inv_disconnect _ _ _ _ _ _ Hs Hn) as (s' & Hd & Hi). exists s'.
    split; [done|by eexists].
Qed.

Record sound c : Prop := {
  sd_engine : engine_ok (ct_engine c);
  sd_annotator : is_open (pl_annotator (ct_annotator c));
  sd_flows : ch_closed (flowDrops (ct_correlator c)) = false;
  sd_stream : quiet_stream (ct_stream c);
}.

Lemma step_sound c m : sound c → orderly m → ∃ c', step c m = Some c' ∧ sound c'.
Proof.
  intros [He Ha Hf Hq] Hm. pose proof (quiet_stream_step _ Hq) as (Hq1 & Hq2 & Hq3). destruct m; simpl in *.
  - destruct (engine_step_ok _ op He) as (e' & Hs & He'). rewrite engine_emit_step in Hs.
    apply fmap_Some in Hs as ([e1 ev] & -> & ->). by eexists.
  - destruct (index_step _ _) as [i ev]. by eexists.
  - unfold callback. destruct (_ !! _) as [e|]; [|by eexists]. unfold on_index_event.
    destruct (OnIndexChange_offers now e (pl_annotator (ct_annotator c)) Ha) as (a & -> & O). eexists. split; [done|]. split; [done|apply O|done|done].
  - eexists. split; [done|]. unfold begin_tick. by repeat case_match.
  - eexists. split; [done|]. unfold visit. by repeat case_match.
  - eexists. split; [done|]. unfold reconcile. by repeat case_match.
  - destruct (worker_step_open op (ct_index c) (ct_annotator c) Ha) as (a & calls & -> & Ho). by eexists.
  - eexists. split; [done|]. split; [done|done| |done]. simpl. destruct (_ || _); [|done]. by rewrite (proj2 (handleEvent_open _ _ _ _ _ _)).
  - destruct (ct_hubble c); [|by eexists].
    destruct (handleFlowDrop_open σs now envs (fun _ => ct_index c) d (ct_correlator c) Hm Hf) as [Hp Ho].
    destruct (handleFlowDrop _ _ _ _ _ _) as [[] corr]; [by eexists..|done].
  - by eexists.
  - eexists. split; [done|]. by destruct (mcp_request_eq env r c) as [e ->].
  - by eexists.
  - unfold disconnect. case_decide as Hin; [|by eexists]. destruct (Hq3 id Hin) as (s' & -> & ?). by eexists.
  - eexists. split; [done|]. unfold read_stream. case_decide; [|done]. split; [done..|by apply Hq2].
  - eexists. split; [done|]. unfold dispatch_round. repeat case_match; done.
  - by eexists.
  - by eexists.
  - by eexists.
  - done.
Qed.

Lemma run_sound c ms : sound c → Forall orderly ms → is_Some (run c ms).
Proof.
  revert c. induction ms as [|m ms IH]; intros c Hc; simpl; [done|]. intros [Hm Hms]%Forall_cons.
  destruct (step_sound c m Hc Hm) as (c' & -> & Hc'). by apply IH.
Qed.
End no_panic.

(** ** Where the events come from *)

Section events.
Context {AM : Apimachinery} {Q : Quantities} {RL : RateLimiter} {RS : ReportServer}.
Implicit Types c : Controller.

(** The index holds the constraint, and it applies to the namespace. *)
Definition held_for (ns : string) c (k : Constraint) : Prop := contains (ct_index c) k ∧ matchesNamespace k ns = true.

(** The notification is about an event that the watch delivered in the run,
    and a constraint that the index then held for the namespace of the
    involved object. *)
Definition stems (c0 : Controller) (ms : list move) (n : CorrelatedNotification) : Prop :=
  ∃ pre type event σ now env post c1,
    ms = (pre ++ MEvent type event σ now env :: post)%list ∧ run c0 pre = Some c1 ∧
    (type = "ADDED" ∨ type = "MODIFIED") ∧
    contains (ct_index c1) (n_Constraint n) ∧ matchesNamespace (n_Constraint n) (ev_InvolvedNamespace event) = true ∧
    n = correlated event (n_Constraint n).

Lemma stems_app c0 ms ms' n : stems c0 ms n → stems c0 (ms ++ ms') n.
Proof.
  intros (pre & type & event & σ & now & env & post & c1 & -> & H). exists pre, type, event, σ, now, env, (post ++ ms')%list, c1.
  split; [|done]. by rewrite <-(assoc_L (++)).
Qed.

(** The Kubernetes Event that the dispatcher makes of a notification. *)
Definition event_of (n : CorrelatedNotification) (b : BuiltEvent) : Prop :=
  ∃ rb message now, b = BuildEvent rb (n_Constraint n) DetailLevelSummary
    (mkWorkload EmptyString (n_WorkloadKind n) (n_WorkloadName n) (n_Namespace n) EmptyString) message now.

Lemma Dispatch_events call n d b : b ∈ (Dispatch call n d).1.2 → event_of n b.
Proof.
  unfold Dispatch, createEvent. destruct (Allow _ _ _ _) as [ok nl]. destruct ok; simpl; [|set_solver].
  destruct (tryMarkSeen _ _ _ _) as [fr d2]. destruct fr; simpl; [|set_solver].
  intros ->%list_elem_of_singleton. by eexists _, _, _.
Qed.

Record notifying (c0 : Controller) (ms : list move) (c : Controller) : Prop := {
  nt_ok : ch_ok (notifications (ct_correlator c));
  nt_sent : ∀ n, n ∈ ch_sent (notifications (ct_correlator c)) → stems c0 ms n;
  nt_created : ∀ b, b ∈ ct_created c → ∃ n, stems c0 ms n ∧ event_of n b;
}.

Lemma notifying_ext c0 ms m c c' :
  ch_ok (notifications (ct_correlator c')) →
  ch_sent (notifications (ct_correlator c')) = ch_sent (notifications (ct_correlator c)) →
  ct_created c' = ct_created c → notifying c0 ms c → notifying c0 (ms ++ [m]) c'.
Proof.
  intros Hok Hs Hc [_ H2 H3]. split; [done|rewrite Hs; intros n ?; by apply stems_app, H2|].
  rewrite Hc. intros b (n & ? & ?)%H3. exists n. split; [by apply stems_app|done].
Qed.

Lemma watch_notifying c0 ms c type event σ now env :
  run c0 ms = Some c → notifying c0 ms c →
  notifying c0 (ms ++ [MEvent type event σ now env])
    (set_correlator (watchEvents [watched type event σ now env (ct_index c)] (ct_correlator c)) c).
Proof.
  intros Hrun [H1 H2 H3]. simpl. destruct ((type == "ADDED") || (type == "MODIFIED")) eqn:Ht.
  - destruct (handleEvent_justified σ now env (ct_index c) event (ct_correlator c) H1) as (Ho & sent & Hs & Hsub & Hj).
    split; [done| |simpl; rewrite (right_id_L [] (++)); intros b (n & ? & ?)%H3; exists n; split; [by apply stems_app|done]].
    simpl. rewrite Hs. intros n [Hn|Hn]%elem_of_app; [by apply stems_app, H2|].
    destruct (Hj n Hn) as (_ & Hns & _ & _ & _ & Hst & Hm). rewrite Hns in Hm.
    exists ms, type, event, σ, now, env, [], c. split_and!; try done.
    + by apply orb_true_iff in Ht as [?%bool_decide_eq_true|?%bool_decide_eq_true]; [left|right].
    + eapply elem_of_sublist in Hn; [|exact Hsub]. apply list_elem_of_fmap in Hn as (k & -> & _). done.
  - apply (notifying_ext c0 ms _ c); simpl; rewrite ?(right_id_L [] (++)); done.
Qed.

Lemma dispatch_notifying c0 ms c call :
  notifying c0 ms c → notifying c0 (ms ++ [MDispatch call]) (dispatch_round call c).
Proof.
  intros Hc. pose proof Hc as [H1 H2 H3]. unfold dispatch_round.
  set (ch' := if (_ <? _)%nat then _ else _).
  assert (ch_sent ch' = ch_sent (notifications (ct_correlator c)) ∧ ch_ok ch') as [Hs Hok].
  { unfold ch'. destruct (_ <? _)%nat; [done|]. rewrite ch_sent_take. auto with nightjar. }
  destruct (ch_taken ch' !! ct_received c) as [n|] eqn:Hn; [|by apply (notifying_ext c0 ms _ c)].
  assert (stems c0 ms n) as Hst.
  { apply H2. rewrite <-Hs. unfold ch_sent. apply elem_of_app. left. by eapply list_elem_of_lookup_2. }
  pose proof (Dispatch_events call n (ct_dispatcher c)) as Hd. destruct (Dispatch _ _ _) as [[d events] err]. simpl in Hd.
  split; [done|simpl; rewrite Hs; intros m Hm; by apply stems_app, H2|]. simpl.
  intros b [(m & ? & ?)%H3|Hb]%elem_of_app; [exists m; split; [by apply stems_app|done]|].
  exists n. split; [by apply stems_app|by apply Hd].
Qed.

Lemma step_notifying c0 ms c m c' :
  run c0 ms = Some c → notifying c0 ms c → step c m = Some c' → notifying c0 (ms ++ [m]) c'.
Proof.
  intros Hrun Hc Hs. pose proof Hc as [H1 _ _].
  assert (∀ c', ct_correlator c' = ct_correlator c → ct_created c' = ct_created c → notifying c0 (ms ++ [m]) c') as Hsame.
  { intros c2 Hcorr Hcr. apply (notifying_ext c0 ms m c); rewrite ?Hcorr; done. }
  destruct m; simpl in Hs.
  - apply bind_Some in Hs as ([e ev] & _ & [= <-]). by apply Hsame.
  - destruct (index_step _ _). simplify_eq. by apply Hsame.
  - unfold callback in Hs. destruct (_ !! _); [|simplify_eq; by apply Hsame].
    apply bind_Some in Hs as ([a rr] & _ & [= <-]). by apply Hsame.
  - simplify_eq. unfold begin_tick. repeat case_match; by apply Hsame.
  - simplify_eq. unfold visit. repeat case_match; by apply Hsame.
  - simplify_eq. unfold reconcile. repeat case_match; by apply Hsame.
  - apply bind_Some in Hs as ([a calls] & _ & [= <-]). by apply Hsame.
  - simplify_eq. by apply watch_notifying.
  - destruct (handleFlowDrop_sound σs now envs (fun _ => ct_index c) d (ct_correlator c)) as (Hn & _).
    destruct (ct_hubble c); [|simplify_eq; by apply Hsame].
    destruct (handleFlowDrop _ _ _ _ _ _) as [[] corr]; simplify_eq; simpl in Hn;
      apply (notifying_ext c0 ms _ c); simpl; rewrite ?Hn, ?(right_id_L [] (++)); done.
  - simplify_eq. apply (notifying_ext c0 ms _ c); simpl; rewrite ?(right_id_L [] (++)); done.
  - destruct (mcp_request_eq env r c) as [e Heq]. simplify_eq. rewrite Heq. by apply Hsame.
  - simplify_eq. by apply Hsame.
  - apply disconnect_eq in Hs as (s & _ & ->). by apply Hsame.
  - destruct (read_stream_eq id c) as (s & _ & Heq). simplify_eq. rewrite Heq. by apply Hsame.
  - simplify_eq. by apply dispatch_notifying.
  - simplify_eq. apply (notifying_ext c0 ms _ c); simpl; rewrite ?(right_id_L [] (++)); done.
  - simplify_eq. apply (notifying_ext c0 ms _ c); simpl; rewrite ?(right_id_L [] (++)); done.
  - simplify_eq. by apply Hsame.
  - simplify_eq. apply (notifying_ext c0 ms _ c); simpl; rewrite ?(right_id_L [] (++)); done.
Qed.

Lemma run_notifying c0 ms c :
  ch_ok (notifications (ct_correlator c0)) → ch_sent (notifications (ct_correlator c0)) = [] → ct_created c0 = [] →
  run c0 ms = Some c → notifying c0 ms c.
Proof.
  intros Hok Hs Hc. revert c. induction ms as [|m ms IH] using rev_ind; intros c.
  - intros [= <-]. split; [done|rewrite Hs; set_solver|rewrite Hc; set_solver].
  - rewrite run_app. intros (c1 & Hr & (c2 & Hst & [= <-])%bind_Some)%bind_Some. eapply step_notifying; [done|by apply IH|done].
Qed.
End events.

(** ** Two readers *)

(** What the client and the MCP server both show of a constraint. *)
Definition cli_row (x : Cli.ConstraintInfo) : string * string * string * list string :=
  (Cli.ci_Type x, Cli.ci_Severity x, Cli.ci_Effect x, Cli.ci_Tags x).
Definition mcp_row (x : Mcp.ReportEntry) : string * string * string * list string :=
  (Mcp.re_type x, Mcp.re_severity x, Mcp.re_effect x, Mcp.re_tags x).

(** ** Theorems *)

Section theorems.
Context {AM : Apimachinery} {Q : Quantities} {RL : RateLimiter} {RS : ReportServer}.
Implicit Types c : Controller.

Lemma main_controller_eq flags reports c0 :
  main_controller flags reports = Some c0 →
  ct_index c0 = Indexer.New true ∧ engine_ok (ct_engine c0) ∧ ct_reports c0 = reports ∧ ct_lost c0 = dom reports ∧
  sound c0 ∧ ∀ ns, reporting ns c0.
Proof.
  assert (∀ e, e_indexer (configure_engine (fl_additionalPolicyGroups flags) (fl_additionalNameHints flags) (fl_checkCRDAnnotations flags) e) = e_indexer e ∧ (engine_ok e → engine_ok (configure_engine (fl_additionalPolicyGroups flags) (fl_additionalNameHints flags) (fl_checkCRDAnnotations flags) e))) as Hcfg.
  { intros e. unfold configure_engine. by repeat case_bool_decide. }
  destruct (Hcfg (NewEngine registered (Indexer.New true) true)) as [Hi Ho].
  pose proof (Ho (NewEngine_ok _ _ _)) as Hok. clear Hcfg Ho. change (e_indexer (NewEngine _ _ _)) with (Indexer.New true) in Hi.
  unfold main_controller, main_state. rewrite main_registry_eq. cbn [mbind option_bind].
  revert Hi Hok. generalize (configure_engine (fl_additionalPolicyGroups flags) (fl_additionalNameHints flags) (fl_checkCRDAnnotations flags) (NewEngine registered (Indexer.New true) true)) as e.
  intros e Hi Hok [= <-]. unfold ct_index. simpl. split_and!; try done.
  { split; try done. apply quiet_no_clients. }
  intros ns. split; unfold ct_index; simpl; rewrite ?Hi; simpl; try done.
  unfold up_to_date. simpl. right. right. destruct (reports !! ns) as [o|] eqn:Hr.
  - left. apply elem_of_dom. by exists o.
  - right. unfold fresh, ct_index. simpl. rewrite Hr, Hi. apply map_filter_empty.
Qed.

(** Nothing is under way for the namespace. *)
Definition settled (ns : string) c : Prop :=
  ct_inflight c = [] ∧ (ns ∉ pendingTriggers (ct_reconciler c)) ∧ clusterWideTriggered (ct_reconciler c) = false ∧
  (ns ∉ ct_todo c) ∧ ∀ idx, ct_reading c ≠ Some (ns, idx).

Lemma settled_fresh ns c : reporting ns c → settled ns c → (ns ∉ ct_lost c) → fresh ns c.
Proof.
  intros [_ _ _ _ _ Hr] (Hf & Hp & Hw & Ht & Hrd) Hl.
  assert (¬ marked ns c) as Hm by (intros [?|[?|He]]; [done|congruence|rewrite Hf in He; by inversion He]).
  unfold up_to_date in Hr. destruct (ct_reading c) as [[x idx]|]; [case_decide; [by subst; destruct (Hrd idx)|]|]; naive_solver.
Qed.

(** What [nightjar query] reads of a fresh report. *)
Lemma fresh_listed {AL : ApimachineryLaws AM} {JN : JsonNumbers} {RSL : ReportServerLaws RS} ns c :
  fresh ns c →
  match ct_reports c !! ns with
  | Some o => ∃ rr now, ∀ x, x ∈ Cli.extractConstraints o EmptyString EmptyString EmptyString ↔
      ∃ k, x = info_of rr now ns k ∧ contains (ct_index c) k ∧ matchesNamespace k ns = true
  | None => ∀ k, contains (ct_index c) k → matchesNamespace k ns = false
  end.
Proof.
  unfold fresh. destruct (ct_reports c !! ns) as [o|].
  - intros (env & idx & rr & Hp & Hv). exists rr, (re_now env). intros x.
    destruct (extract_published env idx ns rr o EmptyString EmptyString EmptyString Hp) as [Hperm _].
    rewrite Hperm, list_elem_of_filter, list_elem_of_fmap. unfold Cli.keeps, applicable. setoid_rewrite query_ns_spec. split.
    + intros (_ & k & -> & Hk & Hm). exists k. split_and!; [done|by eapply contains_view|done].
    + intros (k & -> & Hk & Hm). split; [done|]. exists k. split_and!; [done|by eapply contains_view|done].
  - intros Hf k Hk. destruct (matchesNamespace k ns) eqn:Hm; [|done]. destruct Hk as [uid Hu].
    assert (view ns (ct_index c) !! uid = Some k) as Hl2 by (by apply map_lookup_filter_Some). by rewrite Hf, lookup_empty in Hl2.
Qed.

(** C1: as long as no constraint starts or stops to apply to a namespace
    while it is stored, no cluster-scoped constraint lists affected
    namespaces, and the listings of namespaces have the namespace: for every
    interleaving of the goroutines of the controller from the start of the
    process, when nothing is under way for the namespace and the last
    reconcile of its report was stored, [nightjar query] on the report that
    the API server holds lists exactly the constraints that the index now
    holds for the namespace, and without a report there are none. The three
    conditions are needed: a constraint whose scope narrows, or a cluster-
    scoped one that lists namespaces, leaves the report of a namespace stale
    ([narrowed_scope_stale], [OnIndexChange_misses_namespace]). *)
Theorem reports_fresh {AL : ApimachineryLaws AM} {JN : JsonNumbers} {RSL : ReportServerLaws RS}
    flags reports c0 ms c ns :
  main_controller flags reports = Some c0 → run c0 ms = Some c →
  Forall (lists_namespace ns) ms → scope_kept ns (ct_log c) → settled ns c → (ns ∉ ct_lost c) →
  match ct_reports c !! ns with
  | Some o => ∃ rr now, ∀ x, x ∈ Cli.extractConstraints o EmptyString EmptyString EmptyString ↔
      ∃ k, x = info_of rr now ns k ∧ contains (ct_index c) k ∧ matchesNamespace k ns = true
  | None => ∀ k, contains (ct_index c) k → matchesNamespace k ns = false
  end.
Proof.
  intros (_ & _ & _ & _ & _ & Hrep)%main_controller_eq Hrun Hls Hsk Hset Hl.
  apply fresh_listed, settled_fresh; [|done..]. by eapply run_reporting.
Qed.

(** C5: the two readers of one running controller agree. Under the
    conditions of [reports_fresh] (the scopes of stored constraints do not
    change, no cluster-scoped constraint lists namespaces, the listings have
    the namespace), for every interleaving: when nothing is under way for a
    namespace whose report exists and whose last reconcile was stored, and
    its name is not empty and does not end in a slash, the MCP server
    answers a GET of the namespace's report with the types, severities,
    effects and tags that [nightjar query] reads from the report of the API
    server, as often as these, and with their number. *)
Theorem query_and_mcp_agree {AL : ApimachineryLaws AM} {JN : JsonNumbers} {RSL : ReportServerLaws RS}
    flags reports c0 ms c ns env body o :
  main_controller flags reports = Some c0 → run c0 ms = Some c →
  Forall (lists_namespace ns) ms → scope_kept ns (ct_log c) → settled ns c → (ns ∉ ct_lost c) →
  ct_reports c !! ns = Some o → ns ≠ EmptyString → strings_HasSuffix ns "/" = false →
  ∃ report, (mcp_request env (Http.mkRequest "GET" ("/resources/reports/" +:+ ns) body) c).2 = Http.AReport (Mcp.Reply report) ∧
    mcp_row <$> Mcp.rep_constraints report ≡ₚ cli_row <$> Cli.extractConstraints o EmptyString EmptyString EmptyString ∧
    Mcp.rep_constraintCount report = go_len (Cli.extractConstraints o EmptyString EmptyString EmptyString).
Proof.
  intros H0 Hrun Hls Hsk Hset Hl Ho Hne Hsuf. apply main_controller_eq in H0 as (_ & _ & _ & _ & _ & Hrep).
  pose proof (settled_fresh ns c (run_reporting ns c0 ms c (Hrep ns) Hls Hrun Hsk) Hset Hl) as Hf. unfold fresh in Hf.
  rewrite Ho in Hf. destruct Hf as (renv & idx & rr & Hp & Hv).
  unfold mcp_request. rewrite mcp_report_served by done. eexists. split; [done|].
  destruct (extract_published renv idx ns rr o EmptyString EmptyString EmptyString Hp) as [Hperm _].
  assert (∀ l : list Cli.ConstraintInfo, filter (fun i => Cli.keeps EmptyString EmptyString i = true) l = l) as Hall by (intros l; induction l as [|i l IH]; [done|]; rewrite filter_cons_True, IH by done; done).
  rewrite Hall in Hperm.
  assert (applicable renv idx ns ≡ₚ ByNamespace (Http.me_order env) (ct_index c) ns) as Heq.
  { unfold applicable. simpl. by rewrite !ByNamespace_view, Hv. }
  split.
  - rewrite Hperm. simpl. rewrite <-!list_fmap_compose. symmetry. by apply fmap_Permutation.
  - simpl. unfold go_len. rewrite Hperm, length_fmap, Heq. done.
Qed.

(** C4: for every interleaving, each Kubernetes Event that the dispatcher
    creates is about an event that the correlator's watch delivered before, is
    put on the object of that event, and reports a constraint that the index
    held for its namespace at that moment. *)
Theorem created_events_justified flags reports c0 ms c b :
  main_controller flags reports = Some c0 → run c0 ms = Some c → b ∈ ct_created c →
  ∃ pre type event σ now env post c1 k rb message t,
    ms = (pre ++ MEvent type event σ now env :: post)%list ∧ run c0 pre = Some c1 ∧
    held_for (ev_InvolvedNamespace event) c1 k ∧
    b = BuildEvent rb k DetailLevelSummary
          (mkWorkload EmptyString (ev_InvolvedKind event) (ev_InvolvedName event) (ev_InvolvedNamespace event) EmptyString) message t.
Proof.
  intros H0 Hrun Hb. assert (notifying c0 ms c) as [_ _ Hc].
  { unfold main_controller in H0. rewrite main_registry_eq in H0. simpl in H0. simplify_eq. by apply run_notifying. }
  destruct (Hc b Hb) as (n & (pre & type & event & σ & now & env & post & c1 & Hms & Hr & _ & Hk & Hm & Hn) & rb & msg & t & ->).
  exists pre, type, event, σ, now, env, post, c1, (n_Constraint n), rb, msg, t. split_and!; try done. by rewrite Hn.
Qed.

(** C3: until the context is cancelled no interleaving of the goroutines
    panics: not by a send on a closed channel, not by closing one twice. *)
Theorem controller_never_panics flags reports c0 ms :
  main_controller flags reports = Some c0 → Forall orderly ms → is_Some (run c0 ms).
Proof. intros (_ & _ & _ & _ & Hs & _)%main_controller_eq. by apply run_sound. Qed.
End theorems.

(** ** One tick is enough *)

(** What the visit of a namespace meets: the clock at the check, the API
    server, the clock after the write. *)
Record Visit := mkVisit { vi_now : Time; vi_env : ReconcileEnv; vi_done : Time }.

Section convergence.
Context {AM : Apimachinery} {Q : Quantities} {RL : RateLimiter} {RS : ReportServer}.
Implicit Types c : Controller.

Definition rounds (round : string -> Visit) (todo : list string) : list move :=
  mjoin ((fun ns => [MVisit (vi_now (round ns)); MReconcile (vi_env (round ns)) (vi_done (round ns))]) <$> todo).

(** A tick with nothing in between: it takes the triggers and goes through its
    namespaces. *)
Definition tick_moves (σ : Shuffle) (names : list string) (round : string -> Visit) c : list move :=
  MTick σ (inl names) :: rounds round (ct_todo (begin_tick σ (inl names) c)).

(** The debounce window of the namespace has passed, and the API server has its
    report and takes the update. *)
Definition clear (ns : string) (v : Visit) c : Prop :=
  (Report.DebounceDuration (rr_opts (ct_reconciler c)) ≤
   time_Since (vi_now v) (default zero_time (lastReconcile (ct_reconciler c) !! ns)))%Z ∧
  ∃ rv, re_get (vi_env v) = ReportFound rv ∧ rv ≠ EmptyString ∧
    ∀ st, ∃ o, serve_write (ct_reports c !! ns) (UpdateReport ns rv st) = inl o.

(** What a round leaves alone. *)
Record apart (x : string) c c' : Prop := {
  ap_index : ct_index c' = ct_index c;
  ap_inflight : ct_inflight c' = ct_inflight c;
  ap_log : ct_log c' = ct_log c;
  ap_wide : clusterWideTriggered (ct_reconciler c') = clusterWideTriggered (ct_reconciler c);
  ap_opts : rr_opts (ct_reconciler c') = rr_opts (ct_reconciler c);
  ap_pending : ∀ y, y ≠ x → y ∈ pendingTriggers (ct_reconciler c') ↔ y ∈ pendingTriggers (ct_reconciler c);
  ap_last : ∀ y, y ≠ x → lastReconcile (ct_reconciler c') !! y = lastReconcile (ct_reconciler c) !! y;
  ap_reports : ∀ y, y ≠ x → ct_reports c' !! y = ct_reports c !! y;
  ap_lost : ∀ y, y ≠ x → y ∈ ct_lost c' ↔ y ∈ ct_lost c;
}.

Lemma clear_apart ns v x c c' : apart x c c' → ns ≠ x → clear ns v c → clear ns v c'.
Proof. intros [] Hne [H1 H2]. unfold clear. by rewrite ap_opts0, ap_last0, ap_reports0. Qed.

(** A stored update is not lost. *)
Lemma reconcile_stored env done c x idx rv :
  ct_reading c = Some (x, idx) → re_get env = ReportFound rv → rv ≠ EmptyString →
  (∀ st, ∃ o, serve_write (ct_reports c !! x) (UpdateReport x rv st) = inl o) →
  x ∉ ct_lost (reconcile env done c).
Proof.
  intros Hr Hg Hrv Hs. unfold reconcile. rewrite Hr. rewrite <-(with_write_writes None).
  assert (∀ a, ∃ st e, ReconcileNamespace (with_write a env) idx x (ct_reconciler c) = (e, [UpdateReport x rv st], a)) as Hw.
  { intros a. unfold ReconcileNamespace. simpl. rewrite Hg. destruct (buildReportStatus _ _ _ _) as [rr' st].
    rewrite bool_decide_eq_false_2 by done. by eexists _, _. }
  destruct (Hw None) as (st & e & ->). cbn [serve fst snd]. destruct (Hs st) as [o ->].
  destruct (Hw None) as (st' & e' & ->). simpl. set_solver.
Qed.

(** One round of the loop. *)
Lemma round_apart c x rest v :
  ct_todo c = x :: rest → ct_reading c = None →
  ∃ c', run c [MVisit (vi_now v); MReconcile (vi_env v) (vi_done v)] = Some c' ∧
    ct_todo c' = rest ∧ ct_reading c' = None ∧ apart x c c' ∧
    (clear x v c → pendingTriggers (ct_reconciler c') = pendingTriggers (ct_reconciler c) ∧ (x ∉ ct_lost c') ∧ is_Some (ct_reports c' !! x)).
Proof.
  intros Ht Hr. cbn [run step mbind option_bind]. eexists. split; [done|]. unfold visit. rewrite Ht, Hr.
  destruct (_ <? _)%Z eqn:Hw.
  - unfold reconcile. cbn. split_and!; [done..| |].
    + split; try done. simpl. set_solver.
    + intros [Hc _]. apply Z.ltb_lt in Hw. lia.
  - set (c1 := set_reporting _ _ _ _ _ c). assert (ct_reading c1 = Some (x, ct_index c)) as Hr1 by done.
    pose proof (reconcile_stored (vi_env v) (vi_done v) c1 x (ct_index c)) as Hst.
    destruct (reconcile_cases (vi_env v) (vi_done v) c1 x (ct_index c) Hr1) as (e & last & rs & lost & Heq & Hlast & Hcase).
    rewrite Heq in *. split_and!; [done..| |].
    + split; try done; simpl.
      * intros y Hy. destruct Hcase as [[-> _]|(o & -> & _)]; [done|by rewrite lookup_insert_ne].
      * intros y Hy. destruct Hcase as [[_ ->]|(o & _ & [->|[-> _]])]; simpl; set_solver.
    + intros [_ (rv & Hg & Hrv & Hs)]. split; [done|]. specialize (Hst rv Hr1 Hg Hrv Hs). simpl in *.
      split; [done|]. destruct Hcase as [[_ ->]|(o & -> & _)]; [set_solver|]. by rewrite lookup_insert_eq.
Qed.

(** The loop from where it is. *)
Lemma rounds_run ns round todo c :
  ct_todo c = todo → NoDup todo → ct_reading c = None → ct_inflight c = [] →
  clusterWideTriggered (ct_reconciler c) = false → ns ∉ pendingTriggers (ct_reconciler c) →
  (ns ∈ todo ∧ clear ns (round ns) c ∨ (ns ∉ todo) ∧ (ns ∉ ct_lost c) ∧ is_Some (ct_reports c !! ns)) →
  ∃ c', run c (rounds round todo) = Some c' ∧ settled ns c' ∧ (ns ∉ ct_lost c') ∧ is_Some (ct_reports c' !! ns) ∧
    ct_index c' = ct_index c ∧ ct_log c' = ct_log c.
Proof.
  revert c. induction todo as [|x todo IH]; intros c Ht Hnd Hr Hf Hcw Hp Hcase.
  { exists c. split; [done|]. destruct Hcase as [[Hin _]|(_ & Hl & Ho)]; [by apply not_elem_of_nil in Hin|].
    split_and!; [|done..]. unfold settled. rewrite Ht, Hr. split_and!; done || set_solver. }
  apply NoDup_cons in Hnd as [Hx Hnd].
  destruct (round_apart c x todo (round x) Ht Hr) as (c1 & Hrun & Ht1 & Hr1 & Ha & Hclear). pose proof Ha as [].
  unfold rounds in *. rewrite fmap_cons. cbn [mjoin list_join]. rewrite run_app, Hrun. cbn [mbind option_bind].
  destruct (IH c1) as (c2 & Hrun2 & Hs & Hl & Ho & Hi & Hlog); try done; try (by congruence).
  - destruct (decide (ns = x)) as [->|Hne]; [|by rewrite ap_pending0].
    destruct Hcase as [[_ Hc]|[Hn _]]; [|set_solver]. destruct (Hclear Hc) as [-> _]. done.
  - destruct (decide (ns = x)) as [->|Hne].
    + destruct Hcase as [[_ Hc]|[Hn _]]; [|set_solver]. destruct (Hclear Hc) as (_ & Hl & Ho). by right.
    + destruct Hcase as [[Hin Hc]|(Hn & Hl & Ho)]; [left|right].
      * split; [set_solver|by eapply clear_apart].
      * split; [set_solver|by rewrite ap_lost0, ap_reports0].
  - exists c2. split_and!; [done..|by rewrite Hi|by rewrite Hlog].
Qed.

Lemma rounds_listing ns round todo : Forall (lists_namespace ns) (rounds round todo).
Proof. unfold rounds. induction todo as [|x todo IH]; simpl; [done|]. by repeat constructor. Qed.

(** C2: the reports converge, as long as no constraint starts or stops to
    apply to the namespace while it is stored, no cluster-scoped constraint
    lists affected namespaces, and the listings of namespaces have the
    namespace: in every state that such an interleaving reaches with no
    callback and no tick under way, one tick that finds the debounce window
    of a triggered namespace over and the API server willing to update its
    report makes [nightjar query] list exactly the constraints that the
    index holds for the namespace, whatever becomes of the other namespaces. *)
Theorem reports_converge {AL : ApimachineryLaws AM} {JN : JsonNumbers} {RSL : ReportServerLaws RS}
    flags reports c0 ms c ns σ names round :
  main_controller flags reports = Some c0 → run c0 ms = Some c →
  Forall (lists_namespace ns) ms → scope_kept ns (ct_log c) →
  ct_inflight c = [] → ct_todo c = [] → ct_reading c = None →
  (ns ∈ pendingTriggers (ct_reconciler c) ∨ clusterWideTriggered (ct_reconciler c) = true) → ns ∈ names → clear ns (round ns) c →
  ∃ c' o rr now, run c (tick_moves σ names round c) = Some c' ∧ settled ns c' ∧ ct_reports c' !! ns = Some o ∧
    ∀ x, x ∈ Cli.extractConstraints o EmptyString EmptyString EmptyString ↔
         ∃ k, x = info_of rr now ns k ∧ contains (ct_index c) k ∧ matchesNamespace k ns = true.
Proof.
  intros (_ & _ & _ & _ & _ & Hrep)%main_controller_eq Hrun Hls Hsk Hf Ht Hr Htrig Hin Hclear.
  assert (Hc : reporting ns c) by (by eapply run_reporting). pose proof Hc as [_ _ Hd _ _ _].
  set (c1 := begin_tick σ (inl names) c). assert (c1 = set_reporting (set_triggers ∅ false (ct_reconciler c))
    (shuffle σ (elements (visited (inl names) (ct_reconciler c)))) None (ct_reports c) (ct_lost c) c) as Hc1.
  { unfold c1, begin_tick. by rewrite Ht, Hr. }
  assert (ns ∈ ct_todo c1) as Hns.
  { rewrite Hc1. simpl. rewrite shuffle_perm, elem_of_elements. unfold visited. rewrite Hd.
    destruct Htrig as [Hp| ->]; [destruct (_ && _)|]; set_solver. }
  destruct (rounds_run ns round (ct_todo c1) c1) as (c' & Hrun' & Hset & Hl & [o Ho] & Hi & Hlog); [done|..].
  { rewrite Hc1. simpl. rewrite shuffle_perm. apply NoDup_elements. }
  1-4: rewrite Hc1; simpl; done || set_solver.
  { left. split; [done|]. rewrite Hc1. exact Hclear. }
  assert (run c (tick_moves σ names round c) = Some c') as Hrun2 by exact Hrun'.
  assert (Hlogc : ct_log c1 = ct_log c ∧ ct_index c1 = ct_index c) by (by rewrite Hc1). destruct Hlogc as [Hl1 Hi1].
  assert (reporting ns c') as Hc'.
  { eapply run_reporting; [exact Hc| |exact Hrun2|by rewrite Hlog, Hl1]. apply Forall_cons. split; [by exists names|apply rounds_listing]. }
  pose proof (fresh_listed ns c' (settled_fresh ns c' Hc' Hset Hl)) as Hfr. rewrite Ho in Hfr. destruct Hfr as (rr & now & Hfr).
  exists c', o, rr, now. rewrite Hi, Hi1 in Hfr. done.
Qed.
End convergence.

(** ** The event stream *)

Section stream.
Context {AM : Apimachinery} {Q : Quantities} {RL : RateLimiter} {RS : ReportServer}.
Implicit Types c : Controller.

Lemma step_stream c m c' : quiet_stream (ct_stream c) → step c m = Some c' → quiet_stream (ct_stream c').
Proof.
  intros Hq Hs. pose proof (quiet_stream_step _ Hq) as (Hq1 & Hq2 & Hq3). destruct m; simpl in Hs.
  - apply bind_Some in Hs as ([e ev] & _ & [= <-]). done.
  - destruct (index_step _ _). by simplify_eq.
  - unfold callback in Hs. destruct (_ !! _); [|by simplify_eq]. apply bind_Some in Hs as ([a rr] & _ & [= <-]). done.
  - simplify_eq. unfold begin_tick. by repeat case_match.
  - simplify_eq. unfold visit. by repeat case_match.
  - simplify_eq. unfold reconcile. by repeat case_match.
  - apply bind_Some in Hs as ([a calls] & _ & [= <-]). done.
  - by simplify_eq.
  - destruct (ct_hubble c); [|by simplify_eq]. destruct (handleFlowDrop _ _ _ _ _ _) as [[] ?]; by simplify_eq.
  - by simplify_eq.
  - destruct (mcp_request_eq env r c) as [e Heq]. simplify_eq. by rewrite Heq.
  - by simplify_eq.
  - unfold disconnect in Hs. case_decide as Hin; [|by simplify_eq]. destruct (Hq3 id Hin) as (s' & Hd & ?).
    rewrite Hd in Hs. by simplify_eq/=.
  - simplify_eq. unfold read_stream. case_decide; [by apply Hq2|done].
  - simplify_eq. unfold dispatch_round. by repeat case_match.
  - by simplify_eq.
  - by simplify_eq.
  - by simplify_eq.
  - by simplify_eq.
Qed.

(** [main] does not hand the changes of the index to the MCP server: in no run
    is a client of the event stream sent an event. *)
Theorem event_stream_silent flags reports c0 ms c id ch :
  main_controller flags reports = Some c0 → run c0 ms = Some c →
  Mcp.channels (ct_stream c) !! id = Some ch → ch_taken ch = [] ∧ ch_buf ch = [].
Proof.
  intros (_ & _ & _ & _ & [_ _ _ Hq] & _)%main_controller_eq Hrun Hch.
  assert (quiet_stream (ct_stream c)) as [cl Hinv].
  { clear Hch. revert c0 Hq Hrun. induction ms as [|m ms IH]; intros c0 Hq; simpl; [by intros [= <-]|].
    intros (c1 & H1 & H2)%bind_Some. apply (IH c1); [by eapply step_stream|done]. }
  destruct (si_channels _ Hinv id) as [span Hsp]; [by eexists|].
  destruct (si_client _ Hinv id span Hsp) as (ch' & ns & Hch' & Hok). simpl in Hch'. simplify_eq.
  apply app_eq_nil. pose proof (cl_sent _ _ _ _ _ Hok) as Hsent. unfold ch_sent in Hsent.
  by destruct Hsent as [|n e ns' l He]; [|simpl in He].
Qed.
End stream.

(** ** The moves of a tick are [processPendingTriggers] *)

Section tick.
Context {AM : Apimachinery} {Q : Quantities} {RL : RateLimiter} {RS : ReportServer}.
Implicit Types c : Controller.

(** [begin_tick] is [processPendingTriggers] up to its loop. *)
Lemma begin_tick_loop σ nss envs c :
  ct_todo c = [] → ct_reading c = None →
  let c1 := begin_tick σ nss c in
  processPendingTriggers (Idx:=Indexer) σ nss envs (ct_reconciler c) = trigger_loop envs (ct_todo c1) (ct_reconciler c1) ∧
  ct_reading c1 = None.
Proof. intros Ht Hr. unfold begin_tick. rewrite Ht, Hr. simpl. by rewrite processPendingTriggers_loop. Qed.

(** A visit and a reconcile with nothing in between are one round of the
    loop, with the answer of the API server. *)
Theorem visit_trigger c ns rest now env done :
  ct_todo c = ns :: rest → ct_reading c = None →
  let c1 := reconcile env done (visit now c) in
  ct_todo c1 = rest ∧ ct_reading c1 = None ∧
  ∃ answer writes,
    trigger_loop (fun _ => mkTriggerEnv now (with_write answer env) (ct_index c) done) [ns] (ct_reconciler c) = (ct_reconciler c1, writes) ∧
    ct_reports c1 = match (serve (ct_reports c) ns writes).1 with Some o => <[ns := o]> (ct_reports c) | None => ct_reports c end.
Proof.
  intros Ht Hr. unfold visit. rewrite Ht, Hr. cbn [trigger_loop te_check te_reconcile te_index te_done].
  destruct (_ <? _)%Z; [unfold reconcile; cbn; split_and!; [done..|]; by exists None, []|].
  set (c1 := set_reporting _ _ _ _ _ c). unfold reconcile. cbn [ct_reading c1 set_reporting].
  change (ct_reconciler c1) with (ct_reconciler c). change (ct_reports c1) with (ct_reports c).
  destruct (serve (ct_reports c) ns _) as [o answer] eqn:Hs. rewrite <-(with_write_writes answer) in Hs.
  destruct (ReconcileNamespace (with_write answer env) (ct_index c) ns (ct_reconciler c)) as [[rr1 writes] err] eqn:Hrn. simpl in Hs.
  split_and!; [done..|]. exists answer, writes. rewrite Hrn, Hs. split; [|done]. by rewrite app_nil_r.
Qed.
End tick.

(** ** Where reports and answers go stale *)

Section stale.
Context {AM : Apimachinery} {Q : Quantities} {RL : RateLimiter} {RS : ReportServer}.
Implicit Types c : Controller.

Definition touches (ns : string) (e : IndexEvent) : Prop :=
  c_Namespace (ie_Constraint e) = EmptyString ∨ c_Namespace (ie_Constraint e) = ns ∨ ns ∈ c_AffectedNamespaces (ie_Constraint e).

Record unvisited (ns : string) (reports : gmap string Unstructured) c : Prop := {
  uv_inflight : ct_inflight c ⊆ ct_log c;
  uv_pending : ns ∉ pendingTriggers (ct_reconciler c);
  uv_wide : clusterWideTriggered (ct_reconciler c) = false;
  uv_todo : ns ∉ ct_todo c;
  uv_reading : ∀ idx, ct_reading c ≠ Some (ns, idx);
  uv_report : ct_reports c !! ns = reports !! ns;
}.

Lemma unvisited_ext ns reports c c' :
  ct_inflight c' = ct_inflight c → ct_log c' = ct_log c → ct_reconciler c' = ct_reconciler c → ct_todo c' = ct_todo c →
  ct_reading c' = ct_reading c → ct_reports c' = ct_reports c → unvisited ns reports c → unvisited ns reports c'.
Proof. intros E1 E2 E3 E4 E5 E6 [H1 H2 H3 H4 H5 H6]. by split; rewrite ?E1, ?E2, ?E3, ?E4, ?E5, ?E6. Qed.

Lemma step_unvisited ns reports c m c' :
  unvisited ns reports c → step c m = Some c' → (∀ e, e ∈ ct_log c' → ¬ touches ns e) → unvisited ns reports c'.
Proof.
  intros Hu Hs Hq. pose proof Hu as [H1 H2 H3 H4 H5 H6]. destruct m; simpl in Hs.
  - apply bind_Some in Hs as ([e ev] & _ & [= <-]). split; simpl; try done. set_solver.
  - destruct (index_step _ _). simplify_eq. split; simpl; try done. set_solver.
  - unfold callback in Hs. destruct (ct_inflight c !! i) as [e|] eqn:Hi; [|by simplify_eq].
    apply bind_Some in Hs as ([a rr] & Ha & [= <-]). apply bind_Some in Ha as (a' & _ & [= <- <-]).
    assert (¬ touches ns e) as He by (apply Hq; simpl; by eapply H1, list_elem_of_lookup_2).
    unfold touches in He. assert (Report.OnIndexChange e (ct_reconciler c) = set_triggers (pendingTriggers (ct_reconciler c) ∪
      list_to_set (c_AffectedNamespaces (ie_Constraint e) ++ [c_Namespace (ie_Constraint e)])%list)
      (clusterWideTriggered (ct_reconciler c)) (ct_reconciler c)) as Heq.
    { unfold Report.OnIndexChange. rewrite bool_decide_eq_false_2 by naive_solver. done. }
    split; simpl; rewrite ?Heq; simpl; try done; [intros x Hx; by eapply H1, list_elem_of_delete_inv|]. set_solver.
  - simplify_eq. unfold begin_tick. destruct (ct_todo c) as [|? ?] eqn:Ht; [|done]. destruct (ct_reading c) eqn:Hr; [done|].
    split; simpl; try done. rewrite shuffle_perm, elem_of_elements. unfold visited. by rewrite H3.
  - simplify_eq. unfold visit. destruct (ct_todo c) as [|x rest] eqn:Ht; [done|]. destruct (ct_reading c) eqn:Hr; [done|].
    destruct (_ <? _)%Z; split; simpl; try done; try set_solver.
  - simplify_eq. destruct (ct_reading c) as [[x idx]|] eqn:Hr; [|unfold reconcile; by rewrite Hr].
    destruct (reconcile_cases env done c x idx Hr) as (e & last & rs & lost & -> & _ & Hcase). split; simpl; try done.
    rewrite <-H6. destruct Hcase as [[-> _]|(o & -> & _)]; [done|]. rewrite lookup_insert_ne; [done|]. intros ->. by apply (H5 idx).
  - apply bind_Some in Hs as ([a calls] & _ & [= <-]). by apply (unvisited_ext ns reports c).
  - simplify_eq. by apply (unvisited_ext ns reports c).
  - destruct (ct_hubble c); [|by simplify_eq].
    destruct (handleFlowDrop _ _ _ _ _ _) as [[] ?]; simplify_eq; by apply (unvisited_ext ns reports c).
  - simplify_eq. by apply (unvisited_ext ns reports c).
  - destruct (mcp_request_eq env r c) as [e Heq]. simplify_eq. rewrite Heq. by apply (unvisited_ext ns reports c).
  - simplify_eq. by apply (unvisited_ext ns reports c).
  - apply disconnect_eq in Hs as (s & _ & ->). by apply (unvisited_ext ns reports c).
  - destruct (read_stream_eq id c) as (s & _ & Heq). simplify_eq. rewrite Heq. by apply (unvisited_ext ns reports c).
  - simplify_eq. unfold dispatch_round. repeat case_match; try done; by apply (unvisited_ext ns reports c).
  - simplify_eq. by apply (unvisited_ext ns reports c).
  - simplify_eq. by apply (unvisited_ext ns reports c).
  - simplify_eq. by split.
  - simplify_eq. by apply (unvisited_ext ns reports c).
Qed.

(** A report that an earlier process has left is only written again after a
    change that names its namespace, or one of a cluster-scoped constraint:
    constraints that were deleted while no controller ran stay in it. *)
Theorem restart_report_kept flags reports c0 ms c ns :
  main_controller flags reports = Some c0 → run c0 ms = Some c →
  (∀ e, e ∈ ct_log c → ¬ touches ns e) → ct_reports c !! ns = reports !! ns.
Proof.
  intros H0 Hrun Hq. assert (unvisited ns reports c0) as Hu.
  { unfold main_controller in H0. rewrite main_registry_eq in H0. cbn [mbind option_bind] in H0. injection H0 as <-. split; simpl; set_solver. }
  enough (unvisited ns reports c) as [_ _ _ _ _ ?] by done. clear H0. revert c0 Hu Hrun.
  induction ms as [|m ms IH]; intros c0 Hu; simpl; [by intros [= <-]|].
  intros (c1 & H1 & H2)%bind_Some. apply (IH c1); [|done]. eapply step_unvisited; [done..|].
  intros e He. apply Hq. by eapply run_log.
Qed.

(** The change of a constraint that stops to apply to a namespace does not
    reach the report of that namespace: the event has the new scope only. *)
Theorem narrowed_scope_stale ns c k old now :
  settled ns c → onChange (ct_index c) = true → is_open (pl_annotator (ct_annotator c)) →
  byUID (ct_index c) !! c_UID k = Some old → matchesNamespace old ns = true → matchesNamespace k ns = false →
  ∃ c', run c [MIndex (OpUpsert k); MCallback 0 now] = Some c' ∧ settled ns c' ∧ ct_reports c' = ct_reports c ∧
    view ns (ct_index c') !! c_UID k = None ∧ view ns (ct_index c) !! c_UID k = Some old.
Proof.
  intros (Hf & Hp & Hw & Ht & Hr) Hcb Ho Hold Hm Hk. rewrite <-not_true_iff_false, matchesNamespace_spec in Hk.
  cbn [run step index_step Upsert]. unfold notify. cbn [onChange]. rewrite Hcb. simpl mbind. unfold callback. cbn [changed ct_inflight]. rewrite Hf.
  cbn [lookup list_lookup app]. unfold on_index_event. cbn [changed ct_annotator ct_reconciler].
  destruct (OnIndexChange_offers now (mkIndexEvent "upsert" k) (pl_annotator (ct_annotator c)) Ho) as (a & -> & _). simpl mbind.
  eexists. split; [done|]. split_and!; simpl; [|done| |].
  - unfold settled. simpl. split_and!; try done; unfold Report.OnIndexChange; rewrite bool_decide_eq_false_2 by naive_solver; simpl; [set_solver|done].
  - unfold view, ct_index. simpl. apply map_lookup_filter_None. right. intros x. rewrite lookup_insert_eq. intros [= <-]. simpl.
    by rewrite matchesNamespace_spec.
  - by apply map_lookup_filter_Some.
Qed.
End stale.

(** A replica that is not the leader runs none of the runnables, but the
    manager serves the API of its index, which is empty: a webhook that asks it
    warns of nothing. *)
Theorem standby_warns_nothing {AM : Apimachinery} {Q : Quantities} {RL : RateLimiter} {RS : ReportServer}
    flags reports c0 σ wire base labels_of req :
  main_controller flags reports = Some c0 → avoids "#"%char base && avoids "?"%char base = true →
  Admission.ar_Warnings (Admission.processRequest labels_of (webhook_client σ (ct_index c0) wire base) (Some req)) = [].
Proof.
  intros (-> & _)%main_controller_eq Hb. unfold Admission.processRequest.
  rewrite webhook_query by done. apply elem_of_nil_inv. intros w (k & Hk & _)%elem_of_buildWarnings.
  apply list_elem_of_fmap in Hk as (k' & _ & Hk). case_bool_decide.
  - apply elem_of_range_values in Hk as [uid Hu]. by apply (lookup_empty_Some uid k') in Hu.
  - apply elem_of_select in Hk as [[uid Hu] _]. by apply (lookup_empty_Some uid k') in Hu.
Qed.

(** ** Evaluation *)

Definition dev_limit : Constraint :=
  example_constraint "u1" (mkGVR EmptyString "v1" "limitranges") "limits" "dev" ["dev"] ConstraintTypeResourceLimit SeverityInfo.

Definition example_start : Controller := main_state registered default_flags {[ "dev" := report_object "dev" None ]}.

Lemma example_start_eq : main_controller default_flags {[ "dev" := report_object "dev" None ]} = Some example_start.
Proof. unfold main_controller. by rewrite main_registry_eq. Qed.

Definition reached (ms : list move) : Controller := default example_start (run example_start ms).

Lemma reached_run ms : Forall orderly ms → run example_start ms = Some (reached ms).
Proof.
  intros Ho. pose proof (main_controller_eq _ _ _ example_start_eq) as (_ & _ & _ & _ & Hs & _).
  destruct (run_sound example_start ms Hs Ho) as [c Hc]. unfold reached. by rewrite Hc.
Qed.

(** A limit range is added; the reconciler writes the report of its namespace. *)
Definition report_moves : list move :=
  [MIndex (OpUpsert dev_limit); MCallback 0 0; MTick in_order (inl ["dev"]); MVisit late;
   MReconcile (Report.example_env (ReportFound "7") None late) late].

Lemma report_moves_orderly : Forall orderly report_moves.
Proof. repeat constructor. Qed.

Lemma report_moves_settled : settled "dev" (reached report_moves).
Proof.
  unfold settled. split_and!; [vm_compute; reflexivity| |vm_compute; reflexivity| |].
  - apply (bool_decide_unpack _). vm_compute. exact I.
  - apply (bool_decide_unpack _). vm_compute. exact I.
  - intros idx. assert (match ct_reading (reached report_moves) with Some _ => false | None => true end = true) as H by (vm_compute; reflexivity).
    by destruct (ct_reading (reached report_moves)).
Qed.

Lemma report_moves_log : ct_log (reached report_moves) = [mkIndexEvent "upsert" dev_limit].
Proof. vm_compute. reflexivity. Qed.

Lemma report_moves_scope : scope_kept "dev" (ct_log (reached report_moves)).
Proof.
  rewrite report_moves_log. split.
  - intros e ->%list_elem_of_singleton. left. discriminate.
  - intros e e' ->%list_elem_of_singleton ->%list_elem_of_singleton _. reflexivity.
Qed.

Lemma reports_fresh_witness :
  ∃ o rr now, ct_reports (reached report_moves) !! "dev" = Some o ∧
    info_of rr now "dev" dev_limit ∈ Cli.extractConstraints o EmptyString EmptyString EmptyString.
Proof.
  pose proof (reports_fresh default_flags {[ "dev" := report_object "dev" None ]} example_start report_moves
    (reached report_moves) "dev" example_start_eq (reached_run report_moves report_moves_orderly)) as H.
  assert (match ct_reports (reached report_moves) !! "dev" with Some _ => true | None => false end = true) as Ho by (vm_compute; reflexivity).
  destruct (ct_reports (reached report_moves) !! "dev") as [o|]; [|discriminate].
  destruct H as (rr & now & H).
  - repeat constructor. exists ["dev"]. split; [reflexivity|left].
  - exact report_moves_scope.
  - exact report_moves_settled.
  - apply (bool_decide_unpack _). vm_compute. exact I.
  - exists o, rr, now. split; [reflexivity|]. apply H. exists dev_limit. split; [reflexivity|]. split; [|reflexivity].
    exists "u1". vm_compute. reflexivity.
Defined.

Lemma query_and_mcp_agree_witness :
  ∃ o report, ct_reports (reached report_moves) !! "dev" = Some o ∧
    (mcp_request example_mcp_env (Http.mkRequest "GET" "/resources/reports/dev" EmptyString) (reached report_moves)).2 =
      Http.AReport (Mcp.Reply report) ∧
    Mcp.rep_constraintCount report = go_len (Cli.extractConstraints o EmptyString EmptyString EmptyString).
Proof.
  assert (match ct_reports (reached report_moves) !! "dev" with Some _ => true | None => false end = true) as Ho by (vm_compute; reflexivity).
  destruct (ct_reports (reached report_moves) !! "dev") as [o|] eqn:E; [|discriminate]. exists o.
  destruct (query_and_mcp_agree default_flags {[ "dev" := report_object "dev" None ]} example_start report_moves
    (reached report_moves) "dev" example_mcp_env EmptyString o example_start_eq (reached_run report_moves report_moves_orderly))
    as (report & Hr & _ & Hn).
  - repeat constructor. exists ["dev"]. split; [reflexivity|left].
  - exact report_moves_scope.
  - exact report_moves_settled.
  - apply (bool_decide_unpack _). vm_compute. exact I.
  - exact E.
  - discriminate.
  - reflexivity.
  - exists report. split; [reflexivity|]. split; [exact Hr|exact Hn].
Defined.

(** The limit range is added; nothing is written until the tick. *)
Lemma reports_converge_witness :
  let c := reached [MIndex (OpUpsert dev_limit); MCallback 0 0] in
  ∃ c' o rr now, run c (tick_moves in_order ["dev"] (fun _ => mkVisit late (Report.example_env (ReportFound "7") None late) late) c) = Some c' ∧
    ct_reports c' !! "dev" = Some o ∧ info_of rr now "dev" dev_limit ∈ Cli.extractConstraints o EmptyString EmptyString EmptyString.
Proof.
  intros c. assert (ct_log c = [mkIndexEvent "upsert" dev_limit]) as Hlog by (vm_compute; reflexivity).
  destruct (reports_converge default_flags {[ "dev" := report_object "dev" None ]} example_start
    [MIndex (OpUpsert dev_limit); MCallback 0 0] c "dev" in_order ["dev"]
    (fun _ => mkVisit late (Report.example_env (ReportFound "7") None late) late)) as (c' & o & rr & now & Hrun & _ & Ho & Hx).
  - exact example_start_eq.
  - apply reached_run. repeat constructor.
  - repeat constructor.
  - rewrite Hlog, <-report_moves_log. exact report_moves_scope.
  - vm_compute. reflexivity.
  - vm_compute. reflexivity.
  - vm_compute. reflexivity.
  - left. apply (bool_decide_unpack _). vm_compute. exact I.
  - left.
  - split; [vm_compute; discriminate|]. exists "7". split; [reflexivity|]. split; [discriminate|]. intros st. eexists. reflexivity.
  - exists c', o, rr, now. split; [exact Hrun|]. split; [exact Ho|]. apply Hx. exists dev_limit. split; [reflexivity|]. split; [|reflexivity].
    exists "u1". vm_compute. reflexivity.
Defined.

(** A Warning event of a deployment in the namespace of the limit range. *)
Definition event_moves : list move :=
  [MIndex (OpUpsert dev_limit); MEvent "ADDED" example_event in_order 0 quiet_env; MDispatch (mkCall 0 0 0 0 0 None)].

Lemma created_events_justified_witness :
  ∃ b, ct_created (reached event_moves) = [b] ∧
  ∃ k rb message t, matchesNamespace k "dev" = true ∧
    b = BuildEvent rb k DetailLevelSummary (mkWorkload EmptyString "Deployment" "web" "dev" EmptyString) message t.
Proof.
  assert (length (ct_created (reached event_moves)) = 1%nat) as Hlen by (vm_compute; reflexivity).
  destruct (ct_created (reached event_moves)) as [|b [|]] eqn:Hb; [discriminate| |discriminate]. exists b. split; [reflexivity|].
  destruct (created_events_justified default_flags {[ "dev" := report_object "dev" None ]} example_start event_moves
    (reached event_moves) b example_start_eq) as (pre & ty & ev & s & n & en & post & c1 & k & rb & msg & t & Hms & _ & [_ Hm] & Hk).
  - apply reached_run. repeat constructor.
  - rewrite Hb. left.
  - assert (MEvent ty ev s n en ∈ event_moves) as Hin by (rewrite Hms; apply elem_of_app; right; left).
    unfold event_moves in Hin. apply elem_of_cons in Hin as [Hin|Hin]; [discriminate|].
    apply elem_of_cons in Hin as [Hin|Hin]; [|apply list_elem_of_singleton in Hin; discriminate].
    injection Hin as _ -> _ _ _. exists k, rb, msg, t. split; [exact Hm|exact Hk].
Defined.

Lemma controller_never_panics_witness : is_Some (run example_start (report_moves ++ event_moves)).
Proof.
  apply (controller_never_panics default_flags {[ "dev" := report_object "dev" None ]} example_start).
  - exact example_start_eq.
  - repeat constructor.
Defined.

Definition shared_limit (affected : list string) : Constraint :=
  example_constraint "u2" (mkGVR "kyverno.io" "v1" "policies") "shared" "infra" affected ConstraintTypeAdmission SeverityWarning.

Lemma narrowed_scope_stale_witness :
  let c := reached [MIndex (OpUpsert (shared_limit ["dev"])); MCallback 0 0; MTick in_order (inl ["dev"]); MVisit late;
                    MReconcile (Report.example_env (ReportFound "7") None late) late; MVisit late;
                    MReconcile (Report.example_env ReportNotFound None late) late] in
  ∃ c', run c [MIndex (OpUpsert (shared_limit [])); MCallback 0 0] = Some c' ∧ settled "dev" c' ∧ ct_reports c' = ct_reports c.
Proof.
  intros c. destruct (narrowed_scope_stale "dev" c (shared_limit []) (shared_limit ["dev"]) 0) as (c' & Hr & Hs & Hrep & _).
  - unfold settled. split_and!; [vm_compute; reflexivity| |vm_compute; reflexivity| |].
    + apply (bool_decide_unpack _). vm_compute. exact I.
    + apply (bool_decide_unpack _). vm_compute. exact I.
    + intros idx. assert (match ct_reading c with Some _ => false | None => true end = true) as H by (vm_compute; reflexivity).
      destruct (ct_reading c); [discriminate|discriminate].
  - vm_compute. reflexivity.
  - vm_compute. reflexivity.
  - vm_compute. reflexivity.
  - vm_compute. reflexivity.
  - vm_compute. reflexivity.
  - exists c'. split; [exact Hr|]. split; [exact Hs|exact Hrep].
Defined.
