(* ===== verification/ApiObjects.v ===== *)
(** * The API types as structs with references (api/v1alpha1/types.go)

    The other files take a report or a profile as a value.  In the program its
    slices, maps and pointers are references, and a copy of a struct shares
    them.  Here every struct of the package is given twice by one definition:
    [InHeap], where a reference is a location of a [Heap], and [AsValue], where
    it is what it refers to; nil is [None] in both.

    metav1 (k8s.io/apimachinery) is the class [MetaV1]: its time, object and list
    metadata, and the cells that these refer to. *)

From S2P Require Import Prelude GoStd.

Open Scope go_scope.
#[local] Open Scope string_scope.

Module V1.

Inductive mode := InHeap | AsValue.

Definition loc : Type := positive.

Definition slice (m : mode) (A : Type) : Type := match m with InHeap => option loc | AsValue => option (list A) end.
Definition pointer (m : mode) (A : Type) : Type := match m with InHeap => option loc | AsValue => option A end.
Definition gomap (m : mode) (A : Type) : Type := match m with InHeap => option loc | AsValue => option (gmap string A) end.

(** metav1.TypeMeta is two strings. *)
Record TypeMeta := mkTypeMeta { tm_Kind : string; tm_APIVersion : string }.

Class MetaV1 := {
  MTime : Type;
  ObjectMeta : mode -> Type;
  ListMeta : mode -> Type;
  MetaCell : Type;
}.

(** ** Structs without references *)

Record FieldPaths := mkFieldPaths { fp_SelectorPath : string; fp_NamespaceSelectorPath : string; fp_EffectPath : string; fp_SummaryPath : string }.
Record GVRReference := mkGVRReference { gr_Group : string; gr_Version : string; gr_Resource : string }.
Record ObjectReference := mkObjectReference { or_APIVersion : string; or_Kind : string; or_Name : string; or_Namespace : string }.
Record WorkloadReference := mkWorkloadReference { wr_Kind : string; wr_Name : string; wr_MatchReason : string }.
Record RemediationStep := mkRemediationStep {
  rs_Type : string; rs_Description : string; rs_Command : string; rs_Patch : string; rs_Template : string; rs_URL : string;
  rs_Contact : string; rs_RequiresPrivilege : string }.
Record ResourceMetric := mkResourceMetric { rm_Hard : string; rm_Used : string; rm_Unit : string; rm_PercentUsed : float64 }.
Record NotificationScope := mkNotificationScope {
  ns_ShowConstraintType : bool; ns_ShowConstraintName : string; ns_ShowAffectedPorts : bool; ns_ShowRemediationContact : bool;
  ns_Contact : string; ns_MaxDetailLevel : string }.
Record SlackConfig := mkSlackConfig { sk_Enabled : bool; sk_WebhookURL : string; sk_MinSeverity : string }.
Record WebhookConfig := mkWebhookConfig { wh_Enabled : bool; wh_URL : string }.

(** ** Structs with references *)

Section structs.
Context {MV : MetaV1} (m : mode).

Record RemediationInfo := mkRemediationInfo { ri_Summary : string; ri_Steps : slice m RemediationStep }.

Record MissingResourceEntry := mkMissingResourceEntry {
  mi_ExpectedKind : string; mi_ExpectedAPIVersion : string; mi_Reason : string; mi_Severity : string;
  mi_ForWorkload : WorkloadReference; mi_Remediation : RemediationInfo }.

Record MachineConstraintEntry := mkMachineConstraintEntry {
  mc_UID : string; mc_Name : string; mc_ConstraintType : string; mc_Severity : string; mc_Effect : string;
  mc_SourceRef : ObjectReference; mc_AffectedWorkloads : slice m WorkloadReference; mc_Remediation : RemediationInfo;
  mc_Metrics : gomap m ResourceMetric; mc_Tags : slice m string; mc_LastObserved : MTime }.

Record MachineReadableReport := mkMachineReadableReport {
  mr_SchemaVersion : string; mr_GeneratedAt : MTime; mr_DetailLevel : string;
  mr_Constraints : slice m MachineConstraintEntry; mr_MissingResources : slice m MissingResourceEntry; mr_Tags : slice m string }.

Record ConstraintEntry := mkConstraintEntry {
  ce_Name : string; ce_Type : string; ce_Severity : string; ce_AffectedWorkloads : slice m string; ce_Message : string;
  ce_Source : string; ce_LastSeen : MTime }.

Record ConstraintReportStatus := mkConstraintReportStatus {
  st_ConstraintCount : Z; st_CriticalCount : Z; st_WarningCount : Z; st_InfoCount : Z;
  st_Constraints : slice m ConstraintEntry; st_MachineReadable : pointer m MachineReadableReport; st_LastUpdated : MTime }.

Record ConstraintReport := mkConstraintReport {
  cr_TypeMeta : TypeMeta; cr_ObjectMeta : ObjectMeta m; cr_Status : ConstraintReportStatus }.

Record ConstraintReportList := mkConstraintReportList {
  crl_TypeMeta : TypeMeta; crl_ListMeta : ListMeta m; crl_Items : slice m ConstraintReport }.

Record ConstraintProfileSpec := mkConstraintProfileSpec {
  ps_GVR : GVRReference; ps_Adapter : string; ps_Enabled : bool; ps_Severity : string;
  ps_DebounceSeconds : pointer m Z; ps_FieldPaths : pointer m FieldPaths }.

Record ConstraintProfile := mkConstraintProfile {
  cp_TypeMeta : TypeMeta; cp_ObjectMeta : ObjectMeta m; cp_Spec : ConstraintProfileSpec }.

Record ConstraintProfileList := mkConstraintProfileList {
  cpl_TypeMeta : TypeMeta; cpl_ListMeta : ListMeta m; cpl_Items : slice m ConstraintProfile }.

Record NotificationChannels := mkNotificationChannels { nc_Slack : pointer m SlackConfig; nc_Webhook : pointer m WebhookConfig }.

Record NotificationPolicySpec := mkNotificationPolicySpec {
  np_DeveloperScope : NotificationScope; np_PlatformAdminScope : NotificationScope; np_PlatformAdminRoles : slice m string;
  np_Channels : NotificationChannels }.

Record NotificationPolicy := mkNotificationPolicy {
  no_TypeMeta : TypeMeta; no_ObjectMeta : ObjectMeta m; no_Spec : NotificationPolicySpec }.

Record NotificationPolicyList := mkNotificationPolicyList {
  npl_TypeMeta : TypeMeta; npl_ListMeta : ListMeta m; npl_Items : slice m NotificationPolicy }.
End structs.

(** ** All of them *)

Inductive ApiType :=
  | TConstraintEntry | TConstraintProfile | TConstraintProfileList | TConstraintProfileSpec | TConstraintReport
  | TConstraintReportList | TConstraintReportStatus | TFieldPaths | TGVRReference | TMachineConstraintEntry
  | TMachineReadableReport | TMissingResourceEntry | TNotificationChannels | TNotificationPolicy | TNotificationPolicyList
  | TNotificationPolicySpec | TNotificationScope | TObjectReference | TRemediationInfo | TRemediationStep
  | TResourceMetric | TSlackConfig | TWebhookConfig | TWorkloadReference.

#[export] Instance ApiType_eq_dec : EqDecision ApiType.
Proof. solve_decision. Defined.

Definition struct {MV : MetaV1} (t : ApiType) (m : mode) : Type :=
  match t with
  | TConstraintEntry => ConstraintEntry m
  | TConstraintProfile => ConstraintProfile m
  | TConstraintProfileList => ConstraintProfileList m
  | TConstraintProfileSpec => ConstraintProfileSpec m
  | TConstraintReport => ConstraintReport m
  | TConstraintReportList => ConstraintReportList m
  | TConstraintReportStatus => ConstraintReportStatus m
  | TFieldPaths => FieldPaths
  | TGVRReference => GVRReference
  | TMachineConstraintEntry => MachineConstraintEntry m
  | TMachineReadableReport => MachineReadableReport m
  | TMissingResourceEntry => MissingResourceEntry m
  | TNotificationChannels => NotificationChannels m
  | TNotificationPolicy => NotificationPolicy m
  | TNotificationPolicyList => NotificationPolicyList m
  | TNotificationPolicySpec => NotificationPolicySpec m
  | TNotificationScope => NotificationScope
  | TObjectReference => ObjectReference
  | TRemediationInfo => RemediationInfo m
  | TRemediationStep => RemediationStep
  | TResourceMetric => ResourceMetric
  | TSlackConfig => SlackConfig
  | TWebhookConfig => WebhookConfig
  | TWorkloadReference => WorkloadReference
  end.

(** ** groupversion_info.go *)

Definition GroupVersion : string * string := ("nightjar.io", "v1alpha1").

(** The types that [init] registers: those with a [DeepCopyObject]. *)
Definition registered : list ApiType :=
  [TConstraintReport; TConstraintReportList; TConstraintProfile; TConstraintProfileList; TNotificationPolicy; TNotificationPolicyList].
End V1.
