(* ===== verification/DeepCopy.v ===== *)
(** * Deep copies of the API objects (api/v1alpha1/zz_generated.deepcopy.go)

    The copies that controller-runtime's cache hands out: without them a
    controller that changes an object it has read would change the cache.  The
    generated functions run on a heap; [read] is the value of a struct in a heap.
    What is shown: every copy has the value of its original, lives in cells of its
    own, and the heap of the original is left as it was. *)

From S2P Require Import Prelude GoStd ApiObjects.
From Stdlib Require Import Eqdep_dec.

Open Scope go_scope.
#[local] Open Scope string_scope.

Module Copy.
Import V1.

(** ** The heap *)

Section cells.
Context {MV : MetaV1}.

Inductive Cell :=
  | CStruct (t : ApiType) (x : struct t InHeap)
  | CArray (t : ApiType) (a : list (struct t InHeap))
  | CStrings (a : list string)
  | CInt (z : Z)
  | CMetrics (x : gmap string ResourceMetric)
  | CMeta (c : MetaCell).

End cells.

Abbreviation Heap := (gmap loc Cell) (only parsing).

Section heap.
Context {MV : MetaV1}.

(** A computation on the heap; [None] is a nil or dangling dereference. *)
Definition M (A : Type) : Type := Heap -> option (A * Heap).

#[export] Instance M_ret : MRet M := fun A a h => Some (a, h).
#[export] Instance M_bind : MBind M := fun A B f m h => match m h with Some (a, h') => f a h' | None => None end.

(** What a cell may hold. *)
Class Storable (A : Type) := { put : A -> Cell; get : Cell -> option A; get_put : forall a, get (put a) = Some a }.

Definition load {A} `{Storable A} (l : loc) : M A := fun h => c ← h !! l; a ← get c; Some (a, h).
Definition new {A} `{Storable A} (a : A) : M loc := fun h => let l := fresh (dom h) in Some (l, <[l := put a]> h).
Definition store {A} `{Storable A} (l : loc) (a : A) : M unit := fun h => Some (tt, <[l := put a]> h).

Definition as_struct (t : ApiType) (c : Cell) : option (struct t InHeap) :=
  match c with
  | CStruct t' x => match decide (t' = t) with left e => Some (eq_rect t' (fun t => struct t InHeap) x t e) | right _ => None end
  | _ => None
  end.
Definition as_array (t : ApiType) (c : Cell) : option (list (struct t InHeap)) :=
  match c with
  | CArray t' a => match decide (t' = t) with left e => Some (eq_rect t' (fun t => list (struct t InHeap)) a t e) | right _ => None end
  | _ => None
  end.

Lemma decide_refl_rect {P : ApiType -> Type} t (x : P t) :
  match decide (t = t) with left e => Some (eq_rect t P x t e) | right _ => None end = Some x.
Proof.
  destruct (decide (t = t)) as [e|n]; [|done]. f_equal. symmetry. apply eq_rect_eq_dec. intros a b. destruct (decide (a = b)); auto.
Qed.

#[export] Instance struct_storable t : Storable (struct t InHeap) := {| put := CStruct t; get := as_struct t; get_put := decide_refl_rect t |}.
#[export] Instance array_storable t : Storable (list (struct t InHeap)) := {| put := CArray t; get := as_array t; get_put := decide_refl_rect t |}.
#[export] Instance strings_storable : Storable (list string) :=
  {| put := CStrings; get c := match c with CStrings a => Some a | _ => None end; get_put _ := eq_refl |}.
#[export] Instance int_storable : Storable Z :=
  {| put := CInt; get c := match c with CInt z => Some z | _ => None end; get_put _ := eq_refl |}.
#[export] Instance metrics_storable : Storable (gmap string ResourceMetric) :=
  {| put := CMetrics; get c := match c with CMetrics x => Some x | _ => None end; get_put _ := eq_refl |}.
#[export] Instance meta_storable : Storable MetaCell :=
  {| put := CMeta; get c := match c with CMeta x => Some x | _ => None end; get_put _ := eq_refl |}.

(** ** Values *)

Definition peek {A} `{Storable A} (h : Heap) (l : loc) : option A := c ← h !! l; get c.

(** The value behind a reference, nil included. *)
Definition read_ref {A V} `{Storable A} (r : Heap -> A -> option V) (h : Heap) (p : option loc) : option (option V) :=
  match p with
  | None => Some None
  | Some l => a ← peek h l; v ← r h a; Some (Some v)
  end.

Definition plain {A} (h : Heap) (a : A) : option A := Some a.
Definition read_all {A V} (r : Heap -> A -> option V) (h : Heap) (a : list A) : option (list V) := mapM (r h) a.

(** ** The shapes of the generated code *)

(** [*out = make([]T, len( *in)); copy( *out, *in)], [*out = new(T); **out = **in] *)
Definition copy_cell (A : Type) `{Storable A} (p : option loc) : M (option loc) :=
  match p with
  | None => mret None
  | Some l => a ← load (A:=A) l; l' ← new a; mret (Some l')
  end.

(** [*out = new(T); ( *in).DeepCopyInto( *out)]: the copy starts with
    [*out = *in]. *)
Definition copy_struct (t : ApiType) (f : struct t InHeap -> M (struct t InHeap)) (p : option loc) : M (option loc) :=
  match p with
  | None => mret None
  | Some l => x ← load (A:=struct t InHeap) l; l' ← new x; x' ← f x; store l' x';; mret (Some l')
  end.

(** [for i := range *in { ( *in)[i].DeepCopyInto(&( *out)[i]) }] *)
Fixpoint fill (t : ApiType) (f : struct t InHeap -> M (struct t InHeap)) (l' : loc) (i : nat) (xs : list (struct t InHeap)) : M unit :=
  match xs with
  | [] => mret tt
  | x :: xs => x' ← f x; a ← load (A:=list (struct t InHeap)) l'; store l' (<[i := x']> a);; fill t f l' (S i) xs
  end.

(** The zero values that [make] puts into the array are never read. *)
Definition copy_array (t : ApiType) (f : struct t InHeap -> M (struct t InHeap)) (p : option loc) : M (option loc) :=
  match p with
  | None => mret None
  | Some l => xs ← load (A:=list (struct t InHeap)) l; l' ← new xs; fill t f l' 0 xs;; mret (Some l')
  end.

(** [for key, val := range *in { ( *out)[key] = val }] *)
Definition copy_metrics (σ : Shuffle) (p : option loc) : M (option loc) :=
  match p with
  | None => mret None
  | Some l =>
      x ← load (A:=gmap string ResourceMetric) l;
      l' ← new (foldl (fun acc kv => <[kv.1 := kv.2]> acc) (∅ : gmap string ResourceMetric) (range σ x));
      mret (Some l')
  end.
End heap.

(** metav1's own copies. *)
Class MetaOps {MV : MetaV1} := {
  Time_DeepCopyInto : MTime -> MTime;
  ObjectMeta_DeepCopyInto : ObjectMeta InHeap -> M (ObjectMeta InHeap);
  ListMeta_DeepCopyInto : ListMeta InHeap -> M (ListMeta InHeap);
  read_ObjectMeta : Heap -> ObjectMeta InHeap -> option (ObjectMeta AsValue);
  read_ListMeta : Heap -> ListMeta InHeap -> option (ListMeta AsValue);
}.

(** ** zz_generated.deepcopy.go *)

Section copies.
Context {MV : MetaV1} {MO : MetaOps} (σ : Shuffle).

(** Structs without references: [*out = *in]. *)
Definition FieldPaths_DeepCopyInto (x : FieldPaths) : M FieldPaths := mret x.
Definition GVRReference_DeepCopyInto (x : GVRReference) : M GVRReference := mret x.
Definition NotificationScope_DeepCopyInto (x : NotificationScope) : M NotificationScope := mret x.
Definition ObjectReference_DeepCopyInto (x : ObjectReference) : M ObjectReference := mret x.
Definition RemediationStep_DeepCopyInto (x : RemediationStep) : M RemediationStep := mret x.
Definition ResourceMetric_DeepCopyInto (x : ResourceMetric) : M ResourceMetric := mret x.
Definition SlackConfig_DeepCopyInto (x : SlackConfig) : M SlackConfig := mret x.
Definition WebhookConfig_DeepCopyInto (x : WebhookConfig) : M WebhookConfig := mret x.
Definition WorkloadReference_DeepCopyInto (x : WorkloadReference) : M WorkloadReference := mret x.

Definition ConstraintEntry_DeepCopyInto (x : ConstraintEntry InHeap) : M (ConstraintEntry InHeap) :=
  workloads ← copy_cell (list string) (ce_AffectedWorkloads _ x);
  mret (mkConstraintEntry InHeap (ce_Name _ x) (ce_Type _ x) (ce_Severity _ x) workloads (ce_Message _ x) (ce_Source _ x)
          (Time_DeepCopyInto (ce_LastSeen _ x))).

Definition RemediationInfo_DeepCopyInto (x : RemediationInfo InHeap) : M (RemediationInfo InHeap) :=
  steps ← copy_cell (list (struct TRemediationStep InHeap)) (ri_Steps _ x);
  mret (mkRemediationInfo InHeap (ri_Summary _ x) steps).

Definition MissingResourceEntry_DeepCopyInto (x : MissingResourceEntry InHeap) : M (MissingResourceEntry InHeap) :=
  remediation ← RemediationInfo_DeepCopyInto (mi_Remediation _ x);
  mret (mkMissingResourceEntry InHeap (mi_ExpectedKind _ x) (mi_ExpectedAPIVersion _ x) (mi_Reason _ x) (mi_Severity _ x)
          (mi_ForWorkload _ x) remediation).

Definition MachineConstraintEntry_DeepCopyInto (x : MachineConstraintEntry InHeap) : M (MachineConstraintEntry InHeap) :=
  workloads ← copy_cell (list (struct TWorkloadReference InHeap)) (mc_AffectedWorkloads _ x);
  remediation ← RemediationInfo_DeepCopyInto (mc_Remediation _ x);
  metrics ← copy_metrics σ (mc_Metrics _ x);
  tags ← copy_cell (list string) (mc_Tags _ x);
  mret (mkMachineConstraintEntry InHeap (mc_UID _ x) (mc_Name _ x) (mc_ConstraintType _ x) (mc_Severity _ x) (mc_Effect _ x)
          (mc_SourceRef _ x) workloads remediation metrics tags (Time_DeepCopyInto (mc_LastObserved _ x))).

Definition MachineReadableReport_DeepCopyInto (x : MachineReadableReport InHeap) : M (MachineReadableReport InHeap) :=
  constraints ← copy_array TMachineConstraintEntry MachineConstraintEntry_DeepCopyInto (mr_Constraints _ x);
  missing ← copy_array TMissingResourceEntry MissingResourceEntry_DeepCopyInto (mr_MissingResources _ x);
  tags ← copy_cell (list string) (mr_Tags _ x);
  mret (mkMachineReadableReport InHeap (mr_SchemaVersion _ x) (Time_DeepCopyInto (mr_GeneratedAt _ x)) (mr_DetailLevel _ x)
          constraints missing tags).

Definition ConstraintReportStatus_DeepCopyInto (x : ConstraintReportStatus InHeap) : M (ConstraintReportStatus InHeap) :=
  constraints ← copy_array TConstraintEntry ConstraintEntry_DeepCopyInto (st_Constraints _ x);
  machine ← copy_struct TMachineReadableReport MachineReadableReport_DeepCopyInto (st_MachineReadable _ x);
  mret (mkConstraintReportStatus InHeap (st_ConstraintCount _ x) (st_CriticalCount _ x) (st_WarningCount _ x) (st_InfoCount _ x)
          constraints machine (Time_DeepCopyInto (st_LastUpdated _ x))).

Definition ConstraintReport_DeepCopyInto (x : ConstraintReport InHeap) : M (ConstraintReport InHeap) :=
  meta ← ObjectMeta_DeepCopyInto (cr_ObjectMeta _ x);
  status ← ConstraintReportStatus_DeepCopyInto (cr_Status _ x);
  mret (mkConstraintReport InHeap (cr_TypeMeta _ x) meta status).

Definition ConstraintReportList_DeepCopyInto (x : ConstraintReportList InHeap) : M (ConstraintReportList InHeap) :=
  meta ← ListMeta_DeepCopyInto (crl_ListMeta _ x);
  items ← copy_array TConstraintReport ConstraintReport_DeepCopyInto (crl_Items _ x);
  mret (mkConstraintReportList InHeap (crl_TypeMeta _ x) meta items).

Definition ConstraintProfileSpec_DeepCopyInto (x : ConstraintProfileSpec InHeap) : M (ConstraintProfileSpec InHeap) :=
  seconds ← copy_cell Z (ps_DebounceSeconds _ x);
  paths ← copy_cell (struct TFieldPaths InHeap) (ps_FieldPaths _ x);
  mret (mkConstraintProfileSpec InHeap (ps_GVR _ x) (ps_Adapter _ x) (ps_Enabled _ x) (ps_Severity _ x) seconds paths).

Definition ConstraintProfile_DeepCopyInto (x : ConstraintProfile InHeap) : M (ConstraintProfile InHeap) :=
  meta ← ObjectMeta_DeepCopyInto (cp_ObjectMeta _ x);
  spec ← ConstraintProfileSpec_DeepCopyInto (cp_Spec _ x);
  mret (mkConstraintProfile InHeap (cp_TypeMeta _ x) meta spec).

Definition ConstraintProfileList_DeepCopyInto (x : ConstraintProfileList InHeap) : M (ConstraintProfileList InHeap) :=
  meta ← ListMeta_DeepCopyInto (cpl_ListMeta _ x);
  items ← copy_array TConstraintProfile ConstraintProfile_DeepCopyInto (cpl_Items _ x);
  mret (mkConstraintProfileList InHeap (cpl_TypeMeta _ x) meta items).

Definition NotificationChannels_DeepCopyInto (x : NotificationChannels InHeap) : M (NotificationChannels InHeap) :=
  slack ← copy_cell (struct TSlackConfig InHeap) (nc_Slack _ x);
  webhook ← copy_cell (struct TWebhookConfig InHeap) (nc_Webhook _ x);
  mret (mkNotificationChannels InHeap slack webhook).

Definition NotificationPolicySpec_DeepCopyInto (x : NotificationPolicySpec InHeap) : M (NotificationPolicySpec InHeap) :=
  roles ← copy_cell (list string) (np_PlatformAdminRoles _ x);
  channels ← NotificationChannels_DeepCopyInto (np_Channels _ x);
  mret (mkNotificationPolicySpec InHeap (np_DeveloperScope _ x) (np_PlatformAdminScope _ x) roles channels).

Definition NotificationPolicy_DeepCopyInto (x : NotificationPolicy InHeap) : M (NotificationPolicy InHeap) :=
  meta ← ObjectMeta_DeepCopyInto (no_ObjectMeta _ x);
  spec ← NotificationPolicySpec_DeepCopyInto (no_Spec _ x);
  mret (mkNotificationPolicy InHeap (no_TypeMeta _ x) meta spec).

Definition NotificationPolicyList_DeepCopyInto (x : NotificationPolicyList InHeap) : M (NotificationPolicyList InHeap) :=
  meta ← ListMeta_DeepCopyInto (npl_ListMeta _ x);
  items ← copy_array TNotificationPolicy NotificationPolicy_DeepCopyInto (npl_Items _ x);
  mret (mkNotificationPolicyList InHeap (npl_TypeMeta _ x) meta items).

(** The method by its receiver's type. *)
Definition DeepCopyInto (t : ApiType) : struct t InHeap -> M (struct t InHeap) :=
  match t with
  | TConstraintEntry => ConstraintEntry_DeepCopyInto
  | TConstraintProfile => ConstraintProfile_DeepCopyInto
  | TConstraintProfileList => ConstraintProfileList_DeepCopyInto
  | TConstraintProfileSpec => ConstraintProfileSpec_DeepCopyInto
  | TConstraintReport => ConstraintReport_DeepCopyInto
  | TConstraintReportList => ConstraintReportList_DeepCopyInto
  | TConstraintReportStatus => ConstraintReportStatus_DeepCopyInto
  | TFieldPaths => FieldPaths_DeepCopyInto
  | TGVRReference => GVRReference_DeepCopyInto
  | TMachineConstraintEntry => MachineConstraintEntry_DeepCopyInto
  | TMachineReadableReport => MachineReadableReport_DeepCopyInto
  | TMissingResourceEntry => MissingResourceEntry_DeepCopyInto
  | TNotificationChannels => NotificationChannels_DeepCopyInto
  | TNotificationPolicy => NotificationPolicy_DeepCopyInto
  | TNotificationPolicyList => NotificationPolicyList_DeepCopyInto
  | TNotificationPolicySpec => NotificationPolicySpec_DeepCopyInto
  | TNotificationScope => NotificationScope_DeepCopyInto
  | TObjectReference => ObjectReference_DeepCopyInto
  | TRemediationInfo => RemediationInfo_DeepCopyInto
  | TRemediationStep => RemediationStep_DeepCopyInto
  | TResourceMetric => ResourceMetric_DeepCopyInto
  | TSlackConfig => SlackConfig_DeepCopyInto
  | TWebhookConfig => WebhookConfig_DeepCopyInto
  | TWorkloadReference => WorkloadReference_DeepCopyInto
  end.

(** [DeepCopy]: nil for nil, otherwise [out := new(T); in.DeepCopyInto(out)]. *)
Definition DeepCopy (t : ApiType) (p : option loc) : M (option loc) := copy_struct t (DeepCopyInto t) p.

(** [DeepCopyObject] of the [registered] types: a nil pointer gives a nil
    interface. *)
Definition DeepCopyObject (t : ApiType) (p : option loc) : M (option (ApiType * loc)) :=
  c ← DeepCopy t p;
  match c with Some l => mret (Some (t, l)) | None => mret None end.

(** ** The values of the structs *)

Definition read_entry (h : Heap) (x : ConstraintEntry InHeap) : option (ConstraintEntry AsValue) :=
  workloads ← read_ref (A:=list string) plain h (ce_AffectedWorkloads _ x);
  Some (mkConstraintEntry AsValue (ce_Name _ x) (ce_Type _ x) (ce_Severity _ x) workloads (ce_Message _ x) (ce_Source _ x) (ce_LastSeen _ x)).

Definition read_remediation (h : Heap) (x : RemediationInfo InHeap) : option (RemediationInfo AsValue) :=
  steps ← read_ref (A:=list (struct TRemediationStep InHeap)) plain h (ri_Steps _ x);
  Some (mkRemediationInfo AsValue (ri_Summary _ x) steps).

Definition read_missing (h : Heap) (x : MissingResourceEntry InHeap) : option (MissingResourceEntry AsValue) :=
  remediation ← read_remediation h (mi_Remediation _ x);
  Some (mkMissingResourceEntry AsValue (mi_ExpectedKind _ x) (mi_ExpectedAPIVersion _ x) (mi_Reason _ x) (mi_Severity _ x)
          (mi_ForWorkload _ x) remediation).

Definition read_machine_entry (h : Heap) (x : MachineConstraintEntry InHeap) : option (MachineConstraintEntry AsValue) :=
  workloads ← read_ref (A:=list (struct TWorkloadReference InHeap)) plain h (mc_AffectedWorkloads _ x);
  remediation ← read_remediation h (mc_Remediation _ x);
  metrics ← read_ref (A:=gmap string ResourceMetric) plain h (mc_Metrics _ x);
  tags ← read_ref (A:=list string) plain h (mc_Tags _ x);
  Some (mkMachineConstraintEntry AsValue (mc_UID _ x) (mc_Name _ x) (mc_ConstraintType _ x) (mc_Severity _ x) (mc_Effect _ x)
          (mc_SourceRef _ x) workloads remediation metrics tags (mc_LastObserved _ x)).

Definition read_machine (h : Heap) (x : MachineReadableReport InHeap) : option (MachineReadableReport AsValue) :=
  constraints ← read_ref (A:=list (struct TMachineConstraintEntry InHeap)) (read_all read_machine_entry) h (mr_Constraints _ x);
  missing ← read_ref (A:=list (struct TMissingResourceEntry InHeap)) (read_all read_missing) h (mr_MissingResources _ x);
  tags ← read_ref (A:=list string) plain h (mr_Tags _ x);
  Some (mkMachineReadableReport AsValue (mr_SchemaVersion _ x) (mr_GeneratedAt _ x) (mr_DetailLevel _ x) constraints missing tags).

Definition read_status (h : Heap) (x : ConstraintReportStatus InHeap) : option (ConstraintReportStatus AsValue) :=
  constraints ← read_ref (A:=list (struct TConstraintEntry InHeap)) (read_all read_entry) h (st_Constraints _ x);
  machine ← read_ref (A:=struct TMachineReadableReport InHeap) read_machine h (st_MachineReadable _ x);
  Some (mkConstraintReportStatus AsValue (st_ConstraintCount _ x) (st_CriticalCount _ x) (st_WarningCount _ x) (st_InfoCount _ x)
          constraints machine (st_LastUpdated _ x)).

Definition read_report (h : Heap) (x : ConstraintReport InHeap) : option (ConstraintReport AsValue) :=
  meta ← read_ObjectMeta h (cr_ObjectMeta _ x);
  status ← read_status h (cr_Status _ x);
  Some (mkConstraintReport AsValue (cr_TypeMeta _ x) meta status).

Definition read_reports (h : Heap) (x : ConstraintReportList InHeap) : option (ConstraintReportList AsValue) :=
  meta ← read_ListMeta h (crl_ListMeta _ x);
  items ← read_ref (A:=list (struct TConstraintReport InHeap)) (read_all read_report) h (crl_Items _ x);
  Some (mkConstraintReportList AsValue (crl_TypeMeta _ x) meta items).

Definition read_profile_spec (h : Heap) (x : ConstraintProfileSpec InHeap) : option (ConstraintProfileSpec AsValue) :=
  seconds ← read_ref (A:=Z) plain h (ps_DebounceSeconds _ x);
  paths ← read_ref (A:=struct TFieldPaths InHeap) plain h (ps_FieldPaths _ x);
  Some (mkConstraintProfileSpec AsValue (ps_GVR _ x) (ps_Adapter _ x) (ps_Enabled _ x) (ps_Severity _ x) seconds paths).

Definition read_profile (h : Heap) (x : ConstraintProfile InHeap) : option (ConstraintProfile AsValue) :=
  meta ← read_ObjectMeta h (cp_ObjectMeta _ x);
  spec ← read_profile_spec h (cp_Spec _ x);
  Some (mkConstraintProfile AsValue (cp_TypeMeta _ x) meta spec).

Definition read_profiles (h : Heap) (x : ConstraintProfileList InHeap) : option (ConstraintProfileList AsValue) :=
  meta ← read_ListMeta h (cpl_ListMeta _ x);
  items ← read_ref (A:=list (struct TConstraintProfile InHeap)) (read_all read_profile) h (cpl_Items _ x);
  Some (mkConstraintProfileList AsValue (cpl_TypeMeta _ x) meta items).

Definition read_channels (h : Heap) (x : NotificationChannels InHeap) : option (NotificationChannels AsValue) :=
  slack ← read_ref (A:=struct TSlackConfig InHeap) plain h (nc_Slack _ x);
  webhook ← read_ref (A:=struct TWebhookConfig InHeap) plain h (nc_Webhook _ x);
  Some (mkNotificationChannels AsValue slack webhook).

Definition read_policy_spec (h : Heap) (x : NotificationPolicySpec InHeap) : option (NotificationPolicySpec AsValue) :=
  roles ← read_ref (A:=list string) plain h (np_PlatformAdminRoles _ x);
  channels ← read_channels h (np_Channels _ x);
  Some (mkNotificationPolicySpec AsValue (np_DeveloperScope _ x) (np_PlatformAdminScope _ x) roles channels).

Definition read_policy (h : Heap) (x : NotificationPolicy InHeap) : option (NotificationPolicy AsValue) :=
  meta ← read_ObjectMeta h (no_ObjectMeta _ x);
  spec ← read_policy_spec h (no_Spec _ x);
  Some (mkNotificationPolicy AsValue (no_TypeMeta _ x) meta spec).

Definition read_policies (h : Heap) (x : NotificationPolicyList InHeap) : option (NotificationPolicyList AsValue) :=
  meta ← read_ListMeta h (npl_ListMeta _ x);
  items ← read_ref (A:=list (struct TNotificationPolicy InHeap)) (read_all read_policy) h (npl_Items _ x);
  Some (mkNotificationPolicyList AsValue (npl_TypeMeta _ x) meta items).

Definition read (t : ApiType) : Heap -> struct t InHeap -> option (struct t AsValue) :=
  match t with
  | TConstraintEntry => read_entry
  | TConstraintProfile => read_profile
  | TConstraintProfileList => read_profiles
  | TConstraintProfileSpec => read_profile_spec
  | TConstraintReport => read_report
  | TConstraintReportList => read_reports
  | TConstraintReportStatus => read_status
  | TMachineConstraintEntry => read_machine_entry
  | TMachineReadableReport => read_machine
  | TMissingResourceEntry => read_missing
  | TNotificationChannels => read_channels
  | TNotificationPolicy => read_policy
  | TNotificationPolicyList => read_policies
  | TNotificationPolicySpec => read_policy_spec
  | TRemediationInfo => read_remediation
  | TFieldPaths | TGVRReference | TNotificationScope | TObjectReference | TRemediationStep | TResourceMetric | TSlackConfig
  | TWebhookConfig | TWorkloadReference => plain
  end.
End copies.
End Copy.

Import V1 Copy.

(** ** Computations that only add cells *)

Section owning.
Context {MV : MetaV1}.

(** The computation leaves the heap [h] as it is, and what it returns satisfies
    [Q] in every heap that has the cells it has added. *)
Definition adds {B} (h : Heap) (r : option (B * Heap)) (Q : Heap -> B -> Prop) : Prop :=
  ∃ b H, r = Some (b, h ∪ H) ∧ H ##ₘ h ∧ ∀ H', H ⊆ H' → Q H' b.

Lemma adds_ret {B} h (b : B) (Q : Heap -> B -> Prop) : (∀ H, Q H b) → adds h (mret (M:=M) b h) Q.
Proof. intros HQ. exists b, ∅. rewrite map_union_empty. split_and!; [done|apply map_disjoint_empty_l|auto]. Qed.

Lemma adds_bind {A B} h (m : M A) (k : A -> M B) (Q1 : Heap -> A -> Prop) (Q : Heap -> B -> Prop) :
  adds h (m h) Q1 → (∀ a h1, h ⊆ h1 → adds h1 (k a h1) (fun H b => Q1 H a → Q H b)) → adds h ((m ≫= k) h) Q.
Proof.
  intros (a & H1 & Hm & Hd1 & HQ1) Hk. unfold mbind, M_bind. rewrite Hm.
  destruct (Hk a (h ∪ H1)) as (b & H2 & Hk2 & Hd2 & HQ2); [apply map_union_subseteq_l|].
  apply map_disjoint_union_r in Hd2 as [Hd2 Hd12]. exists b, (H1 ∪ H2). rewrite Hk2, (assoc_L (∪)). split_and!; [done| |].
  - by apply map_disjoint_union_l.
  - intros H' Hs. apply HQ2; [etrans; [|exact Hs]; by apply map_union_subseteq_r|].
    apply HQ1. etrans; [apply map_union_subseteq_l|exact Hs].
Qed.

Lemma adds_mono {B} h r (Q Q' : Heap -> B -> Prop) : adds h r Q → (∀ H b, Q H b → Q' H b) → adds h r Q'.
Proof. intros (b & H & ? & ? & HQ) Hi. exists b, H. split_and!; [done..|]. intros H' Hs. by apply Hi, HQ. Qed.

(** [f] copies what [r] reads: the value of the original in any part of the
    heap is that of the result in the cells that [f] has added. *)
Definition copies {A V} (r : Heap -> A -> option V) (f : A -> M A) : Prop :=
  ∀ h0 h x v, h0 ⊆ h → r h0 x = Some v → adds h (f x h) (fun H x' => r H x' = Some v).

Lemma copies_plain {A} : copies (A:=A) plain mret.
Proof. intros h0 h x v _ [= <-]. by apply adds_ret. Qed.

Lemma peek_weaken {A} `{!Storable A} h0 h l (a : A) : h0 ⊆ h → peek h0 l = Some a → peek h l = Some a.
Proof. intros Hs (c & Hc & Hg)%bind_Some. unfold peek. by rewrite (lookup_weaken _ _ _ _ Hc Hs). Qed.

Lemma load_peek {A} `{!Storable A} h l (a : A) : peek h l = Some a → load l h = Some (a, h).
Proof. intros (c & Hc & Hg)%bind_Some. unfold load. rewrite Hc. simpl. by rewrite Hg. Qed.

Lemma bind_eq {A B} (m : M A) (k : A -> M B) h a h' : m h = Some (a, h') → (m ≫= k) h = k a h'.
Proof. intros Hm. unfold mbind, M_bind. by rewrite Hm. Qed.

Lemma peek_put {A} `{!Storable A} h l (a : A) : h !! l = Some (put a) → peek h l = Some a.
Proof. intros Hl. unfold peek. rewrite Hl. apply get_put. Qed.

Lemma fresh_absent (h : Heap) : h !! fresh (dom h) = None.
Proof. apply not_elem_of_dom, is_fresh. Qed.

(** A cell that is filled at once. *)
Lemma copies_new {A} `{!Storable A} h (a : A) (Q : Heap -> loc -> Prop) :
  (∀ H l, H !! l = Some (put a) → Q H l) → adds h (new a h) Q.
Proof.
  intros HQ. pose proof (fresh_absent h) as Hf. exists (fresh (dom h)), {[ fresh (dom h) := put a ]}. split_and!.
  - unfold new. f_equal. f_equal. rewrite insert_union_singleton_l. apply map_union_comm. by apply map_disjoint_singleton_l.
  - by apply map_disjoint_singleton_l.
  - intros H' Hs. apply HQ. eapply lookup_weaken; [|exact Hs]. apply lookup_singleton_eq.
Qed.

Lemma copies_cell {A} `{!Storable A} : copies (read_ref (A:=A) plain) (copy_cell A).
Proof.
  intros h0 h [l|] v Hs; simpl; [|intros [= <-]; by apply adds_ret].
  intros (a & Hl & [= <-])%bind_Some. apply (peek_weaken _ _ _ _ Hs), load_peek in Hl.
  rewrite (bind_eq _ _ _ _ _ Hl). eapply adds_bind; [apply (copies_new h a (fun H l => H !! l = Some (put a))); auto|].
  intros l' h1 _. apply adds_ret. intros H Hl'. simpl. by rewrite (peek_put _ _ _ Hl').
Qed.

Lemma copies_metrics σ : copies (read_ref (A:=gmap string ResourceMetric) plain) (copy_metrics σ).
Proof.
  assert (∀ m : gmap string ResourceMetric, foldl (fun acc kv => <[kv.1 := kv.2]> acc) ∅ (range σ m) = m) as Hcopy.
  { intros m. apply rebuild_range. }
  intros h0 h [l|] v Hs Hr; [|by apply (copies_cell h0 h None v Hs Hr)].
  pose proof (copies_cell h0 h (Some l) v Hs Hr) as Hc. simpl in *. apply bind_Some in Hr as (a & Hl & _).
  apply (peek_weaken _ _ _ _ Hs), load_peek in Hl. rewrite (bind_eq _ _ _ _ _ Hl) in Hc. rewrite (bind_eq _ _ _ _ _ Hl). by rewrite Hcopy.
Qed.

(** A cell that is filled after the copies it refers to have been made. *)
Lemma adds_filled {A} `{!Storable A} h (a0 : A) l (H : Heap) :
  h !! l = None → H ##ₘ <[l := put a0]> h →
  H !! l = None ∧ H ##ₘ h ∧ ∀ a : A, <[l := put a]> (<[l := put a0]> h ∪ H) = h ∪ <[l := put a]> H ∧ <[l := put a]> H ##ₘ h.
Proof.
  intros Hl Hd. apply map_disjoint_insert_r in Hd as [HlH Hd]. split_and!; [done|done|]. intros a.
  rewrite <-insert_union_l, insert_insert_eq, insert_union_r by done. split; [done|]. by apply map_disjoint_insert_l.
Qed.

Lemma copies_struct t (r : Heap -> struct t InHeap -> option (struct t AsValue)) f :
  copies r f → copies (read_ref r) (copy_struct t f).
Proof.
  intros Hf h0 h [l|] v Hs; simpl; [|intros [= <-]; by apply adds_ret].
  intros (x & Hl & (w & Hw & [= <-])%bind_Some)%bind_Some. apply (peek_weaken _ _ _ _ Hs), load_peek in Hl.
  rewrite (bind_eq _ _ _ _ _ Hl). set (l' := fresh (dom h)). pose proof (fresh_absent h) as Hl'.
  rewrite (bind_eq _ _ h l' (<[l' := put x]> h)) by done.
  destruct (Hf h0 (<[l' := put x]> h) x w) as (x' & H & Hx & Hd & HQ); [etrans; [exact Hs|by apply insert_subseteq]|done|].
  rewrite (bind_eq _ _ _ _ _ Hx). destruct (adds_filled h x l' H Hl' Hd) as (HlH & _ & Heq). destruct (Heq x') as [E D].
  exists (Some l'), (<[l' := put x']> H). split_and!; [|done|].
  - change (Some (Some l', <[l' := put x']> (<[l' := put x]> h ∪ H)) = Some (Some l', h ∪ <[l' := put x']> H)). by rewrite E.
  - intros H' HH. simpl. rewrite (peek_put _ _ x') by (eapply lookup_weaken; [apply lookup_insert_eq|exact HH]). simpl.
    rewrite HQ; [done|]. etrans; [|exact HH]. by apply insert_subseteq.
Qed.

(** The loop over a slice of structs: the array is written in place. *)
Lemma fill_spec t (r : Heap -> struct t InHeap -> option (struct t AsValue)) f h0 l xs :
  copies r f → ∀ h (a : list (struct t InHeap)) vs i,
  h0 ⊆ h → h !! l = None → read_all r h0 xs = Some vs → (i + length xs)%nat = length a →
  ∃ ys H, fill t f l i xs (<[l := put a]> h) = Some (tt, <[l := put (take i a ++ ys)%list]> (h ∪ H)) ∧ H ##ₘ h ∧ H !! l = None ∧
    ∀ H', H ⊆ H' → read_all r H' ys = Some vs.
Proof.
  intros Hf. induction xs as [|x xs IH]; intros h a vs i Hs Hl; cbn [fill length].
  { intros [= <-] Hi. exists [], ∅. rewrite map_union_empty, take_ge, (right_id_L [] (++)) by lia.
    split_and!; [done|apply map_disjoint_empty_l|apply lookup_empty|done]. }
  unfold read_all. rewrite mapM_Some. intros (v & ws & Hv & Hws & ->)%Forall2_cons_inv_l Hi. apply mapM_Some in Hws.
  destruct (Hf h0 (<[l := put a]> h) x v) as (x' & H1 & Hx & Hd1 & HQ1); [etrans; [exact Hs|by apply insert_subseteq]|done|].
  rewrite (bind_eq _ _ _ _ _ Hx). destruct (adds_filled h a l H1 Hl Hd1) as (HlH & Hd & Heq).
  rewrite (bind_eq _ _ _ a (<[l := put a]> h ∪ H1)) by (apply load_peek, peek_put; by rewrite lookup_union, lookup_insert_eq, HlH).
  rewrite (bind_eq _ _ _ tt (<[l := put (<[i := x']> a)]> (<[l := put a]> h ∪ H1))) by done.
  rewrite <-insert_union_l, insert_insert_eq.
  destruct (IH (h ∪ H1) (<[i := x']> a) ws (S i)) as (ys & H2 & Hfill & Hd2 & Hl2 & HQ2).
  - etrans; [exact Hs|apply map_union_subseteq_l].
  - by apply lookup_union_None.
  - exact Hws.
  - rewrite length_insert. simpl in Hi. lia.
  - apply map_disjoint_union_r in Hd2 as [Hd2 Hd12]. exists (x' :: ys), (H1 ∪ H2). split_and!.
    + assert ((take (S i) (<[i := x']> a) ++ ys)%list = (take i a ++ x' :: ys)%list) as Hys.
      { rewrite (take_S_r _ _ x') by (apply list_lookup_insert_eq; lia). by rewrite take_insert_ge, <-(assoc_L (++)) by lia. }
      by rewrite Hfill, <-(assoc_L (∪)), Hys.
    + by apply map_disjoint_union_l.
    + by apply lookup_union_None.
    + intros H' HH. apply mapM_Some. constructor.
      * apply HQ1. etrans; [apply map_union_subseteq_l|exact HH].
      * apply mapM_Some, HQ2. etrans; [by apply map_union_subseteq_r|exact HH].
Qed.

Lemma copies_array t (r : Heap -> struct t InHeap -> option (struct t AsValue)) f :
  copies r f → copies (read_ref (read_all r)) (copy_array t f).
Proof.
  intros Hf h0 h [l|] v Hs; simpl; [|intros [= <-]; by apply adds_ret].
  intros (xs & Hl & (vs & Hvs & [= <-])%bind_Some)%bind_Some. apply (peek_weaken _ _ _ _ Hs), load_peek in Hl.
  rewrite (bind_eq _ _ _ _ _ Hl). set (l' := fresh (dom h)). pose proof (fresh_absent h) as Hl'. fold l' in Hl'.
  rewrite (bind_eq _ _ h l' (<[l' := put xs]> h)) by done.
  destruct (fill_spec t r f h0 l' xs Hf h xs vs 0) as (ys & H & Hfill & Hd & HlH & HQ); [done..|].
  rewrite (bind_eq _ _ _ _ _ Hfill). exists (Some l'), (<[l' := put ys]> H). split_and!.
  - unfold mret, M_ret. by rewrite insert_union_r.
  - by apply map_disjoint_insert_l.
  - intros H' HH. simpl. rewrite (peek_put _ _ ys) by (eapply lookup_weaken; [apply lookup_insert_eq|exact HH]). simpl.
    rewrite HQ; [done|]. etrans; [|exact HH]. by apply insert_subseteq.
Qed.
End owning.

(** What is read in a part of the heap is read in the whole. *)
Definition mono {MV : MetaV1} {A V} (r : Heap -> A -> option V) : Prop :=
  ∀ h h' x v, h ⊆ h' → r h x = Some v → r h' x = Some v.

(** What is relied on of metav1: its copies copy. *)
Class MetaLaws {MV : MetaV1} (MO : MetaOps) : Prop := {
  time_copied : forall t, Time_DeepCopyInto t = t;
  object_meta_copied : copies read_ObjectMeta ObjectMeta_DeepCopyInto;
  list_meta_copied : copies read_ListMeta ListMeta_DeepCopyInto;
  object_meta_mono : mono read_ObjectMeta;
  list_meta_mono : mono read_ListMeta;
}.

(** ** Every struct *)

Lemma mono_plain {MV : MetaV1} {A} : mono (plain (A:=A)).
Proof. by intros ????. Qed.

Lemma mono_all {MV : MetaV1} {A V} (r : Heap -> A -> option V) : mono r → mono (read_all r).
Proof.
  intros Hr h h' xs vs Hs. unfold read_all. rewrite !mapM_Some. intros Hx. eapply Forall2_impl; [exact Hx|]. intros x v. by apply Hr.
Qed.

Lemma mono_ref {MV : MetaV1} {A V} `{!Storable A} (r : Heap -> A -> option V) : mono r → mono (read_ref r).
Proof.
  intros Hr h h' [l|] v Hs; simpl; [|done]. intros (a & Ha & (w & Hw & [= <-])%bind_Some)%bind_Some.
  rewrite (peek_weaken _ _ _ _ Hs Ha). simpl. by rewrite (Hr _ _ _ _ Hs Hw).
Qed.

Create HintDb copies.
#[export] Hint Resolve mono_plain mono_all mono_ref object_meta_mono list_meta_mono : copies.
#[export] Hint Resolve copies_plain copies_cell copies_metrics copies_struct copies_array object_meta_copied list_meta_copied : copies.

Lemma copies_use {MV : MetaV1} {A V} (r : Heap -> A -> option V) f h0 h x v :
  copies r f → h0 ⊆ h → r h0 x = Some v → adds h (f x h) (fun H x' => r H x' = Some v).
Proof. intros Hf. apply Hf. Qed.

(** The fields that a reader has read. *)
Ltac invert_read H :=
  repeat (let v := fresh "v" in let Hv := fresh "Hv" in apply bind_Some in H as (v & Hv & H)); apply (inj Some) in H; subst.

(** One field of a copy after another, then the struct. *)
Tactic Notation "copy_fields" reference(read) reference(copy) :=
  let h0 := fresh "h0" in let h := fresh "h" in let Hs := fresh "Hs" in let Hr := fresh "Hr" in
  intros h0 h ? ? Hs Hr; unfold read in Hr; invert_read Hr; unfold copy;
  repeat (eapply adds_bind; [eapply copies_use; [solve [eauto with copies]|exact Hs|eassumption]|];
          let h1 := fresh "h" in let Hg := fresh "Hg" in intros ? h1 Hg; apply (transitivity Hs) in Hg; clear Hs; rename Hg into Hs);
  apply adds_ret; intros; unfold read; repeat (apply bind_Some; eexists; split; [eassumption|]);
  cbn; rewrite ?time_copied; reflexivity.

Lemma mono_use {MV : MetaV1} {A V} (r : Heap -> A -> option V) h h' x v : mono r → h ⊆ h' → r h x = Some v → r h' x = Some v.
Proof. intros Hr. apply Hr. Qed.

Tactic Notation "mono_fields" reference(read) :=
  let Hs := fresh "Hs" in let Hr := fresh "Hr" in
  intros ? ? ? ? Hs Hr; unfold read in Hr |- *; invert_read Hr;
  repeat (apply bind_Some; eexists; split; [eapply mono_use; [solve [eauto with copies]|exact Hs|eassumption]|]); reflexivity.

Section structs.
Context {MV : MetaV1} {MO : MetaOps} {ML : MetaLaws MO} (σ : Shuffle).

Lemma copies_entry : copies read_entry ConstraintEntry_DeepCopyInto.
Proof. copy_fields read_entry ConstraintEntry_DeepCopyInto. Qed.
Lemma copies_remediation : copies read_remediation RemediationInfo_DeepCopyInto.
Proof. copy_fields read_remediation RemediationInfo_DeepCopyInto. Qed.
#[local] Hint Resolve copies_entry copies_remediation : copies.

Lemma copies_missing : copies read_missing MissingResourceEntry_DeepCopyInto.
Proof. copy_fields read_missing MissingResourceEntry_DeepCopyInto. Qed.
Lemma copies_machine_entry : copies read_machine_entry (MachineConstraintEntry_DeepCopyInto σ).
Proof. copy_fields read_machine_entry MachineConstraintEntry_DeepCopyInto. Qed.
#[local] Hint Resolve copies_missing copies_machine_entry : copies.

Lemma copies_machine : copies read_machine (MachineReadableReport_DeepCopyInto σ).
Proof. copy_fields read_machine MachineReadableReport_DeepCopyInto. Qed.
#[local] Hint Resolve copies_machine : copies.
Lemma copies_status : copies read_status (ConstraintReportStatus_DeepCopyInto σ).
Proof. copy_fields read_status ConstraintReportStatus_DeepCopyInto. Qed.
#[local] Hint Resolve copies_status : copies.
Lemma copies_report : copies read_report (ConstraintReport_DeepCopyInto σ).
Proof. copy_fields read_report ConstraintReport_DeepCopyInto. Qed.
#[local] Hint Resolve copies_report : copies.
Lemma copies_reports : copies read_reports (ConstraintReportList_DeepCopyInto σ).
Proof. copy_fields read_reports ConstraintReportList_DeepCopyInto. Qed.

Lemma copies_profile_spec : copies read_profile_spec ConstraintProfileSpec_DeepCopyInto.
Proof. copy_fields read_profile_spec ConstraintProfileSpec_DeepCopyInto. Qed.
#[local] Hint Resolve copies_profile_spec : copies.
Lemma copies_profile : copies read_profile ConstraintProfile_DeepCopyInto.
Proof. copy_fields read_profile ConstraintProfile_DeepCopyInto. Qed.
#[local] Hint Resolve copies_profile : copies.
Lemma copies_profiles : copies read_profiles ConstraintProfileList_DeepCopyInto.
Proof. copy_fields read_profiles ConstraintProfileList_DeepCopyInto. Qed.

Lemma copies_channels : copies read_channels NotificationChannels_DeepCopyInto.
Proof. copy_fields read_channels NotificationChannels_DeepCopyInto. Qed.
#[local] Hint Resolve copies_channels : copies.
Lemma copies_policy_spec : copies read_policy_spec NotificationPolicySpec_DeepCopyInto.
Proof. copy_fields read_policy_spec NotificationPolicySpec_DeepCopyInto. Qed.
#[local] Hint Resolve copies_policy_spec : copies.
Lemma copies_policy : copies read_policy NotificationPolicy_DeepCopyInto.
Proof. copy_fields read_policy NotificationPolicy_DeepCopyInto. Qed.
#[local] Hint Resolve copies_policy : copies.
Lemma copies_policies : copies read_policies NotificationPolicyList_DeepCopyInto.
Proof. copy_fields read_policies NotificationPolicyList_DeepCopyInto. Qed.

Lemma mono_entry : mono read_entry.
Proof. mono_fields read_entry. Qed.
Lemma mono_remediation : mono read_remediation.
Proof. mono_fields read_remediation. Qed.
#[local] Hint Resolve mono_entry mono_remediation : copies.
Lemma mono_missing : mono read_missing.
Proof. mono_fields read_missing. Qed.
Lemma mono_machine_entry : mono read_machine_entry.
Proof. mono_fields read_machine_entry. Qed.
#[local] Hint Resolve mono_missing mono_machine_entry : copies.
Lemma mono_machine : mono read_machine.
Proof. mono_fields read_machine. Qed.
#[local] Hint Resolve mono_machine : copies.
Lemma mono_status : mono read_status.
Proof. mono_fields read_status. Qed.
#[local] Hint Resolve mono_status : copies.
Lemma mono_report : mono read_report.
Proof. mono_fields read_report. Qed.
Lemma mono_profile_spec : mono read_profile_spec.
Proof. mono_fields read_profile_spec. Qed.
#[local] Hint Resolve mono_report mono_profile_spec : copies.
Lemma mono_profile : mono read_profile.
Proof. mono_fields read_profile. Qed.
Lemma mono_channels : mono read_channels.
Proof. mono_fields read_channels. Qed.
#[local] Hint Resolve mono_profile mono_channels : copies.
Lemma mono_policy_spec : mono read_policy_spec.
Proof. mono_fields read_policy_spec. Qed.
#[local] Hint Resolve mono_policy_spec : copies.
Lemma mono_policy : mono read_policy.
Proof. mono_fields read_policy. Qed.
#[local] Hint Resolve mono_policy : copies.

Lemma mono_read t : mono (read t).
Proof.
  destruct t; cbn [read]; auto with copies; [mono_fields read_profiles|mono_fields read_reports|mono_fields read_policies].
Qed.

Lemma copies_read t : copies (read t) (DeepCopyInto σ t).
Proof.
  destruct t; cbn [read DeepCopyInto]; first [apply copies_plain|apply copies_reports|apply copies_profiles|apply copies_policies|auto with copies].
Qed.

(** The struct behind a pointer. *)
Definition value (t : ApiType) (h : Heap) (l : loc) : option (struct t AsValue) := x ← peek h l; read t h x.

Lemma value_ref t h l v : value t h l = Some v ↔ read_ref (read t) h (Some l) = Some (Some v).
Proof.
  unfold value. simpl. split.
  - intros (x & -> & Hx)%bind_Some. simpl. by rewrite Hx.
  - intros (x & -> & (w & Hw & [= <-])%bind_Some)%bind_Some. done.
Qed.

Lemma value_mono t h h' l v : h ⊆ h' → value t h l = Some v → value t h' l = Some v.
Proof. rewrite !value_ref. intros Hs. eapply mono_ref; [apply mono_read|done]. Qed.

Lemma DeepCopy_spec t h l v :
  value t h l = Some v →
  ∃ l' H, DeepCopy σ t (Some l) h = Some (Some l', h ∪ H) ∧ H ##ₘ h ∧ ∀ h2, H ⊆ h2 → value t h2 l' = Some v.
Proof.
  intros Hv. destruct (copies_struct t (read t) (DeepCopyInto σ t) (copies_read t) h h (Some l) (Some v)) as (p & H & Hc & Hd & HQ);
    [done|by apply value_ref|].
  assert (∃ l', p = Some l') as [l' ->].
  { specialize (HQ H (reflexivity H)). destruct p as [l'|]; [by exists l'|done]. }
  exists l', H. split_and!; [done|done|]. intros h2 Hs. apply value_ref. by apply HQ.
Qed.

(** C39: for each of the 24 types, [DeepCopy] of an object returns another one
    with the same value that has all its cells to itself: nothing of the heap is
    written, no later write outside the copy's own cells changes the copy, and no
    write to the copy's cells changes the original.  Of a nil pointer it returns
    nil. *)
Theorem DeepCopy_deep t h l v :
  value t h l = Some v →
  DeepCopy σ t None h = Some (None, h) ∧
  ∃ l' H, DeepCopy σ t (Some l) h = Some (Some l', h ∪ H) ∧ H ##ₘ h ∧
    (∀ h2, H ⊆ h2 → value t h2 l' = Some v) ∧ (∀ h2, h ⊆ h2 → value t h2 l = Some v).
Proof.
  intros Hv. split; [done|]. destruct (DeepCopy_spec t h l v Hv) as (l' & H & Hc & Hd & HQ). exists l', H. split_and!; [done..|].
  intros h2 Hs. by apply (value_mono t h).
Qed.

(** A struct that is overwritten in the copy, as the report reconciler does with
    the status of the report that it has got: the original keeps its value. *)
Theorem copy_written_spares_original t h l v l' h1 (x : struct t InHeap) :
  value t h l = Some v → DeepCopy σ t (Some l) h = Some (Some l', h1) →
  ∃ h2, store l' x h1 = Some (tt, h2) ∧ value t h2 l = Some v.
Proof.
  intros Hv Hc. destruct (DeepCopy_spec t h l v Hv) as (l2 & H & Hc2 & Hd & HQ). rewrite Hc in Hc2. simplify_eq.
  eexists. split; [done|]. apply (value_mono t h); [|done]. apply map_subseteq_spec. intros k c Hk.
  assert (is_Some (H !! l2)) as [c' Hl'].
  { specialize (HQ H (reflexivity H)). unfold value, peek in HQ. destruct (H !! l2); [by eexists|done]. }
  rewrite lookup_insert_ne; [by apply lookup_union_Some_l|]. intros ->. by apply (map_disjoint_spec H h) with (i := k) (x := c') (y := c) in Hd.
Qed.

Lemma run_bind {A B} (m : M A) (f : A -> M B) h r :
  (m ≫= f) h = Some r → ∃ a h', m h = Some (a, h') ∧ f a h' = Some r.
Proof. unfold mbind, M_bind. destruct (m h) as [[a h']|] eqn:E; [|done]. by exists a, h'. Qed.

(** An interface value of a copy is nil exactly for a nil pointer. *)
Lemma DeepCopyObject_spec t h p r h' :
  DeepCopyObject σ t p h = Some (r, h') → r = None ↔ p = None.
Proof.
  destruct p as [l|]; [|by intros [= <- <-]].
  intros (c & h1 & Hc & Hr)%run_bind. cbn [DeepCopy copy_struct] in Hc.
  repeat apply run_bind in Hc as (? & ? & _ & Hc). injection Hc as <- <-. by injection Hr as <- <-.
Qed.
End structs.

(** ** An instance of metav1 *)

Record RefMeta (m : mode) := mkRefMeta { ref_name : string; ref_namespace : string; ref_labels : gomap m string }.

#[export] Instance reference_meta : MetaV1 :=
  {| MTime := Z; ObjectMeta := RefMeta; ListMeta _ := string; MetaCell := gmap string string |}.

Definition ref_copy (x : RefMeta InHeap) : M (RefMeta InHeap) :=
  labels ← copy_cell (gmap string string) (H:=meta_storable) (ref_labels _ x);
  mret (mkRefMeta InHeap (ref_name _ x) (ref_namespace _ x) labels).
Definition ref_read (h : Heap) (x : RefMeta InHeap) : option (RefMeta AsValue) :=
  labels ← read_ref (H:=meta_storable) plain h (ref_labels _ x);
  Some (mkRefMeta AsValue (ref_name _ x) (ref_namespace _ x) labels).

#[export] Instance reference_ops : MetaOps :=
  {| Time_DeepCopyInto := id; ObjectMeta_DeepCopyInto := ref_copy; ListMeta_DeepCopyInto := mret;
     read_ObjectMeta := ref_read; read_ListMeta := plain |}.

#[export] Instance reference_meta_laws : MetaLaws reference_ops.
Proof.
  split; [done|copy_fields ref_read ref_copy|apply copies_plain|mono_fields ref_read|apply mono_plain].
Qed.

(** ** Evaluation *)

(** A report with labels, an entry, and a machine-readable section whose one
    entry has a step, a metric and a tag. *)
Definition example_heap : Heap :=
  {[ 1%positive := CMeta {[ "team" := "a" ]};
     2%positive := CArray TConstraintEntry [mkConstraintEntry InHeap "limits" "ResourceLimit" "Info" None "m" "s" 0%Z];
     3%positive := CArray TRemediationStep [mkRemediationStep "manual" "d" EmptyString EmptyString EmptyString EmptyString "c" EmptyString];
     4%positive := CMetrics {[ "cpu" := mkResourceMetric "4" "2" "cores" float64_zero ]};
     5%positive := CStrings ["quota"];
     6%positive := CArray TMachineConstraintEntry [mkMachineConstraintEntry InHeap "u1" "limits" "ResourceLimit" "Info" "limit"
       (mkObjectReference "v1" "LimitRange" "limits" "dev") None (mkRemediationInfo InHeap "s" (Some 3%positive)) (Some 4%positive) (Some 5%positive) 0%Z];
     7%positive := CStruct TMachineReadableReport (mkMachineReadableReport InHeap "1" 0%Z "summary" (Some 6%positive) None (Some 5%positive));
     8%positive := CStruct TConstraintReport (mkConstraintReport InHeap (mkTypeMeta "ConstraintReport" "nightjar.io/v1alpha1")
       (mkRefMeta InHeap "constraints" "dev" (Some 1%positive)) (mkConstraintReportStatus InHeap 1 0 0 1 (Some 2%positive) (Some 7%positive) 0%Z)) ]}.

Definition tags_of (v : ConstraintReport AsValue) : option (list string) :=
  match st_MachineReadable AsValue (cr_Status _ v) with Some m => mr_Tags AsValue m | None => None end.

(** The tags of the original are one array with those of its entry; a write to
    that array is seen through the original, not through the copy. *)
Lemma DeepCopy_deep_witness :
  ∃ l' h1 h2, DeepCopy in_order TConstraintReport (Some 8%positive) example_heap = Some (Some l', h1) ∧
    store 5%positive ["changed"] h1 = Some (tt, h2) ∧
    (v ← value TConstraintReport h2 8%positive; tags_of v) = Some ["changed"] ∧
    (v ← value TConstraintReport h2 l'; tags_of v) = Some ["quota"].
Proof.
  destruct (value TConstraintReport example_heap 8%positive) as [v|] eqn:Hv; [|vm_compute in Hv; discriminate].
  destruct (DeepCopy_deep in_order TConstraintReport example_heap 8%positive v Hv) as (_ & l' & H & Hc & Hd & Hcopy & _).
  exists l', (example_heap ∪ H), (<[5%positive := CStrings ["changed"]]> (example_heap ∪ H)). split; [exact Hc|]. split; [reflexivity|].
  split.
  - rewrite insert_union_l.
    destruct (value TConstraintReport (<[5%positive := CStrings ["changed"]]> example_heap) 8%positive) as [w|] eqn:Hw; [|vm_compute in Hw; discriminate].
    rewrite (value_mono _ _ _ _ w (map_union_subseteq_l _ _) Hw). vm_compute in Hw. injection Hw as <-. reflexivity.
  - rewrite Hcopy.
    + vm_compute in Hv. injection Hv as <-. reflexivity.
    + rewrite insert_union_l. apply map_union_subseteq_r. apply map_disjoint_insert_l. split; [|by symmetry].
      apply (map_disjoint_Some_r _ _ _ (CStrings ["quota"]) Hd). vm_compute. reflexivity.
Defined.

(** Without the copies of its references, [*out = *in] shares them. *)
Example shallow_copy_shares :
  let h := <[9%positive := default (CInt 0) (example_heap !! 8%positive)]> example_heap in
  (v ← value TConstraintReport (<[5%positive := CStrings ["changed"]]> h) 9%positive; tags_of v) = Some ["changed"].
Proof. vm_compute. reflexivity. Qed.
